(* ===== verification/_CoqProject ===== *)
-Q . S2P
Prelude.v
GoStrings.v
Redis.v
RedisModel.v
Prog.v
Metrics.v
Time.v
StreamID.v
Locks.v
Store.v
RateLimit.v
Json.v
Float.v
Utf8.v
Path.v
Net.v
Ssrf.v
Protocol.v
Judge.v
Authz.v
Auth.v
Probe.v
Config.v
Bus.v
BusInv.v
Replay.v
Trim.v
Fanout.v
Order.v
BusWitness.v
Conn.v
Watch.v
Hub.v
Lifecycle.v
Jobs.v
Logger.v
Inbound.v
Handler.v
SchedStore.v
Keys.v
Dispatch.v
Resume.v
Reply.v
Answers.v
Gate.v
Cleanup.v
App.v
Leaves.v
Labels.v
AppWitness.v
Command.v
Deliver.v
Gaps.v
DispatchWitness.v
Scheduler.v
SchedOnce.v
SchedRuns.v
SchedLoop.v
SchedWitness.v
Retry.v
WsFanout.v
WsLoad.v
