(* ===== verification/Prelude.v ===== *)
(** * go-ws-server: a Redis-backed WebSocket server, modelled and verified

    Several instances of one Go program serve WebSocket clients and share a
    Redis.  A client subscribes to topics, publishes, locks topics, schedules
    HTTP jobs and asks who is there; a published message reaches every
    subscriber on every instance through Redis pub/sub, and a stream per topic
    keeps the history a client can replay.

    ** How the program is modelled

    - [Prelude]: errors as values with their [%w] chain, results, tactics and
      the lemmas on lists, options, strings and integers shared by all files.
    - [GoStrings], [Utf8], [Path], [Time], [Json], [Float], [Net]: the parts of
      Go's standard library the program's decisions rest on, each total on
      every input: strings and strconv, runes, [path.Match], RFC 3339,
      encoding/json, the integer part of a decimal literal, IP addresses and
      networks.
    - [Redis]: the server as an interface, a class of command executors with
      the documented effect of each command on a keyspace and a publish log as
      laws.  [RedisModel] is an instance that satisfies every law; only
      witnesses run on it.
    - [Prog]: what a goroutine does is a tree of events: Redis commands, Lua
      scripts, looks at the clock, atomic updates of the process state.  The
      same tree is run alone ([run], under an oracle of delays, lost requests,
      lost replies and attempts the client sends again), interleaved with
      others ([srun], [sstep]), or reasoned about without faults ([wp0]).  A
      deadline that passes is a lost request or reply.
    - [Metrics]: the collectors, and the hook around every Redis command.

    ** The parts of the program

    Redis records (internal/redisx, internal/ratelimit):
    - [Locks] = locks.go; [Store] = client.go: connection counts, the two
      subscription sets, acknowledgement cursors; [StreamID] = the two stream
      ID orders (also bus.go); [RateLimit] = ratelimit.go.

    Messages (bus/, protocol/):
    - [Protocol] = the outbound encoders, [Inbound] = [Envelope], its decoding
      and [Validate]; [Judge] = bus/judge.go; [Bus] = bus/bus.go.
    - [BusInv] is the invariant of the maps under [b.mu]; [Replay] the
      hand-over from history to live messages against an environment that
      publishes, trims and fans out, [Fanout] and [Trim] show that publishing,
      fan-out and the trim loop are such an environment: together they are
      the promise of [SubscribeWithReplay].  [Order] is the listening loop of
      [Bus.Run] over a sequence of announcements; [Deliver] joins the bus to
      the hub and its sockets.
    - [Keys]: the keys all parts use in one Redis never meet.

    Connections (internal/connection, internal/app, handler/):
    - [Conn] = one connection of hub.go, each method split at its atomic
      accesses; [Watch] = [Run] with reader, idle and expiry watcher, as events
      on a clock around [Conn]; [Hub] = [Hub] of hub.go.
    - [Reply] = how a reply gets into the queue of its connection, [SendNow] of
      hub.go with what others do meanwhile.
    - [Handler] = handler/handler.go; [Dispatch] = handler.go, every handler;
      [Answers], [Gate], [Cleanup], [Gaps] = what its runs do: what the sender
      is told, what a refused frame may touch, what the last socket leaves in
      Redis, and where the per-user records and per-socket subscriptions part.
      [Resume] = subscribing from an acknowledgement, through the handlers.
      [Labels] = what the counters of all these parts are labelled with.
    - [App] = [New] and [serveWS] of app.go; [Lifecycle] = [Run] and
      [shutdown]; [Leaves] = what a connection leaves in the process.
    - [Command] = main.go and [New] of wsserver.go: from the environment to
      the exit status.

    Policy (auth/, authz/, internal/ssrf, internal/config, wsserver/,
    internal/logger):
    - [Auth] = auth.go, [Authz] = authz.go, [Ssrf] = ssrf.go, [Config] =
      config.go with [Options] of wsserver.go, [Logger] = logger.go.

    Jobs (internal/scheduler, internal/redisx/scheduler_store.go):
    - [Jobs] = the job and its validation, [SchedStore] = the shared sorted
      set, [Scheduler] = one turn of the loop; [SchedOnce] runs any number of
      instances on one due job; [SchedRuns] says when the loop sleeps and
      [SchedLoop] what wakes it: the loop, its timer and its wake channel as
      a state machine.
    - [Retry]: which operations may be sent again unnoticed, across [Locks],
      [Store], [SchedStore] and [Bus].

    Tools (cmd/wsfanout, cmd/wsload, cmd/wsprobe):
    - [WsFanout] and [WsLoad]: the instances and connections, the publish loop
      and what is reported.
    - [Probe]: the query of the interactive client and what it sends for what
      is typed.

    Definitions keep the names of the code.  Interfaces between parts are
    classes: [Bus.Target] is what the bus asks of the hub, [Dispatch.Session]
    what handlers see of a connection, [App.HubOps] what [serveWS] asks of the
    hub, [Hub.MapRange] an unspecified map order, [Reply.World] what a waiting
    reply meets; [Hub] instantiates the target, [Reply] the session.

    ** What the theorems show

    - Delivery: [replay_exact], [published_reaches_sockets],
      [gaps_are_flagged], [publish_delivers], [stream_order],
      [listener_in_order], [ack_then_resume], [registry_invariant],
      [trimAllStreams_exact].
    - Connections: [conn_invariant], [close_flushes], [presence_balanced],
      [credential_enforced], [idle_exact], [connection_leaves_nothing].
    - Frames: [Validate_exact], [Dispatch_answers], [refused_no_effect],
      [Cleanup_complete].
    - Shared records: [lock_exclusion], [keys_apart], [ack_furthest],
      [Allow_refines_log], [retries_invisible].
    - Jobs: [at_most_once], [AddJob_refines], [wake_not_lost],
      [due_job_taken].
    - Policy: [tenant_isolation], [Validate_public_only], [dialed_public],
      [NewJWT_exact], [policy_from_env], [Load_decides], [env_round_trip],
      [redaction_exact].
    - The process: [stop_terminates]; [hook_transparent], [labels_bounded].
    - The tools: [report_exact].

    Beside these stand theorems of the single components that the list above
    does not name, such as [fifo], [fanout_is_environment],
    [locked_publish_refused], [AddConnection_refines],
    [ReleaseUserLocks_complete], [ParseRules_checked], [shutdown_closes],
    [comes_up_exact], [command_exits], [fanout_accounting], [probe_sends] and
    [read_EncodePublish].

    Witnesses apply each theorem with hypotheses to a concrete run, in its own
    file or in [BusWitness], [DispatchWitness], [SchedWitness], [AppWitness].
    Further theorems and examples record where the code does not do what it
    says: races between round trips ([RenewLock_race], [ack_race],
    [conn_race]), [cleanup_elsewhere], [embedded_private_public],
    [half_tls_is_plain], [reset_ignored], [add_failure_unbalances],
    [failure_hangs], [subscription_blocks_stream], [emptied_history_unflagged],
    [overtaken_message_lost], [token_mode_never_ready],
    [invalid_bytes_shared], [failed_check_unflagged],
    the commands that are not safe to send again
    ([connection_counted_twice], [stored_twice], [resent_claim_lost] and
    their neighbours), and others named beside the code they are about.

    ** Bounds and fuel

    Integers that can overflow are wrapped where the code computes them
    ([wrap64] in [Config] and [Scheduler]); sizes and counts that stay below
    2^63 by far are unbounded.  Parsers and matchers that recurse on the text
    they consume take its length as fuel, which every recursive call lowers
    together with the text; [match_total] and the round trips of [Json] show
    that it does not run out.  The process invariants need no fuel: they are by
    induction on events.

    ** Not modelled

    - Redis itself, the protocol and connection pool of go-redis, the HTTP
      client, the resolver and the URL parser, gorilla/websocket, the JWT
      library, log/slog, Prometheus, godotenv: arguments or laws.
    - Log lines; unlabelled counters, on which no decision depends.
    - The HTTP servers and listeners, the accessors of [App] and [Server], the
      ticker of the trim loop: glue.
    - The sockets, pacing and printing of the tools.
    - Text that is not valid UTF-8 inside JSON strings, and JSON nested deeper
      than 10000. *)

From Stdlib Require Export Ascii.
From stdpp Require Export prelude gmap strings list sorting.
From Stdlib Require Export ZArith Lia.

#[export] Set Default Goal Selector "!".
#[export] Set Warnings "-clear-no-such-hyp,-register-all".

(** ** Errors

    A Go [error] is kept as its text (what [Error()] returns, which reaches
    clients verbatim) and the sentinels found in its [%w] chain (what
    [errors.Is] looks for). *)

Inductive sentinel : Type :=
| ErrLockHeldByOther | ErrLockNotHeld | ErrDenied | ErrBlocked | ErrUnauthorized
| RedisNil | DeadlineExceeded.

#[export] Instance sentinel_eq_dec : EqDecision sentinel.
Proof. solve_decision. Defined.

Record error : Type := MkErr { err_msg : string; err_is : list sentinel }.

#[export] Instance error_eq_dec : EqDecision error.
Proof. solve_decision. Defined.

(** [errors.New] / [fmt.Errorf] without [%w]. *)
Definition errors_New (msg : string) : error := MkErr msg [].

(** [fmt.Errorf("pfx%w", err)]. *)
Definition Errorf_w (pfx : string) (e : error) : error :=
  MkErr (pfx +:+ e.(err_msg)) e.(err_is).

(** [errors.Is(err, sentinel)]. *)
Definition errors_Is (e : error) (s : sentinel) : bool := bool_decide (s ∈ e.(err_is)).

Inductive result (A : Type) : Type :=
| Ok (a : A)
| Err (e : error).
Arguments Ok {A} a.
Arguments Err {A} e.

#[export] Instance result_eq_dec {A} `{EqDecision A} : EqDecision (result A).
Proof. solve_decision. Defined.

Definition is_ok {A} (r : result A) : bool := if r is Ok _ then true else false.

Definition result_bind {A B} (r : result A) (k : A → result B) : result B :=
  match r with Ok a => k a | Err e => Err e end.

Definition wrap_err {A} (pfx : string) (r : result A) : result A :=
  match r with Ok a => Ok a | Err e => Err (Errorf_w pfx e) end.

Declare Scope go_scope.
Delimit Scope go_scope with go.
Notation "x ⇐ r ; k" := (result_bind r (λ x, k))
  (at level 20, r at level 100, k at level 200, only parsing) : go_scope.

Lemma errors_Is_wrap pfx e s : errors_Is (Errorf_w pfx e) s = errors_Is e s.
Proof. done. Qed.

Lemma errors_Is_New msg s : errors_Is (errors_New msg) s = false.
Proof. by apply bool_decide_eq_false, not_elem_of_nil. Qed.

(** ** Machine integers *)

Definition max_int64 : Z := 9223372036854775807.
Definition min_int64 : Z := -9223372036854775808.
Definition max_uint64 : Z := 18446744073709551615.

(** Two's complement wrap-around of an [int64] result. *)
Definition wrap64 (z : Z) : Z := (z + 2 ^ 63) mod 2 ^ 64 - 2 ^ 63.

Definition in_int64 (z : Z) : Prop := (min_int64 ≤ z ≤ max_int64)%Z.

(** [float64(z)] for an integer: 53 significant bits, ties to even. *)
Definition float64 (z : Z) : Z :=
  let a := Z.abs z in
  if (a <? 2 ^ 53)%Z then z
  else
    let u := (2 ^ (Z.log2 a - 52))%Z in
    let q := (a / u)%Z in
    let r := (a mod u)%Z in
    let q := if (u <? 2 * r)%Z || ((u =? 2 * r)%Z && Z.odd q) then (q + 1)%Z else q in
    (Z.sgn z * (q * u))%Z.

(** [int64(f)] of an integral float; out of range it is the amd64 result. *)
Definition int64_of_float (z : Z) : Z :=
  if ((min_int64 <=? z) && (z <=? max_int64))%Z then z else min_int64.

Lemma float64_small z : (Z.abs z < 2 ^ 53)%Z → float64 z = z.
Proof. intros Hz. unfold float64. by rewrite (proj2 (Z.ltb_lt _ _)). Qed.

Lemma wrap64_range z : in_int64 (wrap64 z).
Proof.
  unfold in_int64, wrap64, min_int64, max_int64.
  pose proof (Z.mod_pos_bound (z + 2 ^ 63) (2 ^ 64) eq_refl). lia.
Qed.

Lemma wrap64_id z : in_int64 z → wrap64 z = z.
Proof.
  unfold in_int64, wrap64, min_int64, max_int64. intros H.
  rewrite Z.mod_small; lia.
Qed.

Lemma int64_of_float_range z : in_int64 (int64_of_float z).
Proof. unfold int64_of_float, in_int64, min_int64, max_int64. case_match; lia. Qed.

(** ** Tactics *)

(** Destruct the scrutinee of the first [match] of the goal. *)
Ltac case_goal :=
  match goal with |- context [match ?x with _ => _ end] => destruct x eqn:? end.

(** Split a hypothesis that equates a match with a constructor. *)
Ltac case_hyp H :=
  match type of H with context [match ?x with _ => _ end] => destruct x eqn:? end.

(** Reduce a step of a handler in a hypothesis to its surviving branches. *)
Ltac go_cases H := repeat (case_hyp H; simplify_eq/=; try done).

(** Split conjunctions and existentials of the context. *)
Ltac crush :=
  repeat match goal with
         | H : _ ∧ _ |- _ => destruct H
         | H : ∃ _, _ |- _ => destruct H
         end; simplify_eq/=.

(** Case analysis on every boolean comparison of integers in the goal. *)
Ltac zcases :=
  repeat match goal with
         | |- context [Z.eqb ?x ?y] => destruct (Z.eqb_spec x y)
         | |- context [Z.ltb ?x ?y] => destruct (Z.ltb_spec x y)
         | |- context [Z.leb ?x ?y] => destruct (Z.leb_spec x y)
         end; simpl.

Create HintDb go.
Create Rewrite HintDb go.
#[export] Hint Resolve wrap64_range wrap64_id : go.
#[export] Hint Rewrite errors_Is_wrap errors_Is_New : go.

(** ** Lists *)

Lemma filter_all {A} (P : A → Prop) `{!∀ x, Decision (P x)} (l : list A) :
  Forall P l → filter P l = l.
Proof.
  induction 1 as [|x l Hx _ IH]; [done|]. by rewrite filter_cons_True, IH.
Qed.

Lemma filter_none {A} (P : A → Prop) `{!∀ x, Decision (P x)} (l : list A) :
  Forall (λ x, ¬ P x) l → filter P l = [].
Proof.
  induction 1 as [|x l Hx _ IH]; [done|]. by rewrite filter_cons_False, IH.
Qed.

Lemma filter_fmap {A B} (f : A → B) (P : B → Prop) `{!∀ x, Decision (P x)} (l : list A) :
  filter P (f <$> l) = f <$> filter (λ x, P (f x)) l.
Proof.
  induction l as [|x l IH]; [done|]. cbn [fmap list_fmap].
  rewrite !filter_cons. case_decide; cbn; by rewrite IH.
Qed.

Lemma filter_ext_in {A} (P Q : A → Prop) `{!∀ x, Decision (P x), !∀ x, Decision (Q x)} (l : list A) :
  (∀ x, x ∈ l → P x ↔ Q x) → filter P l = filter Q l.
Proof.
  induction l as [|x l IH]; [done|]. intros HPQ. rewrite !filter_cons.
  assert (P x ↔ Q x) as Hx by (apply HPQ; by left).
  rewrite IH by (intros; apply HPQ; by right). repeat case_decide; tauto.
Qed.
