(* ===== verification/GoStrings.v ===== *)
(** * The parts of Go's [strings] and [strconv] the server uses

    Go strings are byte strings, kept as [string].  Every function follows the
    standard library's behaviour on every input, errors included. *)

From S2P Require Import Prelude.
Local Open Scope Z_scope.

(** [strings.HasSuffix]. *)
Fixpoint HasSuffix (s suffix : string) : bool :=
  bool_decide (s = suffix) ||
  match s with EmptyString => false | String _ s' => HasSuffix s' suffix end.

(** [strings.HasPrefix], with the remainder [s[len(prefix):]]. *)
Fixpoint CutPrefix (s prefix : string) {struct prefix} : option string :=
  match prefix with
  | EmptyString => Some s
  | String p prefix' =>
      match s with
      | String c s' => if decide (p = c) then CutPrefix s' prefix' else None
      | EmptyString => None
      end
  end.

Definition HasPrefix (s prefix : string) : bool := bool_decide (is_Some (CutPrefix s prefix)).

(** [strings.IndexByte] together with the two slices around the first
    occurrence: [strings.Cut] on a one-byte separator. *)
Fixpoint CutByte (s : string) (c : Ascii.ascii) : option (string * string) :=
  match s with
  | EmptyString => None
  | String x s' =>
      if decide (x = c) then Some (EmptyString, s')
      else match CutByte s' c with
           | Some (a, b) => Some (String x a, b)
           | None => None
           end
  end.

(** ** Decimal numbers *)

Definition digit_of (c : Ascii.ascii) : option Z :=
  let n := Z.of_N (Ascii.N_of_ascii c) in
  if bool_decide (48 ≤ n ∧ n ≤ 57) then Some (n - 48) else None.

Definition is_digit (c : Ascii.ascii) : bool := bool_decide (is_Some (digit_of c)).

Fixpoint all_digits (s : string) : bool :=
  match s with
  | EmptyString => true
  | String c s' => is_digit c && all_digits s'
  end.

Inductive parse_num : Type := NumOk (n : Z) | NumSyntax | NumRange.

(** The loop of [strconv.ParseUint(s, 10, 64)]: a range error is returned as
    soon as it is reached, before the rest of the input is looked at. *)
Fixpoint parse_uint_loop (n : Z) (s : string) : parse_num :=
  match s with
  | EmptyString => NumOk n
  | String c s' =>
      match digit_of c with
      | None => NumSyntax
      | Some d =>
          let n1 := 10 * n + d in
          if max_uint64 <? n1 then NumRange else parse_uint_loop n1 s'
      end
  end.

Definition ParseUint (s : string) : parse_num :=
  if decide (s = EmptyString) then NumSyntax else parse_uint_loop 0 s.

Definition split_sign (s : string) : bool * string :=
  match s with
  | String "-"%char r => (true, r)
  | String "+"%char r => (false, r)
  | _ => (false, s)
  end.

(** [strconv.ParseInt(s, 10, 64)]: the value Go returns, and whether [err] is
    [nil].  A syntax error returns 0; a range error returns the nearest
    [int64]. *)
Definition ParseInt (s : string) : Z * bool :=
  let '(neg, digits) := split_sign s in
  match ParseUint digits with
  | NumSyntax => (0, false)
  | NumRange => (if neg then min_int64 else max_int64, false)
  | NumOk n =>
      if neg then (if max_int64 + 1 <? n then (min_int64, false) else (- n, true))
      else (if max_int64 <? n then (max_int64, false) else (n, true))
  end.

Definition digit_char (d : Z) : Ascii.ascii := Ascii.ascii_of_N (Z.to_N (48 + d)).

Fixpoint format_loop (fuel : nat) (n : Z) (acc : string) : string :=
  match fuel with
  | O => acc
  | S fuel' =>
      let acc' := String (digit_char (n mod 10)) acc in
      if n <? 10 then acc' else format_loop fuel' (n / 10) acc'
  end.

(** [strconv.FormatUint(n, 10)]; the fuel is one more than the bit length,
    and every step divides by ten. *)
Definition FormatUint (n : Z) : string := format_loop (S (S (Z.to_nat (Z.log2 n)))) n "".

(** [strconv.FormatInt(n, 10)], also [%d]. *)
Definition FormatInt (n : Z) : string :=
  if n <? 0 then String "-" (FormatUint (- n)) else FormatUint n.

(** ** Lemmas *)

#[export] Instance string_app_assoc : Assoc eq String.append.
Proof.
  intros a b c. induction a as [|x a IH]; [done|].
  change (String x (a +:+ b +:+ c) = String x ((a +:+ b) +:+ c)). by rewrite IH.
Qed.

Lemma string_app_nil_r s : s +:+ "" = s.
Proof. induction s as [|x s IH]; [done|]. change (String x (s +:+ "") = String x s). by rewrite IH. Qed.

Lemma string_cons_app x (a b : string) : String x a +:+ b = String x (a +:+ b).
Proof. done. Qed.

Lemma string_app_inj (a s t : string) : a +:+ s = a +:+ t → s = t.
Proof. induction a as [|c a IH]; [done|]. rewrite !string_cons_app. intros [= E]. by apply IH. Qed.

Lemma string_len_ind (P : string → Prop) :
  (∀ s, (∀ s', (String.length s' < String.length s)%nat → P s') → P s) → ∀ s, P s.
Proof. intros HP s. induction s as [s IH] using (induction_ltof1 _ String.length). by apply HP. Qed.

Lemma CutPrefix_Some s p r : CutPrefix s p = Some r ↔ s = p +:+ r.
Proof.
  revert s. induction p as [|c p IH]; intros s; simpl.
  { split; by intros [= ->]. }
  destruct s as [|x s]; [done|]. case_decide as Hc; subst; simpl.
  - rewrite IH. split; [by intros ->|by intros [= ->]].
  - split; [done|]. intros [= -> _]. done.
Qed.

Lemma CutPrefix_app p r : CutPrefix (p +:+ r) p = Some r.
Proof. by apply CutPrefix_Some. Qed.

Lemma HasPrefix_spec s p : HasPrefix s p = true ↔ ∃ r, s = p +:+ r.
Proof.
  unfold HasPrefix. rewrite bool_decide_eq_true. split.
  - intros [r Hr]. exists r. by apply CutPrefix_Some.
  - intros [r ->]. rewrite CutPrefix_app. eauto.
Qed.

Lemma HasSuffix_spec s x : HasSuffix s x = true ↔ ∃ r, s = r +:+ x.
Proof.
  induction s as [|c s IH]; cbn [HasSuffix].
  - rewrite orb_false_r, bool_decide_eq_true. split.
    + intros <-. by exists "".
    + by intros [[|??] [=]].
  - rewrite orb_true_iff, bool_decide_eq_true, IH. split.
    + intros [<-|[r ->]]; [by exists ""|]. by exists (String c r).
    + intros [[|c' r] [=]]; subst; eauto.
Qed.

Lemma CutByte_Some s c a b :
  CutByte s c = Some (a, b) → s = a +:+ String c b.
Proof.
  revert a. induction s as [|x s IH]; intros a H; simpl in H; [done|].
  case_decide as Hx; [by simplify_eq|].
  destruct (CutByte s c) as [[a' b']|]; [|done]. injection H as <- <-.
  simpl. by rewrite (IH a').
Qed.

(** A prefix without [c] is cut exactly at the separator. *)
Lemma CutByte_app c (p s : string) :
  CutByte p c = None → CutByte (p +:+ String c s) c = Some (p, s).
Proof.
  induction p as [|x p IH]; simpl; intros H; [by rewrite decide_True|].
  case_decide; [done|]. destruct (CutByte p c) as [[??]|]; [done|].
  by rewrite IH.
Qed.

Lemma digit_of_digit_char d : 0 ≤ d < 10 → digit_of (digit_char d) = Some d.
Proof.
  intros Hd. assert (d ∈ seqZ 0 10) as Hin by (by apply elem_of_seqZ; lia).
  cbv in Hin. repeat (apply elem_of_cons in Hin as [->|Hin]; [reflexivity|]).
  by apply elem_of_nil in Hin.
Qed.

Lemma digit_of_range c d : digit_of c = Some d → 0 ≤ d < 10.
Proof. unfold digit_of. case_bool_decide; intros; simplify_eq; lia. Qed.

Lemma is_digit_not_dash c : is_digit c = true → c ≠ "-"%char.
Proof. by intros H ->. Qed.

Lemma all_digits_no_dash s : all_digits s = true → CutByte s "-" = None.
Proof.
  induction s as [|c s IH]; simpl; [done|].
  rewrite andb_true_iff. intros [Hc Hs].
  rewrite decide_False by (by apply is_digit_not_dash). by rewrite IH.
Qed.

Lemma format_loop_parse fuel n acc :
  0 ≤ n ≤ max_uint64 → n < 2 ^ Z.of_nat fuel → (0 < fuel)%nat →
  parse_uint_loop 0 (format_loop fuel n acc) = parse_uint_loop n acc.
Proof.
  revert n acc. induction fuel as [|fuel IH]; intros n acc Hn Hf Hp; [lia|].
  cbn [format_loop].
  assert (0 ≤ n mod 10 < 10) as Hm by (apply Z.mod_pos_bound; lia).
  destruct (n <? 10) eqn:Hlt.
  - apply Z.ltb_lt in Hlt. cbn [parse_uint_loop].
    rewrite digit_of_digit_char, (Z.mod_small n 10) by lia.
    replace (10 * 0 + n) with n by lia.
    rewrite (proj2 (Z.ltb_ge max_uint64 n)) by lia. done.
  - apply Z.ltb_ge in Hlt.
    assert (0 ≤ n / 10) by (apply Z.div_pos; lia).
    assert (n / 10 < n) by (apply Z.div_lt; lia).
    assert (n / 10 < 2 ^ Z.of_nat fuel).
    { apply Z.div_lt_upper_bound; [lia|].
      rewrite Nat2Z.inj_succ, Z.pow_succ_r in Hf by lia. lia. }
    rewrite IH; [|lia|done|].
    2: { destruct fuel; [simpl in *; lia|lia]. }
    cbn [parse_uint_loop]. rewrite digit_of_digit_char by done.
    rewrite <- Z.div_mod by lia.
    rewrite (proj2 (Z.ltb_ge max_uint64 n)) by lia. done.
Qed.

Lemma format_loop_digits fuel n acc :
  all_digits acc = true → all_digits (format_loop fuel n acc) = true.
Proof.
  revert n acc. induction fuel as [|fuel IH]; intros n acc Ha; [done|].
  cbn [format_loop].
  assert (all_digits (String (digit_char (n mod 10)) acc) = true).
  { simpl. rewrite Ha, andb_true_r. unfold is_digit.
    rewrite digit_of_digit_char by (apply Z.mod_pos_bound; lia). done. }
  case_match; auto.
Qed.

Lemma format_loop_nonempty fuel n acc :
  (0 < fuel)%nat ∨ acc ≠ "" → format_loop fuel n acc ≠ "".
Proof.
  revert n acc. induction fuel as [|fuel IH]; intros n acc H; simpl.
  { destruct H; [lia|done]. }
  case_match; [done|]. apply IH. by right.
Qed.

Lemma FormatUint_digits n : all_digits (FormatUint n) = true.
Proof. by apply format_loop_digits. Qed.

Lemma FormatUint_nonempty n : FormatUint n ≠ "".
Proof. apply format_loop_nonempty. left. lia. Qed.

(** Round trip of decimal numbers. *)
Lemma FormatInt_nonempty n : FormatInt n ≠ "".
Proof. unfold FormatInt. destruct (n <? 0); [done|]. apply FormatUint_nonempty. Qed.

Lemma ParseUint_FormatUint n :
  0 ≤ n ≤ max_uint64 → ParseUint (FormatUint n) = NumOk n.
Proof.
  intros Hn. unfold ParseUint. rewrite decide_False by apply FormatUint_nonempty.
  unfold FormatUint. rewrite format_loop_parse; [done|done| |lia].
  rewrite !Nat2Z.inj_succ, Z2Nat.id by apply Z.log2_nonneg.
  destruct (decide (n = 0)) as [->|]; [done|].
  pose proof (Z.log2_spec n ltac:(lia)).
  rewrite (Z.pow_succ_r 2 (Z.succ _)); pose proof (Z.log2_nonneg n); lia.
Qed.

Lemma split_sign_digits s : all_digits s = true → split_sign s = (false, s).
Proof.
  destruct s as [|c s]; [done|]. simpl. rewrite andb_true_iff. intros [Hc _].
  destruct c as [[] [] [] [] [] [] [] []]; try done; by vm_compute in Hc.
Qed.

Lemma ParseInt_FormatUint n :
  0 ≤ n ≤ max_int64 → ParseInt (FormatUint n) = (n, true).
Proof.
  intros Hn. unfold ParseInt.
  rewrite split_sign_digits by apply FormatUint_digits.
  rewrite ParseUint_FormatUint by (unfold max_int64, max_uint64 in *; lia).
  by rewrite (proj2 (Z.ltb_ge max_int64 n)) by lia.
Qed.

#[export] Hint Rewrite CutPrefix_app : go.
#[export] Hint Resolve FormatUint_digits FormatUint_nonempty all_digits_no_dash : go.

Lemma ParseInt_FormatInt n : in_int64 n → ParseInt (FormatInt n) = (n, true).
Proof.
  intros [Hlo Hhi]. unfold FormatInt, min_int64, max_int64 in *.
  destruct (Z.ltb_spec n 0); [|apply ParseInt_FormatUint; unfold max_int64; lia].
  unfold ParseInt. cbn [split_sign]. rewrite ParseUint_FormatUint by (unfold max_uint64; lia).
  rewrite (proj2 (Z.ltb_ge _ _)) by (unfold max_int64; lia). f_equal. lia.
Qed.
