(* ===== verification/Redis.v ===== *)
(** * The Redis server, as an interface

    Redis is not code of this repository.  It is a parameter: a type of server
    states [Srv] with an executor of the commands the server issues through
    go-redis, and two observations of a state, its keyspace and the log of
    what was [PUBLISH]ed.  [RedisLaws] states the documented behaviour of each
    command on those observations; nothing else about Redis is used. *)

From S2P Require Import Prelude GoStrings.
Local Open Scope Z_scope.

(** ** Keyspace *)

(** A stream ID [<ms>-<seq>]. *)
Definition sid : Type := Z * Z.

Definition sid_lt (a b : sid) : Prop := a.1 < b.1 ∨ (a.1 = b.1 ∧ a.2 < b.2).
#[export] Instance sid_lt_dec a b : Decision (sid_lt a b).
Proof. unfold sid_lt. apply _. Defined.

Definition sid_le (a b : sid) : Prop := sid_lt a b ∨ a = b.

Definition format_sid (i : sid) : string := FormatUint i.1 +:+ "-" +:+ FormatUint i.2.

Inductive rval : Type :=
| RStr (v : string)
| RSet (m : gset string)
| RZSet (z : gmap string Z)
| RStream (last : sid) (es : list (sid * string)).

(** A key holds a value and, when it expires, its remaining time in ms. *)
Record entry : Type := Entry { e_val : rval; e_ttl : option Z }.

Abbreviation keyspace := (gmap string entry).

Definition ttl_of (ks : keyspace) (k : string) : option Z := ks !! k ≫= e_ttl.

(** The value at a key seen as one type: [None] is Redis's WRONGTYPE. *)
Definition as_str (ks : keyspace) (k : string) : option (option string) :=
  match ks !! k with
  | None => Some None
  | Some (Entry (RStr v) _) => Some (Some v)
  | Some _ => None
  end.

Definition as_set (ks : keyspace) (k : string) : option (gset string) :=
  match ks !! k with
  | None => Some ∅
  | Some (Entry (RSet m) _) => Some m
  | Some _ => None
  end.

Definition as_zset (ks : keyspace) (k : string) : option (gmap string Z) :=
  match ks !! k with
  | None => Some ∅
  | Some (Entry (RZSet z) _) => Some z
  | Some _ => None
  end.

Definition as_stream (ks : keyspace) (k : string) : option (sid * list (sid * string)) :=
  match ks !! k with
  | None => Some ((0, 0), [])
  | Some (Entry (RStream last es) _) => Some (last, es)
  | Some _ => None
  end.

(** Redis removes a set or sorted set when its last member goes, and an
    in-place update keeps the key's expiry. *)
Definition put_set (ks : keyspace) (k : string) (m : gset string) : keyspace :=
  if decide (m = ∅) then delete k ks else <[k := Entry (RSet m) (ttl_of ks k)]> ks.

Definition put_zset (ks : keyspace) (k : string) (z : gmap string Z) : keyspace :=
  if decide (z = ∅) then delete k ks else <[k := Entry (RZSet z) (ttl_of ks k)]> ks.

Definition put_stream (ks : keyspace) (k : string) (last : sid) (es : list (sid * string)) : keyspace :=
  <[k := Entry (RStream last es) (ttl_of ks k)]> ks.

(** go-redis sends no expiry for a duration that is not positive. *)
Definition expiry (ttl : Z) : option Z := if 0 <? ttl then Some ttl else None.

(** What is left of a keyspace [d] ms later. *)
Definition age_entry (d : Z) (e : entry) : option entry :=
  match e.(e_ttl) with
  | None => Some e
  | Some t => if t <=? d then None else Some (Entry e.(e_val) (Some (t - d)))
  end.

Definition age (d : Z) (ks : keyspace) : keyspace := omap (age_entry d) ks.

(** ** Commands *)

Inductive rcmd : Type → Type :=
| GET (k : string) : rcmd (option string)
| SET (k v : string) (ttl : Z) : rcmd ()
| SETNX (k v : string) (ttl : Z) : rcmd bool
| DEL (k : string) : rcmd Z
| INCRBY (k : string) (by_ : Z) : rcmd Z
| SADD (k m : string) : rcmd Z
| SREM (k m : string) : rcmd Z
| SMEMBERS (k : string) : rcmd (list string)
| ZADD (k : string) (score : Z) (m : string) : rcmd Z
| ZREM (k m : string) : rcmd Z
| ZRANGE_ALL (k : string) : rcmd (list string)
| ZRANGE_FIRST (k : string) : rcmd (option (string * Z))
| ZRANGEBYSCORE (k : string) (lo hi : Z) : rcmd (list string)
| ZREMRANGEBYSCORE (k : string) (hi : Z) : rcmd Z
| ZCARD (k : string) : rcmd Z
| PEXPIRE (k : string) (ms : Z) : rcmd Z
| XADD (k : string) (maxlen : Z) (d : string) : rcmd string
| XRANGE (k : string) (start : string) : rcmd (list (string * string))
| XRANGE_FIRST (k : string) : rcmd (option (string * string))
| XTRIM_MINID (k : string) (minid : sid) : rcmd Z
| SCAN (prefix : string) : rcmd (list string)
| PUBLISH (ch payload : string) : rcmd Z
| PING : rcmd ().

Definition wrongtype : error :=
  errors_New "WRONGTYPE Operation against a key holding the wrong kind of value".
Definition bad_stream_id : error :=
  errors_New "ERR Invalid stream ID specified as stream command argument".
Definition not_an_integer : error :=
  errors_New "ERR value is not an integer or out of range".

Class RedisServer (Srv : Type) : Type := {
  keys : Srv → keyspace;
  pubs : Srv → list (string * string);
  exec : ∀ {R}, rcmd R → Srv → result R * Srv;
  elapse : N → Srv → Srv;
}.

(** [after c s Q]: running [c] in [s] gives a reply, a keyspace and a publish
    log related by [Q]. *)
Definition after `{RedisServer Srv} {R} (c : rcmd R) (s : Srv)
    (Q : result R → keyspace → list (string * string) → Prop) : Prop :=
  Q (exec c s).1 (keys (exec c s).2) (pubs (exec c s).2).

(** Only the keyspace changes, and the reply is the given one. *)
Abbreviation replies c s r ks := (after c s (λ r' ks' ps', r' = r ∧ ks' = ks ∧ ps' = pubs s)).

Definition Zcount (b : bool) : Z := if b then 1 else 0.

(** The order of [ZRANGE]: all members, by ascending score. *)
Definition by_score (z : gmap string Z) (l : list string) : Prop :=
  l ≡ₚ (map_to_list z).*1 ∧
  StronglySorted (λ a b, ∀ x y, z !! a = Some x → z !! b = Some y → x ≤ y) l.

(** ** Documented behaviour *)

Class RedisLaws (Srv : Type) `{RedisServer Srv} : Prop := {
  law_get k s :
    match as_str (keys s) k with
    | Some v => replies (GET k) s (Ok v) (keys s)
    | None => replies (GET k) s (Err wrongtype) (keys s)
    end;
  law_set k v ttl s :
    replies (SET k v ttl) s (Ok ()) (<[k := Entry (RStr v) (expiry ttl)]> (keys s));
  law_setnx k v ttl s :
    match keys s !! k with
    | None => replies (SETNX k v ttl) s (Ok true) (<[k := Entry (RStr v) (expiry ttl)]> (keys s))
    | Some _ => replies (SETNX k v ttl) s (Ok false) (keys s)
    end;
  law_del k s :
    replies (DEL k) s (Ok (Zcount (bool_decide (is_Some (keys s !! k))))) (delete k (keys s));
  (** A counter that is missing counts as 0; any other text is refused. *)
  law_incrby k d s :
    match as_str (keys s) k with
    | None => replies (INCRBY k d) s (Err wrongtype) (keys s)
    | Some v =>
        match match v with None => (0, true) | Some v => ParseInt v end with
        | (n, true) =>
            if bool_decide (in_int64 (n + d))
            then replies (INCRBY k d) s (Ok (n + d))
                   (<[k := Entry (RStr (FormatInt (n + d))) (ttl_of (keys s) k)]> (keys s))
            else replies (INCRBY k d) s (Err not_an_integer) (keys s)
        | (_, false) => replies (INCRBY k d) s (Err not_an_integer) (keys s)
        end
    end;
  law_sadd k m s :
    match as_set (keys s) k with
    | Some x => replies (SADD k m) s (Ok (Zcount (bool_decide (m ∉ x)))) (put_set (keys s) k ({[m]} ∪ x))
    | None => replies (SADD k m) s (Err wrongtype) (keys s)
    end;
  law_srem k m s :
    match as_set (keys s) k with
    | Some x => replies (SREM k m) s (Ok (Zcount (bool_decide (m ∈ x)))) (put_set (keys s) k (x ∖ {[m]}))
    | None => replies (SREM k m) s (Err wrongtype) (keys s)
    end;
  (** Members come in an unspecified order, each once. *)
  law_smembers k s :
    match as_set (keys s) k with
    | Some x => after (SMEMBERS k) s (λ r ks ps,
        ∃ l, r = Ok l ∧ l ≡ₚ elements x ∧ ks = keys s ∧ ps = pubs s)
    | None => replies (SMEMBERS k) s (Err wrongtype) (keys s)
    end;
  law_zadd k sc m s :
    match as_zset (keys s) k with
    | Some z => replies (ZADD k sc m) s (Ok (Zcount (bool_decide (z !! m = None))))
                  (put_zset (keys s) k (<[m := sc]> z))
    | None => replies (ZADD k sc m) s (Err wrongtype) (keys s)
    end;
  law_zrem k m s :
    match as_zset (keys s) k with
    | Some z => replies (ZREM k m) s (Ok (Zcount (bool_decide (is_Some (z !! m)))))
                  (put_zset (keys s) k (delete m z))
    | None => replies (ZREM k m) s (Err wrongtype) (keys s)
    end;
  law_zrange_all k s :
    match as_zset (keys s) k with
    | Some z => after (ZRANGE_ALL k) s (λ r ks ps,
        ∃ l, r = Ok l ∧ by_score z l ∧ ks = keys s ∧ ps = pubs s)
    | None => replies (ZRANGE_ALL k) s (Err wrongtype) (keys s)
    end;
  law_zrange_first k s :
    match as_zset (keys s) k with
    | Some z => after (ZRANGE_FIRST k) s (λ r ks ps,
        ks = keys s ∧ ps = pubs s ∧
        match r with
        | Ok None => z = ∅
        | Ok (Some (m, sc)) => z !! m = Some sc ∧ ∀ m' sc', z !! m' = Some sc' → sc ≤ sc'
        | Err _ => False
        end)
    | None => replies (ZRANGE_FIRST k) s (Err wrongtype) (keys s)
    end;
  law_zrangebyscore k lo hi s :
    match as_zset (keys s) k with
    | Some z => after (ZRANGEBYSCORE k lo hi) s (λ r ks ps,
        ∃ l, r = Ok l ∧ by_score (filter (λ p, lo ≤ p.2 ≤ hi) z) l ∧ ks = keys s ∧ ps = pubs s)
    | None => replies (ZRANGEBYSCORE k lo hi) s (Err wrongtype) (keys s)
    end;
  law_zremrangebyscore k hi s :
    match as_zset (keys s) k with
    | Some z => replies (ZREMRANGEBYSCORE k hi) s (Ok (Z.of_nat (size (filter (λ p, p.2 ≤ hi) z))))
                  (put_zset (keys s) k (filter (λ p, ¬ p.2 ≤ hi) z))
    | None => replies (ZREMRANGEBYSCORE k hi) s (Err wrongtype) (keys s)
    end;
  law_zcard k s :
    match as_zset (keys s) k with
    | Some z => replies (ZCARD k) s (Ok (Z.of_nat (size z))) (keys s)
    | None => replies (ZCARD k) s (Err wrongtype) (keys s)
    end;
  law_pexpire k ms s :
    match keys s !! k with
    | None => replies (PEXPIRE k ms) s (Ok 0) (keys s)
    | Some e =>
        if 0 <? ms then replies (PEXPIRE k ms) s (Ok 1) (<[k := Entry e.(e_val) (Some ms)]> (keys s))
        else replies (PEXPIRE k ms) s (Ok 1) (delete k (keys s))
    end;
  (** The new ID is above every ID the stream ever held.  [MAXLEN ~ n] may
      drop the oldest entries, but keeps at least [n]. *)
  law_xadd k maxlen d s :
    match as_stream (keys s) k with
    | Some (last, es) => after (XADD k maxlen d) s (λ r ks ps,
        ∃ i n, r = Ok (format_sid i) ∧ sid_lt last i ∧ 0 ≤ i.1 ∧ 0 ≤ i.2 ∧
          (n = 0%nat ∨ (0 < maxlen ∧ maxlen + Z.of_nat n ≤ Z.of_nat (length es) + 1)) ∧
          ks = put_stream (keys s) k i (drop n (es ++ [(i, d)])) ∧ ps = pubs s)
    | None => replies (XADD k maxlen d) s (Err wrongtype) (keys s)
    end;
  (** [XRANGE k <ms> +]: entries from [<ms>-0] on, in ID order. *)
  law_xrange k start s :
    match as_stream (keys s) k with
    | Some (_, es) =>
        match ParseUint start with
        | NumOk ms => replies (XRANGE k start) s
            (Ok ((λ p, (format_sid p.1, p.2)) <$> filter (λ p, ms ≤ p.1.1) es)) (keys s)
        | _ => replies (XRANGE k start) s (Err bad_stream_id) (keys s)
        end
    | None => after (XRANGE k start) s (λ r ks ps,
        (∃ e, r = Err e) ∧ ks = keys s ∧ ps = pubs s)
    end;
  law_xrange_first k s :
    match as_stream (keys s) k with
    | Some (_, es) => replies (XRANGE_FIRST k) s
        (Ok ((λ p, (format_sid p.1, p.2)) <$> head es)) (keys s)
    | None => replies (XRANGE_FIRST k) s (Err wrongtype) (keys s)
    end;
  (** [XTRIM k MINID <id>], exact: what is older goes, an emptied stream
      stays.  A negative ID is refused. *)
  law_xtrim_minid k (minid : sid) s :
    match as_stream (keys s) k with
    | Some (last, es) => after (XTRIM_MINID k minid) s (λ r ks ps,
        ks = (if decide (keys s !! k = None ∨ minid.1 < 0) then keys s
              else put_stream (keys s) k last (filter (λ p, ¬ sid_lt p.1 minid) es)) ∧ ps = pubs s)
    | None => replies (XTRIM_MINID k minid) s (Err wrongtype) (keys s)
    end;
  (** A whole [SCAN MATCH prefix*]: every key, some perhaps repeatedly. *)
  law_scan prefix s :
    after (SCAN prefix) s (λ r ks ps,
      (∃ l, r = Ok l ∧ ∀ k, k ∈ l ↔ is_Some (keys s !! k) ∧ HasPrefix k prefix = true) ∧ ks = keys s ∧ ps = pubs s);
  law_publish ch payload s :
    after (PUBLISH ch payload) s (λ r ks ps,
      is_ok r = true ∧ ks = keys s ∧ ps = pubs s ++ [(ch, payload)]);
  law_elapse_keys d s : keys (elapse d s) = age (Z.of_N d) (keys s);
  law_elapse_pubs d s : pubs (elapse d s) = pubs s;
}.

(** ** Keyspace lemmas *)

Lemma as_set_put ks k m : as_set (put_set ks k m) k = Some m.
Proof.
  unfold as_set, put_set. case_decide; subst.
  - by rewrite lookup_delete_eq.
  - by rewrite lookup_insert_eq.
Qed.

Lemma lookup_put_set_ne ks k k' m : k ≠ k' → put_set ks k m !! k' = ks !! k'.
Proof.
  intros. unfold put_set. case_decide.
  - by rewrite lookup_delete_ne.
  - by rewrite lookup_insert_ne.
Qed.

Lemma as_zset_put ks k z : as_zset (put_zset ks k z) k = Some z.
Proof.
  unfold as_zset, put_zset. case_decide; subst.
  - by rewrite lookup_delete_eq.
  - by rewrite lookup_insert_eq.
Qed.

Lemma lookup_put_zset_ne ks k k' z : k ≠ k' → put_zset ks k z !! k' = ks !! k'.
Proof.
  intros. unfold put_zset. case_decide.
  - by rewrite lookup_delete_ne.
  - by rewrite lookup_insert_ne.
Qed.

Lemma as_set_ext ks ks' k : ks' !! k = ks !! k → as_set ks' k = as_set ks k.
Proof. unfold as_set. by intros ->. Qed.

Lemma as_str_ext ks ks' k : ks' !! k = ks !! k → as_str ks' k = as_str ks k.
Proof. unfold as_str. by intros ->. Qed.

Lemma as_zset_ext ks ks' k : ks' !! k = ks !! k → as_zset ks' k = as_zset ks k.
Proof. unfold as_zset. by intros ->. Qed.

Lemma as_str_insert ks k v t : as_str (<[k := Entry (RStr v) t]> ks) k = Some (Some v).
Proof. unfold as_str. by rewrite lookup_insert_eq. Qed.

Lemma age_0 ks : (∀ k e t, ks !! k = Some e → e.(e_ttl) = Some t → 0 < t) → age 0 ks = ks.
Proof.
  intros Hpos. apply map_eq. intros k. unfold age. rewrite lookup_omap.
  destruct (ks !! k) as [[v [t|]]|] eqn:Hk; simpl; [|done..].
  unfold age_entry; simpl. specialize (Hpos _ _ t Hk eq_refl).
  rewrite (proj2 (Z.leb_gt t 0)) by lia. by rewrite Z.sub_0_r.
Qed.

Lemma as_str_age d ks k v : as_str (age d ks) k = Some (Some v) → as_str ks k = Some (Some v).
Proof.
  unfold as_str, age. rewrite lookup_omap.
  destruct (ks !! k) as [[w [t|]]|]; simpl; [|done..].
  unfold age_entry; simpl. destruct (t <=? d); simpl; [done|]. by destruct w.
Qed.

#[export] Hint Rewrite as_set_put as_zset_put as_str_insert : go.
