(* ===== verification/RedisModel.v ===== *)
(** * A concrete Redis server

    The instance of [RedisServer] the witnesses run on: a keyspace, a publish
    log and a clock.  It discharges every law of [Redis.RedisLaws], so the
    laws are consistent.  No theorem about the program uses it except through
    the laws. *)

From S2P Require Import Prelude GoStrings Redis.
Local Open Scope Z_scope.

Record server : Type := Server {
  sv_keys : keyspace;
  sv_pubs : list (string * string);
  sv_now : Z;
}.

Definition set_keys (s : server) (ks : keyspace) : server := Server ks s.(sv_pubs) s.(sv_now).

Definition score_le (p q : string * Z) : Prop := p.2 ≤ q.2.

#[export] Instance score_le_dec : RelDecision score_le.
Proof. intros p q. unfold score_le. apply _. Defined.

Definition sort_by_score (z : gmap string Z) : list (string * Z) :=
  merge_sort score_le (map_to_list z).

(** The ID Redis picks for [*]: the clock, or the last ID plus one. *)
Definition next_sid (now : Z) (last : sid) : sid :=
  if bool_decide (last.1 < now ∧ 0 ≤ now) then (now, 0)
  else (Z.max 0 last.1, if decide (0 ≤ last.1) then Z.max 0 (last.2 + 1) else 0).

Definition trim_count (maxlen : Z) (len : nat) : nat :=
  if 0 <? maxlen then (len - Z.to_nat maxlen)%nat else 0%nat.

Definition with_set {R} (s : server) (k : string) (f : gset string → R * keyspace) : result R * server :=
  match as_set s.(sv_keys) k with
  | Some x => (Ok (f x).1, set_keys s (f x).2)
  | None => (Err wrongtype, s)
  end.

Definition with_zset {R} (s : server) (k : string) (f : gmap string Z → R * keyspace) : result R * server :=
  match as_zset s.(sv_keys) k with
  | Some z => (Ok (f z).1, set_keys s (f z).2)
  | None => (Err wrongtype, s)
  end.

Definition model_exec {R} (c : rcmd R) (s : server) : result R * server :=
  let ks := s.(sv_keys) in
  match c in rcmd R return result R * server with
  | GET k =>
      match as_str ks k with Some v => (Ok v, s) | None => (Err wrongtype, s) end
  | SET k v ttl => (Ok (), set_keys s (<[k := Entry (RStr v) (expiry ttl)]> ks))
  | SETNX k v ttl =>
      match ks !! k with
      | None => (Ok true, set_keys s (<[k := Entry (RStr v) (expiry ttl)]> ks))
      | Some _ => (Ok false, s)
      end
  | DEL k => (Ok (Zcount (bool_decide (is_Some (ks !! k)))), set_keys s (delete k ks))
  | INCRBY k d =>
      match as_str ks k with
      | None => (Err wrongtype, s)
      | Some v =>
          match match v with None => (0, true) | Some v => ParseInt v end with
          | (n, true) =>
              if bool_decide (in_int64 (n + d))
              then (Ok (n + d),
                    set_keys s (<[k := Entry (RStr (FormatInt (n + d))) (ttl_of ks k)]> ks))
              else (Err not_an_integer, s)
          | (_, false) => (Err not_an_integer, s)
          end
      end
  | SADD k m => with_set s k (λ x, (Zcount (bool_decide (m ∉ x)), put_set ks k ({[m]} ∪ x)))
  | SREM k m => with_set s k (λ x, (Zcount (bool_decide (m ∈ x)), put_set ks k (x ∖ {[m]})))
  | SMEMBERS k => with_set s k (λ x, (elements x, ks))
  | ZADD k sc m =>
      with_zset s k (λ z, (Zcount (bool_decide (z !! m = None)), put_zset ks k (<[m := sc]> z)))
  | ZREM k m =>
      with_zset s k (λ z, (Zcount (bool_decide (is_Some (z !! m))), put_zset ks k (delete m z)))
  | ZRANGE_ALL k => with_zset s k (λ z, ((sort_by_score z).*1, ks))
  | ZRANGE_FIRST k => with_zset s k (λ z, (head (sort_by_score z), ks))
  | ZRANGEBYSCORE k lo hi =>
      with_zset s k (λ z, ((sort_by_score (filter (λ p, lo ≤ p.2 ≤ hi) z)).*1, ks))
  | ZREMRANGEBYSCORE k hi =>
      with_zset s k (λ z, (Z.of_nat (size (filter (λ p, p.2 ≤ hi) z)),
                           put_zset ks k (filter (λ p, ¬ p.2 ≤ hi) z)))
  | ZCARD k => with_zset s k (λ z, (Z.of_nat (size z), ks))
  | PEXPIRE k ms =>
      match ks !! k with
      | None => (Ok 0, s)
      | Some e =>
          (Ok 1, set_keys s (if 0 <? ms then <[k := Entry e.(e_val) (Some ms)]> ks else delete k ks))
      end
  | XADD k maxlen d =>
      match as_stream ks k with
      | Some (last, es) =>
          let i := next_sid s.(sv_now) last in
          (Ok (format_sid i),
           set_keys s (put_stream ks k i
             (drop (trim_count maxlen (S (length es))) (es ++ [(i, d)]))))
      | None => (Err wrongtype, s)
      end
  | XRANGE k start =>
      match as_stream ks k, ParseUint start with
      | Some (_, es), NumOk ms =>
          (Ok ((λ p, (format_sid p.1, p.2)) <$> filter (λ p, ms ≤ p.1.1) es), s)
      | Some _, _ => (Err bad_stream_id, s)
      | None, _ => (Err wrongtype, s)
      end
  | XRANGE_FIRST k =>
      match as_stream ks k with
      | Some (_, es) => (Ok ((λ p, (format_sid p.1, p.2)) <$> head es), s)
      | None => (Err wrongtype, s)
      end
  | XTRIM_MINID k minid =>
      match as_stream ks k with
      | Some (last, es) =>
          if minid.1 <? 0 then (Err bad_stream_id, s)
          else
            let keep := filter (λ p, ¬ sid_lt p.1 minid) es in
            (Ok (Z.of_nat (length es) - Z.of_nat (length keep)),
             if decide (ks !! k = None) then s else set_keys s (put_stream ks k last keep))
      | None => (Err wrongtype, s)
      end
  | SCAN prefix => (Ok (filter (λ k, HasPrefix k prefix = true) (map_to_list ks).*1), s)
  | PUBLISH ch payload =>
      (Ok 1, Server ks (s.(sv_pubs) ++ [(ch, payload)]) s.(sv_now))
  | PING => (Ok (), s)
  end.

#[export] Instance model_redis : RedisServer server := {
  keys := sv_keys;
  pubs := sv_pubs;
  exec R := @model_exec R;
  elapse d s := Server (age (Z.of_N d) s.(sv_keys)) s.(sv_pubs) (s.(sv_now) + Z.of_N d);
}.

Definition fresh_server : server := Server ∅ [] 0.

#[local] Instance score_total : Total score_le.
Proof. intros p q. unfold score_le. lia. Qed.
#[local] Instance score_trans : Transitive score_le.
Proof. intros p q r. unfold score_le. lia. Qed.

Lemma sort_by_score_perm z : sort_by_score z ≡ₚ map_to_list z.
Proof. apply merge_sort_Permutation. Qed.

Lemma sort_by_score_lookup (z : gmap string Z) m sc : (m, sc) ∈ sort_by_score z ↔ z !! m = Some sc.
Proof. by rewrite sort_by_score_perm, elem_of_map_to_list. Qed.

Lemma sorted_fst (z : gmap string Z) (l : list (string * Z)) :
  (∀ m sc, (m, sc) ∈ l → z !! m = Some sc) →
  StronglySorted score_le l →
  StronglySorted (λ a b, ∀ x y, z !! a = Some x → z !! b = Some y → x ≤ y) l.*1.
Proof.
  intros Hz. induction 1 as [|[a x] l Hs IH Hall]; simpl; [constructor|].
  constructor.
  - apply IH. intros m sc Hm. apply Hz. by right.
  - apply Forall_forall. intros b Hb x' y Hx' Hy.
    apply list_elem_of_fmap in Hb as [[b' y'] [-> Hb]]; simpl in *.
    rewrite (Hz a x) in Hx' by left. rewrite (Hz b' y') in Hy by (by right).
    rewrite Forall_forall in Hall. specialize (Hall _ Hb). unfold score_le in Hall; simpl in *. by simplify_eq.
Qed.

Lemma sort_by_score_ok z : by_score z (sort_by_score z).*1.
Proof.
  split.
  - by rewrite sort_by_score_perm.
  - apply sorted_fst; [intros; by apply sort_by_score_lookup|].
    apply (StronglySorted_merge_sort score_le).
Qed.

Lemma next_sid_spec now last :
  sid_lt last (next_sid now last) ∧ 0 ≤ (next_sid now last).1 ∧ 0 ≤ (next_sid now last).2.
Proof.
  unfold next_sid, sid_lt. destruct last as [ms seq]; simpl.
  case_bool_decide; [|case_decide]; simpl; lia.
Qed.

Lemma set_keys_id s : set_keys s s.(sv_keys) = s.
Proof. by destruct s. Qed.

Lemma head_by_score (z : gmap string Z) :
  match head (sort_by_score z) with
  | None => z = ∅
  | Some (m, sc) => z !! m = Some sc ∧ ∀ m' sc', z !! m' = Some sc' → sc ≤ sc'
  end.
Proof.
  pose proof (sort_by_score_lookup z) as Hl.
  assert (StronglySorted score_le (sort_by_score z)) as Hs
    by apply (StronglySorted_merge_sort score_le).
  destruct (sort_by_score z) as [|[m sc] l]; simpl.
  - apply map_empty. intros m. destruct (z !! m) as [sc|] eqn:Hm; [|done].
    apply Hl, elem_of_nil in Hm. done.
  - split; [apply Hl; by left|]. intros m' sc' Hm'.
    apply Hl in Hm'. apply elem_of_cons in Hm' as [|Hin]; [simplify_eq; lia|].
    inversion Hs as [|?? _ Hall]; subst. rewrite Forall_forall in Hall.
    apply (Hall _ Hin).
Qed.

Lemma trim_count_ok maxlen n :
  trim_count maxlen (S n) = 0%nat ∨
  (0 < maxlen ∧ maxlen + Z.of_nat (trim_count maxlen (S n)) ≤ Z.of_nat n + 1).
Proof. unfold trim_count. destruct (0 <? maxlen) eqn:H; [|by left]. apply Z.ltb_lt in H. lia. Qed.

#[export] Instance model_laws : RedisLaws server.
Proof.
  split; intros; unfold after; simpl; unfold with_set, with_zset;
    repeat case_match; simplify_eq/=; try done; eauto 8 using sort_by_score_ok.
  - pose proof (head_by_score g) as Hh. repeat case_match; by simplify_eq.
  - pose proof (head_by_score g) as Hh. repeat case_match; by simplify_eq.
  - destruct (next_sid_spec (sv_now s) s0) as (?&?&?).
    eexists _, _. split_and!; eauto using trim_count_ok.
  - destruct n. right. lia.
  - destruct n. by left.
  - destruct o; [done|lia].
  - split; [|done]. eexists. split; [done|]. intros k. rewrite list_elem_of_filter, list_elem_of_fmap. split.
    + intros (Hp & [k' e] & -> & Hin%elem_of_map_to_list). eauto.
    + intros ([e He] & Hp). split; [done|]. exists (k, e). by rewrite elem_of_map_to_list.
Qed.
