(* ===== verification/Prog.v ===== *)
(** * Programs that talk to Redis

    The server's handlers issue Redis commands, run Lua scripts, read the
    clock and update state of their own process.  A handler is a tree of such
    events ([prog]), so the same definition is run to completion on its own
    ([run]) and interleaved with others ([sstep]). *)

From S2P Require Import Prelude GoStrings Redis.
Local Open Scope Z_scope.

(** ** Lua scripts: commands run by the server in one atomic step.
    [redis.call] raises on an error reply and ends the script. *)

Inductive script (A : Type) : Type :=
| SRet (a : A)
| SCall {R : Type} (c : rcmd R) (k : R → script A).
Arguments SRet {A} a.
Arguments SCall {A R} c k.

Fixpoint run_script `{RedisServer Srv} {A} (p : script A) (s : Srv) : result A * Srv :=
  match p with
  | SRet a => (Ok a, s)
  | SCall c k =>
      match exec c s with
      | (Ok r, s') => run_script (k r) s'
      | (Err e, s') => (Err e, s')
      end
  end.

(** ** Events and programs.  [L] is the state of the process. *)

Inductive event (L : Type) : Type → Type :=
| Redis {R} (c : rcmd R) : event L (result R)
| Eval {R} (p : script R) : event L (result R)
| Local {R} (f : L → R * L) : event L R
| Now : event L Z.
Arguments Redis {L R} c.
Arguments Eval {L R} p.
Arguments Local {L R} f.
Arguments Now {L}.

Inductive prog (L A : Type) : Type :=
| Ret (a : A)
| Do {R : Type} (e : event L R) (k : R → prog L A).
Arguments Ret {L A} a.
Arguments Do {L A R} e k.

Fixpoint bind {L A B} (p : prog L A) (k : A → prog L B) : prog L B :=
  match p with
  | Ret a => k a
  | Do e k' => Do e (λ r, bind (k' r) k)
  end.

#[export] Instance prog_ret L : MRet (prog L) := λ A a, Ret a.
#[export] Instance prog_bind L : MBind (prog L) := λ A B k p, bind p k.

Definition act {L R} (e : event L R) : prog L R := Do e Ret.
Definition call {L R} (c : rcmd R) : prog L (result R) := act (Redis c).
Definition eval {L R} (p : script R) : prog L (result R) := act (Eval p).
Definition local_ {L R} (f : L → R * L) : prog L R := act (Local f).
Definition now {L} : prog L Z := act Now.

(** The Go idiom [x, err := f(); if err != nil { return ..., err }]. *)
Definition rbind {L A B} (p : prog L (result A)) (k : A → prog L (result B)) : prog L (result B) :=
  bind p (λ r, match r with Ok a => k a | Err e => Ret (Err e) end).

(** [fmt.Errorf("pfx%w", err)] on the way out. *)
Definition wrapped {L A} (pfx : string) (p : prog L (result A)) : prog L (result A) :=
  bind p (λ r, Ret (wrap_err pfx r)).

Declare Scope prog_scope.
Delimit Scope prog_scope with prog.
Notation "x ←? p ; k" := (rbind p (λ x, k))
  (at level 20, p at level 100, k at level 200, only parsing) : prog_scope.
Notation "p ;? k" := (rbind p (λ _, k))
  (at level 100, k at level 200, right associativity, only parsing) : prog_scope.

(** [for _, t := range l { ... }] where the body never stops the loop. *)
Fixpoint for_each {L A} (l : list A) (f : A → prog L ()) : prog L () :=
  match l with
  | [] => Ret ()
  | x :: l' => bind (f x) (λ _, for_each l' f)
  end.

(** The same, returning at the first error. *)
Fixpoint for_each_err {L A} (l : list A) (f : A → prog L (result ())) : prog L (result ()) :=
  match l with
  | [] => Ret (Ok ())
  | x :: l' => rbind (f x) (λ _, for_each_err l' f)
  end.

(** ** Running *)

(** What the network does to one attempt of a round trip: it succeeds; the
    command never reaches Redis, or runs and the reply is lost, and the caller
    gets an error; or it runs, the reply is lost, and the client, created with
    [MaxRetries], sends the command again. *)
Inductive fault : Type :=
| Fine
| LostRequest (msg : string) (timeout : bool)
| LostReply (msg : string) (timeout : bool)
| Resent.

Definition net_error (msg : string) (timeout : bool) : error :=
  MkErr msg (if timeout then [DeadlineExceeded] else []).

(** Nobody sees the reply of an attempt that is [Resent]. *)
Definition deliver {A S} (f : fault) (go : S → result A * S) (s : S) : result A * S :=
  match f with
  | Fine => go s
  | LostRequest m t => (Err (net_error m t), s)
  | LostReply m t => (Err (net_error m t), (go s).2)
  | Resent => (Err (net_error "" false), (go s).2)
  end.

Record mem (Srv L : Type) : Type := Mem { srv : Srv; loc : L; clock : Z }.
Arguments Mem {Srv L}.
Arguments srv {Srv L}.
Arguments loc {Srv L}.
Arguments clock {Srv L}.

Section run.
Context `{RedisServer Srv} {L : Type}.

Definition with_srv {A} (f : Srv → A * Srv) (m : mem Srv L) : A * mem Srv L :=
  let '(a, s) := f m.(srv) in (a, Mem s m.(loc) m.(clock)).

Definition event_step {R} (f : fault) (e : event L R) : mem Srv L → R * mem Srv L :=
  match e in event _ R return mem Srv L → R * mem Srv L with
  | Redis c => with_srv (deliver f (exec c))
  | Eval p => with_srv (deliver f (run_script p))
  | Local g => λ m, let '(r, l) := g m.(loc) in (r, Mem m.(srv) l m.(clock))
  | Now => λ m, (m.(clock), m)
  end.

(** [d] ms pass. *)
Definition pass (d : N) (m : mem Srv L) : mem Srv L :=
  Mem (elapse d m.(srv)) m.(loc) (m.(clock) + Z.of_N d).

Definition is_remote {R} (e : event L R) : bool :=
  match e with Redis _ | Eval _ => true | _ => false end.

(** One round trip, with as many attempts as the schedule says. *)
Fixpoint attempts {R} (e : event L R) (orc : list (N * fault)) (m : mem Srv L) : R * (mem Srv L * list (N * fault)) :=
  match orc with
  | [] => let '(r, m') := event_step Fine e m in (r, (m', []))
  | (d, Resent) :: orc' => attempts e orc' (event_step Resent e (pass d m)).2
  | (d, f) :: orc' => let '(r, m') := event_step f e (pass d m) in (r, (m', orc'))
  end.

(** Run a program alone.  Every attempt of a round trip consumes one entry of
    the schedule: how long it takes and what the network does to it.  An empty
    schedule is an instant, faultless network. *)
Fixpoint run {A} (p : prog L A) (orc : list (N * fault)) (m : mem Srv L)
  : A * (mem Srv L * list (N * fault)) :=
  match p with
  | Ret a => (a, (m, orc))
  | Do e k =>
      if is_remote e then let '(r, (m', orc')) := attempts e orc m in run (k r) orc' m'
      else let '(r, m') := event_step Fine e m in run (k r) orc m'
  end.

(** The outcome on a given schedule. *)
Definition outcome {A} (p : prog L A) (orc : list (N * fault)) (m : mem Srv L) : A * mem Srv L :=
  ((run p orc m).1, (run p orc m).2.1).

(** ** Interleaving *)

(** After an attempt that is resent the program is where it was. *)
Definition again {R} (f : fault) (e : event L R) : bool := is_remote e && match f with Resent => true | _ => false end.

(** One step of a program, with a given fault for its round trip. *)
Definition prog_step {A} (f : fault) (p : prog L A) (m : mem Srv L) : prog L A * mem Srv L :=
  match p with
  | Ret a => (Ret a, m)
  | Do e k => let '(r, m') := event_step f e m in (if again f e then p else k r, m')
  end.

Inductive sched_item : Type :=
| Tick (d : N)
| Step (i : nat) (f : fault).

Definition sstep {A} (it : sched_item) (c : list (prog L A) * mem Srv L)
  : list (prog L A) * mem Srv L :=
  match it with
  | Tick d => (c.1, pass d c.2)
  | Step i f =>
      match c.1 !! i with
      | None => c
      | Some p => let '(p', m') := prog_step f p c.2 in (<[i := p']> c.1, m')
      end
  end.

Definition srun {A} (s : list sched_item) (c : list (prog L A) * mem Srv L)
  : list (prog L A) * mem Srv L :=
  foldl (λ c it, sstep it c) c s.
End run.

(** ** Lemmas *)

Section lemmas.
Context `{RedisServer Srv} {L : Type}.
Implicit Types (m : mem Srv L) (orc : list (N * fault)).

Lemma run_bind {A B} (p : prog L A) (k : A → prog L B) orc m :
  run (bind p k) orc m = let '(a, (m', orc')) := run p orc m in run (k a) orc' m'.
Proof.
  revert orc m. induction p as [a|R e k' IH]; intros orc m; simpl; [done|].
  destruct (is_remote e).
  - destruct (attempts e orc m) as [r [m' orc']]. apply IH.
  - destruct (event_step Fine e m). apply IH.
Qed.

Lemma bind_assoc_run {A B C} (p : prog L A) (k : A → prog L B) (k' : B → prog L C) orc m :
  run (bind (bind p k) k') orc m = run (bind p (λ a, bind (k a) k')) orc m.
Proof. rewrite !run_bind. destruct (run p orc m) as [a [m' o']]. by rewrite run_bind. Qed.

(** A state predicate that every event preserves holds at the end of any
    run, and along any interleaving. *)
Definition event_preserves (I : mem Srv L → Prop) {R} (e : event L R) : Prop :=
  ∀ f m, I m → I (event_step f e m).2.

Inductive all_events (P : ∀ R, event L R → Prop) {A} : prog L A → Prop :=
| all_ret a : all_events P (Ret a)
| all_do R (e : event L R) k : P R e → (∀ r, all_events P (k r)) → all_events P (Do e k).

Lemma all_events_bind (P : ∀ R, event L R → Prop) {A B} (p : prog L A) (k : A → prog L B) :
  all_events P p → (∀ a, all_events P (k a)) → all_events P (bind p k).
Proof. induction 1; simpl; [eauto|]. intros. constructor; auto. Qed.

(** What every attempt preserves holds after the round trip. *)
Lemma attempts_preserves (I : mem Srv L → Prop) {R} (e : event L R) :
  (∀ d m, I m → I (pass d m)) → event_preserves I e → ∀ orc m, I m → I (attempts e orc m).2.1.
Proof.
  intros Hpass He orc. induction orc as [|[d f] orc IH]; intros m HI; cbn [attempts].
  - pose proof (He Fine m HI) as H1. by destruct (event_step Fine e m).
  - pose proof (He f (pass d m) (Hpass d m HI)) as H1.
    destruct f; first [by apply IH | by destruct (event_step _ e (pass d m))].
Qed.

Lemma run_preserves (I : mem Srv L → Prop) {A} (p : prog L A) :
  (∀ d m, I m → I (pass d m)) →
  all_events (λ R e, event_preserves I e) p →
  ∀ orc m, I m → I (outcome p orc m).2.
Proof.
  intros Hpass. unfold outcome. induction 1 as [a|R e k He _ IH]; intros orc m HI; simpl; [done|].
  destruct (is_remote e).
  - pose proof (attempts_preserves I e Hpass He orc m HI) as Ha. destruct (attempts e orc m) as [r [m' orc']]. by apply IH.
  - destruct (event_step Fine e m) eqn:Hs. apply IH.
    change m0 with (r, m0).2. rewrite <- Hs. by apply He.
Qed.

Lemma srun_preserves (I : mem Srv L → Prop) {A} (ps : list (prog L A)) (s : list sched_item) m :
  (∀ d m, I m → I (pass d m)) →
  Forall (all_events (λ R e, event_preserves I e)) ps →
  I m → I (srun s (ps, m)).2.
Proof.
  intros Hpass. unfold srun. revert ps m.
  induction s as [|it s IH]; intros ps m Hps HI; simpl; [done|].
  destruct it as [d|i f]; simpl; [by apply IH; auto|].
  destruct (ps !! i) as [p|] eqn:Hi; [|by apply IH].
  pose proof (Forall_lookup_1 _ _ _ _ Hps Hi) as Hp.
  destruct Hp as [a|R e k He Hk]; simpl.
  - apply IH; [|done]. by apply Forall_insert; [|constructor].
  - destruct (event_step f e m) as [r m'] eqn:Hs. apply IH.
    + apply Forall_insert; [done|]. destruct (again f e); [by apply all_do|done].
    + change m' with (r, m').2. rewrite <- Hs. by apply He.
Qed.

Lemma srun_redis {A R} i (c : rcmd R) (k : result R → prog L A) ps s m :
  ps !! i = Some (Do (Redis c) k) →
  srun (Step i Fine :: s) (ps, m) =
    let '(r, sv) := exec c m.(srv) in srun s (<[i := k r]> ps, Mem sv m.(loc) m.(clock)).
Proof.
  intros Hi. unfold srun. cbn [foldl sstep fst snd]. rewrite Hi. cbn. unfold with_srv, deliver.
  by destruct (exec c (srv m)).
Qed.

Lemma srun_local {A R} i (g : L → R * L) (k : R → prog L A) ps s m f :
  ps !! i = Some (Do (Local g) k) →
  srun (Step i f :: s) (ps, m) =
    let '(r, l) := g m.(loc) in srun s (<[i := k r]> ps, Mem m.(srv) l m.(clock)).
Proof.
  intros Hi. unfold srun. cbn [foldl sstep fst snd]. rewrite Hi. cbn. by destruct (g (loc m)).
Qed.

Lemma srun_step {A} i f s (ps : list (prog L A)) m :
  srun (Step i f :: s) (ps, m) =
  match ps !! i with
  | None => srun s (ps, m)
  | Some p => srun s (<[i := (prog_step f p m).1]> ps, (prog_step f p m).2)
  end.
Proof. unfold srun. cbn [foldl sstep fst snd]. destruct (ps !! i); [|done]. by destruct (prog_step f p m). Qed.

Lemma srun_tick {A} d s (ps : list (prog L A)) m :
  srun (Tick d :: s) (ps, m) = srun s (ps, pass d m).
Proof. done. Qed.
End lemmas.

(** ** Postconditions

    [wp0 p Q m]: on an instant, faultless network, [p] run from [m] ends in
    [Q].  [wp p Q m]: on every network, whatever the delays and faults. *)

Lemma net_error_not_nil msg t : RedisNil ∉ (net_error msg t).(err_is).
Proof. destruct t; [|apply not_elem_of_nil]. by intros ?%list_elem_of_singleton. Qed.

Section wp.
Context `{RedisServer Srv} {L : Type}.
Implicit Types (m : mem Srv L) (orc : list (N * fault)).

Fixpoint wp0 {A} (p : prog L A) (Q : A → mem Srv L → Prop) m : Prop :=
  match p with
  | Ret a => Q a m
  | Do e k => let '(r, m') := event_step Fine e m in wp0 (k r) Q m'
  end.

(** The memory when an attempt of a round trip reaches Redis: time has passed,
    and earlier attempts may have run. *)
Inductive later {R} (e : event L R) m : mem Srv L → Prop :=
| later_refl : later e m m
| later_pass d m' : later e m m' → later e m (pass d m')
| later_again m' : later e m m' → later e m (event_step Resent e m').2.

Fixpoint wp {A} (p : prog L A) (Q : A → mem Srv L → Prop) m : Prop :=
  match p with
  | Ret a => Q a m
  | Do e k =>
      if is_remote e
      then ∀ m1 f, later e m m1 → again f e = false → let '(r, m') := event_step f e m1 in wp (k r) Q m'
      else let '(r, m') := event_step Fine e m in wp (k r) Q m'
  end.

Lemma wp0_outcome {A} (p : prog L A) Q m :
  wp0 p Q m ↔ Q (outcome p [] m).1 (outcome p [] m).2.
Proof.
  unfold outcome. revert m. induction p as [a|R e k IH]; intros m; simpl; [done|].
  destruct (event_step Fine e m) as [r m']. rewrite IH. by destruct (is_remote e).
Qed.

Lemma later_trans {R} (e : event L R) m1 m2 m3 : later e m1 m2 → later e m2 m3 → later e m1 m3.
Proof. intros H12 H23. induction H23; [done|by apply later_pass|by apply later_again]. Qed.

(** What time and every attempt preserve is still there when one gets through. *)
Lemma later_preserves (I : mem Srv L → Prop) {R} (e : event L R) m m1 :
  (∀ d m, I m → I (pass d m)) → (∀ m, I m → I (event_step Resent e m).2) → later e m m1 → I m → I m1.
Proof. intros Hpass He Hl Hm. induction Hl; auto. Qed.

(** The attempt that gets through. *)
Lemma attempts_last {R} (e : event L R) orc m : is_remote e = true →
  ∃ m1 f, later e m m1 ∧ again f e = false ∧ ((attempts e orc m).1, (attempts e orc m).2.1) = event_step f e m1.
Proof.
  intros He. revert m. induction orc as [|[d f] orc IH]; intros m; cbn [attempts].
  - exists m, Fine. unfold again. rewrite He. split; [constructor|]. split; [done|]. by destruct (event_step Fine e m).
  - assert (later e m (pass d m)) as Hl by (apply later_pass; constructor).
    destruct (again f e) eqn:Ha.
    + destruct f; unfold again in Ha; rewrite ?andb_false_r in Ha; try done.
      destruct (IH (event_step Resent e (pass d m)).2) as (m1 & f & Hl1 & Hf & E). exists m1, f. split; [|done].
      eapply later_trans; [by apply later_again|done].
    + exists (pass d m), f. split; [done|]. split; [done|]. unfold again in Ha. rewrite He in Ha.
      destruct f; try done; by destruct (event_step _ e (pass d m)).
Qed.

Lemma wp_outcome {A} (p : prog L A) Q m :
  wp p Q m → ∀ orc, Q (outcome p orc m).1 (outcome p orc m).2.
Proof.
  unfold outcome. revert m. induction p as [a|R e k IH]; intros m Hwp orc; simpl in *; [done|].
  destruct (is_remote e) eqn:He.
  - destruct (attempts_last e orc m) as (m1 & f & Hl & Hf & E); [done|].
    specialize (Hwp m1 f Hl Hf). rewrite <- E in Hwp. destruct (attempts e orc m) as [r [m' orc']]. by apply IH.
  - destruct (event_step Fine e m). by apply IH.
Qed.

Lemma wp0_bind {A B} (p : prog L A) (k : A → prog L B) Q m :
  wp0 p (λ a, wp0 (k a) Q) m → wp0 (bind p k) Q m.
Proof.
  revert m. induction p as [a|R e k' IH]; intros m; simpl; [done|].
  destruct (event_step Fine e m). apply IH.
Qed.

Lemma wp_bind {A B} (p : prog L A) (k : A → prog L B) Q m :
  wp p (λ a, wp (k a) Q) m → wp (bind p k) Q m.
Proof.
  revert m. induction p as [a|R e k' IH]; intros m Hwp; simpl in *; [done|].
  destruct (is_remote e).
  - intros m1 f Hm Ha. specialize (Hwp m1 f Hm Ha). destruct (event_step f e m1). by apply IH.
  - destruct (event_step Fine e m). by apply IH.
Qed.

Lemma wp0_bind_inv {A B} (p : prog L A) (k : A → prog L B) Q m :
  wp0 (bind p k) Q m → wp0 p (λ a, wp0 (k a) Q) m.
Proof.
  revert m. induction p as [a|R e k' IH]; intros m; simpl; [done|].
  destruct (event_step Fine e m). apply IH.
Qed.

Lemma wp0_mono {A} (p : prog L A) (Q Q' : A → mem Srv L → Prop) m :
  wp0 p Q m → (∀ a m', Q a m' → Q' a m') → wp0 p Q' m.
Proof.
  revert m. induction p as [a|R e k IH]; intros m Hwp HQ; simpl in *; [auto|].
  destruct (event_step Fine e m). eauto.
Qed.

Lemma wp_mono {A} (p : prog L A) (Q Q' : A → mem Srv L → Prop) m :
  wp p Q m → (∀ a m', Q a m' → Q' a m') → wp p Q' m.
Proof.
  revert m. induction p as [a|R e k IH]; intros m Hwp HQ; simpl in *; [auto|].
  destruct (is_remote e).
  - intros m1 f Hm Ha. specialize (Hwp m1 f Hm Ha). destruct (event_step f e m1). eauto.
  - destruct (event_step Fine e m). eauto.
Qed.

Lemma wp_and {A} (p : prog L A) (Q Q' : A → mem Srv L → Prop) m :
  wp p Q m → wp p Q' m → wp p (λ a m', Q a m' ∧ Q' a m') m.
Proof.
  revert m. induction p as [a|R e k IH]; intros m HQ HQ'; simpl in *; [done|].
  destruct (is_remote e).
  - intros m1 f Hl Ha. specialize (HQ m1 f Hl Ha). specialize (HQ' m1 f Hl Ha).
    destruct (event_step f e m1). auto.
  - destruct (event_step Fine e m). auto.
Qed.

Lemma wp0_rbind {A B} (p : prog L (result A)) (k : A → prog L (result B)) Q m :
  wp0 p (λ r m', match r with Ok a => wp0 (k a) Q m' | Err e => Q (Err e) m' end) m →
  wp0 (rbind p k) Q m.
Proof. intros Hp. apply wp0_bind. eapply wp0_mono; [done|]. by intros []. Qed.

Lemma wp_rbind {A B} (p : prog L (result A)) (k : A → prog L (result B)) Q m :
  wp p (λ r m', match r with Ok a => wp (k a) Q m' | Err e => Q (Err e) m' end) m →
  wp (rbind p k) Q m.
Proof. intros Hp. apply wp_bind. eapply wp_mono; [done|]. by intros []. Qed.

Lemma wp0_wrapped {A} pfx (p : prog L (result A)) Q m :
  wp0 p (λ r, Q (wrap_err pfx r)) m → wp0 (wrapped pfx p) Q m.
Proof. intros. by apply wp0_bind. Qed.

Lemma wp_wrapped {A} pfx (p : prog L (result A)) Q m :
  wp p (λ r, Q (wrap_err pfx r)) m → wp (wrapped pfx p) Q m.
Proof. intros. by apply wp_bind. Qed.

(** A loop whose every pass keeps [I] ends in [I]. *)
Lemma wp_for_each {A} (l : list A) (f : A → prog L ()) (I : mem Srv L → Prop) m :
  (∀ x m, x ∈ l → I m → wp (f x) (λ _, I) m) → I m → wp (for_each l f) (λ _, I) m.
Proof.
  revert m. induction l as [|x l IH]; intros m Hf HI; simpl; [done|].
  apply wp_bind. eapply wp_mono; [apply Hf; [by left|done]|].
  intros ? m' HI'. apply IH; [|done]. intros. apply Hf; [by right|done].
Qed.

(** The answers an arbitrary network may give to one command: Redis's own,
    or an error that is not a miss, with the command run or not. *)
Definition answers {R} (go : Srv → result R * Srv) (Q : result R → mem Srv L → Prop) m : Prop :=
  (let '(r, s) := go m.(srv) in Q r (Mem s m.(loc) m.(clock))) ∧
  ∀ e, RedisNil ∉ e.(err_is) → Q (Err e) m ∧ Q (Err e) (Mem (go m.(srv)).2 m.(loc) m.(clock)).

Lemma wp_call1 {R} (c : rcmd R) Q m :
  (∀ m1, later (Redis c) m m1 → answers (exec c) Q m1) → wp (call c) Q m.
Proof.
  intros Hk m1 f Hm1 Ha. destruct (Hk m1 Hm1) as [Hgood Hbad]. simpl. unfold with_srv.
  destruct f as [|msg t|msg t|]; [..|done]; simpl.
  - by destruct (exec c (srv m1)).
  - destruct m1. apply Hbad, net_error_not_nil.
  - apply Hbad, net_error_not_nil.
Qed.

Lemma wp_eval1 {R} (p : script R) Q m :
  (∀ m1, later (Eval p) m m1 → answers (run_script p) Q m1) → wp (eval p) Q m.
Proof.
  intros Hk m1 f Hm1 Ha. destruct (Hk m1 Hm1) as [Hgood Hbad]. simpl. unfold with_srv.
  destruct f as [|msg t|msg t|]; [..|done]; simpl.
  - by destruct (run_script p (srv m1)).
  - destruct m1. apply Hbad, net_error_not_nil.
  - apply Hbad, net_error_not_nil.
Qed.

Lemma wp0_and {A} (p : prog L A) (Q Q' : A → mem Srv L → Prop) m :
  wp0 p Q m → wp0 p Q' m → wp0 p (λ a m', Q a m' ∧ Q' a m') m.
Proof.
  revert m. induction p as [a|R e k IH]; intros m HQ HQ'; simpl in *; [done|]. destruct (event_step Fine e m). auto.
Qed.

Lemma remote_loc {R} f (e : event L R) m : is_remote e = true → loc (event_step f e m).2 = loc m.
Proof. by destruct e; cbn; unfold with_srv; try destruct (deliver _ _ _). Qed.

Lemma attempts_loc {R} (e : event L R) orc m : is_remote e = true → loc (attempts e orc m).2.1 = loc m.
Proof.
  intros He. apply (attempts_preserves (λ m', loc m' = loc m)); [done| |done]. intros f m' <-. by apply remote_loc.
Qed.

(** Round trips leave the process state alone. *)
Lemma wp0_remote {A} (p : prog L A) m :
  all_events (λ R e, is_remote e = true) p → wp0 p (λ _ m', m'.(loc) = m.(loc)) m.
Proof.
  intros Hp. revert m. induction Hp as [a|R e k He _ IH]; intros m; simpl; [done|].
  pose proof (remote_loc Fine e m He) as Hl. destruct (event_step Fine e m) as [r m']. cbn in Hl. rewrite <- Hl. apply IH.
Qed.

Lemma wp0_call {R} (c : rcmd R) Q m :
  (let '(r, s) := exec c m.(srv) in Q r (Mem s m.(loc) m.(clock))) → wp0 (call c) Q m.
Proof. simpl. unfold with_srv. simpl. by destruct (exec c (srv m)). Qed.

Lemma wp0_eval {R} (p : script R) Q m :
  (let '(r, s) := run_script p m.(srv) in Q r (Mem s m.(loc) m.(clock))) → wp0 (eval p) Q m.
Proof. simpl. unfold with_srv. simpl. by destruct (run_script p (srv m)). Qed.
End wp.

(** The law of the command a program is about to issue. *)
Ltac law_of c s :=
  lazymatch c with
  | GET ?k => constr:(law_get k s)
  | SET ?k ?v ?t => constr:(law_set k v t s)
  | SETNX ?k ?v ?t => constr:(law_setnx k v t s)
  | DEL ?k => constr:(law_del k s)
  | INCRBY ?k ?d => constr:(law_incrby k d s)
  | SADD ?k ?m => constr:(law_sadd k m s)
  | SREM ?k ?m => constr:(law_srem k m s)
  | SMEMBERS ?k => constr:(law_smembers k s)
  | ZADD ?k ?sc ?m => constr:(law_zadd k sc m s)
  | ZREM ?k ?m => constr:(law_zrem k m s)
  | ZRANGE_ALL ?k => constr:(law_zrange_all k s)
  | ZRANGE_FIRST ?k => constr:(law_zrange_first k s)
  | ZRANGEBYSCORE ?k ?lo ?hi => constr:(law_zrangebyscore k lo hi s)
  | ZREMRANGEBYSCORE ?k ?hi => constr:(law_zremrangebyscore k hi s)
  | ZCARD ?k => constr:(law_zcard k s)
  | PEXPIRE ?k ?ms => constr:(law_pexpire k ms s)
  | XADD ?k ?n ?d => constr:(law_xadd k n d s)
  | XRANGE ?k ?st => constr:(law_xrange k st s)
  | XRANGE_FIRST ?k => constr:(law_xrange_first k s)
  | XTRIM_MINID ?k ?i => constr:(law_xtrim_minid k i s)
  | SCAN ?p => constr:(law_scan p s)
  | PUBLISH ?ch ?p => constr:(law_publish ch p s)
  end.

(** Replace the [exec] of the goal by fresh reply and server, with their law
    [H]. *)
Ltac exec_step H :=
  match goal with
  | |- context [exec ?c ?s] =>
      let l := law_of c s in
      pose proof l as H; unfold after in H;
      let r := fresh "r" in let s' := fresh "s" in
      destruct (exec c s) as [r s']; cbn [fst snd] in H
  end.

#[export] Hint Constructors all_events : go.

(** Advance [wp0] to the law of the next command. *)
Ltac wp0_next H :=
  repeat first [apply wp0_rbind | apply wp0_wrapped | apply wp0_bind];
  first [apply wp0_call | apply wp0_eval]; exec_step H.
