(* ===== verification/Metrics.v ===== *)
(** * Counting what happens (metrics/metrics.go, metrics/redishook.go)

    The collectors and their registration, and the hook that observes every
    command the server sends to Redis.  Prometheus itself is an interface: a
    registry that takes a well-formed collector under a new name. *)

From Stdlib Require Import QArith.QArith.
From S2P Require Import Prelude GoStrings Redis RedisModel Prog.
Local Open Scope Z_scope.

(** ** Collectors *)

Inductive kind : Type := GaugeKind | CounterKind | HistogramKind.

(** [ExponentialBuckets]: the first bound, the factor and how many. *)
Record buckets : Type := ExponentialBuckets { b_start : Q; b_factor : Q; b_count : N }.

Record collector : Type := {
  Name : string;
  Help : string;
  Kind : kind;
  Labels : list string;
  Buckets : option buckets;
}.

(** What Prometheus asks of a name, a label and bucket bounds: without them
    [MustRegister] and the constructors panic. *)
Definition name_start (c : ascii) : bool :=
  let n := nat_of_ascii c in
  (65 <=? n)%nat && (n <=? 90)%nat || (97 <=? n)%nat && (n <=? 122)%nat || (n =? 95)%nat.
Definition name_char (c : ascii) : bool := name_start c || let n := nat_of_ascii c in (48 <=? n)%nat && (n <=? 57)%nat.

Definition valid_name (s : string) : bool :=
  match s with
  | EmptyString => false
  | String c s' => name_start c && forallb name_char (String.list_ascii_of_string s')
  end.

Definition valid_buckets (b : buckets) : bool :=
  negb (Qle_bool b.(b_start) 0) && negb (Qle_bool b.(b_factor) 1) && (0 <? b.(b_count))%N.

Definition well_formed (c : collector) : bool :=
  valid_name c.(Name) && forallb valid_name c.(Labels) &&
  match c.(Kind), c.(Buckets) with
  | HistogramKind, Some b => valid_buckets b && negb (bool_decide ("le" ∈ c.(Labels)))
  | HistogramKind, None => false
  | _, Some _ => false
  | _, None => true
  end.

(** [prometheus.Registry]; [None] is a panic. *)
Class Registry (R : Type) : Type := {
  NewRegistry : R;
  MustRegister : collector → R → option R;
  registered : R → list collector;
}.

Class RegistryLaws (R : Type) `{Registry R} : Prop := {
  law_new_registry : registered NewRegistry = [];
  law_register c reg : well_formed c = true → Name c ∉ Name <$> registered reg →
    ∃ reg', MustRegister c reg = Some reg' ∧ registered reg' = registered reg ++ [c];
}.

Record Metrics : Type := {
  ConnectionsActive : collector;
  ConnectionsTotal : collector;
  ConnectionsClosed : collector;
  ConnectionDuration : collector;
  FramesReceived : collector;
  FramesSent : collector;
  FramesDropped : collector;
  PublishTotal : collector;
  FanoutSubscribers : collector;
  FanoutDuration : collector;
  FanoutBuffered : collector;
  FanoutFiltered : collector;
  JudgeDuration : collector;
  JudgeDecisions : collector;
  LocalSubscriptions : collector;
  ReplayMessages : collector;
  ReplayDuration : collector;
  ReplayTruncated : collector;
  RedisDuration : collector;
  RedisErrors : collector;
  RateLimitDecisions : collector;
  AuthzDecisions : collector;
  SchedulerExecuted : collector;
  SchedulerDuration : collector;
  SchedulerQueueDepth : collector;
  SchedulerClaimLost : collector;
}.

Section factory.
Context `{Registry R}.

(** A step that makes collectors in a registry. *)
Definition making (A : Type) : Type := R → option (A * R).
Definition then_ {A B} (p : making A) (k : A → making B) : making B :=
  λ reg, '(a, reg') ← p reg; k a reg'.
Local Notation "x ⟵ p ; k" := (then_ p (λ x, k)) (at level 20, p at level 100, k at level 200, only parsing).

Definition made (c : collector) : making collector := λ reg, reg' ← MustRegister c reg; Some (c, reg').

Definition gauge (name help : string) : making collector :=
  made {| Name := name; Help := help; Kind := GaugeKind; Labels := []; Buckets := None |}.
Definition counter (name help : string) : making collector :=
  made {| Name := name; Help := help; Kind := CounterKind; Labels := []; Buckets := None |}.
Definition counterVec (name help : string) (labels : list string) : making collector :=
  made {| Name := name; Help := help; Kind := CounterKind; Labels := labels; Buckets := None |}.
Definition histogram (name help : string) (b : buckets) : making collector :=
  made {| Name := name; Help := help; Kind := HistogramKind; Labels := []; Buckets := Some b |}.
Definition histogramVec (name help : string) (b : buckets) (labels : list string) : making collector :=
  made {| Name := name; Help := help; Kind := HistogramKind; Labels := labels; Buckets := Some b |}.

(** The collectors of the Go runtime and of the process, from the library. *)
Context (runtime : list collector).

Fixpoint register_all (l : list collector) : making () :=
  match l with
  | [] => λ reg, Some ((), reg)
  | c :: l' => _x ⟵ made c; register_all l'
  end.

Definition New : making Metrics :=
  connectionsActive ⟵ gauge "ws_connections_active" "Websocket connections currently open on this instance.";
  connectionsTotal ⟵ counterVec "ws_connections_total" "Upgrade attempts by outcome." ["result"];
  connectionsClosed ⟵ counterVec "ws_connections_closed_total" "Closed connections by reason." ["reason"];
  connectionDuration ⟵ histogram "ws_connection_duration_seconds" "How long connections stayed open."
    (ExponentialBuckets 1 4 9);
  framesReceived ⟵ counterVec "ws_frames_received_total" "Inbound frames by protocol message type." ["type"];
  framesSent ⟵ counter "ws_frames_sent_total" "Frames handed to a connection's writer.";
  framesDropped ⟵ counterVec "ws_frames_dropped_total" "Frames dropped rather than queued, by reason." ["reason"];
  publishTotal ⟵ counter "bus_publish_total" "Messages appended to a topic stream and announced.";
  fanoutSubscribers ⟵ histogram "bus_fanout_subscribers" "Local subscribers delivered to per published message."
    (ExponentialBuckets 1 4 8);
  fanoutDuration ⟵ histogram "bus_fanout_duration_seconds" "Time to decide and enqueue one message's fan-out."
    (ExponentialBuckets (1 # 100000) 4 9);
  fanoutBuffered ⟵ counter "bus_fanout_buffered_total" "Messages buffered because a subscriber was mid-replay.";
  fanoutFiltered ⟵ counter "bus_fanout_filtered_total" "Local subscribers skipped because a Judge excluded them.";
  judgeDuration ⟵ histogram "bus_judge_duration_seconds" "Time spent in one Judge call on the publish path."
    (ExponentialBuckets (1 # 1000) 4 9);
  judgeDecisions ⟵ counterVec "bus_judge_calls_total" "Judge calls by outcome." ["outcome"];
  localSubscriptions ⟵ gauge "bus_local_subscriptions" "Topic subscriptions held by this instance.";
  replayMessages ⟵ counter "bus_replay_messages_total" "Historical messages sent to replaying subscribers.";
  replayDuration ⟵ histogram "bus_replay_duration_seconds" "Time to drain a subscriber's replay backlog."
    (ExponentialBuckets (1 # 1000) 4 8);
  replayTruncated ⟵ counter "bus_replay_truncated_total" "Replays that began after the oldest retained entry.";
  redisDuration ⟵ histogramVec "redis_command_duration_seconds" "Redis command latency."
    (ExponentialBuckets (1 # 10000) 4 9) ["command"];
  redisErrors ⟵ counterVec "redis_command_errors_total" "Redis commands returning an error (redis.Nil excluded)."
    ["command"];
  rateLimitDecisions ⟵ counterVec "ratelimit_decisions_total" "Rate-limit checks by bucket and outcome."
    ["bucket"; "decision"];
  authzDecisions ⟵ counterVec "authz_decisions_total" "Per-topic authorization checks by action and outcome."
    ["action"; "decision"];
  schedulerExecuted ⟵ counterVec "scheduler_jobs_executed_total" "Scheduled jobs run by outcome." ["result"];
  schedulerDuration ⟵ histogram "scheduler_job_duration_seconds" "Outbound scheduled request duration."
    (ExponentialBuckets (1 # 1000) 4 8);
  schedulerQueueDepth ⟵ gauge "scheduler_queue_depth" "Jobs currently in the scheduler sorted set.";
  schedulerClaimLost ⟵ counter "scheduler_claim_lost_total" "Due jobs another instance claimed first.";
  _u ⟵ register_all runtime;
  λ reg, Some ({|
    ConnectionsActive := connectionsActive; ConnectionsTotal := connectionsTotal; ConnectionsClosed := connectionsClosed;
    ConnectionDuration := connectionDuration; FramesReceived := framesReceived; FramesSent := framesSent;
    FramesDropped := framesDropped; PublishTotal := publishTotal; FanoutSubscribers := fanoutSubscribers;
    FanoutDuration := fanoutDuration; FanoutBuffered := fanoutBuffered; FanoutFiltered := fanoutFiltered;
    JudgeDuration := judgeDuration; JudgeDecisions := judgeDecisions; LocalSubscriptions := localSubscriptions;
    ReplayMessages := replayMessages; ReplayDuration := replayDuration; ReplayTruncated := replayTruncated;
    RedisDuration := redisDuration; RedisErrors := redisErrors; RateLimitDecisions := rateLimitDecisions;
    AuthzDecisions := authzDecisions; SchedulerExecuted := schedulerExecuted; SchedulerDuration := schedulerDuration;
    SchedulerQueueDepth := schedulerQueueDepth; SchedulerClaimLost := schedulerClaimLost |}, reg).
End factory.

Definition all_collectors (m : Metrics) : list collector :=
  [m.(ConnectionsActive); m.(ConnectionsTotal); m.(ConnectionsClosed); m.(ConnectionDuration); m.(FramesReceived);
   m.(FramesSent); m.(FramesDropped); m.(PublishTotal); m.(FanoutSubscribers); m.(FanoutDuration); m.(FanoutBuffered);
   m.(FanoutFiltered); m.(JudgeDuration); m.(JudgeDecisions); m.(LocalSubscriptions); m.(ReplayMessages);
   m.(ReplayDuration); m.(ReplayTruncated); m.(RedisDuration); m.(RedisErrors); m.(RateLimitDecisions);
   m.(AuthzDecisions); m.(SchedulerExecuted); m.(SchedulerDuration); m.(SchedulerQueueDepth); m.(SchedulerClaimLost)].

(** ** Values *)

Abbreviation series := (string * list string)%type.

(** Counters and gauges, and what histograms were given. *)
Record observed : Type := { values : gmap series Z; samples : gmap series (list Z) }.

Definition nothing : observed := {| values := ∅; samples := ∅ |}.

Definition value (s : series) (o : observed) : Z := default 0 (o.(values) !! s).
Definition sample (s : series) (o : observed) : list Z := default [] (o.(samples) !! s).

(** It panics when the number of values is not that of the labels. *)
Definition WithLabelValues (c : collector) (vals : list string) : option series :=
  if decide (length vals = length c.(Labels)) then Some (c.(Name), vals) else None.

Definition Inc (s : series) (o : observed) : observed :=
  {| values := <[s := value s o + 1]> o.(values); samples := o.(samples) |}.
Definition Observe (s : series) (x : Z) (o : observed) : observed :=
  {| values := o.(values); samples := <[s := sample s o ++ [x]]> o.(samples) |}.

(** ** The hook *)

(** The commands the code sends, whatever their keys and values. *)
Inductive verb : Type :=
| VGet | VSet | VSetNX | VDel | VIncrBy | VSAdd | VSRem | VSMembers | VZAdd | VZRem | VZRange | VZRangeByScore
| VZRemRangeByScore | VZCard | VPExpire | VXAdd | VXRange | VXTrim | VScan | VPublish | VPing.

Definition verbs : list verb :=
  [VGet; VSet; VSetNX; VDel; VIncrBy; VSAdd; VSRem; VSMembers; VZAdd; VZRem; VZRange; VZRangeByScore;
   VZRemRangeByScore; VZCard; VPExpire; VXAdd; VXRange; VXTrim; VScan; VPublish; VPing].

Definition verb_of {R} (c : rcmd R) : verb :=
  match c with
  | GET _ => VGet | SET _ _ _ => VSet | SETNX _ _ _ => VSetNX | DEL _ => VDel | INCRBY _ _ => VIncrBy
  | SADD _ _ => VSAdd | SREM _ _ => VSRem | SMEMBERS _ => VSMembers | ZADD _ _ _ => VZAdd | ZREM _ _ => VZRem
  | ZRANGE_ALL _ | ZRANGE_FIRST _ => VZRange | ZRANGEBYSCORE _ _ _ => VZRangeByScore
  | ZREMRANGEBYSCORE _ _ => VZRemRangeByScore | ZCARD _ => VZCard | PEXPIRE _ _ => VPExpire | XADD _ _ _ => VXAdd
  | XRANGE _ _ | XRANGE_FIRST _ => VXRange | XTRIM_MINID _ _ => VXTrim | SCAN _ => VScan | PUBLISH _ _ => VPublish
  | PING => VPing
  end.

Lemma verb_of_known {R} (c : rcmd R) : verb_of c ∈ verbs.
Proof. unfold verbs. destruct c; cbn [verb_of]; set_solver. Qed.

(** [cmd.Name()], which is the command's verb, and the name a script goes
    by. *)
Class CommandNames : Type := {
  VerbName : verb → string;
  ScriptName : string;
}.
Definition CmdName `{!CommandNames} {R} (c : rcmd R) : string := VerbName (verb_of c).

Definition redis_nil : error := MkErr "redis: nil" [RedisNil].

(** The error of a command: a key that is not there is [redis.Nil]. *)
Definition cmd_err {R} (c : rcmd R) : result R → option error :=
  match c in rcmd R return result R → option error with
  | GET _ => λ r, match r with Ok None => Some redis_nil | Ok (Some _) => None | Err e => Some e end
  | _ => λ r, match r with Ok _ => None | Err e => Some e end
  end.

Definition script_err {A} (r : result A) : option error := match r with Ok _ => None | Err e => Some e end.

Section hook.
Context `{!CommandNames} {L : Type} (m : Metrics).

(** [observe], with the time since the start in ms; [None] is a panic. *)
Definition observe (name : string) (since : Z) (err : option error) (o : observed) : option observed :=
  d ← WithLabelValues m.(RedisDuration) [name];
  let o := Observe d since o in
  match err with
  | Some e => if errors_Is e RedisNil then Some o else s ← WithLabelValues m.(RedisErrors) [name]; Some (Inc s o)
  | None => Some o
  end.

(** The process state with what is counted beside it. *)
Abbreviation counting := (L * observed)%type.

Definition observing {R} (name : string) (err : result R → option error) (next : prog counting (result R)) :
    prog counting (option (result R)) :=
  bind now (λ start, bind next (λ r, bind now (λ stop, local_ (λ p,
    match observe name (stop - start) (err r) p.2 with
    | Some o => (Some r, (p.1, o))
    | None => (None, p)
    end)))).

(** After a pipeline every command is observed, under the time since its start. *)
Fixpoint observe_each (start : Z) (cmds : list (string * option error)) : prog counting bool :=
  match cmds with
  | [] => Ret true
  | (name, err) :: cmds' =>
      bind now (λ stop, bind (local_ (λ p, match observe name (stop - start) err p.2 with
        | Some o => (true, (p.1, o))
        | None => (false, p)
        end)) (λ ok, if (ok : bool) then observe_each start cmds' else Ret false))
  end.

Definition ProcessPipelineHook {A} (next : prog counting (A * list (string * option error))) : prog counting (option A) :=
  bind now (λ start, bind next (λ r, bind (observe_each start r.2) (λ ok, Ret (if (ok : bool) then Some r.1 else None)))).

(** A process whose clients carry the hook: every command goes through it. *)
Definition ProcessHook {R} (e : event L R) : prog counting (option R) :=
  match e in event _ R return prog counting (option R) with
  | Redis c => observing (CmdName c) (cmd_err c) (call c)
  | Eval p => observing ScriptName script_err (eval p)
  | Local f => local_ (λ p, let '(r, l) := f p.1 in (Some r, (l, p.2)))
  | Now => bind now (λ t, Ret (Some t))
  end.

Fixpoint hooked {A} (p : prog L A) : prog counting (option A) :=
  match p with
  | Ret a => Ret (Some a)
  | Do e k => bind (ProcessHook e) (λ r, match r with Some r => hooked (k r) | None => Ret None end)
  end.
End hook.

(** ** Theorems *)

(** Follow [New] to its result. *)
Ltac open_New :=
  unfold New, gauge, counter, counterVec, histogram, histogramVec, then_, made;
  repeat match goal with |- context [MustRegister ?c ?r] => destruct (MustRegister c r); [cbn [mbind option_bind]|done] end;
  destruct (register_all _ _) as [[[] ?]|]; [|done]; intros [= <- <-].

Lemma New_vectors `{Registry R} runtime (reg reg' : R) m : New runtime reg = Some (m, reg') →
  m.(RedisDuration).(Name) = "redis_command_duration_seconds" ∧ m.(RedisDuration).(Labels) = ["command"] ∧
  m.(RedisErrors).(Name) = "redis_command_errors_total" ∧ m.(RedisErrors).(Labels) = ["command"].
Proof. by open_New. Qed.

Section registration.
Context `{Registry R, !RegistryLaws R}.
Implicit Types (reg : R).

Lemma register_all_ok l reg :
  Forall (λ c, well_formed c = true) l → NoDup (Name <$> l) → (∀ c, c ∈ l → Name c ∉ Name <$> registered reg) →
  ∃ reg', register_all l reg = Some ((), reg') ∧ registered reg' = registered reg ++ l.
Proof.
  intros Hw. revert reg. induction Hw as [|c l Hc _ IH]; intros reg Hnd Hfresh; [exists reg; by rewrite app_nil_r|].
  rewrite fmap_cons in Hnd. apply NoDup_cons in Hnd as [Hni Hnd]. cbn [register_all]. unfold then_, made.
  destruct (law_register c reg Hc) as (reg1 & -> & E); [apply Hfresh; by left|]. cbn [mbind option_bind].
  destruct (IH reg1 Hnd) as (reg2 & -> & E2).
  - intros c' Hin. rewrite E, fmap_app, not_elem_of_app. split; [apply Hfresh; by right|].
    intros Heq%list_elem_of_singleton. apply Hni. rewrite <- Heq. by apply list_elem_of_fmap_2.
  - exists reg2. split; [done|]. by rewrite E2, E, <- (assoc_L (++)).
Qed.

(** One more collector under a new name. *)
Lemma made_next {B} c (k : collector → making B) reg l (P : B → R → Prop) :
  registered reg = l → well_formed c = true → bool_decide (Name c ∈ Name <$> l) = false →
  (∀ reg1, registered reg1 = l ++ [c] → ∃ a reg2, k c reg1 = Some (a, reg2) ∧ P a reg2) →
  ∃ a reg2, then_ (made c) k reg = Some (a, reg2) ∧ P a reg2.
Proof.
  intros <- Hw Hn%bool_decide_eq_false Hk. destruct (law_register c reg Hw Hn) as (reg1 & E & E').
  unfold then_, made. rewrite E. by apply Hk.
Qed.

Definition not_ours (c : collector) : Prop := HasPrefix c.(Name) "go_" = true ∨ HasPrefix c.(Name) "process_" = true.

(** The collectors are built and registered without a panic: every name, label and bucket range is one that
    Prometheus accepts, no two collectors share a name, and none collides with the runtime's own. *)
Theorem New_registers runtime :
  Forall (λ c, well_formed c = true ∧ not_ours c) runtime → NoDup (Name <$> runtime) →
  ∃ m reg, New runtime NewRegistry = Some (m, reg) ∧ registered reg = all_collectors m ++ runtime.
Proof.
  intros Hr Hnd. unfold New, gauge, counter, counterVec, histogram, histogramVec.
  pose proof law_new_registry as E. revert E. generalize (NewRegistry : R). intros reg E.
  do 26 (eapply made_next; [exact E|reflexivity|reflexivity|]; clear E; clear reg; intros reg E).
  edestruct (register_all_ok runtime) as (reg' & Hall & E'); [eapply Forall_impl; [exact Hr|by intros ? [? _]]|done| |].
  2: { unfold then_. rewrite Hall. cbn [mbind option_bind]. eexists _, _. split; [done|]. rewrite E', E. done. }
  intros c Hc. rewrite E. rewrite Forall_forall in Hr. destruct (Hr c Hc) as [_ [Hp|Hp]]; intros Hin.
  all: assert (HasPrefix (Name c) "go_" || HasPrefix (Name c) "process_" = true) as Hf by (rewrite Hp; by rewrite ?orb_true_r).
  all: repeat (apply elem_of_cons in Hin as [Hin|Hin]; [by rewrite Hin in Hf|]); by apply elem_of_nil in Hin.
Qed.
End registration.

Section transparent.
Context `{RedisServer Srv, !CommandNames} {L : Type} (m : Metrics).
Implicit Types (mm : mem Srv L) (orc : list (N * fault)) (o : observed).

Definition beside o mm : mem Srv (L * observed) := Mem mm.(srv) (mm.(loc), o) mm.(clock).

(** What an event sends to Redis: under which name, how long it took and what
    error it ended in; and a whole run. *)
Definition sent {R} (e : event L R) (r : R) (since : Z) : list (string * Z * option error) :=
  match e in event _ R return R → list (string * Z * option error) with
  | Redis c => λ r, [(CmdName c, since, cmd_err c r)]
  | Eval _ => λ r, [(ScriptName, since, script_err r)]
  | _ => λ _, []
  end r.

Fixpoint commands {A} (p : prog L A) orc mm : list (string * Z * option error) :=
  match p with
  | Ret _ => []
  | Do e k =>
      let '(r, (mm', orc')) := if is_remote e then attempts e orc mm else let '(r, mm') := event_step Fine e mm in (r, (mm', orc)) in
      sent e r (mm'.(clock) - mm.(clock)) ++ commands (k r) orc' mm'
  end.

Definition durations (s : series) (l : list (string * Z * option error)) : list Z :=
  (λ x, x.1.2) <$> filter (λ x, s = ("redis_command_duration_seconds", [x.1.1])) l.

Definition failed (err : option error) : bool := if err is Some e then negb (errors_Is e RedisNil) else false.

Definition failures (s : series) (l : list (string * Z * option error)) : Z :=
  Z.of_nat (length (filter (λ x, s = ("redis_command_errors_total", [x.1.1]) ∧ failed x.2 = true) l)).

(** [o'] has what [l] adds to [o], and nothing else. *)
Definition counts (l : list (string * Z * option error)) o o' : Prop :=
  (∀ s, sample s o' = sample s o ++ durations s l) ∧ (∀ s, value s o' = value s o + failures s l).

Lemma counts_nil o : counts [] o o.
Proof. split; intros s; cbn; [by rewrite app_nil_r|by rewrite Z.add_0_r]. Qed.

Lemma counts_app l1 l2 o o1 o2 : counts l1 o o1 → counts l2 o1 o2 → counts (l1 ++ l2) o o2.
Proof.
  intros [S1 V1] [S2 V2]. split; intros s.
  - unfold durations in *. by rewrite S2, S1, filter_app, fmap_app, (assoc_L (++)).
  - rewrite V2, V1. unfold failures. rewrite filter_app, length_app. lia.
Qed.

Lemma value_Inc s s' o : value s' (Inc s o) = if decide (s' = s) then value s o + 1 else value s' o.
Proof.
  unfold value at 1; cbn. destruct (decide (s' = s)) as [->|]; [by rewrite lookup_insert_eq|by rewrite lookup_insert_ne].
Qed.

Lemma sample_Observe s s' x o : sample s' (Observe s x o) = if decide (s' = s) then sample s o ++ [x] else sample s' o.
Proof.
  unfold sample at 1; cbn. destruct (decide (s' = s)) as [->|]; [by rewrite lookup_insert_eq|by rewrite lookup_insert_ne].
Qed.

Context (HD : m.(RedisDuration).(Name) = "redis_command_duration_seconds" ∧ m.(RedisDuration).(Labels) = ["command"] ∧
  m.(RedisErrors).(Name) = "redis_command_errors_total" ∧ m.(RedisErrors).(Labels) = ["command"]).

Lemma observe_total name d err o :
  let o1 := Observe ("redis_command_duration_seconds", [name]) d o in
  observe m name d err o = Some (if failed err then Inc ("redis_command_errors_total", [name]) o1 else o1).
Proof.
  destruct HD as (N1 & L1 & N2 & L2). unfold observe, WithLabelValues, failed. rewrite L1, L2, N1, N2. cbn [length].
  rewrite decide_True by done. cbn [mbind option_bind]. destruct err as [e|]; [|done]. by destruct (errors_Is e RedisNil).
Qed.

Lemma observe_counts name d err o : ∃ o', observe m name d err o = Some o' ∧ counts [(name, d, err)] o o'.
Proof.
  rewrite observe_total. eexists. split; [done|]. unfold counts, durations, failures. split; intros s.
  - rewrite filter_cons. cbn [fst snd]. transitivity (sample s (Observe ("redis_command_duration_seconds", [name]) d o)).
    { by destruct (failed err). }
    rewrite sample_Observe. destruct (decide _) as [->|]; [done|]. cbn. by rewrite app_nil_r.
  - rewrite filter_cons. cbn [fst snd]. destruct (failed err).
    + rewrite value_Inc. destruct (decide (s = _)) as [->|]; [by rewrite decide_True|].
      rewrite decide_False by tauto. cbn. by rewrite Z.add_0_r.
    + rewrite decide_False by by intros [_ ?]. cbn. by rewrite Z.add_0_r.
Qed.

Lemma attempts_beside {R} (e : event L R) (e' : event (L * observed) R) orc mm o :
  (∀ f x, event_step f e' (beside o x) = let '(r, x') := event_step f e x in (r, beside o x')) →
  attempts e' orc (beside o mm) = let '(r, (mm', orc')) := attempts e orc mm in (r, (beside o mm', orc')).
Proof.
  intros He. revert mm. induction orc as [|[d f] orc IH]; intros mm; cbn [attempts].
  - rewrite He. by destruct (event_step Fine e mm).
  - assert (pass d (beside o mm) = beside o (pass d mm)) as -> by done. rewrite He.
    destruct (event_step f e (pass d mm)) as [r x] eqn:E. destruct f; try done. rewrite He, E. apply IH.
Qed.

Lemma observe_each_run start cmds orc mm o :
  ∃ o', run (observe_each (L := L) m start cmds) orc (beside o mm) = (true, (beside o' mm, orc)) ∧
        counts ((λ x, (x.1, mm.(clock) - start, x.2)) <$> cmds) o o'.
Proof.
  revert o. induction cmds as [|[name err] cmds IH]; intros o; [exists o; by split; [|apply counts_nil]|].
  destruct (observe_counts name (mm.(clock) - start) err o) as (o1 & Ho & C1). destruct (IH o1) as (o2 & Hr & C2).
  exists o2. split; [cbn; rewrite Ho; exact Hr|]. by apply (counts_app [_] _ o o1 o2).
Qed.

(** A pipeline counts every one of its commands, all with the time of the
    whole round trip. *)
Lemma pipeline_counts {A} (next : prog (L * observed) (A * list (string * option error))) orc mm o a cmds mm' orc' :
  run next orc (beside o mm) = ((a, cmds), (beside o mm', orc')) →
  ∃ o', run (ProcessPipelineHook m next) orc (beside o mm) = (Some a, (beside o' mm', orc')) ∧
        counts ((λ x, (x.1, mm'.(clock) - mm.(clock), x.2)) <$> cmds) o o'.
Proof.
  intros Hn. destruct (observe_each_run mm.(clock) cmds orc' mm' o) as (o' & Hr & C). exists o'. split; [|done].
  unfold ProcessPipelineHook. cbn. rewrite run_bind, Hn. cbn. by rewrite run_bind, Hr.
Qed.

(** One command through the hook. *)
Lemma observing_run {R} name (err : result R → option error) (e : event L (result R)) (e' : event (L * observed) (result R)) orc mm o :
  is_remote e' = true →
  (∀ f x, event_step f e' (beside o x) = let '(r, x') := event_step f e x in (r, beside o x')) →
  let '(r, (mm', orc')) := attempts e orc mm in
  ∃ o', run (observing m name err (act e')) orc (beside o mm) = (Some r, (beside o' mm', orc')) ∧
        counts [(name, mm'.(clock) - mm.(clock), err r)] o o'.
Proof.
  intros He' He. pose proof (attempts_beside e e' orc mm o He) as Ha. destruct (attempts e orc mm) as [r [mm' orc']].
  destruct (observe_counts name (mm'.(clock) - mm.(clock)) (err r) o) as (o' & Ho & Hc). exists o'. split; [|done].
  unfold observing. cbn. rewrite He', Ha. cbn. by rewrite Ho.
Qed.

Lemma ProcessHook_run {R} (e : event L R) orc mm o :
  let '(r, (mm', orc')) := if is_remote e then attempts e orc mm else let '(r, mm) := event_step Fine e mm in (r, (mm, orc)) in
  ∃ o', run (ProcessHook m e) orc (beside o mm) = (Some r, (beside o' mm', orc')) ∧
        counts (sent e r (mm'.(clock) - mm.(clock))) o o'.
Proof.
  destruct e as [R c|R p|R f|]; cbn [is_remote ProcessHook sent].
  - apply (observing_run _ _ (Redis c)); [done|]. intros f x. cbn. unfold with_srv. cbn [srv beside]. by destruct (deliver f (exec c) (srv x)).
  - apply (observing_run _ _ (Eval p)); [done|]. intros f x. cbn. unfold with_srv. cbn [srv beside].
    by destruct (deliver f (run_script p) (srv x)).
  - cbn. destruct (f (loc mm)) as [r l] eqn:E. exists o. by split; [|apply counts_nil].
  - cbn. exists o. by split; [|apply counts_nil].
Qed.
End transparent.

(** [C28] Measuring changes nothing: whatever a goroutine does, on whatever network, with the hook on its Redis clients it
    does the same and does not panic; and every command it sent, however often it was sent again, is timed once under
    its own name and counted as an error exactly when it failed with something else than a missing key. *)
Theorem hook_transparent `{Registry R, RedisServer Srv, !CommandNames} {L} runtime (reg reg' : R) m
    {A} (p : prog L A) orc (mm : mem Srv L) o :
  New runtime reg = Some (m, reg') →
  let '(a, (mm', orc')) := run p orc mm in
  ∃ o', run (hooked m p) orc (beside o mm) = (Some a, (beside o' mm', orc')) ∧
        counts (commands p orc mm) o o'.
Proof.
  intros HD%New_vectors. revert orc mm o. induction p as [a|B e k IH]; intros orc mm o.
  { exists o. by split; [|apply counts_nil]. }
  cbn [run hooked commands]. rewrite run_bind. pose proof (ProcessHook_run m HD e orc mm o) as Hp.
  destruct (is_remote e).
  - destruct (attempts e orc mm) as [r [mm' orc']]. destruct Hp as (o1 & -> & C1).
    pose proof (IH r orc' mm' o1) as Hk. destruct (run (k r) orc' mm') as [a [mm2 orc2]].
    destruct Hk as (o2 & -> & C2). exists o2. split; [done|]. by eapply counts_app.
  - destruct (event_step Fine e mm) as [r mm']. destruct Hp as (o1 & -> & C1).
    pose proof (IH r orc mm' o1) as Hk. destruct (run (k r) orc mm') as [a [mm2 orc2]].
    destruct Hk as (o2 & -> & C2). exists o2. split; [done|]. by eapply counts_app.
Qed.

(** ** A registry that keeps what it accepted *)

#[export] Instance list_registry : Registry (list collector) := {|
  NewRegistry := [];
  MustRegister := λ c reg, if well_formed c && bool_decide (Name c ∉ Name <$> reg) then Some (reg ++ [c]) else None;
  registered := id;
|}.

#[export] Instance list_registry_laws : RegistryLaws (list collector).
Proof.
  split; [done|]. intros c reg Hw Hn. cbn. rewrite Hw, bool_decide_true by done. by eexists.
Qed.

Definition go_threads : collector :=
  {| Name := "go_threads"; Help := "Number of OS threads created."; Kind := GaugeKind; Labels := []; Buckets := None |}.

Lemma New_registers_witness :
  ∃ m (reg : list collector), New [go_threads] NewRegistry = Some (m, reg) ∧ length reg = 27%nat.
Proof.
  destruct (New_registers (R := list collector) [go_threads]) as (m & reg & E & Hr).
  - constructor; [|constructor]. split; [done|by left].
  - apply NoDup_singleton.
  - exists m, reg. split; [exact E|]. change reg with (registered reg). rewrite Hr. reflexivity.
Defined.

(** A second set of collectors needs a registry of its own. *)
Lemma New_twice_panics m (reg : list collector) : New [] NewRegistry = Some (m, reg) → New [] reg = None.
Proof. intros E. vm_compute in E. injection E as <- <-. vm_compute. reflexivity. Qed.

#[local] Instance command_names : CommandNames := {|
  VerbName := λ v, match v with VGet => "get" | VSAdd => "sadd" | _ => "other" end;
  ScriptName := "evalsha";
|}.

(** A missing key is read in 3 ms; an addition runs, is sent again after 10 ms
    and is refused, because the key is not a set. *)
Lemma hook_transparent_witness :
  let p := bind (call (GET "absent")) (λ _, call (SADD "name" "x")) in
  let mm := Mem (Server {[ "name" := Entry (RStr "ann") None ]} [] 0) tt 0 in
  ∃ m reg o', New [] (NewRegistry : list collector) = Some (m, reg) ∧
    run (hooked m p) [(3%N, Fine); (10%N, Resent); (0%N, Fine)] (beside nothing mm) =
      (Some (Err wrongtype), (beside o' (pass 13 mm), [])) ∧
    sample ("redis_command_duration_seconds", ["sadd"]) o' = [10] ∧
    value ("redis_command_errors_total", ["sadd"]) o' = 1 ∧ value ("redis_command_errors_total", ["get"]) o' = 0.
Proof.
  intros p mm. destruct (New [] (NewRegistry : list collector)) as [[m reg]|] eqn:E; [|vm_compute in E; discriminate E].
  pose proof (hook_transparent [] NewRegistry reg m p [(3%N, Fine); (10%N, Resent); (0%N, Fine)] mm nothing E) as H.
  assert (run p [(3%N, Fine); (10%N, Resent); (0%N, Fine)] mm = (Err wrongtype, (pass 13 mm, []))) as Hr by (vm_compute; reflexivity).
  rewrite Hr in H. destruct H as (o' & Ho & HS & HV). exists m, reg, o'. split_and!; [done|exact Ho|..].
  - rewrite HS. vm_compute. reflexivity.
  - rewrite HV. vm_compute. reflexivity.
  - rewrite HV. vm_compute. reflexivity.
Defined.
