(* ===== verification/Time.v ===== *)
(** * Instants and RFC 3339 timestamps

    The [time] functions the server uses: [time.Parse(time.RFC3339Nano, s)],
    [UnixMilli], [Before].  An instant is its Unix time in nanoseconds. *)

From S2P Require Import Prelude GoStrings.
Local Open Scope Z_scope.

Definition instant : Type := Z.

(** [t.UnixMilli()]. *)
Definition UnixMilli (t : instant) : Z := t / 1000000.

(** [time.UnixMilli(ms)]. *)
Definition of_UnixMilli (ms : Z) : instant := ms * 1000000.

Definition is_leap (y : Z) : bool :=
  (y mod 4 =? 0) && (negb (y mod 100 =? 0) || (y mod 400 =? 0)).

(** [daysIn(month, year)]. *)
Definition days_in (m y : Z) : Z :=
  if m =? 2 then (if is_leap y then 29 else 28)
  else if bool_decide (m ∈ [4; 6; 9; 11]) then 30 else 31.

(** Days from 1970-01-01 to a civil date of the proleptic Gregorian calendar. *)
Definition days_from_civil (y m d : Z) : Z :=
  let y' := if m <=? 2 then y - 1 else y in
  let era := y' / 400 in
  let yoe := y' - era * 400 in
  let doy := (153 * (m + (if 2 <? m then -3 else 9)) + 2) / 5 + d - 1 in
  let doe := yoe * 365 + yoe / 4 - yoe / 100 + doy in
  era * 146097 + doe - 719468.

(** ** Parsing, field by field *)

(** Exactly [n] digits. *)
Fixpoint take_digits (n : nat) (acc : Z) (s : string) : option (Z * string) :=
  match n with
  | O => Some (acc, s)
  | S n' =>
      match s with
      | EmptyString => None
      | String c s' =>
          match digit_of c with
          | Some d => take_digits n' (10 * acc + d) s'
          | None => None
          end
      end
  end.

(** [getnum(s, false)]: one digit or two. *)
Definition take_1_2_digits (s : string) : option (Z * string) :=
  match take_digits 2 0 s with
  | Some r => Some r
  | None => take_digits 1 0 s
  end.

Definition skip (c : ascii) (s : string) : option string :=
  match s with String x s' => if decide (x = c) then Some s' else None | EmptyString => None end.

(** The digits of a fraction of a second, of which nine count. *)
Fixpoint take_fraction (scale acc : Z) (s : string) : Z * string :=
  match s with
  | String c s' =>
      match digit_of c with
      | Some d => take_fraction (scale / 10) (acc + d * scale) s'
      | None => (acc, s)
      end
  | EmptyString => (acc, s)
  end.

(** An optional [.digits] or [,digits], in nanoseconds. *)
Definition take_nsec (s : string) : Z * string :=
  match s with
  | String c (String x s'' as s') =>
      if bool_decide (c ∈ ["."%char; ","%char]) && is_digit x
      then take_fraction 100000000 0 s' else (0, s)
  | _ => (0, s)
  end.

(** [Z] or [±hh:mm], in seconds east of UTC; nothing may follow. *)
Definition take_zone (s : string) : option Z :=
  match s with
  | String "Z"%char r => if decide (r = "") then Some 0 else None
  | String c r =>
      if bool_decide (c ∈ ["+"%char; "-"%char]) then
        '(hh, r) ← take_digits 2 0 r;
        r ← skip ":" r;
        '(mm, r) ← take_digits 2 0 r;
        if bool_decide (r = "" ∧ hh ≤ 24 ∧ mm ≤ 60)
        then Some ((if decide (c = "-"%char) then -1 else 1) * (hh * 60 + mm) * 60)
        else None
      else None
  | EmptyString => None
  end.

(** [time.Parse(time.RFC3339Nano, s)]; [None] is a parse error. *)
Definition Parse_RFC3339Nano (s : string) : option instant :=
  '(year, s) ← take_digits 4 0 s;
  s ← skip "-" s;
  '(month, s) ← take_digits 2 0 s;
  s ← skip "-" s;
  '(day, s) ← take_digits 2 0 s;
  s ← skip "T" s;
  '(hour, s) ← take_1_2_digits s;
  s ← skip ":" s;
  '(min, s) ← take_digits 2 0 s;
  s ← skip ":" s;
  '(sec, s) ← take_digits 2 0 s;
  let '(nsec, s) := take_nsec s in
  zone ← take_zone s;
  if bool_decide (1 ≤ month ≤ 12 ∧ 1 ≤ day ≤ days_in month year ∧
                  hour < 24 ∧ min < 60 ∧ sec < 60)
  then Some ((days_from_civil year month day * 86400 + hour * 3600 + min * 60 + sec - zone)
             * 1000000000 + nsec)
  else None.

(** ** Formatting *)

(** The civil date of a day counted from 1970-01-01. *)
Definition civil_from_days (z : Z) : Z * Z * Z :=
  let z := z + 719468 in
  let era := z / 146097 in
  let doe := z - era * 146097 in
  let yoe := (doe - doe / 1460 + doe / 36524 - doe / 146096) / 365 in
  let y := yoe + era * 400 in
  let doy := doe - (365 * yoe + yoe / 4 - yoe / 100) in
  let mp := (5 * doy + 2) / 153 in
  let d := doy - (153 * mp + 2) / 5 + 1 in
  let m := if mp <? 10 then mp + 3 else mp - 9 in
  ((if m <=? 2 then y + 1 else y), m, d).

(** [appendInt(b, n, width)]: padded with zeros after the sign. *)
Definition pad (width : nat) (n : Z) : string :=
  let digits := FormatUint (Z.abs n) in
  let zeros := String.concat "" (repeat "0" (width - String.length digits)) in
  (if n <? 0 then "-" else "") +:+ zeros +:+ digits.

(** The fraction of [.999999999]: nothing for a whole second, else the digits
    without trailing zeros. *)
Fixpoint frac_digits (fuel : nat) (scale n : Z) : string :=
  match fuel with
  | O => ""
  | S fuel' => if n =? 0 then "" else String (digit_char (n / scale)) (frac_digits fuel' (scale / 10) (n mod scale))
  end.

Definition format_frac (nsec : Z) : string :=
  if nsec =? 0 then "" else String "." (frac_digits 9 100000000 nsec).

(** [t.UTC().Format(time.RFC3339Nano)]. *)
Definition Format_RFC3339Nano (t : instant) : string :=
  let secs := t / 1000000000 in
  let '(y, m, d) := civil_from_days (secs / 86400) in
  let sod := secs mod 86400 in
  pad 4 y +:+ "-" +:+ pad 2 m +:+ "-" +:+ pad 2 d +:+ "T" +:+
  pad 2 (sod / 3600) +:+ ":" +:+ pad 2 (sod / 60 mod 60) +:+ ":" +:+ pad 2 (sod mod 60) +:+
  format_frac (t mod 1000000000) +:+ "Z".

Example format_epoch : Format_RFC3339Nano 0 = "1970-01-01T00:00:00Z".
Proof. reflexivity. Qed.
Example format_frac_ex : Format_RFC3339Nano 1777629600500000000 = "2026-05-01T10:00:00.5Z".
Proof. reflexivity. Qed.
Example format_before : Format_RFC3339Nano (-1) = "1969-12-31T23:59:59.999999999Z".
Proof. vm_compute. reflexivity. Qed.
Example format_year0 : Format_RFC3339Nano (-62167219200001000000) = "-0001-12-31T23:59:59.999Z".
Proof. vm_compute. reflexivity. Qed.

Example parse_epoch : Parse_RFC3339Nano "1970-01-01T00:00:00Z" = Some 0.
Proof. reflexivity. Qed.
Example parse_frac :
  UnixMilli <$> Parse_RFC3339Nano "2026-05-01T12:00:00.5+02:00" = Some 1777629600500.
Proof. reflexivity. Qed.
Example parse_before_epoch :
  UnixMilli <$> Parse_RFC3339Nano "1969-12-31T23:59:59Z" = Some (-1000).
Proof. reflexivity. Qed.

#[global] Arguments Parse_RFC3339Nano : simpl never.
#[global] Arguments Format_RFC3339Nano : simpl never.

(** ** Bounds: a timestamp RFC 3339 can spell fits an [int64] of milliseconds
    and is exactly representable as a [float64]. *)

Lemma take_digits_bound n acc s v r :
  0 ≤ acc → take_digits n acc s = Some (v, r) →
  acc * 10 ^ Z.of_nat n ≤ v < (acc + 1) * 10 ^ Z.of_nat n.
Proof.
  revert acc s. induction n as [|n IH]; intros acc s Hacc Htake; cbn [take_digits] in Htake.
  { simplify_eq. lia. }
  destruct s as [|c s]; [done|]. destruct (digit_of c) as [d|] eqn:Hd; [|done].
  pose proof (digit_of_range _ _ Hd).
  apply IH in Htake; [|lia]. rewrite Nat2Z.inj_succ, Z.pow_succ_r by lia. nia.
Qed.

Lemma take_fraction_bound scale acc s v r :
  0 ≤ scale → take_fraction scale acc s = (v, r) → acc ≤ v ≤ acc + 10 * scale.
Proof.
  revert scale acc. induction s as [|c s IH]; intros scale acc Hs Htake; cbn [take_fraction] in Htake.
  { simplify_eq. lia. }
  destruct (digit_of c) as [d|] eqn:Hd; [|simplify_eq; lia].
  pose proof (digit_of_range _ _ Hd).
  assert (10 * (scale / 10) ≤ scale) by (apply Z.mul_div_le; lia).
  apply IH in Htake; [|apply Z.div_pos; lia]. nia.
Qed.
