(* ===== verification/StreamID.v ===== *)
(** * Stream cursors

    [parseSinceCursor], [splitStreamID] and [compareStreamIDs] of bus/bus.go,
    and [StreamIDLess] of internal/redisx/client.go: two implementations of
    one ordering on textual stream IDs. *)

From S2P Require Import Prelude GoStrings Redis Time.
Local Open Scope Z_scope.

(** ** bus/bus.go *)

(** The regular expressions [^\d+-\d+$] and [^\d+$]. *)
Definition allDigitsPattern (s : string) : bool := bool_decide (s ≠ "") && all_digits s.

Definition streamIDPattern (s : string) : bool :=
  match CutByte s "-" with
  | Some (ms, seq) => allDigitsPattern ms && allDigitsPattern seq
  | None => false
  end.

Definition parseSinceCursor (since : string) : result string :=
  if decide (since = "") then Err (errors_New "empty since cursor")
  else if streamIDPattern since then Ok since
  else if allDigitsPattern since then Ok (since +:+ "-0")
  else match Parse_RFC3339Nano since with
       | None => Err (errors_New
           ("Invalid `since`: must be ISO timestamp or stream ID (got " +:+ since +:+ ")"))
       | Some t => Ok (FormatInt (UnixMilli t) +:+ "-0")
       end.

Definition splitStreamID (id : string) : Z * Z :=
  match CutByte id "-" with
  | None => ((ParseInt id).1, 0)
  | Some (ms, seq) => ((ParseInt ms).1, (ParseInt seq).1)
  end.

Definition compareStreamIDs (a b : string) : Z :=
  let '(aMs, aSeq) := splitStreamID a in
  let '(bMs, bSeq) := splitStreamID b in
  if negb (aMs =? bMs) then (if aMs <? bMs then -1 else 1)
  else if negb (aSeq =? bSeq) then (if aSeq <? bSeq then -1 else 1)
  else 0.

(** ** internal/redisx/client.go *)

(** [strings.Cut(s, "-")] without its [found] flag. *)
Definition Cut_dash (s : string) : string * string :=
  match CutByte s "-" with Some p => p | None => (s, "") end.

Definition StreamIDLess (a b : string) : bool :=
  let '(amsStr, aseqStr) := Cut_dash a in
  let '(bmsStr, bseqStr) := Cut_dash b in
  let ams := (ParseInt amsStr).1 in
  let bms := (ParseInt bmsStr).1 in
  if negb (ams =? bms) then ams <? bms
  else (ParseInt aseqStr).1 <? (ParseInt bseqStr).1.

(** ** Lemmas *)

(** The pair of numbers an ID is compared by. *)
Abbreviation position := (splitStreamID).

Lemma Cut_dash_position s :
  ((ParseInt (Cut_dash s).1).1, (ParseInt (Cut_dash s).2).1) = position s.
Proof. unfold Cut_dash, splitStreamID. by destruct (CutByte s "-") as [[??]|]. Qed.

Definition pos_lt (p q : Z * Z) : Prop := sid_lt p q.

Lemma StreamIDLess_spec a b : StreamIDLess a b = true ↔ sid_lt (position a) (position b).
Proof.
  rewrite <- (Cut_dash_position a), <- (Cut_dash_position b).
  unfold StreamIDLess, sid_lt. destruct (Cut_dash a), (Cut_dash b); simpl.
  destruct (Z.eqb_spec (ParseInt s).1 (ParseInt s1).1); simpl; rewrite Z.ltb_lt; lia.
Qed.

Lemma compareStreamIDs_lt a b : compareStreamIDs a b = -1 ↔ sid_lt (position a) (position b).
Proof.
  unfold compareStreamIDs, sid_lt. destruct (splitStreamID a), (splitStreamID b); simpl.
  zcases; lia.
Qed.

Lemma compareStreamIDs_eq a b : compareStreamIDs a b = 0 ↔ position a = position b.
Proof.
  unfold compareStreamIDs. destruct (splitStreamID a), (splitStreamID b).
  zcases; (split; [try done|by intros [= -> ->]]); by subst.
Qed.

Lemma compareStreamIDs_gt a b : compareStreamIDs a b = 1 ↔ sid_lt (position b) (position a).
Proof.
  unfold compareStreamIDs, sid_lt. destruct (splitStreamID a), (splitStreamID b); simpl.
  zcases; lia.
Qed.

Lemma compareStreamIDs_range a b :
  compareStreamIDs a b = -1 ∨ compareStreamIDs a b = 0 ∨ compareStreamIDs a b = 1.
Proof.
  unfold compareStreamIDs. destruct (splitStreamID a), (splitStreamID b).
  repeat case_match; auto.
Qed.

Lemma compareStreamIDs_le a b : compareStreamIDs a b ≤ 0 ↔ ¬ sid_lt (position b) (position a).
Proof.
  rewrite <- compareStreamIDs_gt. pose proof (compareStreamIDs_range a b). lia.
Qed.

(** An ID Redis printed is read back exactly, while both halves fit an
    [int64]. *)
Definition sid_ok (i : sid) : Prop := 0 ≤ i.1 ≤ max_int64 ∧ 0 ≤ i.2 ≤ max_int64.

Lemma CutByte_format_sid (i : sid) :
  CutByte (format_sid i) "-" = Some (FormatUint i.1, FormatUint i.2).
Proof. apply CutByte_app. auto with go. Qed.

Lemma position_format_sid (i : sid) : sid_ok i → position (format_sid i) = i.
Proof.
  intros [H1 H2]. unfold splitStreamID. rewrite CutByte_format_sid.
  rewrite !ParseInt_FormatUint by done. by destruct i.
Qed.

Lemma format_sid_inj (i j : sid) : sid_ok i → sid_ok j → format_sid i = format_sid j → i = j.
Proof.
  intros Hi Hj E. by rewrite <- (position_format_sid i), <- (position_format_sid j), E.
Qed.

Lemma streamIDPattern_format_sid (i : sid) : streamIDPattern (format_sid i) = true.
Proof.
  unfold streamIDPattern, allDigitsPattern. rewrite CutByte_format_sid, !FormatUint_digits.
  by rewrite !bool_decide_eq_true_2 by apply FormatUint_nonempty.
Qed.

Lemma format_sid_nonempty (i : sid) : format_sid i ≠ "".
Proof.
  unfold format_sid. pose proof (FormatUint_nonempty i.1). by destruct (FormatUint i.1).
Qed.

Lemma parseSinceCursor_format_sid (i : sid) : parseSinceCursor (format_sid i) = Ok (format_sid i).
Proof.
  unfold parseSinceCursor. rewrite decide_False by apply format_sid_nonempty.
  by rewrite streamIDPattern_format_sid.
Qed.

Lemma sid_lt_irrefl i : ¬ sid_lt i i.
Proof. unfold sid_lt. lia. Qed.

Lemma sid_lt_trans i j k : sid_lt i j → sid_lt j k → sid_lt i k.
Proof. unfold sid_lt. lia. Qed.

Lemma sid_lt_total i j : sid_lt i j ∨ i = j ∨ sid_lt j i.
Proof.
  unfold sid_lt. destruct i as [a b], j as [c d]; simpl.
  destruct (Z.lt_total a c) as [?|[->|?]]; [auto| |auto].
  destruct (Z.lt_total b d) as [?|[->|?]]; auto.
Qed.

Lemma ParseUint_digits_range s n : ParseUint s = NumOk n → 0 ≤ n ≤ max_uint64.
Proof.
  unfold ParseUint. case_decide; [done|].
  assert (∀ s n m, 0 ≤ m ≤ max_uint64 → parse_uint_loop m s = NumOk n → 0 ≤ n ≤ max_uint64) as Hl.
  { clear. induction s as [|c s IH]; intros n m Hm Hp; cbn [parse_uint_loop] in Hp; [by simplify_eq|].
    destruct (digit_of c) as [d|] eqn:Hd; [|done].
    destruct (max_uint64 <? 10 * m + d) eqn:Hlt; [done|].
    apply Z.ltb_ge in Hlt. apply digit_of_range in Hd. eapply IH; [|done]. lia. }
  apply Hl. unfold max_uint64. lia.
Qed.

Lemma ParseInt_range s : in_int64 (ParseInt s).1.
Proof.
  unfold ParseInt, in_int64. destruct (split_sign s) as [neg t].
  assert (min_int64 ≤ max_int64 ∧ min_int64 ≤ 0 ≤ max_int64) by (vm_compute; done).
  destruct (ParseUint t) as [n| |] eqn:Hp; [|simpl; lia|destruct neg; simpl; lia].
  apply ParseUint_digits_range in Hp.
  destruct neg; case_match; simpl; rewrite ?Z.ltb_ge in *; unfold min_int64, max_int64 in *; lia.
Qed.

#[export] Hint Resolve sid_lt_irrefl streamIDPattern_format_sid ParseInt_range : go.
#[export] Hint Rewrite parseSinceCursor_format_sid CutByte_format_sid : go.
