(* ===== verification/Locks.v ===== *)
(** * Topic locks (internal/redisx/locks.go)

    A lock is a Redis string key holding its owner's userKey with a TTL; the
    topics a user has locked are indexed in one Redis set shared by both lock
    kinds. *)

From S2P Require Import Prelude GoStrings Redis RedisModel Prog.
Local Open Scope Z_scope.
Local Open Scope prog_scope.

Definition LockPublish : string := "publish".
Definition LockSubscribe : string := "subscribe".

(** Five minutes, in ms. *)
Definition DefaultLockTTL : Z := 5 * 60 * 1000.

Definition redis_nil : error := MkErr "redis: nil" [RedisNil].
Definition err_lock_held : error := MkErr "topic locked by another holder" [ErrLockHeldByOther].
Definition err_lock_not_held : error := MkErr "lock not held by caller" [ErrLockNotHeld].

Definition lockKey (topic kind : string) : string := kind +:+ ":lock:" +:+ topic.

(** The set of topics a holder has locked. *)
Definition lockedTopicsKey (holder : string) : string := holder +:+ ":lockedTopics".

Section locks.
Context {L : Type}.

(** go-redis's [Get(...).Result()]: a missing key is the error [redis.Nil]. *)
Definition get (key : string) : prog L (result string) :=
  v ←? call (GET key);
  Ret match v with Some v => Ok v | None => Err redis_nil end.

(** [unlockScript]. *)
Definition unlockScript (key holder : string) : script Z :=
  SCall (GET key) (λ v,
    if decide (v = Some holder) then SCall (DEL key) SRet else SRet 0).

Definition LockTopic (topic kind holder : string) (ttl : Z) : prog L (result ()) :=
  let ttl := if ttl <=? 0 then DefaultLockTTL else ttl in
  let key := lockKey topic kind in
  ok ←? wrapped "setnx lock: " (call (SETNX key holder ttl));
  if (ok : bool) then
    wrapped "sadd lockedTopics: " (call (SADD (lockedTopicsKey holder) topic)) ;?
    Ret (Ok ())
  else
    owner ←? wrapped "get lock owner: " (get key);
    if decide (owner = holder) then Ret (Ok ()) else Ret (Err err_lock_held).

Definition UnlockTopic (topic kind holder : string) : prog L (result ()) :=
  released ←? wrapped "eval unlock: " (eval (unlockScript (lockKey topic kind) holder));
  if released =? 1 then
    wrapped "srem lockedTopics: " (call (SREM (lockedTopicsKey holder) topic)) ;?
    Ret (Ok ())
  else Ret (Ok ()).

Definition RenewLock (topic kind holder : string) (ttl : Z) : prog L (result ()) :=
  let ttl := if ttl <=? 0 then DefaultLockTTL else ttl in
  let key := lockKey topic kind in
  bind (get key) (λ r,
    match r with
    | Err e =>
        if errors_Is e RedisNil then Ret (Err err_lock_not_held)
        else Ret (Err (Errorf_w "get lock owner: " e))
    | Ok owner =>
        if decide (owner = holder) then
          wrapped "set lock: " (call (SET key holder ttl)) ;?
          Ret (Ok ())
        else Ret (Err err_lock_not_held)
    end).

Definition IsTopicLockedByOther (topic kind userKey : string) : prog L (result bool) :=
  bind (get (lockKey topic kind)) (λ r,
    match r with
    | Err e =>
        if errors_Is e RedisNil then Ret (Ok false)
        else Ret (Err (Errorf_w "get lock owner: " e))
    | Ok owner => Ret (Ok (bool_decide (owner ≠ userKey)))
    end).

Definition LockedTopics (holder : string) : prog L (result (list string)) :=
  call (SMEMBERS (lockedTopicsKey holder)).

Definition ReleaseUserLocks (holder : string) : prog L (result ()) :=
  topics ←? LockedTopics holder;
  for_each_err topics (λ t,
    UnlockTopic t LockPublish holder ;?
    UnlockTopic t LockSubscribe holder).
End locks.

(** ** Ownership *)

Definition holds (ks : keyspace) (topic kind holder : string) : Prop :=
  as_str ks (lockKey topic kind) = Some (Some holder).

(** [h] holds the lock until the clock reads [D]. *)
Definition held_until `{RedisServer Srv} {L} (D : Z) (topic kind h : string) (m : mem Srv L) : Prop :=
  m.(clock) < D →
  keys m.(srv) !! lockKey topic kind = Some (Entry (RStr h) (Some (D - m.(clock)))).

Section lemmas.
Context `{RedisServer Srv} `{!RedisLaws Srv} {L : Type}.
Implicit Types (m : mem Srv L) (topic kind h u : string).

Lemma held_until_pass D topic kind h d m :
  held_until D topic kind h m → held_until D topic kind h (pass d m).
Proof.
  unfold held_until, pass; simpl. intros Hm Hlt. rewrite law_elapse_keys.
  unfold age. rewrite lookup_omap, Hm by lia. simpl. unfold age_entry; simpl.
  destruct (Z.leb_spec (D - clock m) (Z.of_N d)); [lia|]. do 3 f_equal. lia.
Qed.

Lemma held_until_later D topic kind h {R} (e : event L R) m m' :
  event_preserves (held_until D topic kind h) e →
  held_until D topic kind h m → later e m m' → held_until D topic kind h m'.
Proof.
  intros He Hm Hl. revert Hl Hm. apply later_preserves; [intros; by apply held_until_pass|intros; by apply He].
Qed.

(** What Redis runs keeps the entry of a lock held by [h]. *)
Definition spares {R} (h key : string) (go : Srv → result R * Srv) : Prop :=
  ∀ s t, keys s !! key = Some (Entry (RStr h) t) → keys (go s).2 !! key = Some (Entry (RStr h) t).

Ltac spare l :=
  let t := fresh "t" in let Hs := fresh "Hs" in let Hl := fresh "Hl" in
  intros s t Hs; pose proof (l s) as Hl; unfold after in Hl;
  lazymatch goal with |- context [exec ?c s] => destruct (exec c s); simpl in * end.

Lemma spares_get h key k : spares h key (exec (GET k)).
Proof. spare (law_get k). case_match; crush; congruence. Qed.

Lemma spares_smembers h key k : spares h key (exec (SMEMBERS k)).
Proof. spare (law_smembers k). case_match; crush; congruence. Qed.

Lemma spares_set h key k v ttl : k ≠ key → spares h key (exec (SET k v ttl)).
Proof. intros Hk. spare (law_set k v ttl). destruct Hl as (?&->&?). by rewrite lookup_insert_ne. Qed.

Lemma spares_setnx h key k v ttl : spares h key (exec (SETNX k v ttl)).
Proof.
  spare (law_setnx k v ttl).
  destruct (keys s !! k) eqn:Hk; destruct Hl as (?&->&?); [done|].
  rewrite lookup_insert_ne; congruence.
Qed.

(** Set commands answer WRONGTYPE on a string key, whatever its name. *)
Lemma spares_sadd h key k v : spares h key (exec (SADD k v)).
Proof.
  spare (law_sadd k v). destruct (decide (k = key)) as [->|Hne].
  - unfold as_set in Hl. rewrite Hs in Hl. by destruct Hl as (?&->&?).
  - case_match; destruct Hl as (?&->&?); [|done]. by rewrite lookup_put_set_ne.
Qed.

Lemma spares_srem h key k v : spares h key (exec (SREM k v)).
Proof.
  spare (law_srem k v). destruct (decide (k = key)) as [->|Hne].
  - unfold as_set in Hl. rewrite Hs in Hl. by destruct Hl as (?&->&?).
  - case_match; destruct Hl as (?&->&?); [|done]. by rewrite lookup_put_set_ne.
Qed.

(** The owner check of the script is what protects the lock. *)
Lemma spares_unlock h key k u : u ≠ h → spares h key (run_script (unlockScript k u)).
Proof.
  intros Hu s t Hs. simpl. pose proof (law_get k s) as Hl. unfold after in Hl.
  destruct (exec (GET k) s) as [r s1]; simpl in Hl.
  destruct (as_str (keys s) k) as [v|] eqn:Hv; destruct Hl as (->&Hk&_); simpl; [|congruence].
  case_decide as Hd; simpl; [|congruence]. subst v.
  pose proof (law_del k s1) as Hl. unfold after in Hl.
  destruct (exec (DEL k) s1) as [r2 s2]; simpl in *. destruct Hl as (->&Hk2&_); simpl.
  rewrite Hk2, Hk. rewrite lookup_delete_ne; [done|]. intros ->.
  unfold as_str in Hv. rewrite Hs in Hv. congruence.
Qed.

Lemma held_until_spared D topic kind h (f : fault) {R} (go : Srv → result R * Srv) m :
  spares h (lockKey topic kind) go →
  held_until D topic kind h m → held_until D topic kind h (with_srv (deliver f go) m).2.
Proof.
  unfold held_until, with_srv. intros Hgo Hm. destruct f; simpl; [destruct (go (srv m)) eqn:E|done|..];
    simpl; intros Hlt; [change s with (r, s).2; rewrite <- E|..]; by apply Hgo, Hm.
Qed.

Abbreviation guards D topic kind h := (λ R (e : event L R), event_preserves (held_until D topic kind h) e).

Lemma all_call D topic kind h {R A} (c : rcmd R) (k : result R → prog L A) :
  spares h (lockKey topic kind) (exec c) → (∀ r, all_events (guards D topic kind h) (k r)) →
  all_events (guards D topic kind h) (Do (Redis c) k).
Proof. intros Hc Hk. constructor; [|done]. intros f m. by apply held_until_spared. Qed.

Lemma all_eval D topic kind h {R A} (p : script R) (k : result R → prog L A) :
  spares h (lockKey topic kind) (run_script p) → (∀ r, all_events (guards D topic kind h) (k r)) →
  all_events (guards D topic kind h) (Do (Eval p) k).
Proof. intros Hc Hk. constructor; [|done]. intros f m. by apply held_until_spared. Qed.

Create HintDb spares.
Hint Resolve all_call all_eval spares_get spares_smembers spares_set spares_setnx
  spares_sadd spares_srem spares_unlock : spares.
Hint Constructors all_events : spares.

(** An operation by anyone but [h].  Renewing the very lock [h] holds is left
    out: [RenewLock] reads the owner and writes the key in two round trips. *)
Inductive foreign_op (h key : string) : prog L (result ()) → Prop :=
| foreign_lock t k u ttl : u ≠ h → foreign_op h key (LockTopic t k u ttl)
| foreign_unlock t k u : u ≠ h → foreign_op h key (UnlockTopic t k u)
| foreign_renew t k u ttl : u ≠ h → lockKey t k ≠ key → foreign_op h key (RenewLock t k u ttl)
| foreign_release u : u ≠ h → foreign_op h key (ReleaseUserLocks u).

Lemma foreign_LockTopic D topic kind h t k u ttl :
  all_events (guards D topic kind h) (LockTopic t k u ttl).
Proof.
  apply all_call; [auto with spares|].
  intros [[]|e]; simpl; [| |auto with spares]; (apply all_call; [auto with spares|]).
  - intros [?|?]; simpl; auto with spares.
  - intros [[v|]|e]; simpl; try case_decide; auto with spares.
Qed.

Lemma foreign_UnlockTopic D topic kind h t k u :
  u ≠ h → all_events (guards D topic kind h) (UnlockTopic t k u).
Proof.
  intros Hu. apply all_eval; [auto with spares|]. intros [n|e]; simpl; [|auto with spares].
  case_match; [|auto with spares]. apply all_call; [auto with spares|].
  intros [?|?]; simpl; auto with spares.
Qed.

Lemma foreign_RenewLock D topic kind h t k u ttl :
  lockKey t k ≠ lockKey topic kind → all_events (guards D topic kind h) (RenewLock t k u ttl).
Proof.
  intros Hne. apply all_call; [auto with spares|].
  intros [[v|]|e]; simpl; [|auto with spares|case_match; auto with spares].
  case_decide; [|auto with spares].
  apply all_call; [auto with spares|]. intros [?|?]; simpl; auto with spares.
Qed.

Lemma all_for_each_err (P : ∀ R, event L R → Prop) {A} (l : list A) (f : A → prog L (result ())) :
  (∀ x, all_events P (f x)) → all_events P (for_each_err l f).
Proof.
  intros Hf. induction l; simpl; [constructor|]. apply all_events_bind; [done|].
  intros [?|?]; [done|constructor].
Qed.

Lemma foreign_ReleaseUserLocks D topic kind h u :
  u ≠ h → all_events (guards D topic kind h) (ReleaseUserLocks u).
Proof.
  intros Hu. apply all_call; [auto with spares|]. intros [l|e]; simpl; [|auto with spares].
  apply all_for_each_err. intros t.
  apply all_events_bind; [by apply foreign_UnlockTopic|].
  intros [?|?]; [by apply foreign_UnlockTopic|constructor].
Qed.
End lemmas.

(** ** Outcomes *)

Section outcomes.
Context `{RedisServer Srv} `{!RedisLaws Srv} {L : Type}.
Implicit Types (m : mem Srv L) (topic kind h u : string).

(** Every round trip of a program whose events spare a lock. *)
Lemma wp_guarded D topic kind h {A} (p : prog L A) m :
  all_events (λ R e, event_preserves (held_until D topic kind h) e) p →
  held_until D topic kind h m → wp p (λ _, held_until D topic kind h) m.
Proof.
  intros Hp. revert m. induction Hp as [a|R e k He _ IH]; intros m Hm; simpl; [done|].
  destruct (is_remote e).
  - intros m1 f Hl _. pose proof (He f m1 (held_until_later _ _ _ _ _ _ _ He Hm Hl)).
    destruct (event_step f e m1). by apply IH.
  - pose proof (He Fine m Hm). destruct (event_step Fine e m). by apply IH.
Qed.

Lemma step_clock f {R} (e : event L R) m : (event_step f e m).2.(clock) = m.(clock).
Proof. destruct e; simpl; unfold with_srv; repeat case_match; done. Qed.

Lemma later_clock {R} (e : event L R) m m' : later e m m' → m.(clock) ≤ m'.(clock).
Proof.
  intros Hl. apply (later_preserves (λ m', m.(clock) ≤ m'.(clock)) e m m'); [| |done|lia].
  - intros d m1. simpl. lia.
  - intros m1. by rewrite step_clock.
Qed.

(** Programs never turn the clock back. *)
Lemma wp_clock {A} (p : prog L A) D m :
  D ≤ m.(clock) → wp p (λ _ m', D ≤ m'.(clock)) m.
Proof.
  revert m. induction p as [a|R e k IH]; intros m Hm; simpl; [done|].
  destruct (is_remote e).
  - intros m1 f Hl _. pose proof (step_clock f e m1) as Hs. apply later_clock in Hl.
    destruct (event_step f e m1). apply IH. cbn in Hs. lia.
  - pose proof (step_clock Fine e m) as Hs. destruct (event_step Fine e m). apply IH. cbn in Hs. lia.
Qed.

(** Reading the owner. *)
Lemma wp_get key Q m :
  (∀ m1 m2, later (Redis (GET key)) m m1 → keys m2.(srv) = keys m1.(srv) → m2.(clock) = m1.(clock) → m2.(loc) = m1.(loc) →
     match as_str (keys m1.(srv)) key with
     | Some (Some v) => Q (Ok v) m2
     | Some None => Q (Err redis_nil) m2
     | None => Q (Err wrongtype) m2
     end ∧ ∀ e, RedisNil ∉ e.(err_is) → Q (Err e) m2) →
  wp (get key) Q m.
Proof.
  intros HQ. apply wp_rbind, wp_call1. intros m1 Hl. unfold answers.
  pose proof (law_get key m1.(srv)) as Hlaw. unfold after in Hlaw.
  destruct (exec (GET key) (srv m1)) as [r s]; simpl in *.
  assert (keys s = keys m1.(srv)) as Hks by (by case_match; crush).
  split; [|intros e He; split; by apply (HQ m1)].
  destruct (HQ m1 (Mem s m1.(loc) m1.(clock)) Hl Hks eq_refl eq_refl) as [Hv _].
  destruct (as_str _ key) as [[v|]|]; crush; done.
Qed.

(** [C8] While [h] holds a topic lock whose TTL runs to the instant [D], no
    interleaving, with any timing and any lost request or reply, of lock,
    unlock, release and other-lock renewals by other users takes it away or
    shortens it. *)
Theorem lock_exclusion D topic kind h (ps : list (prog L (result ()))) (sched : list sched_item) m :
  held_until D topic kind h m →
  Forall (foreign_op h (lockKey topic kind)) ps →
  held_until D topic kind h (srun sched (ps, m)).2.
Proof.
  intros Hm Hps. apply srun_preserves; [by intros; apply held_until_pass| |done].
  eapply Forall_impl; [done|]. intros p [t k u ttl|t k u|t k u ttl|u].
  - apply foreign_LockTopic.
  - by apply foreign_UnlockTopic.
  - by apply foreign_RenewLock.
  - by apply foreign_ReleaseUserLocks.
Qed.

(** A lock request by another user that completes before [h]'s TTL ends
    is never granted, whatever the network does. *)
Theorem lock_refused D topic kind h u ttl m (orc : list (N * fault)) :
  h ≠ u → held_until D topic kind h m →
  let '(r, m') := outcome (LockTopic topic kind u ttl) orc m in
  m'.(clock) < D → is_ok r = false ∧ holds (keys m'.(srv)) topic kind h.
Proof.
  intros Hu Hm.
  cut (wp (LockTopic topic kind u ttl)
         (λ r m', held_until D topic kind h m' ∧ (D ≤ m'.(clock) ∨ is_ok r = false)) m).
  { intros Hwp. pose proof (wp_outcome _ _ _ Hwp orc) as [Hh Hr]. simpl in *.
    intros Hlt. unfold holds, as_str. rewrite Hh by done.
    destruct Hr; [lia|done]. }
  apply wp_and; [apply wp_guarded; [apply foreign_LockTopic|done]|].
  apply wp_rbind, wp_wrapped, wp_call1. intros m1 Hl.
  assert (held_until D topic kind h m1) as Hm1.
  { eapply held_until_later; [|done..]. intros f m0. apply held_until_spared, spares_setnx. }
  split; [|intros; simpl; auto].
  pose proof (law_setnx (lockKey topic kind) u (if ttl <=? 0 then DefaultLockTTL else ttl) m1.(srv)) as Hlaw.
  unfold after in Hlaw. destruct (exec _ _) as [r s]; cbn [fst snd] in *.
  destruct (Z.lt_ge_cases m1.(clock) D) as [Hlt|Hge].
  - rewrite Hm1 in Hlaw by done. destruct Hlaw as (->&Hks&_); cbn [wrap_err].
    apply wp_rbind, wp_wrapped, wp_get. intros m2 m3 Hl2 Hks3 Hc3 _.
    assert (held_until D topic kind h m2) as Hm2.
    { eapply held_until_later; [..|done]; [intros f m0; apply held_until_spared, spares_get|].
      intros Hlt'. simpl. rewrite Hks. by apply Hm1. }
    split; [|intros; by right].
    destruct (Z.lt_ge_cases m2.(clock) D) as [Hlt2|Hge2].
    + unfold as_str. rewrite Hm2 by done. simpl. rewrite decide_False by done. by right.
    + repeat case_match; simpl; repeat case_decide; simpl; auto; left; lia.
  - destruct r as [[]|e]; cbn [wrap_err]; [| |simpl; auto];
      (eapply wp_mono; [apply (wp_clock _ D); done|intros; by left]).
Qed.

(** ** Functional behaviour on a faultless network *)

Definition ttl_or_default (ttl : Z) : Z := if ttl <=? 0 then DefaultLockTTL else ttl.

Lemma expiry_default ttl : expiry (ttl_or_default ttl) = Some (ttl_or_default ttl).
Proof. unfold expiry, ttl_or_default, DefaultLockTTL. by zcases; try lia. Qed.

(** Every branch of [LockTopic]: a free lock is taken with the TTL asked
    for (five minutes when none is) and indexed; a lock the caller holds is
    granted again with its TTL left as it is; a lock of someone else is
    refused. *)
Theorem LockTopic_spec topic kind u ttl m :
  wp0 (LockTopic topic kind u ttl) (λ r m',
    let ks := keys m.(srv) in
    match ks !! lockKey topic kind with
    | None =>
        let ks1 := <[lockKey topic kind := Entry (RStr u) (Some (ttl_or_default ttl))]> ks in
        match as_set ks1 (lockedTopicsKey u) with
        | Some x => r = Ok () ∧ keys m'.(srv) = put_set ks1 (lockedTopicsKey u) ({[topic]} ∪ x)
        | None => r = Err (Errorf_w "sadd lockedTopics: " wrongtype) ∧ keys m'.(srv) = ks1
        end
    | Some (Entry (RStr v) _) =>
        r = (if decide (v = u) then Ok () else Err err_lock_held) ∧ keys m'.(srv) = ks
    | Some _ => r = Err (Errorf_w "get lock owner: " wrongtype) ∧ keys m'.(srv) = ks
    end) m.
Proof.
  unfold LockTopic. cbv zeta. fold (ttl_or_default ttl). wp0_next H1.
  destruct (keys (srv m) !! lockKey topic kind) as [[v t]|] eqn:Hk; destruct H1 as (->&Hk1&_);
    cbn [wrap_err].
  - wp0_next H2. unfold as_str in H2. cbn [srv] in *. rewrite Hk1, Hk in H2.
    destruct v; destruct H2 as (->&Hk2&_); cbn; rewrite ?Hk2, ?Hk1; [|done..].
    case_decide; cbn; done.
  - wp0_next H2. cbn [srv] in *. rewrite expiry_default in Hk1. rewrite Hk1 in H2.
    destruct (as_set _ (lockedTopicsKey u)); destruct H2 as (->&Hk2&_); cbn; by rewrite ?Hk2.
Qed.

(** Every branch of [RenewLock], read and write seen as one step. *)
Theorem RenewLock_spec topic kind u ttl m :
  wp0 (RenewLock topic kind u ttl) (λ r m',
    let ks := keys m.(srv) in
    match as_str ks (lockKey topic kind) with
    | Some (Some v) =>
        if decide (v = u)
        then r = Ok () ∧
          keys m'.(srv) = <[lockKey topic kind := Entry (RStr u) (Some (ttl_or_default ttl))]> ks
        else r = Err err_lock_not_held ∧ keys m'.(srv) = ks
    | Some None => r = Err err_lock_not_held ∧ keys m'.(srv) = ks
    | None => r = Err (Errorf_w "get lock owner: " wrongtype) ∧ keys m'.(srv) = ks
    end) m.
Proof.
  unfold RenewLock. cbv zeta. fold (ttl_or_default ttl). wp0_next H1.
  destruct (as_str (keys (srv m)) _) as [[v|]|]; destruct H1 as (->&Hk1&_); cbn; [|done..].
  case_decide; cbn; [|done]. subst v.
  pose proof (law_set (lockKey topic kind) u (ttl_or_default ttl) s) as H2. unfold after in H2.
  unfold with_srv; cbn. destruct (exec _ s) as [r2 s2]; cbn in *.
  destruct H2 as (->&Hk2&_); cbn. by rewrite Hk2, Hk1, expiry_default.
Qed.

(** The keyspace after an unlock that finds the index a set. *)
Lemma UnlockTopic_wp0 topic kind u m o x :
  as_str (keys m.(srv)) (lockKey topic kind) = Some o →
  as_set (keys m.(srv)) (lockedTopicsKey u) = Some x →
  wp0 (UnlockTopic topic kind u) (λ r m',
    r = Ok () ∧
    keys m'.(srv) =
      if decide (o = Some u)
      then put_set (delete (lockKey topic kind) (keys m.(srv))) (lockedTopicsKey u) (x ∖ {[topic]})
      else keys m.(srv)) m.
Proof.
  intros Ho Hx. unfold UnlockTopic. apply wp0_rbind, wp0_wrapped, wp0_eval.
  cbn. exec_step H1. rewrite Ho in H1. destruct H1 as (->&Hk1&_). cbn.
  case_decide as Hd; cbn; [|by rewrite Hk1].
  exec_step H2. destruct H2 as (->&Hk2&_). cbn.
  assert (is_Some (keys s !! lockKey topic kind)) as Hs.
  { rewrite Hk1. unfold as_str in Ho. destruct (keys (srv m) !! _); [by eexists|congruence]. }
  rewrite bool_decide_true by done. cbn.
  unfold with_srv; cbn. exec_step H3.
  rewrite Hk2, Hk1 in H3. unfold as_set in H3, Hx.
  destruct (decide (lockedTopicsKey u = lockKey topic kind)) as [He|Hne].
  - unfold as_str in Ho. rewrite He in Hx.
    destruct (keys (srv m) !! lockKey topic kind) as [[[]]|]; congruence.
  - rewrite lookup_delete_ne, Hx in H3 by done. destruct H3 as (->&Hk3&_). cbn. done.
Qed.

(** [u]'s locks may be gone and nothing else has changed, the index apart. *)
Definition only_released (u : string) (ks0 ks : keyspace) : Prop :=
  is_Some (as_set ks (lockedTopicsKey u)) ∧
  ∀ key, key ≠ lockedTopicsKey u →
    ks !! key = ks0 !! key ∨ (as_str ks0 key = Some (Some u) ∧ ks !! key = None).

Lemma only_released_str u ks0 ks key :
  only_released u ks0 ks → as_str ks0 key ≠ None → as_set ks0 (lockedTopicsKey u) ≠ Some ∅ →
  as_set ks0 (lockedTopicsKey u) ≠ None →
  as_str ks key = as_str ks0 key ∨ as_str ks key = Some None.
Proof.
  intros [_ Hks] Hs Hne Hset. destruct (Hks key) as [Heq|[_ Heq]].
  - intros ->. unfold as_str in Hs. unfold as_set in Hne, Hset.
    destruct (ks0 !! _) as [[[]]|]; congruence.
  - left. by apply as_str_ext.
  - right. unfold as_str. by rewrite Heq.
Qed.

Lemma UnlockTopic_released topic kind u ks0 m :
  only_released u ks0 (keys m.(srv)) →
  as_str ks0 (lockKey topic kind) ≠ None →
  (∃ x, as_set ks0 (lockedTopicsKey u) = Some x ∧ x ≠ ∅) →
  wp0 (UnlockTopic topic kind u) (λ r m',
    r = Ok () ∧ only_released u ks0 (keys m'.(srv)) ∧ ¬ holds (keys m'.(srv)) topic kind u ∧
    ∀ key, as_str (keys m.(srv)) key ≠ Some (Some u) → as_str (keys m'.(srv)) key ≠ Some (Some u)) m.
Proof.
  intros Hrel Hstr (x0&Hx0&Hne). pose proof Hrel as [[x Hx] Hks].
  assert (lockKey topic kind ≠ lockedTopicsKey u) as Hdiff.
  { intros He. rewrite He in Hstr. unfold as_str in Hstr. unfold as_set in Hx0.
    destruct (ks0 !! _) as [[[]]|]; congruence. }
  destruct (as_str (keys (srv m)) (lockKey topic kind)) as [o|] eqn:Ho.
  2: { destruct (only_released_str _ _ _ (lockKey topic kind) Hrel); congruence. }
  eapply wp0_mono; [by eapply UnlockTopic_wp0|].
  intros r m' [-> Hm']. split; [done|]. rewrite Hm'. unfold holds.
  case_decide as Hd; [subst o|split_and!; [done|congruence|done]].
  split_and!.
  - split; [by rewrite as_set_put|]. intros key Hkey. rewrite lookup_put_set_ne by done.
    destruct (decide (key = lockKey topic kind)) as [->|Hk].
    + rewrite lookup_delete_eq. right. split; [|done].
      destruct (Hks (lockKey topic kind) Hkey) as [Heq|[? ?]]; [|done].
      by rewrite <- (as_str_ext _ _ _ Heq).
    + rewrite lookup_delete_ne by done. by apply Hks.
  - unfold as_str. by rewrite lookup_put_set_ne, lookup_delete_eq.
  - intros key Hk. unfold as_str in *. destruct (decide (key = lockedTopicsKey u)) as [->|].
    + unfold put_set. case_decide; [by rewrite lookup_delete_eq|by rewrite lookup_insert_eq].
    + rewrite lookup_put_set_ne by done.
      destruct (decide (key = lockKey topic kind)) as [->|]; [by rewrite lookup_delete_eq|].
      by rewrite lookup_delete_ne.
Qed.

(** On disconnect every indexed lock of the user is released, of both
    kinds; a key that is neither the index nor a lock the user holds is left
    alone. *)
Theorem ReleaseUserLocks_complete u x m :
  as_set (keys m.(srv)) (lockedTopicsKey u) = Some x → x ≠ ∅ →
  (∀ t, t ∈ x → as_str (keys m.(srv)) (lockKey t LockPublish) ≠ None ∧
                as_str (keys m.(srv)) (lockKey t LockSubscribe) ≠ None) →
  wp0 (ReleaseUserLocks u) (λ r m',
    r = Ok () ∧
    (∀ t, t ∈ x → ¬ holds (keys m'.(srv)) t LockPublish u ∧ ¬ holds (keys m'.(srv)) t LockSubscribe u) ∧
    (∀ key, key ≠ lockedTopicsKey u → as_str (keys m.(srv)) key ≠ Some (Some u) →
       keys m'.(srv) !! key = keys m.(srv) !! key)) m.
Proof.
  intros Hx Hne Hstr. unfold ReleaseUserLocks, LockedTopics. wp0_next H1.
  rewrite Hx in H1. destruct H1 as (l&->&Hl&Hk1&_).
  set (ks0 := keys (srv m)) in *.
  set (gone t := λ ks : keyspace, ¬ holds ks t LockPublish u ∧ ¬ holds ks t LockSubscribe u).
  assert (∀ t, t ∈ l ↔ t ∈ x) as Hin.
  { intros t. by rewrite Hl, elem_of_elements. }
  cut (∀ l' m1, (∀ t, t ∈ l' → t ∈ x) → only_released u ks0 (keys m1.(srv)) →
         wp0 (for_each_err l' (λ t, rbind (UnlockTopic t LockPublish u)
           (λ _, UnlockTopic t LockSubscribe u)))
           (λ r m', r = Ok () ∧ only_released u ks0 (keys m'.(srv)) ∧
              (∀ t, t ∈ l' ∨ (t ∈ x ∧ gone t (keys m1.(srv))) → gone t (keys m'.(srv)))) m1).
  { intros Hloop. eapply wp0_mono.
    - apply Hloop; [intros; by apply Hin|]. cbn. rewrite Hk1.
      split; [by eexists|]. by left.
    - intros r m' (->&[_ Hrel]&Hgone). split_and!; [done|intros t Ht; apply Hgone; left; by apply Hin|].
      intros key Hkey Hu. by destruct (Hrel key Hkey) as [?|[? _]]. }
  clear dependent l. clear Hk1.
  induction l' as [|t l' IH]; intros m1 Hsub Hrel; cbn [for_each_err].
  { split_and!; [done|done|]. intros t [Ht|[_ ?]]; [by apply not_elem_of_nil in Ht|done]. }
  destruct (Hstr t) as [Hp Hs]; [apply Hsub; by left|].
  assert (∃ x0, as_set ks0 (lockedTopicsKey u) = Some x0 ∧ x0 ≠ ∅) as Hidx by eauto.
  apply wp0_rbind, wp0_rbind. eapply wp0_mono; [by apply UnlockTopic_released with (ks0 := ks0)|].
  intros ? m2 (->&Hrel2&Hg2&Hst2).
  eapply wp0_mono; [by apply UnlockTopic_released with (ks0 := ks0)|].
  intros ? m3 (->&Hrel3&Hg3&Hst3).
  eapply wp0_mono; [apply IH; [intros; apply Hsub; by right|done]|].
  intros r m' (->&Hrel'&Hgone). split_and!; [done|done|]. intros t' Ht'.
  apply Hgone. destruct Ht' as [[->|?]%elem_of_cons|[? [? ?]]]; [right|by left|right].
  - split; [apply Hsub; by left|]. split; [by apply Hst3|done].
  - split; [done|]. by split; apply Hst3, Hst2.
Qed.

(** [RenewLock] reads the owner and rewrites the key in two round
    trips: if the lock runs out in between and [v] takes it, both calls
    succeed and the renewal takes the lock away from [v]. *)
Theorem RenewLock_race topic kind u v ttl ttl' (d : N) m :
  lockKey topic kind ≠ lockedTopicsKey v →
  keys m.(srv) = {[ lockKey topic kind := Entry (RStr u) (Some (Z.of_N d)) ]} →
  let sched := [Step 0 Fine; Tick d; Step 1 Fine; Step 1 Fine; Step 0 Fine] in
  let '(ps, m') := srun sched ([RenewLock topic kind u ttl; LockTopic topic kind v ttl'], m) in
  ps = [Ret (Ok ()); Ret (Ok ())] ∧ holds (keys m'.(srv)) topic kind u.
Proof.
  intros Hne Hk sched. unfold sched, RenewLock, LockTopic, get. cbv zeta.
  erewrite srun_redis by done. exec_step H1. unfold as_str in H1.
  rewrite Hk, lookup_singleton_eq in H1. destruct H1 as (->&Hk1&_). cbn [bind list_insert].
  rewrite decide_True by done. rewrite srun_tick.
  erewrite srun_redis by done. exec_step H2. cbn [pass srv] in H2. rewrite law_elapse_keys in H2.
  assert (age (Z.of_N d) (keys s) = ∅) as Hage.
  { rewrite Hk1. unfold age. rewrite omap_singleton_None; [done|].
    cbn. unfold age_entry; cbn. by rewrite Z.leb_refl. }
  rewrite Hage, lookup_empty in H2. destruct H2 as (->&Hk2&_).
  erewrite srun_redis by done. exec_step H3. unfold as_set in H3. cbn [srv] in H3.
  rewrite Hk2, lookup_insert_ne, lookup_empty in H3 by done. destruct H3 as (->&Hk3&_).
  erewrite srun_redis by done. exec_step H4. destruct H4 as (->&Hk4&_).
  cbn. split; [done|]. unfold holds. by rewrite Hk4, as_str_insert.
Qed.

(** One index serves both lock kinds: unlocking one kind drops the
    topic from it, so the disconnect clean-up leaves the other lock held. *)
Theorem shared_index_leak topic u ttl m :
  lockedTopicsKey u ≠ lockKey topic LockPublish →
  lockedTopicsKey u ≠ lockKey topic LockSubscribe →
  keys m.(srv) = ∅ →
  wp0 (LockTopic topic LockPublish u ttl ;? LockTopic topic LockSubscribe u ttl ;?
       UnlockTopic topic LockPublish u ;? ReleaseUserLocks u)%prog
    (λ r m', r = Ok () ∧ holds (keys m'.(srv)) topic LockSubscribe u) m.
Proof.
  intros Hp Hs Hk. set (kp := lockKey topic LockPublish). set (ks := lockKey topic LockSubscribe).
  assert (kp ≠ ks) as Hps by (by unfold kp, ks, lockKey, LockPublish, LockSubscribe).
  set (e := Entry (RStr u) (Some (ttl_or_default ttl))).
  apply wp0_rbind. eapply wp0_mono; [apply LockTopic_spec|]. cbv zeta. fold kp e.
  intros r m1 H1. rewrite Hk, lookup_empty in H1. unfold as_set in H1.
  rewrite lookup_insert_ne, lookup_empty in H1 by done. destruct H1 as [-> H1].
  apply wp0_rbind. eapply wp0_mono; [apply LockTopic_spec|]. cbv zeta. fold ks e.
  intros r m2 H2. rewrite H1 in H2.
  rewrite lookup_put_set_ne, lookup_insert_ne, lookup_empty in H2 by done.
  rewrite (as_set_ext (put_set (<[kp:=e]> ∅) (lockedTopicsKey u) ({[topic]} ∪ ∅))), as_set_put in H2
    by (by rewrite lookup_insert_ne). destruct H2 as [-> H2].
  apply wp0_rbind. eapply wp0_mono; [eapply UnlockTopic_wp0|].
  - rewrite H2. fold kp. unfold as_str.
    by rewrite lookup_put_set_ne, lookup_insert_ne, lookup_put_set_ne, lookup_insert_eq.
  - by rewrite H2, as_set_put.
  - intros r m3 [-> H3]. rewrite decide_True in H3 by done.
    unfold ReleaseUserLocks, LockedTopics. wp0_next H4. rewrite H3, as_set_put in H4.
    destruct H4 as (l&->&Hl&Hk4&_). cbn [srv].
    replace (({[topic]} ∪ ({[topic]} ∪ ∅)) ∖ {[topic]}) with (∅ : gset string) in Hl, Hk4
      by (by rewrite union_empty_r_L, union_idemp_L, difference_diag_L).
    apply Permutation_nil_r in Hl as ->. cbn. split; [done|].
    rewrite Hk4. unfold holds, as_str. rewrite lookup_put_set_ne by done. fold ks.
    rewrite lookup_delete_ne, H2, lookup_put_set_ne, lookup_insert_eq by done. done.
Qed.
End outcomes.

(** ** Witnesses *)

Definition locked_by (u : string) (ttl : Z) : mem server () :=
  Mem (Server {[ "publish:lock:t" := Entry (RStr u) (Some ttl) ]} [] 0) () 0.

Lemma locked_by_held u ttl : held_until ttl "t" "publish" u (locked_by u ttl).
Proof. intros _. cbn. by rewrite Z.sub_0_r. Qed.

Lemma lock_exclusion_witness :
  held_until 1000 "t" "publish" "alice"
    (srun [Step 0 Fine; Tick 5; Step 1 (LostReply "i/o timeout" true); Step 0 Fine]
       ([LockTopic "t" "publish" "bob" 50; UnlockTopic "t" "publish" "carol"], locked_by "alice" 1000)).2.
Proof.
  apply lock_exclusion; [apply locked_by_held|].
  constructor; [by constructor|]. constructor; [by constructor|constructor].
Defined.

Lemma lock_refused_witness :
  "alice" ≠ "bob" ∧ held_until 1000 "t" "publish" "alice" (locked_by "alice" 1000) ∧
  let '(r, m') := outcome (LockTopic "t" "publish" "bob" 50) [(10%N, Fine); (0%N, Fine)] (locked_by "alice" 1000) in
  m'.(clock) < 1000 → is_ok r = false ∧ holds (keys m'.(srv)) "t" "publish" "alice".
Proof.
  split; [done|]. split; [apply locked_by_held|].
  apply (lock_refused 1000 "t" "publish" "alice" "bob" 50); [done|apply locked_by_held].
Defined.

Lemma LockTopic_spec_witness :
  wp0 (LockTopic "t" "publish" "bob" 0) (λ r m',
    r = Err err_lock_held ∧ keys m'.(srv) = keys (locked_by "alice" 7).(srv)) (locked_by "alice" 7).
Proof.
  eapply wp0_mono; [apply (LockTopic_spec "t" "publish" "bob" 0 (locked_by "alice" 7))|].
  intros r m' Hr. exact Hr.
Defined.

Lemma RenewLock_spec_witness :
  wp0 (RenewLock "t" "publish" "bob" 0) (λ r m',
    r = Err err_lock_not_held ∧ keys m'.(srv) = keys (locked_by "alice" 7).(srv)) (locked_by "alice" 7).
Proof.
  eapply wp0_mono; [apply (RenewLock_spec "t" "publish" "bob" 0 (locked_by "alice" 7))|].
  intros r m' Hr. exact Hr.
Defined.

Definition alice_locks : mem server () :=
  Mem (Server {[ "publish:lock:t" := Entry (RStr "alice") (Some 9);
                 "alice:lockedTopics" := Entry (RSet {[ "t" ]}) None ]} [] 0) () 0.

Lemma ReleaseUserLocks_complete_witness :
  wp0 (ReleaseUserLocks "alice") (λ r m',
    r = Ok () ∧ ¬ holds (keys m'.(srv)) "t" LockPublish "alice") alice_locks.
Proof.
  eapply wp0_mono.
  - apply (ReleaseUserLocks_complete "alice" {[ "t" ]} alice_locks); [done|done|].
    intros t ->%elem_of_singleton. by split.
  - intros r m' (?&Hg&_). split; [done|]. apply (Hg "t"). by apply elem_of_singleton.
Defined.

Lemma RenewLock_race_witness :
  holds (keys (srun [Step 0 Fine; Tick 3; Step 1 Fine; Step 1 Fine; Step 0 Fine]
    ([RenewLock "t" "publish" "alice" 50; LockTopic "t" "publish" "bob" 50], locked_by "alice" 3)).2.(srv))
    "t" "publish" "alice".
Proof.
  pose proof (RenewLock_race "t" "publish" "alice" "bob" 50 50 3 (locked_by "alice" 3)) as Hr.
  cbv zeta in Hr. destruct (srun _ _). apply Hr; done.
Defined.

Lemma shared_index_leak_witness :
  wp0 (LockTopic "t" LockPublish "alice" 50 ;? LockTopic "t" LockSubscribe "alice" 50 ;?
       UnlockTopic "t" LockPublish "alice" ;? ReleaseUserLocks "alice")%prog
    (λ r m', r = Ok () ∧ holds (keys m'.(srv)) "t" LockSubscribe "alice") (Mem fresh_server () 0).
Proof. by apply (shared_index_leak "t" "alice" 50 (Mem fresh_server () 0)). Defined.
