(* ===== verification/Store.v ===== *)
(** * Connections, subscriptions and cursors in Redis (internal/redisx/client.go)

    A refcount per user with the set of connected users, the two sets that
    record who is subscribed to what, and the cursor up to which a user has
    acknowledged a topic. *)

From S2P Require Import Prelude GoStrings Redis RedisModel Prog StreamID Locks.
Local Open Scope Z_scope.
Local Open Scope prog_scope.

Definition countKey (userKey : string) : string := "conn:count:" +:+ userKey.
Definition activeKey : string := "activeConnections".
Definition topicKey (topic : string) : string := "topic:" +:+ topic.
Definition subscribedTopicsKey (userKey : string) : string := userKey +:+ ":subscribedTopics".

Definition ackCursorKey (userKey topic : string) : string :=
  "ack:" +:+ userKey +:+ ":" +:+ topic.

Section store.
Context {L : Type}.

Definition AddConnection (userKey : string) : prog L (result ()) :=
  count ←? wrapped "incr conn count: " (call (INCRBY (countKey userKey) 1));
  if count =? 1 then
    wrapped "sadd activeConnections: " (call (SADD activeKey userKey)) ;?
    Ret (Ok ())
  else Ret (Ok ()).

Definition RemoveConnection (userKey : string) : prog L (result ()) :=
  count ←? wrapped "decr conn count: " (call (INCRBY (countKey userKey) (-1)));
  if count <=? 0 then
    wrapped "del conn count: " (call (DEL (countKey userKey))) ;?
    wrapped "srem activeConnections: " (call (SREM activeKey userKey)) ;?
    Ret (Ok ())
  else Ret (Ok ()).

Definition AddTopicSubscription (userKey topic : string) : prog L (result ()) :=
  wrapped "sadd topic members: " (call (SADD (topicKey topic) userKey)) ;?
  wrapped "sadd subscribedTopics: " (call (SADD (subscribedTopicsKey userKey) topic)) ;?
  Ret (Ok ()).

Definition RemoveTopicSubscription (userKey topic : string) : prog L (result ()) :=
  wrapped "srem topic members: " (call (SREM (topicKey topic) userKey)) ;?
  wrapped "srem subscribedTopics: " (call (SREM (subscribedTopicsKey userKey) topic)) ;?
  Ret (Ok ()).

(** The comparison with [redis.Nil] is by identity. *)
Definition SetAckCursor (userKey topic streamID : string) (ttl : Z) : prog L (result ()) :=
  let key := ackCursorKey userKey topic in
  bind (get key) (λ r,
    let go current :=
      if bool_decide (current ≠ "") && negb (StreamIDLess current streamID) then Ret (Ok ())
      else wrapped "set ack cursor: " (call (SET key streamID ttl)) ;? Ret (Ok ()) in
    match r with
    | Ok current => go current
    | Err e =>
        if decide (e = redis_nil) then go "" else Ret (Err (Errorf_w "get ack cursor: " e))
    end).

Definition AckCursor (userKey topic : string) : prog L (result string) :=
  bind (get (ackCursorKey userKey topic)) (λ r,
    match r with
    | Ok v => Ret (Ok v)
    | Err e => if decide (e = redis_nil) then Ret (Ok "") else Ret (Err (Errorf_w "get ack cursor: " e))
    end).

Definition TopicSubscribers (topic : string) : prog L (result (list string)) :=
  call (SMEMBERS (topicKey topic)).

Definition SubscribedTopics (userKey : string) : prog L (result (list string)) :=
  call (SMEMBERS (subscribedTopicsKey userKey)).
End store.

(** ** Refcounts refine a count per user *)

(** [n u] connections of [u] are open. *)
Definition counts (ks : keyspace) (n : string → nat) : Prop :=
  (∀ u, as_str ks (countKey u) = Some (if decide (n u = 0%nat) then None else Some (FormatInt (Z.of_nat (n u))))) ∧
  ∃ x, as_set ks activeKey = Some x ∧ ∀ u, u ∈ x ↔ n u ≠ 0%nat.

Definition upd (n : string → nat) (u : string) (v : nat) : string → nat :=
  λ u', if decide (u' = u) then v else n u'.

Lemma upd_nonzero n u v u' :
  upd n u v u' ≠ 0%nat ↔ (u' = u ∧ v ≠ 0%nat) ∨ (u' ≠ u ∧ n u' ≠ 0%nat).
Proof. unfold upd. case_decide; tauto. Qed.

Lemma countKey_inj u v : countKey u = countKey v → u = v.
Proof. unfold countKey. intros. by simplify_eq/=. Qed.

Lemma countKey_not_active u : countKey u ≠ activeKey.
Proof. done. Qed.

Lemma ParseInt_count n :
  Z.of_nat n ≤ max_int64 → ParseInt (FormatInt (Z.of_nat n)) = (Z.of_nat n, true).
Proof.
  intros. unfold FormatInt. rewrite (proj2 (Z.ltb_ge _ _)) by lia.
  apply ParseInt_FormatUint. lia.
Qed.

Lemma counts_update ks ks' n u v x :
  counts ks n →
  as_str ks' (countKey u) = Some (if decide (v = 0%nat) then None else Some (FormatInt (Z.of_nat v))) →
  (∀ u', u' ≠ u → ks' !! countKey u' = ks !! countKey u') →
  as_set ks' activeKey = Some x → (∀ u', u' ∈ x ↔ upd n u v u' ≠ 0%nat) →
  counts ks' (upd n u v).
Proof.
  intros [Hc _] Hu Hother Hx Hin. split; [|by exists x].
  intros u'. unfold upd. destruct (decide (u' = u)) as [->|]; [done|].
  rewrite <- Hc. by apply as_str_ext, Hother.
Qed.

Section store_spec.
Context `{RedisServer Srv} `{!RedisLaws Srv} {L : Type}.
Implicit Types (m : mem Srv L).

Lemma counts_incrby ks n u d :
  counts ks n → in_int64 (Z.of_nat (n u)) → in_int64 (Z.of_nat (n u) + d) →
  ∀ s, keys s = ks →
  replies (INCRBY (countKey u) d) s (Ok (Z.of_nat (n u) + d))
    (<[countKey u := Entry (RStr (FormatInt (Z.of_nat (n u) + d))) (ttl_of ks (countKey u))]> ks).
Proof.
  intros [Hc _] Hn Hd s <-. pose proof (law_incrby (countKey u) d s) as Hlaw.
  rewrite Hc in Hlaw. destruct (decide (n u = 0%nat)) as [E|E].
  - rewrite E in *. by rewrite bool_decide_true in Hlaw.
  - rewrite ParseInt_count in Hlaw by apply Hn. by rewrite bool_decide_true in Hlaw.
Qed.

(** [AddConnection] refines incrementing the user's connection count:
    it succeeds, and afterwards the refcount key and the set of active users
    again represent the counts. *)
Theorem AddConnection_refines n u m :
  counts (keys m.(srv)) n → Z.of_nat (n u) < max_int64 →
  wp0 (AddConnection u) (λ r m', r = Ok () ∧ counts (keys m'.(srv)) (upd n u (S (n u)))) m.
Proof.
  intros Hn Hmax. pose proof Hn as [_ (x&Hx&Hin)]. unfold AddConnection.
  apply wp0_rbind, wp0_wrapped, wp0_call.
  assert (in_int64 (Z.of_nat (n u) + 1)) as Hin1 by (unfold in_int64, min_int64, max_int64 in *; lia).
  assert (in_int64 (Z.of_nat (n u))) as Hin0 by (unfold in_int64, min_int64, max_int64 in *; lia).
  pose proof (counts_incrby _ _ u 1 Hn Hin0 Hin1 (srv m) eq_refl) as H1.
  unfold after in H1. destruct (exec _ _) as [r s1]; cbn [fst snd] in H1.
  destruct H1 as (->&Hk1&_). cbn [wrap_err].
  set (e := Entry _ _) in Hk1. unfold e in Hk1. clear e.
  assert (∀ ks', ks' !! countKey u = keys s1 !! countKey u →
    as_str ks' (countKey u) = Some (if decide (S (n u) = 0%nat) then None else Some (FormatInt (Z.of_nat (S (n u)))))) as Hown.
  { intros ks' E. rewrite (as_str_ext _ _ _ E), Hk1, as_str_insert. cbn. do 3 f_equal. lia. }
  assert (as_set (keys s1) activeKey = Some x) as Hx1.
  { rewrite Hk1, <- Hx. by apply as_set_ext, lookup_insert_ne. }
  destruct (Z.eqb_spec (Z.of_nat (n u) + 1) 1) as [E|E].
  - wp0_next H2. cbn [srv] in *. rewrite Hx1 in H2. destruct H2 as (->&Hk2&_). cbn. split; [done|].
    eapply counts_update; [done|apply Hown; by rewrite Hk2, lookup_put_set_ne| |by rewrite Hk2, as_set_put|].
    + intros u' Hu. rewrite Hk2, lookup_put_set_ne by done. rewrite Hk1.
      apply lookup_insert_ne. by intros ->%countKey_inj.
    + intros u'. rewrite elem_of_union, elem_of_singleton, Hin, upd_nonzero.
      destruct (decide (u' = u)); [|tauto]. split; auto.
  - cbn. split; [done|]. eapply counts_update; [done|by apply Hown| |done|].
    + intros u' Hu. rewrite Hk1. apply lookup_insert_ne. by intros ->%countKey_inj.
    + intros u'. rewrite Hin, upd_nonzero. destruct (decide (u' = u)) as [->|]; [|tauto].
      split; [intros; left; split; [done|lia]|lia].
Qed.

(** [RemoveConnection] refines a decrement that stops at zero: the last
    one drops the refcount key and the user from the active set. *)
Theorem RemoveConnection_refines n u m :
  counts (keys m.(srv)) n → Z.of_nat (n u) ≤ max_int64 →
  wp0 (RemoveConnection u) (λ r m', r = Ok () ∧ counts (keys m'.(srv)) (upd n u (pred (n u)))) m.
Proof.
  intros Hn Hmax. pose proof Hn as [_ (x&Hx&Hin)]. unfold RemoveConnection.
  apply wp0_rbind, wp0_wrapped, wp0_call.
  assert (in_int64 (Z.of_nat (n u) + -1)) as Hin1 by (unfold in_int64, min_int64, max_int64 in *; lia).
  assert (in_int64 (Z.of_nat (n u))) as Hin0 by (unfold in_int64, min_int64, max_int64 in *; lia).
  pose proof (counts_incrby _ _ u (-1) Hn Hin0 Hin1 (srv m) eq_refl) as H1.
  unfold after in H1. destruct (exec _ _) as [r s1]; cbn [fst snd] in H1.
  destruct H1 as (->&Hk1&_). cbn [wrap_err].
  assert (∀ u', u' ≠ u → keys s1 !! countKey u' = keys (srv m) !! countKey u') as Hother.
  { intros u' Hu. rewrite Hk1. apply lookup_insert_ne. by intros ->%countKey_inj. }
  assert (as_set (keys s1) activeKey = Some x) as Hx1.
  { rewrite Hk1, <- Hx. by apply as_set_ext, lookup_insert_ne. }
  destruct (Z.leb_spec (Z.of_nat (n u) + -1) 0) as [E|E].
  - replace (pred (n u)) with 0%nat by lia.
    wp0_next H2. destruct H2 as (->&Hk2&_). cbn [wrap_err].
    assert (as_set (keys s) activeKey = Some x) as Hx2.
    { cbn [srv] in Hk2. rewrite Hk2, <- Hx1. by apply as_set_ext, lookup_delete_ne. }
    wp0_next H3. cbn [srv] in *. rewrite Hx2 in H3. destruct H3 as (->&Hk3&_). cbn. split; [done|].
    eapply counts_update; [done| | |by rewrite Hk3, as_set_put|].
    + unfold as_str. by rewrite Hk3, lookup_put_set_ne, Hk2, lookup_delete_eq.
    + intros u' Hu. rewrite Hk3, lookup_put_set_ne, Hk2 by done. rewrite lookup_delete_ne; [auto|].
      by intros ->%countKey_inj.
    + intros u'. rewrite elem_of_difference, elem_of_singleton, Hin, upd_nonzero. tauto.
  - cbn. split; [done|]. eapply counts_update; [done| |done|done|].
    + rewrite Hk1, as_str_insert, decide_False by lia. do 3 f_equal. lia.
    + intros u'. rewrite Hin, upd_nonzero. destruct (decide (u' = u)) as [->|]; [|tauto].
      split; [intros; left; split; [done|lia]|lia].
Qed.

(** ** Acknowledgement cursors *)

(** The cursor stored for a key, [None] when the key is not a string. *)
Definition cursor (ks : keyspace) (key : string) : option string :=
  default "" <$> as_str ks key.

(** Every branch of [SetAckCursor] on a faultless network: an ID that
    is above the stored cursor, or the first one, is stored with the TTL
    asked for; any other leaves every key as it was. *)
Lemma SetAckCursor_spec u t id ttl m :
  wp0 (SetAckCursor u t id ttl) (λ r m',
    let ks := keys m.(srv) in
    match cursor ks (ackCursorKey u t) with
    | None => r = Err (Errorf_w "get ack cursor: " wrongtype) ∧ keys m'.(srv) = ks
    | Some c =>
        r = Ok () ∧
        keys m'.(srv) =
          if bool_decide (c = "" ∨ sid_lt (position c) (position id))
          then <[ackCursorKey u t := Entry (RStr id) (expiry ttl)]> ks else ks
    end) m.
Proof.
  unfold SetAckCursor, cursor. cbv zeta. wp0_next H1.
  assert (∀ c s, keys s = keys m.(srv) →
    wp0 (if bool_decide (c ≠ "") && negb (StreamIDLess c id) then Ret (Ok ())
         else rbind (wrapped "set ack cursor: " (call (SET (ackCursorKey u t) id ttl))) (λ _, Ret (Ok ())))
      (λ r m', r = Ok () ∧ keys m'.(srv) =
          if bool_decide (c = "" ∨ sid_lt (position c) (position id))
          then <[ackCursorKey u t := Entry (RStr id) (expiry ttl)]> (keys m.(srv)) else keys m.(srv))
      (Mem s (loc m) (clock m))) as Hgo.
  { intros c s' Hs. pose proof (StreamIDLess_spec c id) as Hless.
    destruct (bool_decide (c ≠ "") && negb (StreamIDLess c id)) eqn:Hc.
    - apply andb_prop in Hc as [Hne%bool_decide_eq_true Hnl%negb_true_iff].
      rewrite bool_decide_false; [done|]. rewrite <- Hless, Hnl. by intros [?|?].
    - wp0_next H2. destruct H2 as (->&Hk2&_). cbn. split; [done|]. cbn in Hk2. rewrite Hk2, Hs.
      rewrite bool_decide_true; [done|]. rewrite <- Hless. destruct (decide (c = "")); [by left|right].
      rewrite bool_decide_true in Hc by done. by destruct (StreamIDLess c id). }
  destruct (as_str _ _) as [[v|]|]; destruct H1 as (->&Hk1&_);
    cbn [bind fmap option_fmap option_map default]; [by apply Hgo| |done].
  cbn [wp0]. rewrite decide_True by done. by apply Hgo.
Qed.

Definition ack_all (u t : string) (ids : list string) (ttl : Z) : prog L (result ()) :=
  for_each_err ids (λ id, SetAckCursor u t id ttl).

(** [C21] Any sequence of acknowledgements of one user, in any order and with
    repeats, succeeds and leaves the cursor at one of them or where it was,
    never behind any of them nor behind where it was: the cursor only moves
    forward, and to the furthest ID acknowledged. *)
Theorem ack_furthest u t ids ttl c m :
  cursor (keys m.(srv)) (ackCursorKey u t) = Some c → "" ∉ ids →
  wp0 (ack_all u t ids ttl) (λ r m', r = Ok () ∧ ∃ c',
    cursor (keys m'.(srv)) (ackCursorKey u t) = Some c' ∧ c' ∈ c :: ids ∧
    (c = "" ∨ ¬ sid_lt (position c') (position c)) ∧
    ∀ id, id ∈ ids → ¬ sid_lt (position c') (position id)) m.
Proof.
  revert c m. unfold ack_all. induction ids as [|id ids IH]; intros c m Hc Hids; cbn [for_each_err].
  { split; [done|]. exists c. split_and!; [done|by left|right; auto with go|].
    by intros ? ?%not_elem_of_nil. }
  apply not_elem_of_cons in Hids as [Hid Hids]. apply wp0_rbind.
  eapply wp0_mono; [apply SetAckCursor_spec|]. cbv zeta. rewrite Hc. intros r m1 [-> Hm1].
  assert (cursor (keys (srv m1)) (ackCursorKey u t) =
    Some (if bool_decide (c = "" ∨ sid_lt (position c) (position id)) then id else c)) as Hc1.
  { rewrite Hm1. case_bool_decide; [|done]. unfold cursor. by rewrite as_str_insert. }
  eapply wp0_mono; [by apply (IH _ _ Hc1)|]. intros r m2 (->&c'&Hc'&Hin&Hle&Hall).
  split; [done|]. exists c'. case_bool_decide as Hd.
  - destruct Hle as [|Hle]; [done|]. split_and!; [done|by right| |].
    + destruct Hd as [|Hd]; [by left|right]. intros Hlt. apply Hle. by eapply sid_lt_trans.
    + intros id' [->|?]%elem_of_cons; auto.
  - apply Decidable.not_or in Hd as [Hd1 Hd2]. split_and!; [done|apply elem_of_cons in Hin; set_solver|done|].
    intros id' [->|?]%elem_of_cons; [|auto]. destruct Hle as [|Hle]; [done|].
    intros Hlt. destruct (sid_lt_total (position c) (position id)) as [|[E|Hgt]]; [done| |].
    + apply Hle. by rewrite E.
    + apply Hle. by eapply sid_lt_trans.
Qed.

(** Read and write are two round trips, so the order is only kept by a
    single writer: of two sockets of one user that acknowledge at once, the
    one with the lower ID can write last and rewind the cursor. *)
Theorem ack_race u t lo hi ttl m :
  sid_lt (position lo) (position hi) →
  as_str (keys m.(srv)) (ackCursorKey u t) = Some None →
  let '(ps, m') := srun [Step 0 Fine; Step 1 Fine; Step 1 Fine; Step 0 Fine]
    ([SetAckCursor u t lo ttl; SetAckCursor u t hi ttl], m) in
  ps = [Ret (Ok ()); Ret (Ok ())] ∧
  ∃ c, cursor (keys m'.(srv)) (ackCursorKey u t) = Some c ∧ sid_lt (position c) (position hi).
Proof.
  intros Hlt Hk. unfold SetAckCursor, get. cbv zeta.
  erewrite srun_redis by done. exec_step H1. rewrite Hk in H1. destruct H1 as (->&Hk1&_).
  cbn [bind list_insert]. rewrite decide_True by done.
  erewrite srun_redis by done. exec_step H2. cbn [srv] in H2. rewrite Hk1, Hk in H2.
  destruct H2 as (->&Hk2&_). cbn [bind list_insert]. rewrite decide_True by done.
  erewrite srun_redis by done. exec_step H3. destruct H3 as (->&Hk3&_).
  erewrite srun_redis by done. exec_step H4. destruct H4 as (->&Hk4&_).
  cbn. split; [done|]. exists lo. split; [|done]. unfold cursor. by rewrite Hk4, as_str_insert.
Qed.

(** The refcount and the active set are updated in separate round
    trips: a socket that opens while the user's previous one closes can be
    forgotten, leaving a connected user out of the active set. *)
Theorem conn_race u x m :
  as_str (keys m.(srv)) (countKey u) = Some (Some "1") →
  as_set (keys m.(srv)) activeKey = Some x →
  let '(ps, m') := srun [Step 0 Fine; Step 1 Fine; Step 1 Fine; Step 0 Fine; Step 0 Fine]
    ([RemoveConnection u; AddConnection u], m) in
  ps = [Ret (Ok ()); Ret (Ok ())] ∧
  as_str (keys m'.(srv)) (countKey u) = Some None ∧
  ∃ x', as_set (keys m'.(srv)) activeKey = Some x' ∧ u ∉ x'.
Proof.
  intros Hc Hx. unfold RemoveConnection, AddConnection.
  erewrite srun_redis by done. exec_step H1. rewrite Hc in H1. cbn in H1. destruct H1 as (->&Hk1&_).
  erewrite srun_redis by done. exec_step H2. cbn [srv] in H2. rewrite Hk1, as_str_insert in H2.
  cbn in H2. destruct H2 as (->&Hk2&_).
  assert (as_set (keys s0) activeKey = Some x) as Hx2.
  { rewrite Hk2, <- Hx. unfold as_set. by rewrite !lookup_insert_ne. }
  erewrite srun_redis by done. exec_step H3. cbn [srv] in H3. rewrite Hx2 in H3.
  destruct H3 as (->&Hk3&_).
  erewrite srun_redis by done. exec_step H4. destruct H4 as (->&Hk4&_).
  erewrite srun_redis by done. exec_step H5. cbn [srv] in *.
  assert (as_set (keys s2) activeKey = Some ({[u]} ∪ x)) as Hx4.
  { rewrite Hk4, <- (as_set_put (keys s0) activeKey), <- Hk3. by apply as_set_ext, lookup_delete_ne. }
  rewrite Hx4 in H5. destruct H5 as (->&Hk5&_). cbn. split; [done|]. rewrite Hk5. split.
  - unfold as_str. by rewrite lookup_put_set_ne, Hk4, lookup_delete_eq.
  - eexists. split; [apply as_set_put|]. set_solver.
Qed.
End store_spec.

(** A user or topic name with a colon in it shares its cursor with another
    pair. *)
Lemma ackCursorKey_shared u v t :
  ackCursorKey (u +:+ ":" +:+ v) t = ackCursorKey u (v +:+ ":" +:+ t).
Proof. unfold ackCursorKey. by rewrite <- !(assoc_L String.append). Qed.

(** ** Witnesses *)

Definition one_conn : mem server () :=
  Mem (Server {[ "conn:count:u" := Entry (RStr "1") None;
                 "activeConnections" := Entry (RSet {[ "u" ]}) None ]} [] 0) () 0.

Lemma fresh_counts : counts (keys fresh_server) (λ _, 0%nat).
Proof. split; [done|]. exists ∅. by split. Qed.

Lemma AddConnection_refines_witness :
  wp0 (AddConnection "u") (λ r m', r = Ok () ∧ counts (keys m'.(srv)) (upd (λ _, 0%nat) "u" 1%nat))
    (Mem fresh_server () 0).
Proof. by apply (AddConnection_refines (λ _, 0%nat) "u"); [apply fresh_counts|]. Defined.

Lemma RemoveConnection_refines_witness :
  wp0 (RemoveConnection "u") (λ r m', r = Ok () ∧ counts (keys m'.(srv)) (upd (λ _, 0%nat) "u" 0%nat))
    (Mem fresh_server () 0).
Proof. by apply (RemoveConnection_refines (λ _, 0%nat) "u"); [apply fresh_counts|]. Defined.

Lemma ack_furthest_witness :
  wp0 (ack_all "u" "t" ["9-0"; "10-0"; "9-5"] 0) (λ r m', r = Ok () ∧ ∃ c',
    cursor (keys m'.(srv)) (ackCursorKey "u" "t") = Some c' ∧ ¬ sid_lt (position c') (position "10-0"))
    (Mem fresh_server () 0).
Proof.
  eapply wp0_mono; [apply (ack_furthest "u" "t" ["9-0"; "10-0"; "9-5"] 0 "")|].
  - by vm_compute.
  - intros H. repeat (apply elem_of_cons in H as [H|H]; [done|]). by apply not_elem_of_nil in H.
  - intros r m' (->&c'&?&?&?&Hall). split; [done|]. exists c'. split; [done|]. apply Hall.
    right. by left.
Defined.

Lemma ack_race_witness :
  sid_lt (position "1-0") (position "2-0") ∧
  (srun [Step 0 Fine; Step 1 Fine; Step 1 Fine; Step 0 Fine]
    ([SetAckCursor "u" "t" "1-0" 0; SetAckCursor "u" "t" "2-0" 0], Mem fresh_server () 0)).1
    = [Ret (Ok ()); Ret (Ok ())].
Proof.
  assert (sid_lt (position "1-0") (position "2-0")) as Hlt by (left; done).
  split; [done|]. pose proof (ack_race "u" "t" "1-0" "2-0" 0 (Mem fresh_server () 0) Hlt eq_refl) as Hr.
  destruct (srun _ _). apply Hr.
Defined.

Lemma conn_race_witness :
  as_str (keys (srun [Step 0 Fine; Step 1 Fine; Step 1 Fine; Step 0 Fine; Step 0 Fine]
    ([RemoveConnection "u"; AddConnection "u"], one_conn)).2.(srv)) (countKey "u") = Some None.
Proof.
  pose proof (conn_race "u" {[ "u" ]} one_conn eq_refl eq_refl) as Hr.
  destruct (srun _ _). apply Hr.
Defined.
