(* ===== verification/RateLimit.v ===== *)
(** * Sliding-window rate limiter (internal/ratelimit/ratelimit.go)

    One sorted set per (bucket, user), a member per admitted request, trimmed
    and counted by a script. *)

From S2P Require Import Prelude GoStrings Redis RedisModel Prog StreamID.
Local Open Scope Z_scope.
Local Open Scope prog_scope.

(** Durations are in ns, as [time.Duration]. *)
Record Config : Type := { Window : Z; MaxRequests : Z }.

Definition second : Z := 1000000000.
Definition Milliseconds (d : Z) : Z := Z.quot d 1000000.

Definition DefaultMessageConfig (perSec : Z) : Config :=
  {| Window := second; MaxRequests := if perSec <=? 0 then 50 else perSec |}.

Definition DefaultJobConfig (perMin : Z) : Config :=
  {| Window := 60 * second; MaxRequests := if perMin <=? 0 then 30 else perMin |}.

Definition limit_key (bucket userKey : string) : string :=
  "rl:" +:+ bucket +:+ ":" +:+ userKey.

Definition rl_script (key : string) (now window limit : Z) (member : string) : script Z :=
  SCall (ZREMRANGEBYSCORE key (now - window)) (λ _,
  SCall (ZCARD key) (λ n,
  if limit <=? n then SRet 0
  else
    SCall (ZADD key now member) (λ _,
    SCall (PEXPIRE key window) (λ _,
    SRet 1)))).

(** [seq]: the [uint64] counter of the process. *)
Class HasSeq (L : Type) : Type := {
  get_seq : L → Z;
  set_seq : Z → L → L;
  get_set_seq n l : get_seq (set_seq n l) = n;
}.

#[export] Instance Z_seq : HasSeq Z :=
  {| get_seq := λ n, n; set_seq := λ n _, n; get_set_seq n l := eq_refl |}.

Section allow.
Context {L : Type} `{!HasSeq L}.

Definition seq_Add : prog L Z :=
  local_ (λ l, let n := (get_seq l + 1) mod 2 ^ 64 in (n, set_seq n l)).

Definition Allow (bucket userKey : string) (cfg : Config) : prog L (result bool) :=
  bind now (λ nowMs,
  bind seq_Add (λ n,
  let member := FormatInt nowMs +:+ "-" +:+ FormatUint n in
  let key := limit_key bucket userKey in
  allowed ←? wrapped "eval ratelimit: "
    (eval (rl_script key nowMs (Milliseconds cfg.(Window)) cfg.(MaxRequests) member));
  Ret (Ok (allowed =? 1)))).
End allow.

(** ** Reference: the log of admitted requests *)

Definition recent (w t : Z) (h : list Z) : list Z := filter (λ t', t - w < t') h.

(** Admit a request when fewer than [limit] were admitted in the [w] ms up to
    it. *)
Fixpoint ref_log (w limit : Z) (ts h : list Z) : list (Z * bool) :=
  match ts with
  | [] => []
  | t :: ts' =>
      let b := Z.of_nat (length (recent w t h)) <? limit in
      (t, b) :: ref_log w limit ts' (if b then t :: h else h)
  end.

(** The same with the members the script stores. *)
Definition in_window (w t : Z) (h : list (string * Z)) : list (string * Z) :=
  filter (λ p, t - w < p.2) h.

Definition admit_ref (w limit t : Z) (h : list (string * Z)) : bool :=
  Z.of_nat (length (in_window w t h)) <? limit.

Definition log_ref (w limit t : Z) (m : string) (h : list (string * Z)) : list (string * Z) :=
  if admit_ref w limit t h then (m, t) :: h else h.

Lemma length_in_window w t h : length (in_window w t h) = length (recent w t h.*2).
Proof.
  unfold in_window, recent. induction h as [|[m t'] h IH]; [done|].
  cbn [fmap list_fmap snd]. rewrite !filter_cons. cbn [snd]. case_decide; cbn; by rewrite ?IH.
Qed.

(** No span of [w] ms holds more than [limit] admitted requests. *)
Definition admitted (w T : Z) (l : list (Z * bool)) : nat :=
  length (filter (λ p : Z * bool, p.2 = true ∧ T - w < p.1 ≤ T) l).

Definition span (w T : Z) (h : list Z) : nat := length (filter (λ t, T - w < t ≤ T) h).

Lemma span_recent w T t h :
  t ≤ T → Forall (λ t', t' ≤ t) h → (span w T h ≤ length (recent w t h))%nat.
Proof.
  intros HT Hh. unfold span, recent. induction Hh as [|x h Hx _ IH]; [done|].
  rewrite !filter_cons. repeat case_decide; cbn; lia.
Qed.

Lemma ref_log_bound w limit ts h :
  0 ≤ limit → Sorted Z.le ts → (∀ t t', t ∈ ts → t' ∈ h → t' ≤ t) →
  (∀ T, Z.of_nat (span w T h) ≤ limit) →
  ∀ T, Z.of_nat (span w T h + admitted w T (ref_log w limit ts h)) ≤ limit.
Proof.
  intros Hlim Hs%(Sorted_StronglySorted Z.le). revert h.
  induction Hs as [|t ts Hs IH Hall]; intros h Hle Hspan T; cbn [ref_log].
  { specialize (Hspan T). unfold admitted. rewrite filter_nil. cbn [length]. lia. }
  cbv zeta.
  rewrite Forall_forall in Hall.
  assert (Forall (λ t', t' ≤ t) h) as Hh.
  { apply Forall_forall. intros t' Ht'. apply Hle; [by left|done]. }
  set (b := Z.of_nat (length (recent w t h)) <? limit).
  assert (∀ T', Z.of_nat (span w T' (if b then t :: h else h)) ≤ limit) as Hspan'.
  { intros T'. destruct b eqn:Hb; [|done]. apply Z.ltb_lt in Hb. unfold span. rewrite filter_cons.
    case_decide as Hd; [|apply Hspan]. cbn. pose proof (span_recent w T' t h ltac:(lia) Hh) as Hr.
    unfold span in Hr. lia. }
  ospecialize (IH (if b then t :: h else h) _ Hspan').
  { intros x y Hx Hy. destruct b; [|apply Hle; [by right|done]].
    apply elem_of_cons in Hy as [->|Hy]; [by apply Hall|apply Hle; [by right|done]]. }
  specialize (IH T). clear -IH. unfold admitted, span in *. rewrite filter_cons. cbn [fst snd].
  destruct b; [rewrite filter_cons in IH|].
  - do 2 case_decide; cbn [length] in *; try lia; naive_solver.
  - rewrite decide_False by (intros [? _]; done). done.
Qed.

(** ** The script refines the reference *)

Section refinement.
Context `{RedisServer Srv} `{!RedisLaws Srv} (key : string) (w limit : Z).

(** The set agrees with the log on everything recent, and does not expire
    before its newest entry leaves the window. *)
Record log_inv (t : Z) (h : list (string * Z)) (ks : keyspace) : Prop := {
  log_nodup : NoDup h.*1;
  log_past m t' : (m, t') ∈ h → t' ≤ t;
  log_set : ∃ z, as_zset ks key = Some z ∧
    ∀ m t', t - w < t' → (z !! m = Some t' ↔ (m, t') ∈ h);
  log_ttl e τ : ks !! key = Some e → e.(e_ttl) = Some τ → ∀ m t', (m, t') ∈ h → t' + w ≤ t + τ;
}.

Lemma log_inv_pass d t h ks :
  log_inv t h ks → log_inv (t + Z.of_N d) h (age (Z.of_N d) ks).
Proof.
  intros [Hnd Hpast (z&Hz&Hin) Httl]. assert (0 ≤ Z.of_N d) as Hd by lia.
  unfold age. split; [done|intros m t' Ht; specialize (Hpast _ _ Ht); lia| |].
  - unfold as_zset in *. rewrite lookup_omap.
    destruct (ks !! key) as [[v [τ|]]|] eqn:Hk; cbn.
    + unfold age_entry; cbn. destruct (Z.leb_spec τ (Z.of_N d)) as [Hle|Hgt]; cbn.
      * exists ∅. split; [done|]. intros m t' Ht. rewrite lookup_empty. split; [done|].
        intros Hm. specialize (Httl _ _ eq_refl eq_refl _ _ Hm). lia.
      * exists z. split; [done|]. intros m t' Ht. apply Hin. lia.
    + exists z. split; [done|]. intros m t' Ht. apply Hin. lia.
    + exists z. split; [done|]. intros m t' Ht. apply Hin. lia.
  - intros e τ. rewrite lookup_omap. destruct (ks !! key) as [[v [τ0|]]|] eqn:Hk; cbn; [|by intros [= <-]|done].
    unfold age_entry; cbn. destruct (Z.leb_spec τ0 (Z.of_N d)); [done|]. intros [= <-] [= <-] m t' Hm.
    specialize (Httl _ _ eq_refl eq_refl _ _ Hm). lia.
Qed.

(** What is left after trimming is as long as the recent log. *)
Lemma trimmed_size t h (z : gmap string Z) :
  NoDup h.*1 →
  (∀ m t', t - w < t' → z !! m = Some t' ↔ (m, t') ∈ h) →
  size (filter (λ p : string * Z, ¬ p.2 ≤ t - w) z) = length (in_window w t h).
Proof.
  intros Hnd Hz. rewrite <- length_map_to_list. apply Permutation_length.
  apply NoDup_Permutation.
  - apply NoDup_map_to_list.
  - apply NoDup_filter. by apply NoDup_fmap_1 in Hnd.
  - intros [m t']. unfold in_window. rewrite elem_of_map_to_list, map_lookup_filter_Some, list_elem_of_filter.
    cbn. split.
    + intros [Hm Ht]. split; [lia|]. apply Hz; [lia|done].
    + intros [Ht Hm]. split; [|lia]. by apply Hz.
Qed.

Lemma script_refines t m h s :
  0 < w → m ∉ h.*1 → log_inv t h (keys s) →
  let '(r, s') := run_script (rl_script key t w limit m) s in
  r = Ok (Zcount (admit_ref w limit t h)) ∧ log_inv t (log_ref w limit t m h) (keys s').
Proof.
  intros Hw Hm [Hnd Hpast (z&Hz&Hin) Httl]. cbn.
  exec_step H1. rewrite Hz in H1. destruct H1 as (->&Hk1&_).
  set (z1 := filter (λ p : string * Z, ¬ p.2 ≤ t - w) z) in *.
  exec_step H2. rewrite Hk1, as_zset_put in H2. destruct H2 as (->&Hk2&_).
  pose proof (trimmed_size t h z Hnd Hin) as Hsize. fold z1 in Hsize. rewrite Hsize.
  assert (∀ m' t', t - w < t' → z1 !! m' = Some t' ↔ (m', t') ∈ h) as Hin1.
  { intros m' t' Ht. rewrite <- Hin by done. unfold z1. rewrite map_lookup_filter_Some. cbn.
    split; [naive_solver|]. split; [done|lia]. }
  unfold log_ref, admit_ref. destruct (Z.leb_spec limit (Z.of_nat (length (in_window w t h)))) as [Hl|Hl].
  - rewrite (proj2 (Z.ltb_ge _ _)) by done. split; [done|]. rewrite Hk2.
    split; [done|done|exists z1; by rewrite as_zset_put|].
    intros e τ. unfold put_zset. case_decide; [by rewrite lookup_delete_eq|].
    rewrite lookup_insert_eq. intros [= <-]. cbn. unfold ttl_of.
    destruct (keys s !! key) as [e0|] eqn:Hk; cbn; [|done]. by apply Httl.
  - rewrite (proj2 (Z.ltb_lt _ _)) by done.
    cbn [run_script]. exec_step H3. rewrite Hk2, as_zset_put in H3. destruct H3 as (->&Hk3&_).
    exec_step H4.
    assert (∃ e, keys s2 !! key = Some (Entry (RZSet (<[m:=t]> z1)) e)) as [e He].
    { rewrite Hk3. unfold put_zset at 1. rewrite decide_False by apply insert_non_empty.
      rewrite lookup_insert_eq. by eexists. }
    rewrite He, (proj2 (Z.ltb_lt _ _)) in H4 by done. destruct H4 as (->&Hk4&_). cbn [e_val] in Hk4.
    split; [done|]. rewrite Hk4. split.
    + cbn. by constructor.
    + intros m' t' [[= -> ->]|?]%elem_of_cons; [lia|by eapply Hpast].
    + exists (<[m:=t]> z1). split; [unfold as_zset; by rewrite lookup_insert_eq|].
      intros m' t' Ht. rewrite elem_of_cons. destruct (decide (m' = m)) as [->|Hne].
      * rewrite lookup_insert_eq. split; [intros [= <-]; by left|].
        intros [[= ->]|Hh]; [done|]. destruct Hm. apply list_elem_of_fmap. by exists (m, t').
      * rewrite lookup_insert_ne by done. rewrite Hin1 by done. naive_solver.
    + intros e' τ. rewrite lookup_insert_eq. intros [= <-] [= <-] m' t' [[= -> ->]|Hh]%elem_of_cons; [lia|].
      specialize (Hpast _ _ Hh). lia.
Qed.
End refinement.

(** ** Requests of one process *)

Section requests.
Context `{RedisServer Srv} `{!RedisLaws Srv} {L : Type} `{!HasSeq L}.
Implicit Types (m : mem Srv L).

(** One request every [d] ms, each answered before the next. *)
Fixpoint serve (bucket u : string) (cfg : Config) (ds : list N) m : list (Z * result bool) :=
  match ds with
  | [] => []
  | d :: ds' =>
      let '(r, m') := outcome (Allow bucket u cfg) [] (pass d m) in
      (m.(clock) + Z.of_N d, r) :: serve bucket u cfg ds' m'
  end.

(** The instants of the requests. *)
Fixpoint instants (t : Z) (ds : list N) : list Z :=
  match ds with
  | [] => []
  | d :: ds' => (t + Z.of_N d) :: instants (t + Z.of_N d) ds'
  end.

Lemma instants_sorted t ds : Sorted Z.le (instants t ds) ∧ ∀ x, x ∈ instants t ds → t ≤ x.
Proof.
  revert t. induction ds as [|d ds IH]; intros t; cbn.
  { split; [constructor|]. by intros x ?%not_elem_of_nil. }
  destruct (IH (t + Z.of_N d)) as [Hs Hle]. split.
  - constructor; [done|]. destruct ds; cbn in *; constructor. lia.
  - intros x [->|Hx]%elem_of_cons; [lia|]. specialize (Hle _ Hx). lia.
Qed.

Definition member (t n : Z) : string := FormatInt t +:+ "-" +:+ FormatUint n.

Lemma member_inj t n t' n' :
  0 ≤ t → 0 ≤ t' → 0 ≤ n ≤ max_uint64 → 0 ≤ n' ≤ max_uint64 → member t n = member t' n' → n = n'.
Proof.
  intros Ht Ht' Hn Hn' E. unfold member, FormatInt in E.
  rewrite !(proj2 (Z.ltb_ge _ _)) in E by done.
  change (format_sid (t, n) = format_sid (t', n')) in E.
  apply (f_equal (λ s, CutByte s "-")) in E. rewrite !CutByte_format_sid in E. injection E as _ E.
  cbn [snd] in E. apply (f_equal ParseUint) in E. rewrite !ParseUint_FormatUint in E by done. by injection E.
Qed.

(** Every stored member carries one of the counter values already used. *)
Definition used (n0 : Z) (j : nat) (h : list (string * Z)) : Prop :=
  ∀ x, x ∈ h.*1 → ∃ t (i : nat), x = member t ((n0 + Z.of_nat i) mod 2 ^ 64) ∧ 0 ≤ t ∧ (1 ≤ i ≤ j)%nat.

Lemma used_fresh n0 j h t :
  used n0 j h → Z.of_nat j < 2 ^ 64 - 1 → 0 ≤ t →
  member t ((n0 + Z.of_nat (S j)) mod 2 ^ 64) ∉ h.*1.
Proof.
  intros Hu Hj Ht Hin. apply Hu in Hin as (t'&i&E&Ht'&Hi).
  assert (∀ z, 0 ≤ z mod 2 ^ 64 ≤ max_uint64) as Hr.
  { intros z. pose proof (Z.mod_pos_bound z (2 ^ 64) eq_refl). unfold max_uint64. lia. }
  apply member_inj in E; [|done..]. 
  pose proof (Z.div_mod (n0 + Z.of_nat (S j)) (2 ^ 64) ltac:(done)).
  pose proof (Z.div_mod (n0 + Z.of_nat i) (2 ^ 64) ltac:(done)). nia.
Qed.

(** One request, from a log to the next. *)
Lemma Allow_step bucket u cfg n0 j h m :
  let key := limit_key bucket u in let w := Milliseconds cfg.(Window) in
  0 < w → 0 ≤ m.(clock) → Z.of_nat j < 2 ^ 64 - 1 →
  log_inv key w m.(clock) h (keys m.(srv)) → used n0 j h →
  get_seq m.(loc) mod 2 ^ 64 = (n0 + Z.of_nat j) mod 2 ^ 64 →
  let b := admit_ref w cfg.(MaxRequests) m.(clock) h in
  ∃ m' x, outcome (Allow bucket u cfg) [] m = (Ok b, m') ∧ m'.(clock) = m.(clock) ∧
    let h' := log_ref w cfg.(MaxRequests) m.(clock) x h in
    log_inv key w m.(clock) h' (keys m'.(srv)) ∧ used n0 (S j) h' ∧
    get_seq m'.(loc) mod 2 ^ 64 = (n0 + Z.of_nat (S j)) mod 2 ^ 64.
Proof.
  intros key w Hw Hc Hj Hinv Hu Hseq b.
  set (n := (get_seq m.(loc) + 1) mod 2 ^ 64).
  assert (n = (n0 + Z.of_nat (S j)) mod 2 ^ 64) as Hn.
  { unfold n. rewrite <- Zplus_mod_idemp_l, Hseq, Zplus_mod_idemp_l. f_equal. lia. }
  set (x := member m.(clock) n).
  assert (x ∉ h.*1) as Hx by (unfold x; rewrite Hn; by apply used_fresh).
  pose proof (script_refines key w cfg.(MaxRequests) m.(clock) x h m.(srv) Hw Hx Hinv) as Hs.
  unfold outcome, Allow. cbn -[rl_script run_script]. fold key w n x. unfold with_srv, deliver.
  cbn -[rl_script run_script]. destruct (run_script _ (srv m)) as [r s']. destruct Hs as [-> Hlog].
  exists (Mem s' (set_seq n m.(loc)) m.(clock)), x.
  split; [|split; [done|split; [exact Hlog|split]]].
  - cbn. unfold b. by destruct (admit_ref _ _ _ _).
  - intros y Hy. unfold log_ref in Hy. destruct (admit_ref _ _ _ _); [apply elem_of_cons in Hy as [->|Hy]|].
    + exists m.(clock), (S j). rewrite <- Hn. split_and!; [done|done|lia|lia].
    + destruct (Hu _ Hy) as (t&i&?&?&?). exists t, i. split_and!; [done|done|lia|lia].
    + destruct (Hu _ Hy) as (t&i&?&?&?). exists t, i. split_and!; [done|done|lia|lia].
  - cbn. rewrite get_set_seq, Hn. by rewrite Z.mod_mod.
Qed.

Lemma serve_log bucket u cfg ds n0 j h m :
  let w := Milliseconds cfg.(Window) in
  0 < w → 0 ≤ m.(clock) → Z.of_nat (j + length ds) < 2 ^ 64 →
  log_inv (limit_key bucket u) w m.(clock) h (keys m.(srv)) → used n0 j h →
  get_seq m.(loc) mod 2 ^ 64 = (n0 + Z.of_nat j) mod 2 ^ 64 →
  serve bucket u cfg ds m =
    (λ p, (p.1, Ok p.2)) <$> ref_log w cfg.(MaxRequests) (instants m.(clock) ds) h.*2.
Proof.
  intros w Hw. revert j h m. induction ds as [|d ds IH]; intros j h m Hc Hlen Hinv Hu Hseq; [done|].
  cbn [length] in Hlen. cbn [serve instants ref_log].
  destruct (Allow_step bucket u cfg n0 j h (pass d m)) as (m'&x&->&Hc'&Hinv'&Hu'&Hseq');
    [done|cbn; lia|lia|cbn; rewrite law_elapse_keys; by apply log_inv_pass|done|done|].
  unfold admit_ref, log_ref in *. fold w in Hinv', Hu' |- *. cbn [clock pass] in *.
  unfold admit_ref in *. rewrite length_in_window in *. cbn [fmap list_fmap fst snd]. f_equal.
  rewrite <- Hc' in Hinv' at 1. erewrite (IH (S j)); [|lia|lia|exact Hinv'|exact Hu'|done]. rewrite Hc'.
  by destruct (Z.of_nat _ <? _).
Qed.

Lemma log_inv_missing key w t ks : ks !! key = None → log_inv key w t [] ks.
Proof.
  intros Hk. split; [constructor|by intros ? ? ?%not_elem_of_nil| |by rewrite Hk].
  exists ∅. unfold as_zset. rewrite Hk. split; [done|]. intros. by rewrite lookup_empty, elem_of_nil.
Qed.

(** [C17] The script decides every request as the reference log does: admit it
    when fewer than the limit were admitted in the window up to it.  Neither
    the trimming, nor the expiry of the key, nor requests of one millisecond
    make a difference. *)
Theorem Allow_refines_log bucket u cfg ds m :
  0 < Milliseconds cfg.(Window) → 0 ≤ m.(clock) → Z.of_nat (length ds) < 2 ^ 64 →
  keys m.(srv) !! limit_key bucket u = None →
  serve bucket u cfg ds m =
    (λ p, (p.1, Ok p.2)) <$>
      ref_log (Milliseconds cfg.(Window)) cfg.(MaxRequests) (instants m.(clock) ds) [].
Proof.
  intros. apply (serve_log _ _ _ _ (get_seq m.(loc)) 0 []); [done|done|done|by apply log_inv_missing| |].
  - by intros ? ?%not_elem_of_nil.
  - by rewrite Z.add_0_r.
Qed.

(** However the requests of one process are spaced, no span of a window's
    length, aligned or not, holds more admitted requests than the limit. *)
Theorem Allow_bound bucket u cfg ds m T :
  0 < Milliseconds cfg.(Window) → 0 ≤ cfg.(MaxRequests) → 0 ≤ m.(clock) →
  Z.of_nat (length ds) < 2 ^ 64 → keys m.(srv) !! limit_key bucket u = None →
  Z.of_nat (length (filter (λ p : Z * result bool,
    p.2 = Ok true ∧ T - Milliseconds cfg.(Window) < p.1 ≤ T) (serve bucket u cfg ds m)))
  ≤ cfg.(MaxRequests).
Proof.
  intros Hw Hlim Hc Hlen Hk.
  rewrite (serve_log _ _ _ _ (get_seq m.(loc)) 0 []);
    [|done|done|done|by apply log_inv_missing|by intros ? ?%not_elem_of_nil|by rewrite Z.add_0_r].
  set (w := Milliseconds cfg.(Window)).
  pose proof (ref_log_bound w cfg.(MaxRequests) (instants m.(clock) ds) [] Hlim) as Hb.
  ospecialize (Hb _ _ _ T); [apply instants_sorted|by intros ? ? ? ?%not_elem_of_nil|done|].
  unfold admitted, span in Hb. rewrite filter_nil in Hb. cbn [length] in Hb.
  rewrite filter_fmap, length_fmap. erewrite list_filter_iff; [exact Hb|].
  intros [t []]; cbn; naive_solver.
Qed.
End requests.

(** The set after one script that admits. *)
Lemma script_admits `{RedisServer Srv} `{!RedisLaws Srv} key t w limit x s z :
  as_zset (keys s) key = Some z → (∀ y t', z !! y = Some t' → t - w < t') → 0 < w →
  Z.of_nat (size z) < limit →
  (run_script (rl_script key t w limit x) s).1 = Ok 1 ∧
  as_zset (keys (run_script (rl_script key t w limit x) s).2) key = Some (<[x := t]> z).
Proof.
  intros Hz Hall Hw Hsize. cbn. exec_step H1. rewrite Hz in H1. destruct H1 as (->&Hk1&_).
  rewrite map_filter_id in Hk1 by (intros y t' Hy; cbn; specialize (Hall _ _ Hy); lia).
  exec_step H2. rewrite Hk1, as_zset_put in H2. destruct H2 as (->&Hk2&_).
  rewrite (proj2 (Z.leb_gt _ _)) by done. cbn [run_script].
  exec_step H3. rewrite Hk2, as_zset_put in H3. destruct H3 as (->&Hk3&_).
  exec_step H4. assert (as_zset (keys s2) key = Some (<[x:=t]> z)) as Hz2 by (by rewrite Hk3, as_zset_put).
  unfold as_zset in Hz2. destruct (keys s2 !! key) as [[v e]|]; [|injection Hz2 as Hz2; by destruct (insert_non_empty z x t)].
  rewrite (proj2 (Z.ltb_lt _ _)) in H4 by done. destruct H4 as (->&Hk4&_). cbn in *.
  split; [done|]. unfold as_zset. rewrite Hk4, lookup_insert_eq. cbn. by destruct v.
Qed.

(** The counter that tells requests of one millisecond apart belongs to
    one process.  Two processes whose counters agree write the same member, so
    the second request is admitted without being counted and a limit of two
    admits three. *)
Theorem seq_collision `{RedisServer Srv} `{!RedisLaws Srv} bucket u (m : mem Srv Z) cfg :
  cfg.(MaxRequests) = 2 → 0 < Milliseconds cfg.(Window) →
  keys m.(srv) !! limit_key bucket u = None →
  let '(r1, m1) := outcome (Allow bucket u cfg) [] m in
  let other := Mem m1.(srv) m.(loc) m1.(clock) in
  let '(r2, m2) := outcome (Allow bucket u cfg) [] other in
  let '(r3, _) := outcome (Allow bucket u cfg) [] m2 in
  r1 = Ok true ∧ r2 = Ok true ∧ r3 = Ok true.
Proof.
  intros Hlim Hw Hk. set (w := Milliseconds cfg.(Window)) in *.
  set (x := member m.(clock) ((m.(loc) + 1) mod 2 ^ 64)).
  assert (as_zset (keys m.(srv)) (limit_key bucket u) = Some ∅) as Hz0 by (unfold as_zset; by rewrite Hk).
  destruct (script_admits _ m.(clock) w 2 x _ _ Hz0) as [Hr1 Hz1]; [by intros ??; rewrite lookup_empty|done|done|].
  unfold outcome, Allow. rewrite Hlim. cbn -[rl_script run_script]. fold x w. unfold with_srv, deliver.
  cbn -[rl_script run_script].
  destruct (run_script _ (srv m)) as [r1 s1]. cbn [fst snd] in *. subst r1. cbn -[rl_script run_script].
  unfold with_srv, deliver. cbn -[rl_script run_script]. fold x w.
  destruct (script_admits _ m.(clock) w 2 x _ _ Hz1) as [Hr2 Hz2];
    [intros ??; rewrite lookup_insert_Some, lookup_empty; naive_solver lia|done|by rewrite map_size_insert_None|].
  destruct (run_script _ s1) as [r2 s2]. cbn [fst snd] in *. subst r2. cbn -[rl_script run_script].
  unfold with_srv, deliver. cbn -[rl_script run_script]. fold w.
  rewrite insert_insert_eq in Hz2.
  destruct (script_admits _ m.(clock) w 2 (member m.(clock) (((m.(loc) + 1) mod 2 ^ 64 + 1) mod 2 ^ 64)) _ _ Hz2)
    as [Hr3 _];
    [intros ??; rewrite lookup_insert_Some, lookup_empty; naive_solver lia|done|by rewrite map_size_insert_None|].
  unfold member in Hr3. destruct (run_script _ s2) as [r3 s3]. cbn [fst snd] in *. by subst r3.
Qed.

(** ** Witnesses *)

Definition two_per_sec : Config := {| Window := second; MaxRequests := 2 |}.

Lemma Allow_refines_log_witness :
  serve "ws" "u" two_per_sec [0%N; 0%N; 0%N; 1000%N] (Mem fresh_server 0 5) =
    (λ p, (p.1, Ok p.2)) <$> ref_log 1000 2 [5; 5; 5; 1005] [].
Proof. by apply (Allow_refines_log "ws" "u" two_per_sec [0%N; 0%N; 0%N; 1000%N] (Mem fresh_server 0 5)). Defined.

Lemma Allow_bound_witness :
  Z.of_nat (length (filter (λ p : Z * result bool, p.2 = Ok true ∧ 1100 - 1000 < p.1 ≤ 1100)
    (serve "ws" "u" two_per_sec [900%N; 90%N; 20%N; 1%N] (Mem fresh_server 0 0)))) ≤ 2.
Proof. by apply (Allow_bound "ws" "u" two_per_sec [900%N; 90%N; 20%N; 1%N] (Mem fresh_server 0 0) 1100). Defined.

Lemma seq_collision_witness :
  let m := Mem fresh_server 0 0 in
  let m1 := (outcome (Allow "ws" "u" two_per_sec) [] m).2 in
  let m2 := (outcome (Allow "ws" "u" two_per_sec) [] (Mem m1.(srv) 0 m1.(clock))).2 in
  (outcome (Allow "ws" "u" two_per_sec) [] m2).1 = Ok true.
Proof.
  cbv zeta. pose proof (seq_collision "ws" "u" (Mem fresh_server 0 0) two_per_sec) as Hc.
  destruct (outcome _ _ (Mem fresh_server 0 0)) as [r1 m1]. cbn [loc fst snd] in *.
  destruct (outcome _ _ (Mem (srv m1) 0 (clock m1))) as [r2 m2]. cbn [fst snd] in *.
  destruct (outcome _ _ m2) as [r3 m3]. by apply Hc.
Defined.
