(* ===== verification/Json.v ===== *)
(** * The parts of [encoding/json] the server uses

    A value is its syntax tree with string and number literals kept as
    written, so a [json.RawMessage] is such a tree: [json.Marshal] compacts
    one, and the tree is what compaction keeps.  [quote] and [unquote] are the
    encoding of a Go string.  Strings are valid UTF-8 throughout, as everything
    the server stores was decoded from JSON first; replacing invalid bytes by
    U+FFFD is not modelled, nor the nesting limit of 10000. *)

From S2P Require Import Prelude GoStrings.
Local Open Scope Z_scope.

Definition code (c : ascii) : Z := Z.of_N (N_of_ascii c).
Definition char (n : Z) : ascii := ascii_of_N (Z.to_N n).
Definition dquote : ascii := char 34.
Definition backslash : ascii := char 92.

(** ** String literals, token by token *)

Inductive jchar : Type :=
| Lit (c : ascii)
| Esc (c : ascii)
| Uni (a b c d : ascii).

#[export] Instance jchar_eq_dec : EqDecision jchar.
Proof. solve_decision. Defined.

Definition print_jchar (t : jchar) (rest : string) : string :=
  match t with
  | Lit c => String c rest
  | Esc c => String backslash (String c rest)
  | Uni a b c d => String backslash (String "u"%char (String a (String b (String c (String d rest)))))
  end.

(** The literal with its closing quote, followed by [rest]. *)
Fixpoint print_jstr (r : list jchar) (rest : string) : string :=
  match r with
  | [] => String dquote rest
  | t :: r' => print_jchar t (print_jstr r' rest)
  end.

Definition hex_val (c : ascii) : option Z :=
  let n := code c in
  if bool_decide (48 ≤ n ≤ 57) then Some (n - 48)
  else if bool_decide (97 ≤ n ≤ 102) then Some (n - 87)
  else if bool_decide (65 ≤ n ≤ 70) then Some (n - 55)
  else None.

Definition hex4 (a b c d : ascii) : option Z :=
  a ← hex_val a; b ← hex_val b; c ← hex_val c; d ← hex_val d;
  Some (((a * 16 + b) * 16 + c) * 16 + d).

Definition esc_char (c : ascii) : option ascii :=
  if decide (c = dquote) then Some c
  else if decide (c = backslash) then Some c
  else if decide (c = "/"%char) then Some c
  else if decide (c = "b"%char) then Some (char 8)
  else if decide (c = "f"%char) then Some (char 12)
  else if decide (c = "n"%char) then Some (char 10)
  else if decide (c = "r"%char) then Some (char 13)
  else if decide (c = "t"%char) then Some (char 9)
  else None.

Definition lit_ok (c : ascii) : bool :=
  bool_decide (c ≠ dquote) && bool_decide (c ≠ backslash) && bool_decide (32 ≤ code c).

Definition jchar_ok (t : jchar) : bool :=
  match t with
  | Lit c => lit_ok c
  | Esc c => bool_decide (is_Some (esc_char c))
  | Uni a b c d => bool_decide (is_Some (hex4 a b c d))
  end.

(** The scanner, after the opening quote. *)
Fixpoint scan_jstr (s : string) : option (list jchar * string) :=
  match s with
  | EmptyString => None
  | String c s1 =>
      if decide (c = dquote) then Some ([], s1)
      else if decide (c = backslash) then
        match s1 with
        | EmptyString => None
        | String e s2 =>
            if decide (e = "u"%char) then
              match s2 with
              | String a (String b (String c' (String d s3))) =>
                  if jchar_ok (Uni a b c' d)
                  then '(r, rest) ← scan_jstr s3; Some (Uni a b c' d :: r, rest)
                  else None
              | _ => None
              end
            else if jchar_ok (Esc e) then '(r, rest) ← scan_jstr s2; Some (Esc e :: r, rest)
            else None
        end
      else if lit_ok c then '(r, rest) ← scan_jstr s1; Some (Lit c :: r, rest)
      else None
  end.

Lemma scan_print_jstr r rest :
  forallb jchar_ok r = true → scan_jstr (print_jstr r rest) = Some (r, rest).
Proof.
  induction r as [|t r IH]; [done|]. intros [Ht Hr]%andb_prop. specialize (IH Hr).
  destruct t as [c|c|a b c d]; cbn [print_jstr print_jchar scan_jstr].
  - pose proof Ht as Hl. cbn in Ht. unfold lit_ok in Ht. rewrite !andb_true_iff, !bool_decide_eq_true in Ht.
    destruct Ht as [[??]?]. rewrite !decide_False by done. cbn in Hl. by rewrite Hl, IH.
  - rewrite decide_False, decide_True by done. destruct (decide (c = "u"%char)) as [->|]; [done|].
    by rewrite Ht, IH.
  - rewrite decide_False, decide_True by done. cbn [decide]. rewrite decide_True by done. by rewrite Ht, IH.
Qed.

(** *** Go strings *)

(** UTF-8 of a code point. *)
Definition utf8 (r : Z) : string :=
  if r <? 128 then String (char r) ""
  else if r <? 2048 then String (char (192 + r / 64)) (String (char (128 + r mod 64)) "")
  else if r <? 65536 then
    String (char (224 + r / 4096)) (String (char (128 + r / 64 mod 64)) (String (char (128 + r mod 64)) ""))
  else
    String (char (240 + r / 262144)) (String (char (128 + r / 4096 mod 64))
      (String (char (128 + r / 64 mod 64)) (String (char (128 + r mod 64)) ""))).

Definition replacement : Z := 65533.
Definition is_surrogate (r : Z) : bool := (55296 <=? r) && (r <? 57344).

(** A surrogate pair is one code point; a lone half is U+FFFD. *)
Fixpoint unquote (r : list jchar) : string :=
  match r with
  | [] => ""
  | Lit c :: r' => String c (unquote r')
  | Esc c :: r' => String (default c (esc_char c)) (unquote r')
  | Uni a b c d :: r' =>
      let hi := default 0 (hex4 a b c d) in
      if is_surrogate hi then
        match r' with
        | Uni a' b' c' d' :: r'' =>
            let lo := default 0 (hex4 a' b' c' d') in
            if (hi <? 56320) && (56320 <=? lo) && (lo <? 57344)
            then utf8 ((hi - 55296) * 1024 + (lo - 56320) + 65536) +:+ unquote r''
            else utf8 replacement +:+ unquote r'
        | _ => utf8 replacement +:+ unquote r'
        end
      else utf8 hi +:+ unquote r'
  end.

Definition hex_digit (n : Z) : ascii := if n <? 10 then char (48 + n) else char (87 + n).

(** The escape of one byte, with the HTML-sensitive ones of [json.Marshal]. *)
Definition quote_char (c : ascii) : jchar :=
  if decide (c = dquote) then Esc c
  else if decide (c = backslash) then Esc c
  else if decide (c = char 8) then Esc "b"%char
  else if decide (c = char 12) then Esc "f"%char
  else if decide (c = char 10) then Esc "n"%char
  else if decide (c = char 13) then Esc "r"%char
  else if decide (c = char 9) then Esc "t"%char
  else if bool_decide (code c < 32) || bool_decide (c ∈ ["<"; ">"; "&"]%char) then
    Uni "0"%char "0"%char (hex_digit (code c / 16)) (hex_digit (code c mod 16))
  else Lit c.

(** U+2028 and U+2029, three bytes each, are escaped as well. *)
Definition line_sep (c1 c2 c3 : ascii) : option jchar :=
  if decide (c1 = char 226 ∧ c2 = char 128 ∧ c3 = char 168) then Some (Uni "2"%char "0"%char "2"%char "8"%char)
  else if decide (c1 = char 226 ∧ c2 = char 128 ∧ c3 = char 169) then Some (Uni "2"%char "0"%char "2"%char "9"%char)
  else None.

Fixpoint quote (s : string) : list jchar :=
  match s with
  | EmptyString => []
  | String c1 s1 =>
      match s1 with
      | String c2 (String c3 s3) =>
          match line_sep c1 c2 c3 with
          | Some t => t :: quote s3
          | None => quote_char c1 :: quote s1
          end
      | _ => quote_char c1 :: quote s1
      end
  end.

(** Compacting a [RawMessage] escapes the same characters in its literals. *)
Fixpoint escape_html (r : list jchar) : list jchar :=
  match r with
  | [] => []
  | t :: r' =>
      match r with
      | Lit c1 :: Lit c2 :: Lit c3 :: r3 =>
          match line_sep c1 c2 c3 with
          | Some u => u :: escape_html r3
          | None => (if bool_decide (c1 ∈ ["<"; ">"; "&"]%char) then quote_char c1 else t) :: escape_html r'
          end
      | Lit c1 :: _ =>
          (if bool_decide (c1 ∈ ["<"; ">"; "&"]%char) then quote_char c1 else t) :: escape_html r'
      | _ => t :: escape_html r'
      end
  end.

(** [unquote] after [quote]: by the 256 bytes for [quote_char]. *)
Lemma unquote_quote_char c r : unquote (quote_char c :: r) = String c (unquote r).
Proof.
  assert (∀ c, unquote [quote_char c] = String c "") as H.
  { clear. intros [[] [] [] [] [] [] [] []]; vm_compute; reflexivity. }
  specialize (H c). destruct (quote_char c) as [x|x|x y z w] eqn:E; cbn in *.
  - congruence.
  - congruence.
  - assert (is_surrogate (default 0 (hex4 x y z w)) = false) as Hs.
    { assert (match quote_char c with Uni x y z w => is_surrogate (default 0 (hex4 x y z w)) | _ => false end = false) as Hq.
      { destruct c as [[] [] [] [] [] [] [] []]; vm_compute; reflexivity. }
      by rewrite E in Hq. }
    rewrite Hs in *. assert (∀ u s, u +:+ "" = String c "" → u +:+ s = String c s) as Happ.
    { clear. intros u s E. rewrite string_app_nil_r in E. by rewrite E. }
    by apply Happ.
Qed.

Lemma unquote_line_sep c1 c2 c3 t r :
  line_sep c1 c2 c3 = Some t → unquote (t :: r) = String c1 (String c2 (String c3 (unquote r))).
Proof. unfold line_sep. intros H. repeat case_decide; by destruct_and?; simplify_eq. Qed.

Lemma unquote_quote s : unquote (quote s) = s.
Proof.
  induction s as [[|c1 [|c2 [|c3 s]]] IH] using string_len_ind; [done| | |]; cbn [quote].
  - by rewrite unquote_quote_char.
  - by rewrite !unquote_quote_char.
  - destruct (line_sep c1 c2 c3) eqn:E.
    + rewrite (unquote_line_sep _ _ _ _ _ E). rewrite IH; [done|cbn; lia].
    + rewrite unquote_quote_char. f_equal. apply (IH (String c2 (String c3 s))). cbn; lia.
Qed.

Lemma quote_ok s : forallb jchar_ok (quote s) = true.
Proof.
  assert (∀ c, jchar_ok (quote_char c) = true) as Hc.
  { intros [[] [] [] [] [] [] [] []]; vm_compute; reflexivity. }
  induction s as [[|c1 [|c2 [|c3 s]]] IH] using string_len_ind; [done| | |]; cbn [quote forallb].
  - by rewrite Hc.
  - by rewrite !Hc.
  - destruct (line_sep c1 c2 c3) eqn:E; cbn [forallb].
    + unfold line_sep in E. rewrite IH, andb_true_r by (cbn; lia). repeat case_decide; by simplify_eq.
    + rewrite Hc. apply (IH (String c2 (String c3 s))). cbn; lia.
Qed.

(** ** Values *)

Inductive json : Type :=
| JNull
| JBool (b : bool)
| JNum (lit : string)
| JStr (r : list jchar)
| JArr (l : list json)
| JObj (fs : list (list jchar * json)).

(** A Go string as a value. *)
Definition jstring (s : string) : json := JStr (quote s).

(** [-?(0|[1-9][0-9]* )(\.[0-9]+)?([eE][+-]?[0-9]+)?] *)
Fixpoint skip_digits (s : string) : string :=
  match s with
  | String c s' => if is_digit c then skip_digits s' else s
  | EmptyString => EmptyString
  end.

Definition digits1 (s : string) : option string :=
  match s with
  | String c s' => if is_digit c then Some (skip_digits s') else None
  | EmptyString => None
  end.

Definition num_int (s : string) : option string :=
  match s with
  | String c s' => if decide (c = "0"%char) then Some s' else digits1 s
  | EmptyString => None
  end.

Definition num_frac (s : string) : option string :=
  match s with
  | String c s' => if decide (c = "."%char) then digits1 s' else Some s
  | EmptyString => Some s
  end.

Definition num_exp (s : string) : option string :=
  match s with
  | String c s' =>
      if bool_decide (c = "e"%char ∨ c = "E"%char) then
        match s' with
        | String d s'' => if bool_decide (d = "+"%char ∨ d = "-"%char) then digits1 s'' else digits1 s'
        | EmptyString => None
        end
      else Some s
  | EmptyString => Some s
  end.

Definition num_ok (s : string) : bool :=
  let s := match s with String c s' => if decide (c = "-"%char) then s' else s | _ => s end in
  bool_decide ((s ← num_int s; s ← num_frac s; num_exp s) = Some EmptyString).

(** The bytes a number can be made of. *)
Definition num_char (c : ascii) : bool :=
  is_digit c || bool_decide (c ∈ ["+"; "-"; "."; "e"; "E"]%char).

Fixpoint span_num (s : string) : string * string :=
  match s with
  | String c s' => if num_char c then let '(a, b) := span_num s' in (String c a, b) else (EmptyString, s)
  | EmptyString => (EmptyString, EmptyString)
  end.

(** [json.Marshal] of a tree, without spaces. *)
Fixpoint print (j : json) (rest : string) : string :=
  match j with
  | JNull => "null" +:+ rest
  | JBool true => "true" +:+ rest
  | JBool false => "false" +:+ rest
  | JNum lit => lit +:+ rest
  | JStr r => String dquote (print_jstr r rest)
  | JArr l =>
      String "["%char
        (match l with
         | [] => String "]"%char rest
         | v :: l' => print v
             ((fix go l := match l with
                | [] => String "]"%char rest
                | v :: l' => String ","%char (print v (go l'))
                end) l')
         end)
  | JObj fs =>
      String "{"%char
        (match fs with
         | [] => String "}"%char rest
         | (k, v) :: fs' => String dquote (print_jstr k (String ":"%char (print v
             ((fix go fs := match fs with
                | [] => String "}"%char rest
                | (k, v) :: fs' =>
                    String ","%char (String dquote (print_jstr k (String ":"%char (print v (go fs')))))
                end) fs'))))
         end)
  end.

Definition is_space (c : ascii) : bool := bool_decide (code c ∈ [32; 9; 10; 13]).

Fixpoint skip_ws (s : string) : string :=
  match s with
  | String c s' => if is_space c then skip_ws s' else s
  | EmptyString => EmptyString
  end.

Fixpoint parse_value (n : nat) (s : string) : option (json * string) :=
  match n with
  | O => None
  | S n =>
      match skip_ws s with
      | EmptyString => None
      | String c s1 =>
          if decide (c = dquote) then '(r, rest) ← scan_jstr s1; Some (JStr r, rest)
          else if decide (c = "["%char) then
            match skip_ws s1 with
            | String d s2 =>
                if decide (d = "]"%char) then Some (JArr [], s2)
                else '(v, s3) ← parse_value n s1; '(l, s4) ← parse_elems n s3; Some (JArr (v :: l), s4)
            | EmptyString => None
            end
          else if decide (c = "{"%char) then
            match skip_ws s1 with
            | String d s2 =>
                if decide (d = "}"%char) then Some (JObj [], s2)
                else '(f, s3) ← parse_field n s1; '(l, s4) ← parse_fields n s3; Some (JObj (f :: l), s4)
            | EmptyString => None
            end
          else if num_char c then
            let '(lit, rest) := span_num (String c s1) in
            if num_ok lit then Some (JNum lit, rest) else None
          else
            match CutPrefix (String c s1) "null", CutPrefix (String c s1) "true", CutPrefix (String c s1) "false" with
            | Some rest, _, _ => Some (JNull, rest)
            | _, Some rest, _ => Some (JBool true, rest)
            | _, _, Some rest => Some (JBool false, rest)
            | None, None, None => None
            end
      end
  end
with parse_elems (n : nat) (s : string) : option (list json * string) :=
  match n with
  | O => None
  | S n =>
      match skip_ws s with
      | String c s1 =>
          if decide (c = ","%char) then
            '(v, s2) ← parse_value n s1; '(l, s3) ← parse_elems n s2; Some (v :: l, s3)
          else if decide (c = "]"%char) then Some ([], s1)
          else None
      | EmptyString => None
      end
  end
with parse_field (n : nat) (s : string) : option ((list jchar * json) * string) :=
  match n with
  | O => None
  | S n =>
      match skip_ws s with
      | String c s1 =>
          if decide (c = dquote) then
            '(k, s2) ← scan_jstr s1;
            match skip_ws s2 with
            | String d s3 =>
                if decide (d = ":"%char) then '(v, s4) ← parse_value n s3; Some ((k, v), s4) else None
            | EmptyString => None
            end
          else None
      | EmptyString => None
      end
  end
with parse_fields (n : nat) (s : string) : option (list (list jchar * json) * string) :=
  match n with
  | O => None
  | S n =>
      match skip_ws s with
      | String c s1 =>
          if decide (c = ","%char) then
            '(f, s2) ← parse_field n s1; '(l, s3) ← parse_fields n s2; Some (f :: l, s3)
          else if decide (c = "}"%char) then Some ([], s1)
          else None
      | EmptyString => None
      end
  end.

(** [json.Unmarshal] up to the target type: one value and nothing after it.
    Every recursive call but [parse_field]'s consumes input, hence the fuel. *)
Definition parse (s : string) : option json :=
  '(j, rest) ← parse_value (2 * String.length s + 2) s;
  if decide (skip_ws rest = "") then Some j else None.

(** ** Round trip *)

Definition num_wf (lit : string) : bool := num_ok lit && bool_decide (span_num lit = (lit, "")).

Fixpoint wf (j : json) : bool :=
  match j with
  | JNum lit => num_wf lit
  | JStr r => forallb jchar_ok r
  | JArr l => forallb wf l
  | JObj fs => forallb (λ f, forallb jchar_ok f.1 && wf f.2) fs
  | _ => true
  end.

Fixpoint print_elems (l : list json) (rest : string) : string :=
  match l with
  | [] => String "]"%char rest
  | v :: l' => String ","%char (print v (print_elems l' rest))
  end.

Definition print_field (f : list jchar * json) (rest : string) : string :=
  String dquote (print_jstr f.1 (String ":"%char (print f.2 rest))).

Fixpoint print_fields (fs : list (list jchar * json)) (rest : string) : string :=
  match fs with
  | [] => String "}"%char rest
  | f :: fs' => String ","%char (print_field f (print_fields fs' rest))
  end.

Lemma print_arr v l rest : print (JArr (v :: l)) rest = String "["%char (print v (print_elems l rest)).
Proof. cbn. do 2 f_equal. induction l as [|x l IH]; cbn; [done|]. by rewrite IH. Qed.

Lemma print_obj f fs rest : print (JObj (f :: fs)) rest = String "{"%char (print_field f (print_fields fs rest)).
Proof.
  destruct f as [k v]. cbn. unfold print_field; cbn. do 5 f_equal.
  induction fs as [|[k' v'] fs IH]; cbn; [done|]. unfold print_field; cbn. by rewrite IH.
Qed.

(** Fuel enough for a tree. *)
Fixpoint jsize (j : json) : nat :=
  match j with
  | JArr l => 2 + sum_list_with (λ v, S (jsize v)) l
  | JObj fs => 2 + sum_list_with (λ f, S (S (jsize f.2))) fs
  | _ => 1
  end%nat.

(** What may follow a number. *)
Definition ends (rest : string) : bool :=
  match rest with String c _ => negb (num_char c) | EmptyString => true end.

Lemma ends_elems l rest : ends (print_elems l rest) = true.
Proof. by destruct l. Qed.

Lemma ends_fields fs rest : ends (print_fields fs rest) = true.
Proof. by destruct fs. Qed.

Lemma span_num_app a b : span_num a = (a, "") → ends b = true → span_num (a +:+ b) = (a, b).
Proof.
  intros Ha Hb. induction a as [|c a IH].
  - destruct b as [|c b]; [done|]. change (span_num (String c b) = ("", String c b)). cbn in *.
    by destruct (num_char c).
  - rewrite string_cons_app. cbn in *. destruct (num_char c); [|done].
    destruct (span_num a) as [x y]. simplify_eq. by rewrite IH.
Qed.

Lemma num_ok_head lit : num_ok lit = true → ∃ c s, lit = String c s ∧ (is_digit c = true ∨ c = "-"%char).
Proof.
  destruct lit as [|c s]; [done|]. intros H. exists c, s. split; [done|].
  destruct (decide (c = "-"%char)) as [->|Hne]; [by right|left].
  unfold num_ok in H. rewrite decide_False in H by done. cbn in H.
  destruct (decide (c = "0"%char)) as [->|]; [done|]. by destruct (is_digit c).
Qed.

(** The first byte of a value is not a space and does not close anything. *)
Lemma print_head j rest :
  wf j = true → ∃ c s, print j rest = String c s ∧ is_space c = false ∧ c ≠ "]"%char ∧ c ≠ "}"%char.
Proof.
  intros Hwf. destruct j as [|[]|lit|r|l|fs]; [by eexists _, _..| | | |]; [|by eexists _, _..].
  cbn in Hwf. apply andb_prop in Hwf as [Hn _]. destruct (num_ok_head _ Hn) as (c&s&->&Hc).
  exists c, (s +:+ rest). split; [done|]. clear -Hc.
  destruct Hc as [Hc| ->]; [|done]. revert Hc. destruct c as [[] [] [] [] [] [] [] []]; vm_compute; try done.
Qed.

Lemma skip_ws_head c s : is_space c = false → skip_ws (String c s) = String c s.
Proof. intros H. cbn. by rewrite H. Qed.

Lemma parse_num n lit rest :
  num_wf lit = true → ends rest = true → parse_value (S n) (lit +:+ rest) = Some (JNum lit, rest).
Proof.
  intros [Hok Hs%bool_decide_eq_true]%andb_prop Hr. cbn [parse_value].
  destruct (num_ok_head _ Hok) as (c&s&E&Hc). rewrite E, string_cons_app.
  assert (is_space c = false ∧ c ≠ dquote ∧ c ≠ "["%char ∧ c ≠ "{"%char ∧ num_char c = true) as (H1&H2&H3&H4&H5).
  { clear -Hc. destruct Hc as [Hc| ->]; [|done]. revert Hc.
    destruct c as [[] [] [] [] [] [] [] []]; vm_compute; try done. }
  rewrite skip_ws_head by done. rewrite !decide_False by done. rewrite H5.
  rewrite <- string_cons_app, <- E. rewrite (span_num_app lit rest Hs Hr). by rewrite Hok.
Qed.

Lemma parse_print_all n :
  (∀ j rest, wf j = true → ends rest = true → (jsize j ≤ n)%nat → parse_value n (print j rest) = Some (j, rest)) ∧
  (∀ l rest, forallb wf l = true → (sum_list_with (λ v, S (jsize v)) l < n)%nat →
     parse_elems n (print_elems l rest) = Some (l, rest)) ∧
  (∀ f rest, forallb jchar_ok f.1 && wf f.2 = true → ends rest = true → (jsize f.2 < n)%nat →
     parse_field n (print_field f rest) = Some (f, rest)) ∧
  (∀ fs rest, forallb (λ f, forallb jchar_ok f.1 && wf f.2) fs = true →
     (sum_list_with (λ f, S (S (jsize f.2))) fs < n)%nat →
     parse_fields n (print_fields fs rest) = Some (fs, rest)).
Proof.
  induction n as [|n (IHv&IHe&IHf&IHfs)].
  { split_and!; intros; [destruct j; cbn in *; lia|lia..]. }
  split_and!.
  - intros j rest Hwf Hr Hn. destruct j as [|[]|lit|r|[|v l]|[|f fs]]; [done..|by apply parse_num| |done| |done|].
    + cbn [parse_value print]. rewrite skip_ws_head, decide_True by done. by rewrite scan_print_jstr.
    + rewrite print_arr. cbn [wf forallb] in Hwf. apply andb_prop in Hwf as [Hv Hl]. cbn in Hn.
      cbn [parse_value]. rewrite skip_ws_head by done. rewrite decide_False, decide_True by done.
      destruct (print_head v (print_elems l rest) Hv) as (c&s&E&Hc&Hb&_). rewrite E, skip_ws_head by done.
      rewrite decide_False by done. rewrite <- E, IHv by (done || apply ends_elems || lia). cbn.
      by rewrite IHe by (done || lia).
    + rewrite print_obj. cbn [wf forallb] in Hwf. apply andb_prop in Hwf as [Hv Hl]. cbn in Hn.
      cbn [parse_value]. rewrite skip_ws_head by done. rewrite 2 decide_False, decide_True by done.
      unfold print_field at 1. rewrite skip_ws_head, decide_False by done.
      change (String dquote (print_jstr f.1 (String ":"%char (print f.2 (print_fields fs rest)))))
        with (print_field f (print_fields fs rest)).
      rewrite IHf by (done || apply ends_fields || lia). cbn. by rewrite IHfs by (done || lia).
  - intros [|v l] rest Hwf Hn; [done|]. cbn [forallb] in Hwf. apply andb_prop in Hwf as [Hv Hl]. cbn in Hn.
    cbn [print_elems parse_elems]. rewrite skip_ws_head, decide_True by done.
    rewrite IHv by (done || apply ends_elems || lia). cbn. by rewrite IHe by (done || lia).
  - intros [k v] rest [Hk Hv]%andb_prop Hr Hn. cbn [fst snd] in *. unfold print_field; cbn [fst snd parse_field]. rewrite skip_ws_head, decide_True by done.
    rewrite scan_print_jstr by done. cbn [mbind option_bind]. rewrite skip_ws_head, decide_True by done.
    by rewrite IHv by (done || lia).
  - intros [|f fs] rest Hwf Hn; [done|]. cbn [forallb] in Hwf. apply andb_prop in Hwf as [Hv Hl]. cbn in Hn.
    cbn [print_fields parse_fields]. rewrite skip_ws_head, decide_True by done.
    rewrite IHf by (done || apply ends_fields || lia). cbn. by rewrite IHfs by (done || lia).
Qed.

(** The fuel of [parse] is enough. *)
Lemma length_print_jstr r rest : (String.length rest < String.length (print_jstr r rest))%nat.
Proof. induction r as [|[c|c|a b c d] r IH]; cbn; lia. Qed.

Lemma length_app_str (a b : string) : String.length (a +:+ b) = (String.length a + String.length b)%nat.
Proof. induction a as [|c a IH]; [done|]. rewrite string_cons_app. cbn. by rewrite IH. Qed.

Lemma length_print j rest :
  wf j = true → (jsize j + 2 * String.length rest ≤ 2 * String.length (print j rest))%nat.
Proof.
  revert j rest. fix IH 1. intros j rest. destruct j as [|[]|lit|r|[|v l]|[|f fs]]; intros Hwf.
  1-3: cbn; rewrite length_app_str; cbn; lia.
  - cbn. rewrite length_app_str. cbn in Hwf. apply andb_prop in Hwf as [Hn _].
    destruct (num_ok_head _ Hn) as (c&s&->&_). cbn. lia.
  - cbn. pose proof (length_print_jstr r rest). lia.
  - cbn. lia.
  - rewrite print_arr. cbn in Hwf. apply andb_prop in Hwf as [Hv Hl]. cbn [jsize sum_list_with String.length].
    pose proof (IH v (print_elems l rest) Hv) as Hlen.
    assert (∀ rest, (sum_list_with (λ v, S (jsize v)) l + 2 * String.length rest + 2 ≤
                     2 * String.length (print_elems l rest))%nat) as Hl'.
    { clear Hlen Hv. induction l as [|x l IHl]; intros rest'; [cbn; lia|].
      cbn [forallb] in Hl. apply andb_prop in Hl as [Hx Hl]. cbn [sum_list_with print_elems String.length].
      pose proof (IH x (print_elems l rest') Hx). specialize (IHl Hl rest'). lia. }
    specialize (Hl' rest). lia.
  - cbn. lia.
  - rewrite print_obj. cbn in Hwf. apply andb_prop in Hwf as [Hv Hl]. cbn [jsize sum_list_with String.length].
    assert (∀ f rest, forallb jchar_ok f.1 && wf f.2 = true → f = f →
      (∀ rest, wf f.2 = true → (jsize f.2 + 2 * String.length rest ≤ 2 * String.length (print f.2 rest))%nat) →
      (S (S (jsize f.2)) + 2 * String.length rest ≤ 2 * String.length (print_field f rest))%nat) as Hfield.
    { clear. intros [k v] rest [_ Hv]%andb_prop _ IHv. unfold print_field. cbn [fst snd] in *. cbn [String.length].
      specialize (IHv rest Hv).
      pose proof (length_print_jstr k (String ":"%char (print v rest))). cbn [String.length] in *. lia. }
    assert (∀ rest, (sum_list_with (λ f, S (S (jsize f.2))) fs + 2 * String.length rest + 2 ≤
                     2 * String.length (print_fields fs rest))%nat) as Hl'.
    { clear Hv f. induction fs as [|[kx x] fs IHl]; intros rest'; [cbn; lia|].
      cbn [forallb] in Hl. apply andb_prop in Hl as [Hx Hl]. cbn [sum_list_with print_fields String.length].
      pose proof (Hfield (kx, x) (print_fields fs rest') Hx eq_refl (IH x)). specialize (IHl Hl rest'). lia. }
    specialize (Hl' rest). destruct f as [kf vf].
    pose proof (Hfield (kf, vf) (print_fields fs rest) Hv eq_refl (IH vf)). cbn [snd] in *. lia.
Qed.

Lemma parse_print j : wf j = true → parse (print j "") = Some j.
Proof.
  intros Hwf. unfold parse. pose proof (length_print j "" Hwf). cbn [String.length] in *.
  destruct (parse_print_all (2 * String.length (print j "") + 2)) as [Hp _].
  rewrite Hp; [done|done|done|lia].
Qed.

(** ** Compaction of a raw value *)

Fixpoint html (j : json) : json :=
  match j with
  | JStr r => JStr (escape_html r)
  | JArr l => JArr (html <$> l)
  | JObj fs => JObj ((λ f, (escape_html f.1, html f.2)) <$> fs)
  | _ => j
  end.

Lemma escape_html_cons t r : match t with Lit _ => False | _ => True end → escape_html (t :: r) = t :: escape_html r.
Proof. by destruct t. Qed.

Lemma quote_char_html c : bool_decide (c ∈ ["<"; ">"; "&"]%char) = true → ∃ x y z w, quote_char c = Uni x y z w.
Proof. intros [-> | [-> | [-> | []%not_elem_of_nil]%elem_of_cons]%elem_of_cons]%bool_decide_eq_true%elem_of_cons; by eexists _, _, _, _. Qed.

Lemma line_sep_uni c1 c2 c3 u : line_sep c1 c2 c3 = Some u → ∃ x y z w, u = Uni x y z w.
Proof. unfold line_sep. intros. repeat case_decide; simplify_eq; by eexists _, _, _, _. Qed.

(** The head of an escaped literal. *)
Lemma escape_html_head r :
  escape_html r = [] ∧ r = [] ∨
  (∃ x y z w l, escape_html r = Uni x y z w :: escape_html l ∧ (length l < length r)%nat) ∨
  (∃ t r', r = t :: r' ∧ escape_html r = t :: escape_html r').
Proof.
  destruct r as [|[c1|c|x y z w] r]; [by left| |by right; right; eauto|by right; right; eauto].
  assert (escape_html (Lit c1 :: r) =
          (if bool_decide (c1 ∈ ["<"; ">"; "&"]%char) then quote_char c1 else Lit c1) :: escape_html r ∨
          ∃ c2 c3 r3 u, r = Lit c2 :: Lit c3 :: r3 ∧ line_sep c1 c2 c3 = Some u ∧
            escape_html (Lit c1 :: r) = u :: escape_html r3) as [E|(c2&c3&r3&u&->&Hl&E)].
  { destruct r as [|[c2|c2|????] r]; [by left| |by left|by left].
    destruct r as [|[c3|c3|????] r3]; [by left| |by left|by left].
    cbn [escape_html]. destruct (line_sep c1 c2 c3) as [u|] eqn:Hl; [right|by left].
    by exists c2, c3, r3, u. }
  - rewrite E. destruct (bool_decide _) eqn:Hb; [|by right; right; eauto].
    destruct (quote_char_html c1 Hb) as (x&y&z&w&->). right; left. exists x, y, z, w, r. cbn. auto.
  - destruct (line_sep_uni _ _ _ _ Hl) as (x&y&z&w&->). right; left.
    exists x, y, z, w, r3. cbn. auto.
Qed.

Lemma escape_html_lit c l r :
  escape_html r = Lit c :: l → ∃ r', r = Lit c :: r' ∧ l = escape_html r' ∧ c ∉ ["<"; ">"; "&"]%char.
Proof.
  intros E. destruct (escape_html_head r) as [[E' _]|[(x&y&z&w&l'&E'&_)|(t&r'&->&E')]]; [congruence..|].
  rewrite E' in E. simplify_eq. exists r'. split_and!; [done|done|]. intros Hc.
  destruct (quote_char_html c) as (?&?&?&?&Hq); [by apply bool_decide_eq_true|].
  assert (escape_html (Lit c :: r') = quote_char c :: escape_html r' ∨
          ∃ u l, escape_html (Lit c :: r') = u :: l ∧ ∃ x y z w, u = Uni x y z w) as [E2|(u&l&E2&?&?&?&?&->)].
  { cbn [escape_html]. rewrite bool_decide_true by done.
    destruct r' as [|[c2|c2|????] r']; [by left| |by left|by left].
    destruct r' as [|[c3|c3|????] r3]; [by left| |by left|by left].
    destruct (line_sep c c2 c3) as [u|] eqn:Hl; [right|by left].
    eexists u, _. split; [done|]. by eapply line_sep_uni. }
  - rewrite E2, Hq in E'. congruence.
  - rewrite E2 in E'. congruence.
Qed.

Lemma escape_html_idemp r : escape_html (escape_html r) = escape_html r.
Proof.
  induction r as [r IH] using (induction_ltof1 _ (@length jchar)). unfold ltof in IH.
  destruct (escape_html_head r) as [[E ->]|[(x&y&z&w&l&E&Hl)|(t&r'&->&E)]].
  - done.
  - rewrite E, escape_html_cons by done. by rewrite IH.
  - rewrite E. specialize (IH r' ltac:(cbn; lia)). destruct t as [c|c|????]; [|by rewrite escape_html_cons, IH..].
    destruct (escape_html_lit _ _ _ E) as (?&_&_&Hc).
    destruct (escape_html r') as [|[c2|c2|????] l2] eqn:E2; cbn [escape_html];
      rewrite bool_decide_false by done; [done| |by rewrite <- IH..].
    destruct (escape_html_lit _ _ _ E2) as (r2&->&->&_).
    destruct (escape_html r2) as [|[c3|c3|????] l3] eqn:E3; [by rewrite <- IH| |by rewrite <- IH..].
    destruct (escape_html_lit _ _ _ E3) as (r3&->&->&_).
    destruct (line_sep c c2 c3) as [u|] eqn:Hl; [|by rewrite <- IH].
    destruct (line_sep_uni _ _ _ _ Hl) as (?&?&?&?&->). exfalso. revert E. cbn [escape_html]. by rewrite Hl.
Qed.

Lemma escape_html_lits c1 c2 c3 r :
  escape_html (Lit c1 :: Lit c2 :: Lit c3 :: r) =
    match line_sep c1 c2 c3 with
    | Some u => u :: escape_html r
    | None => (if bool_decide (c1 ∈ ["<"; ">"; "&"]%char) then quote_char c1 else Lit c1)
              :: escape_html (Lit c2 :: Lit c3 :: r)
    end.
Proof. done. Qed.

Lemma escape_html_ok r : forallb jchar_ok r = true → forallb jchar_ok (escape_html r) = true.
Proof.
  assert (∀ c1 c2 c3 u, line_sep c1 c2 c3 = Some u → jchar_ok u = true) as Hsep.
  { unfold line_sep. intros. repeat case_decide; by simplify_eq. }
  assert (∀ t c1 r, jchar_ok t = true → forallb jchar_ok r = true →
    forallb jchar_ok ((if bool_decide (c1 ∈ ["<"; ">"; "&"]%char) then quote_char c1 else t) :: r) = true) as Hone.
  { intros t c1 r' Ht Hr. cbn. rewrite Hr, andb_true_r. case_bool_decide; [|done].
    pose proof (quote_ok (String c1 "")) as Hq. cbn in Hq. by rewrite andb_true_r in Hq. }
  induction r as [r IH] using (induction_ltof1 _ (@length jchar)). unfold ltof in IH.
  assert (∀ t r', (length (t :: r') < length r)%nat → forallb jchar_ok (t :: r') = true →
    match t with Lit _ => False | _ => True end → forallb jchar_ok (t :: escape_html r') = true) as Htl.
  { intros t r' Hlen Hr Ht. rewrite <- escape_html_cons by done. by apply IH. }
  destruct r as [|[c1|c1|????] r]; [done| |
    by (intros [Ht ?]%andb_prop; rewrite escape_html_cons by done; cbn [forallb]; rewrite Ht; apply IH; [cbn; lia|])..].
  intros H. pose proof H as [H1 Hr]%andb_prop. pose proof Hr as Hr'.
  destruct r as [|[c2|c2|????] r]; [by apply Hone| |by (apply Hone; [done|apply Htl; [cbn; lia|done|done]])..].
  apply andb_prop in Hr' as [H2 Hr'].
  destruct r as [|[c3|c3|????] r3]; [by do 2 (apply Hone; [done|])| |
    by (do 2 (apply Hone; [done|]); apply Htl; [cbn; lia|done|done])..].
  rewrite escape_html_lits. destruct (line_sep c1 c2 c3) eqn:Hl.
  - cbn. rewrite (Hsep _ _ _ _ Hl). cbn. apply IH; [cbn; lia|].
    cbn in Hr. by do 2 apply andb_prop in Hr as [_ Hr].
  - apply Hone; [done|]. apply IH; [cbn; lia|done].
Qed.

(** Induction on a tree, with the children of both kinds of node. *)
Lemma json_tree_ind (P : json → Prop) :
  P JNull → (∀ b, P (JBool b)) → (∀ lit, P (JNum lit)) → (∀ r, P (JStr r)) →
  (∀ l, Forall P l → P (JArr l)) → (∀ fs, Forall (λ f, P f.2) fs → P (JObj fs)) → ∀ j, P j.
Proof.
  intros Hn Hb Hnum Hs Ha Ho. fix IH 1. intros [|b|lit|r|l|fs]; [done|done|done|done| |].
  - apply Ha. induction l; constructor; auto.
  - apply Ho. induction fs; constructor; auto.
Qed.

Lemma html_idemp j : html (html j) = html j.
Proof.
  induction j using json_tree_ind; cbn; try done.
  - by rewrite escape_html_idemp.
  - f_equal. rewrite <- list_fmap_compose. by apply Forall_fmap_ext.
  - f_equal. rewrite <- list_fmap_compose. apply Forall_fmap_ext.
    eapply Forall_impl; [done|]. intros [k v] Hv. cbn in *. by rewrite escape_html_idemp, Hv.
Qed.

Lemma html_wf j : wf j = true → wf (html j) = true.
Proof.
  induction j as [| | | |l IH|fs IH] using json_tree_ind; cbn; try done.
  - apply escape_html_ok.
  - induction IH as [|v l Hv _ IHl]; cbn; [done|]. intros [??]%andb_prop. by rewrite Hv, IHl.
  - induction IH as [|[k v] fs Hv _ IHl]; cbn; [done|]. intros [[??]%andb_prop ?]%andb_prop.
    cbn in Hv. by rewrite escape_html_ok, Hv, IHl.
Qed.

(** ** Raw messages

    Nil, a value, or text that is not JSON, which [json.Marshal] refuses. *)

Inductive raw : Type :=
| RawNil
| Raw (j : json)
| RawBad (text : string).

Definition raw_of_text (s : string) : raw :=
  match parse s with Some j => Raw j | None => RawBad s end.

(** [len(raw) == 0]. *)
Definition raw_empty (r : raw) : bool :=
  match r with RawNil => true | Raw _ => false | RawBad s => bool_decide (s = "") end.

Definition raw_value (r : raw) : option json :=
  match r with RawNil => Some JNull | Raw j => Some (html j) | RawBad _ => None end.

Definition raw_wf (r : raw) : bool := match r with Raw j => wf j | _ => true end.

(** ** Structs *)

Definition key (name : string) : list jchar := quote name.

Definition strings (l : list string) : json := JArr (jstring <$> l).

Definition jint (n : Z) : json := JNum (FormatInt n).

(** [omitempty]. *)
Definition omit (b : bool) (name : string) (v : json) : list (list jchar * json) :=
  if b then [] else [(key name, v)].

(** Unknown keys are ignored; a key that matches no field exactly is matched
    again without regard to case. *)
Fixpoint fold_case (s : string) : string :=
  match s with
  | EmptyString => EmptyString
  | String c s1 =>
      let n := code c in
      if bool_decide (65 ≤ n ≤ 90) then String (char (n + 32)) (fold_case s1)
      else
        match s1 with
        | String d s2 =>
            if bool_decide (c = char 197 ∧ d = char 191) then String "s" (fold_case s2)
            else
              match s2 with
              | String e s3 =>
                  if bool_decide (c = char 226 ∧ d = char 132 ∧ e = char 170) then String "k" (fold_case s3)
                  else String c (fold_case s1)
              | EmptyString => String c (fold_case s1)
              end
        | EmptyString => String c (fold_case s1)
        end
  end.

Section decode.
Context {A : Type}.

(** A field's decoder reads the value into the struct so far. *)
Definition setter : Type := json → A → option A.

Fixpoint find_field (same : string → bool) (fields : list (string * setter)) : option setter :=
  match fields with
  | [] => None
  | (n, f) :: fields' => if same n then Some f else find_field same fields'
  end.

Definition field_of (fields : list (string * setter)) (k : list jchar) : option setter :=
  let k := unquote k in
  match find_field (λ n, bool_decide (n = k)) fields with
  | Some f => Some f
  | None => find_field (λ n, bool_decide (fold_case n = fold_case k)) fields
  end.

Fixpoint set_fields (fields : list (string * setter)) (fs : list (list jchar * json)) (a : A) : option A :=
  match fs with
  | [] => Some a
  | (k, v) :: fs' =>
      match field_of fields k with
      | Some f => a' ← f v a; set_fields fields fs' a'
      | None => set_fields fields fs' a
      end
  end.

(** [null] leaves a struct as it is; anything but an object is an error. *)
Definition unmarshal_struct (fields : list (string * setter)) (zero : A) (j : json) : option A :=
  match j with
  | JObj fs => set_fields fields fs zero
  | JNull => Some zero
  | _ => None
  end.

Definition set_string (put : string → A → A) : setter := λ j a,
  match j with JStr r => Some (put (unquote r) a) | JNull => Some a | _ => None end.

Definition set_bool (put : bool → A → A) : setter := λ j a,
  match j with JBool b => Some (put b a) | JNull => Some a | _ => None end.

Definition set_raw (put : raw → A → A) : setter := λ j a, Some (put (Raw j) a).

(** An [int] or [int64]: an integer literal in range. *)
Definition set_int (put : Z → A → A) : setter := λ j a,
  match j with
  | JNum lit => match ParseInt lit with (n, true) => Some (put n a) | _ => None end
  | JNull => Some a
  | _ => None
  end.

(** A [[]string]; [null] elements are empty strings, [null] itself is nil. *)
Definition set_strings (put : option (list string) → A → A) : setter := λ j a,
  match j with
  | JArr l =>
      l ← mapM (λ v, match v with JStr r => Some (unquote r) | JNull => Some "" | _ => None end) l;
      Some (put (Some l) a)
  | JNull => Some (put None a)
  | _ => None
  end.

(** A [map[string]string]: entries are added to what is there. *)
Fixpoint add_entries (fs : list (list jchar * json)) (h : gmap string string) : option (gmap string string) :=
  match fs with
  | [] => Some h
  | (k, JStr r) :: fs' => add_entries fs' (<[unquote k := unquote r]> h)
  | (k, JNull) :: fs' => add_entries fs' (<[unquote k := ""]> h)
  | _ => None
  end.

Definition set_map (get : A → gmap string string) (put : gmap string string → A → A) : setter := λ j a,
  match j with
  | JObj fs => h ← add_entries fs (get a); Some (put h a)
  | JNull => Some (put ∅ a)
  | _ => None
  end.

End decode.
Arguments setter A : clear implicits.
Arguments set_string {A} put _ _.
Arguments set_bool {A} put _ _.
Arguments set_raw {A} put _ _.
Arguments set_int {A} put _ _.
Arguments set_strings {A} put _ _.
Arguments set_map {A} get put _ _.

(** A pointer to a struct, allocated when an object comes. *)
Definition set_ptr {A B} (fields : list (string * setter B)) (zero : B)
    (get : A → option B) (put : option B → A → A) : setter A := λ j a,
  match j with
  | JObj fs => b ← set_fields fields fs (default zero (get a)); Some (put (Some b) a)
  | JNull => Some (put None a)
  | _ => None
  end.

(** ** Numbers the server writes *)

Lemma format_loop_head fuel n acc :
  0 < n < 2 ^ Z.of_nat fuel → ∃ d s, format_loop fuel n acc = String (digit_char d) s ∧ 1 ≤ d < 10.
Proof.
  revert n acc. induction fuel as [|fuel IH]; intros n acc Hn; [cbn in Hn; lia|]. cbn [format_loop].
  pose proof (Z.div_mod n 10 ltac:(done)). pose proof (Z.mod_pos_bound n 10 eq_refl).
  destruct (Z.ltb_spec n 10) as [Hlt|Hge].
  - eexists _, _. split; [done|]. rewrite Z.mod_small by lia. lia.
  - apply IH. rewrite Nat2Z.inj_succ, Z.pow_succ_r in Hn by lia. lia.
Qed.

Lemma span_digits s : all_digits s = true → span_num s = (s, "").
Proof.
  induction s as [|c s IH]; [done|]. cbn. intros [Hc Hs]%andb_prop. unfold num_char. rewrite Hc.
  cbn. by rewrite IH.
Qed.

Lemma skip_all_digits s : all_digits s = true → skip_digits s = "".
Proof. induction s as [|c s IH]; [done|]. cbn. intros [-> Hs]%andb_prop. by apply IH. Qed.

Lemma FormatUint_num_wf n : 0 ≤ n → num_wf (FormatUint n) = true ∧ num_int (FormatUint n) = Some "".
Proof.
  intros Hn. pose proof (FormatUint_digits n) as Hd. pose proof (span_digits _ Hd) as Hs.
  assert (num_int (FormatUint n) = Some "") as Hi.
  { destruct (decide (n = 0)) as [->|Hne]; [done|].
    destruct (format_loop_head (S (S (Z.to_nat (Z.log2 n)))) n "") as (d&s&E&Hr).
    { pose proof (Z.log2_spec n ltac:(lia)). rewrite !Nat2Z.inj_succ, Z2Nat.id by apply Z.log2_nonneg.
      rewrite (Z.pow_succ_r 2 (Z.succ _)); pose proof (Z.log2_nonneg n); lia. }
    fold (FormatUint n) in E. rewrite E in *. cbn [num_int].
    rewrite decide_False.
    2: { intros Ez. apply (f_equal digit_of) in Ez. rewrite digit_of_digit_char in Ez by lia.
         change (Some d = Some 0) in Ez. injection Ez. lia. }
    cbn in Hd |- *. apply andb_prop in Hd as [-> Hd]. by rewrite skip_all_digits. }
  split; [|done]. unfold num_wf. rewrite Hs. rewrite bool_decide_true by done. rewrite andb_true_r.
  unfold num_ok. pose proof (split_sign_digits _ Hd) as Hsign.
  destruct (FormatUint n) as [|c s]; [done|]. rewrite decide_False.
  - cbn [mbind option_bind] in *. by rewrite Hi.
  - intros ->. by cbn in Hd.
Qed.

Lemma FormatInt_num_wf n : num_wf (FormatInt n) = true.
Proof.
  unfold FormatInt. destruct (Z.ltb_spec n 0); [|by apply FormatUint_num_wf].
  destruct (FormatUint_num_wf (- n) ltac:(lia)) as [[Hok Hs%bool_decide_eq_true]%andb_prop Hi].
  unfold num_wf. apply andb_true_intro. split.
  - unfold num_ok. rewrite decide_True by done. by rewrite Hi.
  - apply bool_decide_eq_true. cbn [span_num]. by rewrite Hs.
Qed.

(** ** Decoding what was encoded *)

Lemma set_string_jstring {A} (put : string → A → A) s a : set_string put (jstring s) a = Some (put s a).
Proof. unfold set_string, jstring. by rewrite unquote_quote. Qed.

Lemma set_strings_strings {A} (put : option (list string) → A → A) l a :
  set_strings put (strings l) a = Some (put (Some l) a).
Proof.
  unfold set_strings, strings. assert (mapM (λ v, match v with JStr r => Some (unquote r) | JNull => Some "" | _ => None end)
    (jstring <$> l) = Some l) as ->; [|done].
  induction l as [|s l IH]; [done|]. cbn -[mapM]. unfold mapM in *; cbn. rewrite unquote_quote. cbn. by rewrite IH.
Qed.

Lemma set_int_jint {A} (put : Z → A → A) n a :
  in_int64 n → set_int put (jint n) a = Some (put n a).
Proof. intros Hn. unfold set_int, jint. by rewrite ParseInt_FormatInt. Qed.

Lemma wf_strings l : wf (strings l) = true.
Proof. cbn. induction l as [|s l IH]; cbn; [done|]. by rewrite quote_ok, IH. Qed.

(** A field is found under its own name. *)
Lemma field_of_key {A} (fields : list (string * setter A)) name :
  field_of fields (key name) =
    match find_field (λ n, bool_decide (n = name)) fields with
    | Some f => Some f
    | None => find_field (λ n, bool_decide (fold_case n = fold_case name)) fields
    end.
Proof. unfold field_of, key. by rewrite unquote_quote. Qed.

Lemma set_fields_found {A} (fields : list (string * setter A)) name f v fs a :
  find_field (λ n, bool_decide (n = name)) fields = Some f →
  set_fields fields ((key name, v) :: fs) a = a' ← f v a; set_fields fields fs a'.
Proof. intros Hf. cbn [set_fields]. by rewrite field_of_key, Hf. Qed.

Lemma set_fields_app {A} (fields : list (string * setter A)) fs fs' a :
  set_fields fields (fs ++ fs') a = a' ← set_fields fields fs a; set_fields fields fs' a'.
Proof.
  revert a. induction fs as [|[k v] fs IH]; intros a; [done|]. cbn [app set_fields].
  destruct (field_of fields k) as [f|]; [|apply IH]. destruct (f v a); cbn [mbind option_bind]; [apply IH|done].
Qed.

(** What every field's decoder keeps, the struct's decoder keeps. *)
Lemma find_field_in {A} same (fields : list (string * setter A)) f :
  find_field same fields = Some f → ∃ n, (n, f) ∈ fields.
Proof.
  induction fields as [|[n g] fields IH]; [done|]. cbn. destruct (same n).
  - intros [= ->]. exists n. left.
  - intros [m Hm]%IH. exists m. by right.
Qed.

Lemma unmarshal_struct_keeps {A} (P : A → Prop) (fields : list (string * setter A)) zero j a :
  Forall (λ f, ∀ v b b', P b → f.2 v b = Some b' → P b') fields →
  P zero → unmarshal_struct fields zero j = Some a → P a.
Proof.
  intros Hf Hz. destruct j as [| | | | |fs]; cbn; try done; [by intros [= <-]|].
  revert zero Hz. induction fs as [|[k v] fs IH]; intros b Hb; cbn [set_fields]; [by intros [= <-]|].
  destruct (field_of fields k) as [f|] eqn:Hk; [|by apply IH].
  destruct (f v b) as [b'|] eqn:Hv; cbn [mbind option_bind]; [|done]. apply IH.
  assert (∃ n, (n, f) ∈ fields) as [n Hn].
  { unfold field_of in Hk. case_match; [by simplify_eq; eapply find_field_in|by eapply find_field_in]. }
  rewrite Forall_forall in Hf. by eapply (Hf (n, f)).
Qed.

(** Decode the fields of a struct that was encoded, in order. *)
Ltac decode_fields :=
  repeat (erewrite set_fields_found by reflexivity;
          rewrite ?set_string_jstring, ?set_strings_strings, ?set_int_jint by done;
          cbn [mbind option_bind set_raw set_bool set_strings]);
  cbn [set_fields].

Lemma wf_obj fs : wf (JObj fs) = forallb (λ f, forallb jchar_ok f.1 && wf f.2) fs.
Proof. done. Qed.

Lemma wf_jstring s : wf (jstring s) = true.
Proof. apply quote_ok. Qed.

#[global] Arguments quote : simpl never.
#[global] Arguments jstring : simpl never.
#[global] Arguments key : simpl never.
#[global] Arguments jint : simpl never.
#[global] Arguments strings : simpl never.
#[global] Arguments print : simpl never.
#[global] Arguments parse : simpl never.
