(* ===== verification/Float.v ===== *)
(** * Decimal literals read as [float64] (strconv.ParseFloat)

    A literal is read exactly, as mantissa times a power of ten; the nearest
    [float64] is taken of that, and only its integer part is kept, which is
    all the server uses ([int64(f)]). *)

From S2P Require Import Prelude GoStrings Json.
Local Open Scope Z_scope.

(** [sign * mant * 10 ^ expo]. *)
Record decimal : Type := { d_neg : bool; d_mant : Z; d_expo : Z }.

(** Digits from the front, and how many there were. *)
Fixpoint take_num (m k : Z) (s : string) : Z * Z * string :=
  match s with
  | String c s' =>
      match digit_of c with Some d => take_num (10 * m + d) (k + 1) s' | None => (m, k, s) end
  | EmptyString => (m, k, s)
  end.

(** The digits of an exponent: [readFloat] stops counting at five. *)
Fixpoint take_exp (e : Z) (s : string) : Z :=
  match s with
  | String c s' =>
      match digit_of c with Some d => take_exp (if e <? 10000 then 10 * e + d else e) s' | None => e end
  | EmptyString => e
  end.

Definition read_exp (s : string) : Z :=
  match s with
  | String c s' =>
      if bool_decide (c = "e"%char ∨ c = "E"%char) then
        let '(neg, s'') := split_sign s' in
        if neg then - take_exp 0 s'' else take_exp 0 s''
      else 0
  | EmptyString => 0
  end.

Definition read_decimal (lit : string) : decimal :=
  let '(neg, s) := split_sign lit in
  let '(m, _, s) := take_num 0 0 s in
  match s with
  | String "."%char s' =>
      let '(m, k, s'') := take_num m 0 s' in
      {| d_neg := neg; d_mant := m; d_expo := read_exp s'' - k |}
  | _ => {| d_neg := neg; d_mant := m; d_expo := read_exp s |}
  end.

(** The absolute value as a fraction. *)
Definition ratio (d : decimal) : Z * Z :=
  if d.(d_expo) <? 0 then (d.(d_mant), 10 ^ (- d.(d_expo))) else (d.(d_mant) * 10 ^ d.(d_expo), 1).

Definition round_half_even (p q : Z) : Z :=
  let a := p / q in
  let r := p mod q in
  if (q <? 2 * r) || ((q =? 2 * r) && Z.odd a) then a + 1 else a.

(** [p / q >= 2 ^ l], the exponent of either sign. *)
Definition ge_pow2 (p q l : Z) : bool :=
  if 0 <=? l then q * 2 ^ l <=? p else q <=? p * 2 ^ (- l).

(** The integer part of the [float64] nearest to [p / q]: 53 significant bits,
    ties to even.  Subnormal numbers are below one either way. *)
Definition float_part (p q : Z) : Z :=
  if p =? 0 then 0
  else
    let l := Z.log2 p - Z.log2 q in
    let x := (if ge_pow2 p q l then l else l - 1) - 52 in
    if 0 <=? x then round_half_even p (q * 2 ^ x) * 2 ^ x
    else round_half_even (p * 2 ^ (- x)) q / 2 ^ (- x).

(** From here on the nearest [float64] would be infinite. *)
Definition float_limit : Z := 2 ^ 1024 - 2 ^ 970.

(** [None]: out of range, which [json.Unmarshal] reports as an error. *)
Definition ParseFloat (lit : string) : option Z :=
  let d := read_decimal lit in
  let '(p, q) := ratio d in
  if q * float_limit <=? p then None
  else Some (if d.(d_neg) then - float_part p q else float_part p q).

Example float_fraction : ParseFloat "1733333333333.9" = Some 1733333333333.
Proof. vm_compute. reflexivity. Qed.
Example float_half_ulp : ParseFloat "-0.99999999999999999999" = Some (-1).
Proof. vm_compute. reflexivity. Qed.
Example float_exponent : ParseFloat "1e19" = Some (10 ^ 19).
Proof. vm_compute. reflexivity. Qed.
Example float_round : ParseFloat "9007199254740993.0" = Some 9007199254740992.
Proof. vm_compute. reflexivity. Qed.
Example float_range : ParseFloat "1.8e308" = None.
Proof. vm_compute. reflexivity. Qed.
Example float_tiny : ParseFloat "12.5E-400" = Some 0.
Proof. vm_compute. reflexivity. Qed.

(** ** Integers below 2^53 are read exactly *)

Lemma round_half_even_one p : round_half_even p 1 = p.
Proof. unfold round_half_even. by rewrite Z.div_1_r, Z.mod_1_r. Qed.

Lemma float_part_int p : 0 <= p < 2 ^ 53 → float_part p 1 = p.
Proof.
  intros Hp. unfold float_part. destruct (Z.eqb_spec p 0) as [->|Hne]; [done|].
  change (Z.log2 1) with 0. rewrite Z.sub_0_r.
  pose proof (Z.log2_spec p ltac:(lia)) as [Hlo Hhi]. pose proof (Z.log2_nonneg p) as Hl.
  assert (Z.log2 p < 53) by (apply Z.log2_lt_pow2; lia).
  assert (ge_pow2 p 1 (Z.log2 p) = true) as ->.
  { unfold ge_pow2. rewrite (proj2 (Z.leb_le _ _)) by lia. apply Z.leb_le. lia. }
  destruct (Z.leb_spec 0 (Z.log2 p - 52)) as [Hx|Hx].
  - replace (Z.log2 p - 52) with 0 by lia. rewrite Z.pow_0_r, Z.mul_1_r, round_half_even_one. lia.
  - rewrite round_half_even_one. rewrite Z.div_mul; [done|]. apply Z.pow_nonzero; lia.
Qed.

(** Rounding goes up by less than one unit in the last place, so the integer
    part is off by at most that unit. *)
Lemma round_half_even_bound p q : 0 < q → p / q <= round_half_even p q <= p / q + 1.
Proof. intros Hq. unfold round_half_even. cbn zeta. case_goal; lia. Qed.

Lemma round_half_even_le p q k : 0 < q → p <= k * q → round_half_even p q <= k.
Proof.
  intros Hq Hp. unfold round_half_even. cbn zeta. pose proof (Z.div_mod p q ltac:(lia)) as Hd. pose proof (Z.mod_pos_bound p q Hq).
  assert (p / q <= k) by (apply Z.div_le_upper_bound; lia).
  destruct (decide (p / q = k)) as [E|Hne]; [|case_goal; lia].
  assert (p mod q = 0) as -> by nia. rewrite (proj2 (Z.ltb_ge _ _)) by lia. rewrite (proj2 (Z.eqb_neq _ _)) by lia. cbn. lia.
Qed.

(** Rounding never passes an integer that is a [float64] itself. *)
Lemma float_part_le p q k : 0 <= p → 0 < q → k < 2 ^ 53 → p <= k * q → 0 <= float_part p q <= k.
Proof.
  intros Hp Hq Hk Hle. unfold float_part. destruct (Z.eqb_spec p 0) as [->|Hne]; [nia|]. cbv zeta.
  set (l := Z.log2 p - Z.log2 q). set (e := if ge_pow2 p q l then l else l - 1).
  assert (e <= 52) as He.
  { destruct (Z.le_gt_cases e 52) as [?|Hgt]; [done|]. exfalso. assert (2 ^ 53 * q <= p); [|nia].
    transitivity (2 ^ e * q); [apply Z.mul_le_mono_nonneg_r; [lia|]; apply Z.pow_le_mono_r; lia|].
    unfold e in *. destruct (ge_pow2 p q l) eqn:E.
    - unfold ge_pow2 in E. rewrite (proj2 (Z.leb_le _ _)) in E by lia. lia.
    - pose proof (Z.log2_spec p ltac:(lia)) as [Hlo _]. pose proof (Z.log2_spec q Hq) as [_ Hhi]. pose proof (Z.log2_nonneg q).
      transitivity (2 ^ (l - 1) * 2 ^ Z.succ (Z.log2 q)); [apply Z.mul_le_mono_nonneg_l; [apply Z.pow_nonneg|]; lia|].
      rewrite <- Z.pow_add_r by lia. replace (l - 1 + Z.succ (Z.log2 q)) with (Z.log2 p) by (unfold l; lia). done. }
  destruct (Z.leb_spec 0 (e - 52)) as [?|Hx].
  - replace (e - 52) with 0 by lia. rewrite Z.pow_0_r, !Z.mul_1_r. split; [|by apply round_half_even_le].
    pose proof (round_half_even_bound p q Hq). pose proof (Z.div_pos p q). lia.
  - assert (0 < 2 ^ (- (e - 52))) as H2 by (apply Z.pow_pos_nonneg; lia). set (u := 2 ^ (- (e - 52))) in *. split.
    + apply Z.div_pos; [|done]. pose proof (round_half_even_bound (p * u) q Hq). pose proof (Z.div_pos (p * u) q). nia.
    + apply Z.div_le_upper_bound; [done|]. rewrite Z.mul_comm. apply round_half_even_le; [done|nia].
Qed.
