(* ===== verification/Utf8.v ===== *)
(** * Strings rune by rune (unicode/utf8, strings)

    [DecodeRuneInString] byte for byte, and the functions of [strings] the
    server's policies are written with. *)

From S2P Require Import Prelude GoStrings Json.
Local Open Scope Z_scope.

(** A rune with the bytes it was read from; an invalid byte is U+FFFD. *)
Record rune : Type := Rune { r_val : Z; r_bytes : string }.

Definition RuneError : Z := 65533.
Definition between (lo c hi : Z) : bool := (lo <=? c) && (c <=? hi).

Definition bad_byte (c : ascii) : rune := Rune RuneError (String c "").

(** The bytes a lead byte takes after itself: how many, the least and the
    greatest second byte, and the bits it holds. *)
Definition lead (c : Z) : option (nat * Z * Z * Z) :=
  if between 194 c 223 then Some (1%nat, 128, 191, c - 192)
  else if c =? 224 then Some (2%nat, 160, 191, 0)
  else if c =? 237 then Some (2%nat, 128, 159, 13)
  else if between 225 c 239 then Some (2%nat, 128, 191, c - 224)
  else if c =? 240 then Some (3%nat, 144, 191, 0)
  else if between 241 c 243 then Some (3%nat, 128, 191, c - 240)
  else if c =? 244 then Some (3%nat, 128, 143, 4)
  else None.

(** [n] continuation bytes; only the first has bounds of its own. *)
Fixpoint continuation (n : nat) (lo hi v : Z) (s : string) : option (Z * string * string) :=
  match n with
  | O => Some (v, "", s)
  | S n' =>
      match s with
      | String c s' =>
          if between lo (code c) hi then
            match continuation n' 128 191 (v * 64 + (code c - 128)) s' with
            | Some (v, b, t) => Some (v, String c b, t)
            | None => None
            end
          else None
      | EmptyString => None
      end
  end.

Definition DecodeRune (s : string) : option (rune * string) :=
  match s with
  | EmptyString => None
  | String c s' =>
      if code c <? 128 then Some (Rune (code c) (String c ""), s')
      else
        match lead (code c) with
        | Some (n, lo, hi, v) =>
            match continuation n lo hi v s' with
            | Some (v, b, t) => Some (Rune v (String c b), t)
            | None => Some (bad_byte c, s')
            end
        | None => Some (bad_byte c, s')
        end
  end.

(** [r == utf8.RuneError && n == 1]. *)
Definition is_bad (r : rune) : bool := (r.(r_val) =? RuneError) && bool_decide (String.length r.(r_bytes) = 1%nat).

Fixpoint runes_loop (fuel : nat) (s : string) : list rune :=
  match fuel with
  | O => []
  | S fuel' => match DecodeRune s with Some (r, t) => r :: runes_loop fuel' t | None => [] end
  end.

(** [for _, r := range s]. *)
Definition runes (s : string) : list rune := runes_loop (String.length s) s.

(** [WriteRune]: an invalid byte is written as U+FFFD, a rune as it was. *)
Definition write_rune (r : rune) : string :=
  if is_bad r then utf8 RuneError else r.(r_bytes).

Definition join (l : list string) : string := foldr String.append "" l.

(** The string with every invalid byte replaced, as ranging over it sees it. *)
Definition to_valid (s : string) : string := join (write_rune <$> runes s).

(** ** package strings *)

(** [strings.ReplaceAll] for a non-empty [old]: [skip] bytes belong to an
    occurrence already replaced. *)
Fixpoint replace_loop (old new : string) (skip : nat) (s : string) : string :=
  match s with
  | EmptyString => EmptyString
  | String c s' =>
      match skip with
      | S k => replace_loop old new k s'
      | O =>
          if HasPrefix s old then new +:+ replace_loop old new (pred (String.length old)) s'
          else String c (replace_loop old new O s')
      end
  end.

Definition ReplaceAll (s old new : string) : string := replace_loop old new O s.

Fixpoint Contains (s sub : string) : bool :=
  HasPrefix s sub || match s with EmptyString => false | String _ s' => Contains s' sub end.

(** [strings.ReplaceAll] of one byte by another. *)
Fixpoint replace_byte (a b : ascii) (s : string) : string :=
  match s with
  | EmptyString => EmptyString
  | String c s' => String (if decide (c = a) then b else c) (replace_byte a b s')
  end.

(** [strings.Split(s, sep)] for a separator of one byte. *)
Fixpoint SplitByte (sep : ascii) (s : string) : list string :=
  match s with
  | EmptyString => [EmptyString]
  | String c s' =>
      if decide (c = sep) then EmptyString :: SplitByte sep s'
      else match SplitByte sep s' with p :: ps => String c p :: ps | [] => [String c EmptyString] end
  end.

(** [unicode.IsSpace]. *)
Definition IsSpace (r : Z) : bool :=
  between 9 r 13 || bool_decide (r ∈ [32; 133; 160; 5760; 8232; 8233; 8239; 8287; 12288]) || between 8192 r 8202.

Fixpoint drop_spaces (l : list rune) : list rune :=
  match l with
  | r :: l' => if IsSpace r.(r_val) then drop_spaces l' else l
  | [] => []
  end.

(** [strings.TrimSpace]. *)
Definition TrimSpace (s : string) : string :=
  join (r_bytes <$> rev (drop_spaces (rev (drop_spaces (runes s))))).

(** [strings.ToLower]: known on ASCII only. *)
Definition lower_byte (c : ascii) : ascii := if between 65 (code c) 90 then char (code c + 32) else c.

Fixpoint lower_ascii (s : string) : string :=
  match s with EmptyString => EmptyString | String c s' => String (lower_byte c) (lower_ascii s') end.

Fixpoint is_ascii (s : string) : bool :=
  match s with EmptyString => true | String c s' => (code c <? 128) && is_ascii s' end.

Class Lower : Type := {
  ToLower : string → string;
  ToLower_ascii s : is_ascii s = true → ToLower s = lower_ascii s;
}.

Example runes_euro : (r_val <$> runes ("a" +:+ utf8 8364 +:+ utf8 128512 +:+ String (char 255) "z")) = [97; 8364; 128512; 65533; 122].
Proof. vm_compute. reflexivity. Qed.
Example trim_both : TrimSpace (String (char 10) (" a b" +:+ utf8 160)) = "a b".
Proof. vm_compute. reflexivity. Qed.
Example replace_overlap : ReplaceAll "aaaa" "aa" "b" = "bb".
Proof. vm_compute. reflexivity. Qed.
Example split_commas : SplitByte "," ",a,,b" = [""; "a"; ""; "b"].
Proof. vm_compute. reflexivity. Qed.
