(* ===== verification/Path.v ===== *)
(** * Shell patterns (package path)

    [path.Match] as the standard library writes it: a pattern is cut at its
    stars into chunks, and each chunk is placed at the first position that
    takes it.  Every loop runs on the fuel of the text it consumes, and
    [match_total] shows that it never runs out. *)

From S2P Require Import Prelude GoStrings Json Utf8.
Local Open Scope Z_scope.

Definition slash : ascii := "/".

Inductive outcome (A : Type) : Type :=
| Done (a : A)
| BadPattern
| Spin.
Arguments Done {A} a.
Arguments BadPattern {A}.
Arguments Spin {A}.

(** [getEsc]: one character of a class, and what follows, never empty. *)
Definition getEsc (chunk : string) : outcome (Z * string) :=
  match chunk with
  | EmptyString => BadPattern
  | String c chunk' =>
      if bool_decide (c = "-"%char ∨ c = "]"%char) then BadPattern
      else
        let body := if decide (c = backslash) then chunk' else chunk in
        match DecodeRune body with
        | None => BadPattern
        | Some (r, nchunk) => if is_bad r || bool_decide (nchunk = "") then BadPattern else Done (r.(r_val), nchunk)
        end
  end.

Definition eat (c : ascii) (s : string) : option string :=
  match s with String d s' => if decide (d = c) then Some s' else None | EmptyString => None end.

(** The ranges of a class, up to its closing bracket. *)
Fixpoint ranges (fuel : nat) (r : Z) (matched first : bool) (chunk : string) : outcome (bool * string) :=
  match fuel with
  | O => Spin
  | S fuel' =>
      match (if first then None else eat "]" chunk) with
      | Some chunk' => Done (matched, chunk')
      | None =>
          match getEsc chunk with
          | Done (lo, chunk) =>
              match (match eat "-" chunk with Some chunk' => getEsc chunk' | None => Done (lo, chunk) end) with
              | Done (hi, chunk) => ranges fuel' r (matched || between lo r hi) false chunk
              | BadPattern => BadPattern
              | Spin => Spin
              end
          | BadPattern => BadPattern
          | Spin => Spin
          end
      end
  end.

(** A failed match ([None]) goes on only to check the syntax. *)
Definition next_rune (s : option string) : Z * option string :=
  match s ≫= DecodeRune with Some (r, t) => (r.(r_val), Some t) | None => (0, None) end.

Definition next_byte (c : ascii) (s : option string) : option string :=
  match s with Some (String d t) => if decide (c = d) then Some t else None | _ => None end.

Definition any_rune (s : option string) : option string :=
  match s with
  | Some (String d t) => if decide (d = slash) then None else (next_rune s).2
  | _ => None
  end.

Fixpoint match_chunk (fuel : nat) (chunk : string) (s : option string) : outcome (option string) :=
  match fuel with
  | O => Spin
  | S fuel' =>
      match chunk with
      | EmptyString => Done s
      | String c chunk =>
          if decide (c = "["%char) then
            let '(r, s) := next_rune s in
            let '(negated, chunk) := match eat "^" chunk with Some chunk' => (true, chunk') | None => (false, chunk) end in
            match ranges fuel' r false true chunk with
            | Done (matched, chunk) => match_chunk fuel' chunk (if eqb matched negated then None else s)
            | BadPattern => BadPattern
            | Spin => Spin
            end
          else if decide (c = "?"%char) then match_chunk fuel' chunk (any_rune s)
          else if decide (c = backslash) then
            match chunk with
            | EmptyString => BadPattern
            | String d chunk => match_chunk fuel' chunk (next_byte d s)
            end
          else match_chunk fuel' chunk (next_byte c s)
      end
  end.

(** [matchChunk(chunk, s)]. *)
Definition matchChunk (chunk s : string) : outcome (option string) :=
  match_chunk (S (String.length chunk)) chunk (Some s).

(** [scanChunk] after the stars: the text up to the next star outside a class. *)
Fixpoint scan (inrange : bool) (pattern : string) : string * string :=
  match pattern with
  | EmptyString => (EmptyString, EmptyString)
  | String c p =>
      if decide (c = backslash) then
        match p with
        | String d p' => let '(a, b) := scan inrange p' in (String c (String d a), b)
        | EmptyString => (pattern, EmptyString)
        end
      else if decide (c = "["%char) then let '(a, b) := scan true p in (String c a, b)
      else if decide (c = "]"%char) then let '(a, b) := scan false p in (String c a, b)
      else if bool_decide (c = "*"%char) && negb inrange then (EmptyString, pattern)
      else let '(a, b) := scan inrange p in (String c a, b)
  end.

Fixpoint drop_stars (pattern : string) : bool * string :=
  match pattern with
  | String c p => if decide (c = "*"%char) then (true, (drop_stars p).2) else (false, pattern)
  | EmptyString => (false, pattern)
  end.

Definition scanChunk (pattern : string) : bool * string * string :=
  let '(star, p) := drop_stars pattern in
  let '(chunk, rest) := scan false p in
  (star, chunk, rest).

(** Place a chunk after a star: skip bytes of the segment until it fits.  The
    last chunk has to take all that is left. *)
Fixpoint skip_star (chunk : string) (last : bool) (name : string) : outcome (option string) :=
  match name with
  | EmptyString => Done None
  | String c name' =>
      if decide (c = slash) then Done None
      else
        match matchChunk chunk name' with
        | Done (Some t) => if last && negb (bool_decide (t = "")) then skip_star chunk last name' else Done (Some t)
        | Done None => skip_star chunk last name'
        | BadPattern => BadPattern
        | Spin => Spin
        end
  end.

(** The rest of a pattern that did not match is checked all the same. *)
Fixpoint check_rest (fuel : nat) (pattern : string) : outcome bool :=
  if decide (pattern = "") then Done false
  else
    match fuel with
    | O => Spin
    | S fuel' =>
        let '(_, chunk, pattern) := scanChunk pattern in
        match matchChunk chunk "" with
        | Done _ => check_rest fuel' pattern
        | BadPattern => BadPattern
        | Spin => Spin
        end
    end.

Fixpoint has_slash (s : string) : bool :=
  match s with EmptyString => false | String c s' => bool_decide (c = slash) || has_slash s' end.

Fixpoint match_loop (fuel : nat) (pattern name : string) : outcome bool :=
  if decide (pattern = "") then Done (bool_decide (name = ""))
  else
    match fuel with
    | O => Spin
    | S fuel' =>
        let '(star, chunk, pattern) := scanChunk pattern in
        let last := bool_decide (pattern = "") in
        if star && bool_decide (chunk = "") then Done (negb (has_slash name))
        else
          let here := matchChunk chunk name in
          match (match here with Done (Some t) => if last && negb (bool_decide (t = "")) then None else Some t | _ => None end) with
          | Some t => match_loop fuel' pattern t
          | None =>
              match here with
              | BadPattern => BadPattern
              | Spin => Spin
              | Done _ =>
                  match (if star then skip_star chunk last name else Done None) with
                  | Done (Some t) => match_loop fuel' pattern t
                  | Done None => check_rest fuel' pattern
                  | BadPattern => BadPattern
                  | Spin => Spin
                  end
              end
          end
    end.

(** [path.Match]. *)
Definition Match (pattern name : string) : outcome bool := match_loop (String.length pattern) pattern name.

Example match_segment : Match "orders/*" "orders/created" = Done true.
Proof. vm_compute. reflexivity. Qed.
Example match_segments : Match "orders/*" "orders/eu/created" = Done false.
Proof. vm_compute. reflexivity. Qed.
Example match_mixed : Match "a*b?[x-z]/*c" "aabbby/xc" = Done true.
Proof. vm_compute. reflexivity. Qed.
Example match_class_slash : Match "a[^b]c" "a/c" = Done true.
Proof. vm_compute. reflexivity. Qed.
Example match_bad : Match "a[]" "b" = BadPattern.
Proof. vm_compute. reflexivity. Qed.

(** ** Fuel *)

Abbreviation len := String.length.

Lemma continuation_length n lo hi v s v' b t : continuation n lo hi v s = Some (v', b, t) → (len t <= len s)%nat.
Proof.
  revert lo hi v s v' b t. induction n as [|n IH]; intros lo hi v s v' b t; cbn; [by intros [= <- <- <-]|].
  destruct s as [|c s]; [done|]. case_match; [|done].
  destruct (continuation n _ _ _ s) as [[[? ?] ?]|] eqn:E; [|done]. intros [= <- <- <-]. apply IH in E. cbn. lia.
Qed.

Lemma DecodeRune_length s r t : DecodeRune s = Some (r, t) → (len t < len s)%nat.
Proof.
  destruct s as [|c s]; [done|]. unfold DecodeRune. cbn [len].
  repeat (case_match; try done); intros [= <- <-]; subst; try lia.
  match goal with E : continuation _ _ _ _ _ = _ |- _ => apply continuation_length in E end. lia.
Qed.

Lemma getEsc_length chunk v t : getEsc chunk = Done (v, t) → (len t < len chunk)%nat.
Proof.
  destruct chunk as [|c chunk]; [done|]. cbn [getEsc]. destruct (bool_decide (_ ∨ _)); [done|].
  destruct (DecodeRune _) as [[r u]|] eqn:E; [|done]. destruct (_ || _); [done|]. intros [= <- <-].
  apply DecodeRune_length in E. case_decide; cbn [len] in *; lia.
Qed.

Lemma eat_length c s t : eat c s = Some t → (len t < len s)%nat.
Proof. destruct s as [|d s]; cbn; [done|]. case_decide; [|done]. intros [= <-]. lia. Qed.

Lemma getEsc_total chunk : getEsc chunk ≠ Spin.
Proof.
  destruct chunk as [|c chunk]; [done|]. cbn [getEsc]. destruct (bool_decide (_ ∨ _)); [done|].
  destruct (DecodeRune _) as [[r t]|]; [|done]. by destruct (_ || _).
Qed.

Lemma ranges_total fuel r m first chunk :
  (len chunk < fuel)%nat →
  match ranges fuel r m first chunk with Done (_, t) => (len t < len chunk)%nat | BadPattern => True | Spin => False end.
Proof.
  revert m first chunk. induction fuel as [|fuel IH]; intros m first chunk Hf; [lia|]. cbn [ranges].
  destruct (if first then None else eat "]" chunk) as [chunk'|] eqn:Hc.
  { destruct first; [done|]. by eapply eat_length. }
  clear Hc. destruct (getEsc chunk) as [[lo t]| |] eqn:Hg; [|done|by apply getEsc_total in Hg].
  apply getEsc_length in Hg.
  assert (match (match eat "-" t with Some t' => getEsc t' | None => Done (lo, t) end) with
    Done (_, u) => (len u <= len t)%nat | BadPattern => True | Spin => False end) as Hhi.
  { destruct (eat "-" t) as [t'|] eqn:He; [|done]. apply eat_length in He.
    destruct (getEsc t') as [[hi u]| |] eqn:Hg'; [|done|by apply getEsc_total in Hg'].
    apply getEsc_length in Hg'. lia. }
  destruct (match eat "-" t with Some _ => _ | None => _ end) as [[hi u]| |]; [|done|done].
  specialize (IH (m || between lo r hi) false u ltac:(lia)).
  destruct (ranges fuel _ _ _ u) as [[? ?]| |]; [lia|done|done].
Qed.

(** One more unit of fuel changes nothing once there is enough. *)
Lemma ranges_fuel fuel fuel' r m first chunk :
  (len chunk < fuel)%nat → (fuel <= fuel')%nat → ranges fuel' r m first chunk = ranges fuel r m first chunk.
Proof.
  revert fuel' m first chunk. induction fuel as [|fuel IH]; intros fuel' m first chunk Hf Hle; [lia|].
  destruct fuel' as [|fuel']; [lia|]. cbn [ranges].
  destruct (if first then None else eat "]" chunk); [done|].
  destruct (getEsc chunk) as [[lo t]| |] eqn:Hg; [|done..]. apply getEsc_length in Hg.
  destruct (eat "-" t) as [t'|] eqn:He.
  - apply eat_length in He. destruct (getEsc t') as [[hi u]| |] eqn:Hg'; [|done..].
    apply getEsc_length in Hg'. apply IH; lia.
  - apply IH; lia.
Qed.

(** What the class of a chunk leaves, whether it is negated or not. *)
Lemma class_length chunk b t :
  match eat "^" chunk with Some chunk' => (true, chunk') | None => (false, chunk) end = (b, t) → (len t <= len chunk)%nat.
Proof. destruct (eat "^" chunk) as [u|] eqn:E; intros [= <- <-]; [apply eat_length in E; lia|done]. Qed.

Lemma match_chunk_total fuel chunk s : (len chunk < fuel)%nat → match_chunk fuel chunk s ≠ Spin.
Proof.
  revert chunk s. induction fuel as [|fuel IH]; intros chunk s Hf; [lia|]. cbn [match_chunk].
  destruct chunk as [|c chunk]; [done|]. cbn [len] in Hf.
  destruct (decide (c = "["%char)).
  { destruct (next_rune s) as [r s']. destruct (match eat "^" chunk with Some _ => _ | None => _ end) as [b t] eqn:E.
    apply class_length in E. pose proof (ranges_total fuel r false true t ltac:(lia)) as Hr.
    destruct (ranges _ _ _ _ t) as [[m u]| |]; [|done..]. apply IH. lia. }
  destruct (decide _); [apply IH; lia|].
  destruct (decide _); [|apply IH; lia]. destruct chunk as [|d chunk]; [done|]. apply IH. cbn [len] in Hf. lia.
Qed.

Lemma match_chunk_fuel fuel fuel' chunk s :
  (len chunk < fuel)%nat → (fuel <= fuel')%nat → match_chunk fuel' chunk s = match_chunk fuel chunk s.
Proof.
  revert fuel' chunk s. induction fuel as [|fuel IH]; intros fuel' chunk s Hf Hle; [lia|].
  destruct fuel' as [|fuel']; [lia|]. cbn [match_chunk].
  destruct chunk as [|c chunk]; [done|]. cbn [len] in Hf.
  destruct (decide (c = "["%char)).
  { destruct (next_rune s) as [r s']. destruct (match eat "^" chunk with Some _ => _ | None => _ end) as [b t] eqn:E.
    apply class_length in E. rewrite (ranges_fuel fuel fuel') by lia.
    pose proof (ranges_total fuel r false true t ltac:(lia)) as Hr.
    destruct (ranges _ _ _ _ t) as [[m u]| |]; [|done..]. apply IH; lia. }
  destruct (decide _); [apply IH; lia|].
  destruct (decide _); [|apply IH; lia]. destruct chunk as [|d chunk]; [done|]. cbn [len] in Hf. apply IH; lia.
Qed.

Lemma matchChunk_total chunk s : matchChunk chunk s ≠ Spin.
Proof. apply match_chunk_total. lia. Qed.

Lemma scan_length b p u v : scan b p = (u, v) → (len u + len v = len p)%nat.
Proof.
  revert b u v. induction p as [p IH] using string_len_ind. intros b u v.
  destruct p as [|c p]; cbn [scan]; [by intros [= <- <-]|].
  destruct (decide _).
  { destruct p as [|d p]; [by intros [= <- <-]|]. destruct (scan b p) as [x y] eqn:E. intros [= <- <-].
    apply IH in E; cbn; lia. }
  repeat (destruct (decide _); [destruct (scan _ p) as [x y] eqn:E; intros [= <- <-]; apply IH in E; cbn; lia|]).
  destruct (_ && _); [by intros [= <- <-]|]. destruct (scan _ p) as [x y] eqn:E; intros [= <- <-]; apply IH in E; cbn; lia.
Qed.

Lemma drop_stars_length p : (len (drop_stars p).2 <= len p)%nat ∧ ((drop_stars p).1 = true → (len (drop_stars p).2 < len p)%nat).
Proof.
  induction p as [|c p [IH _]]; cbn; [done|]. case_decide; cbn; [|done]. lia.
Qed.

(** Outside a class only a star ends a chunk. *)
Lemma scan_progress p u v :
  p ≠ "" → (drop_stars p).1 = false → scan false p = (u, v) → u ≠ "".
Proof.
  destruct p as [|c p]; [done|]. cbn [drop_stars scan]. intros _. case_decide; [done|]. intros _.
  rewrite (bool_decide_false (c = "*"%char)) by done. cbn [andb].
  repeat case_decide; try done; destruct p; repeat case_match; by intros [= <- <-].
Qed.

Lemma scanChunk_length p star chunk rest :
  p ≠ "" → scanChunk p = (star, chunk, rest) → (len rest < len p)%nat.
Proof.
  unfold scanChunk. intros Hp. pose proof (drop_stars_length p) as [Hl Hs].
  destruct (drop_stars p) as [b q] eqn:Hd. cbn in Hl, Hs. destruct (scan false q) as [u v] eqn:E.
  intros [= -> -> ->]. pose proof (scan_length _ _ _ _ E). destruct star; [specialize (Hs eq_refl); lia|].
  assert (q = p) as ->. { destruct p as [|c p]; [done|]. cbn in Hd. by case_decide; simplify_eq. }
  assert (chunk ≠ "") by (eapply scan_progress; [done|by rewrite Hd|done]).
  destruct chunk; [done|]. cbn in *. lia.
Qed.

Lemma skip_star_total chunk last name : skip_star chunk last name ≠ Spin.
Proof.
  induction name as [|c name IH]; cbn [skip_star]; [done|]. case_decide; [done|].
  pose proof (matchChunk_total chunk name). destruct (matchChunk chunk name) as [[t|]| |]; try done. by destruct (_ && _).
Qed.

Lemma check_rest_total fuel p : (len p <= fuel)%nat → check_rest fuel p ≠ Spin.
Proof.
  revert p. induction fuel as [|fuel IH]; intros p Hf; cbn [check_rest].
  { destruct p; [|cbn in Hf; lia]. by rewrite decide_True. }
  case_decide as Hp; [done|]. destruct (scanChunk p) as [[star chunk] rest] eqn:E.
  apply scanChunk_length in E; [|done]. pose proof (matchChunk_total chunk "").
  destruct (matchChunk chunk "") as [?| |]; [|done..]. apply IH. lia.
Qed.

Lemma check_rest_false fuel p : check_rest fuel p ≠ Done true.
Proof.
  revert p. induction fuel as [|fuel IH]; intros p; cbn [check_rest]; case_decide; try done.
  destruct (scanChunk p) as [[star chunk] rest]. by destruct (matchChunk chunk "") as [?| |].
Qed.

Lemma match_loop_total fuel p name : (len p <= fuel)%nat → match_loop fuel p name ≠ Spin.
Proof.
  revert p name. induction fuel as [|fuel IH]; intros p name Hf; cbn [match_loop].
  { destruct p; [|cbn in Hf; lia]. by rewrite decide_True. }
  case_decide as Hp; [done|]. destruct (scanChunk p) as [[star chunk] rest] eqn:E.
  apply scanChunk_length in E; [|done]. destruct (_ && _); [done|].
  pose proof (matchChunk_total chunk name). pose proof (skip_star_total chunk (bool_decide (rest = "")) name).
  assert (∀ t, match_loop fuel rest t ≠ Spin) by (intros t; apply IH; lia).
  assert (check_rest fuel rest ≠ Spin) by (apply check_rest_total; lia).
  destruct (matchChunk chunk name) as [[t|]| |]; try done; [destruct (_ && _); [|done]|];
    (destruct star; [destruct (skip_star _ _ name) as [[?|]| |]|]; done).
Qed.

(** The fuel of [Match] is enough. *)
Lemma match_total p name : ∃ r, Match p name = r ∧ r ≠ Spin.
Proof. eexists. split; [done|]. by apply match_loop_total. Qed.

Lemma match_loop_fuel fuel fuel' p name :
  (len p <= fuel)%nat → (fuel <= fuel')%nat → match_loop fuel' p name = Done true ↔ match_loop fuel p name = Done true.
Proof.
  revert fuel' p name. induction fuel as [|fuel IH]; intros fuel' p name Hf Hle.
  { destruct p; [|cbn in Hf; lia]. by destruct fuel'. }
  destruct fuel' as [|fuel']; [lia|]. cbn [match_loop].
  case_decide as Hp; [done|]. destruct (scanChunk p) as [[star chunk] rest] eqn:E.
  apply scanChunk_length in E; [|done]. destruct (_ && _); [done|].
  pose proof (check_rest_false fuel rest). pose proof (check_rest_false fuel' rest).
  assert (∀ t, match_loop fuel' rest t = Done true ↔ match_loop fuel rest t = Done true) by (intros t; apply IH; lia).
  destruct (matchChunk chunk name) as [[t|]| |]; try done; [destruct (_ && _); [|done]|];
    (destruct star; [destruct (skip_star _ _ name) as [[?|]| |]|]; naive_solver).
Qed.

(** ** Literal text in a pattern *)

Definition special (c : ascii) : bool := bool_decide (c ∈ ["*"; "?"; "["; backslash]%char).

(** The pattern stands for the text: its metacharacters are escaped. *)
Inductive literal : string → string → Prop :=
| literal_nil : literal "" ""
| literal_char c p w : special c = false → literal p w → literal (String c p) (String c w)
| literal_escaped c p w : literal p w → literal (String backslash (String c p)) (String c w).

Lemma literal_app p w p' w' : literal p w → literal p' w' → literal (p +:+ p') (w +:+ w').
Proof. induction 1; intros; rewrite ?string_cons_app; [done|constructor; auto..]. Qed.

Lemma literal_replace a b p w :
  special a = false → special b = false → literal p w → literal (replace_byte a b p) (replace_byte a b w).
Proof.
  intros Ha Hb. induction 1 as [|c p w Hc _ IH|c p w _ IH]; cbn [replace_byte]; [constructor|..].
  - constructor; [by case_decide|done].
  - rewrite decide_False by (intros <-; done). by constructor.
Qed.

Lemma special_false c : special c = false → c ≠ "*"%char ∧ c ≠ "?"%char ∧ c ≠ "["%char ∧ c ≠ backslash.
Proof. intros Hc. split_and!; intros ->; discriminate Hc. Qed.

Lemma scan_literal p w q : literal p w → scan false (p +:+ q) = (p +:+ (scan false q).1, (scan false q).2).
Proof.
  induction 1 as [|c p w Hc _ IH|c p w _ IH]; rewrite ?string_cons_app;
    [change (scan false q = ((scan false q).1, (scan false q).2)); by destruct (scan false q)|..].
  - apply special_false in Hc as (?&?&?&?). cbn [scan]. rewrite !decide_False, IH by done.
    rewrite (bool_decide_false (c = "*"%char)) by done. cbn [andb]. by case_decide.
  - cbn [scan]. by rewrite decide_True, IH.
Qed.

Lemma drop_stars_literal p w q : literal p w → p ≠ "" → drop_stars (p +:+ q) = (false, p +:+ q).
Proof.
  intros Hl Hp. destruct Hl as [|c p w Hc _|c p w _]; [done|..]; rewrite ?string_cons_app; cbn [drop_stars].
  - apply special_false in Hc as (?&?&?&?). by rewrite decide_False.
  - by rewrite decide_False.
Qed.

Definition eat_text (s : option string) (w : string) : option string := s ≫= λ s, CutPrefix s w.

Lemma next_byte_text c w s : eat_text (next_byte c s) w = eat_text s (String c w).
Proof.
  destruct s as [[|d s]|]; [done| |done]. cbn. by case_decide.
Qed.

Lemma match_chunk_literal fuel p w a s :
  literal p w → (len (p +:+ a) < fuel)%nat →
  match_chunk fuel (p +:+ a) s = match_chunk fuel a (eat_text s w).
Proof.
  intros Hl. revert fuel s. induction Hl as [|c p w Hc _ IH|c p w _ IH]; intros fuel s Hf; rewrite ?string_cons_app in *.
  - destruct s; done.
  - destruct fuel as [|fuel]; [lia|]. cbn [len] in Hf. apply special_false in Hc as (?&?&?&?).
    transitivity (match_chunk fuel (p +:+ a) (next_byte c s)); [cbn [match_chunk]; by rewrite !decide_False|].
    rewrite IH, next_byte_text by lia. symmetry. apply match_chunk_fuel; [|lia]. rewrite length_app_str in Hf. lia.
  - destruct fuel as [|fuel]; [lia|]. cbn [len] in Hf.
    transitivity (match_chunk fuel (p +:+ a) (next_byte c s)).
    { cbn [match_chunk]. rewrite 2!decide_False by done. by rewrite decide_True. }
    rewrite IH, next_byte_text by lia. symmetry. apply match_chunk_fuel; [|lia]. rewrite length_app_str in Hf. lia.
Qed.

(** A failed match stays failed. *)
Lemma match_chunk_failed fuel a t : match_chunk fuel a None ≠ Done (Some t).
Proof.
  revert a. induction fuel as [|fuel IH]; intros a; cbn [match_chunk]; [done|]. destruct a as [|c a]; [done|].
  destruct (decide _).
  { cbn [next_rune mbind option_bind]. destruct (match eat "^" a with Some _ => _ | None => _ end) as [b u].
    destruct (ranges _ _ _ _ u) as [[m v]| |]; [|done..]. by destruct (eqb m b). }
  destruct (decide _); [apply IH|]. destruct (decide _); [|apply IH]. destruct a; [done|apply IH].
Qed.

Lemma matchChunk_literal p w a name :
  literal p w →
  match CutPrefix name w with
  | Some rest => matchChunk (p +:+ a) name = matchChunk a rest
  | None => ∀ t, matchChunk (p +:+ a) name ≠ Done (Some t)
  end.
Proof.
  intros Hl. unfold matchChunk. rewrite (match_chunk_literal _ _ w) by (done || lia). cbn [eat_text mbind option_bind].
  destruct (CutPrefix name w) as [rest|]; [|intros; apply match_chunk_failed].
  apply match_chunk_fuel; [lia|]. rewrite length_app_str. lia.
Qed.

Lemma Match_empty name : Match "" name = Done true ↔ name = "".
Proof. cbv [Match len match_loop]. rewrite decide_True by done. case_bool_decide; naive_solver. Qed.

(** A pattern matches when its text up to the next star does, and the rest
    matches what is left. *)
Lemma Match_scan q name :
  Match q name = Done true ↔
  ∃ t, matchChunk (scan false q).1 name = Done (Some t) ∧ Match (scan false q).2 t = Done true.
Proof.
  destruct (scan false q) as [a b] eqn:E. cbn [fst snd]. unfold Match at 1.
  assert (a = "" ∧ b = q ∨ q ≠ "" ∧ drop_stars q = (false, q)) as [[-> ->]|[Hq Hd]].
  { destruct q as [|c q]; cbn in E; [left; by injection E as <- <-|]. destruct (decide (c = "*"%char)) as [->|Hc].
    - left. cbn in E. by injection E as <- <-.
    - right. split; [done|]. cbn. by rewrite decide_False. }
  - split; [intros Hm; by exists name|]. by intros (t&[= ->]&Hm).
  - assert (scanChunk q = (false, a, b)) as Hs by (unfold scanChunk; by rewrite Hd, E).
    pose proof (scanChunk_length _ _ _ _ Hq Hs) as Hl. destruct (len q) as [|fuel] eqn:Hn; [lia|].
    cbn [match_loop]. rewrite decide_False, Hs by done. cbn [andb].
    pose proof (check_rest_false fuel b) as Hc.
    assert (∀ t, match_loop fuel b t = Done true ↔ Match b t = Done true) as Hm by (intros t; apply match_loop_fuel; lia).
    destruct (matchChunk a name) as [[t|]| |]; [|split; [done|by intros (t&?&_)]..].
    destruct (bool_decide (b = "")) eqn:Hb; cbn [andb]; [|rewrite Hm; naive_solver].
    apply bool_decide_eq_true in Hb as ->. case_bool_decide as Ht; cbn [negb].
    + subst t. rewrite Hm. naive_solver.
    + split; [by intros ?%Hc|]. intros (u&[= <-]&Hu). exfalso. apply Ht. by apply Match_empty.
Qed.

Lemma Match_literal p w q name :
  literal p w → Match (p +:+ q) name = Done true ↔ ∃ rest, name = w +:+ rest ∧ Match q rest = Done true.
Proof.
  intros Hl. rewrite Match_scan, (scan_literal _ w) by done. cbn [fst snd].
  setoid_rewrite (Match_scan q). pose proof (matchChunk_literal p w (scan false q).1 name Hl) as Hc. split.
  - intros (t&Ht&Hm). destruct (CutPrefix name w) as [rest|] eqn:E; [|by apply Hc in Ht].
    apply CutPrefix_Some in E. exists rest. split; [done|]. exists t. split; [|done]. by rewrite <- Hc.
  - intros (rest&->&t&Ht&Hm). rewrite CutPrefix_app in Hc. exists t. by rewrite Hc.
Qed.

(** A trailing star takes one segment. *)
Lemma Match_star name : Match "*" name = Done (negb (has_slash name)).
Proof. done. Qed.

(** ** Syntax

    Whether a pattern is malformed shows on the empty name already. *)

Lemma ranges_syntax fuel r r' m m' first chunk :
  match ranges fuel r m first chunk, ranges fuel r' m' first chunk with
  | Done (_, t), Done (_, t') => t = t'
  | BadPattern, BadPattern | Spin, Spin => True
  | _, _ => False
  end.
Proof.
  revert m m' first chunk. induction fuel as [|fuel IH]; intros m m' first chunk; cbn [ranges]; [done|].
  destruct (if first then None else eat "]" chunk); [done|].
  destruct (getEsc chunk) as [[lo t]| |]; [|done..].
  destruct (match eat "-" t with Some _ => _ | None => _ end) as [[hi u]| |]; [apply IH|done..].
Qed.

Lemma match_chunk_syntax fuel chunk s s' :
  match_chunk fuel chunk s = BadPattern → match_chunk fuel chunk s' = BadPattern.
Proof.
  revert chunk s s'. induction fuel as [|fuel IH]; intros chunk s s'; cbn [match_chunk]; [done|].
  destruct chunk as [|c chunk]; [done|]. destruct (decide _).
  { destruct (next_rune s) as [r t], (next_rune s') as [r' t'].
    destruct (match eat "^" chunk with Some _ => _ | None => _ end) as [b u].
    pose proof (ranges_syntax fuel r r' false false true u) as Hr.
    destruct (ranges fuel r _ _ u) as [[m v]| |], (ranges fuel r' _ _ u) as [[m' v']| |]; try done. subst. apply IH. }
  destruct (decide _); [apply IH|]. destruct (decide _); [|apply IH]. destruct chunk; [done|apply IH].
Qed.

Lemma matchChunk_syntax chunk s s' : matchChunk chunk s = BadPattern → matchChunk chunk s' = BadPattern.
Proof. apply match_chunk_syntax. Qed.

Lemma matchChunk_empty chunk t : chunk ≠ "" → matchChunk chunk "" ≠ Done (Some t).
Proof.
  destruct chunk as [|c chunk]; [done|]. intros _. unfold matchChunk. cbn [len]. generalize (S (len chunk)). intros fuel.
  cbn [match_chunk]. cbn [next_rune next_byte any_rune mbind option_bind DecodeRune].
  destruct (decide _).
  { destruct (match eat "^" chunk with Some _ => _ | None => _ end) as [b u].
    destruct (ranges _ _ _ _ u) as [[m v]| |]; [|done..]. destruct (eqb m b); apply match_chunk_failed. }
  destruct (decide _); [apply match_chunk_failed|]. destruct (decide _); [|apply match_chunk_failed].
  destruct chunk; [done|apply match_chunk_failed].
Qed.

Lemma skip_star_syntax chunk last name : skip_star chunk last name = BadPattern → matchChunk chunk "" = BadPattern.
Proof.
  induction name as [|c name IH]; cbn [skip_star]; [done|]. case_decide; [done|].
  destruct (matchChunk chunk name) as [[t|]| |] eqn:E; try done; [by destruct (_ && _)|].
  intros _. by eapply matchChunk_syntax.
Qed.

Lemma match_loop_syntax fuel p name : match_loop fuel p name = BadPattern → check_rest fuel p = BadPattern.
Proof.
  revert p name. induction fuel as [|fuel IH]; intros p name; cbn [match_loop check_rest]; case_decide; try done.
  destruct (scanChunk p) as [[star chunk] rest]. destruct (_ && _); [done|].
  destruct (matchChunk chunk "") as [?| |] eqn:E0; [|done|by apply matchChunk_total in E0].
  assert (∀ t, matchChunk chunk t ≠ BadPattern) as Hc by (intros t Ht; apply (matchChunk_syntax _ _ "") in Ht; congruence).
  destruct (matchChunk chunk name) as [[t|]| |] eqn:E; [| |by apply Hc in E|done];
    [destruct (_ && _); [|apply IH]|];
    (destruct star; [|done]; destruct (skip_star _ _ name) as [[u|]| |] eqn:Es;
      [apply IH|done|apply skip_star_syntax in Es; congruence|done]).
Qed.

Lemma check_rest_syntax fuel p : check_rest fuel p = BadPattern → match_loop fuel p "" = BadPattern.
Proof.
  destruct fuel as [|fuel]; cbn [match_loop check_rest]; case_decide as Hp; try done.
  destruct (scanChunk p) as [[star chunk] rest] eqn:Es.
  destruct (decide (chunk = "")) as [->|Hne].
  - unfold scanChunk in Es. destruct (drop_stars p) as [b q] eqn:Hd, (scan false q) as [u v] eqn:Hs. injection Es as -> -> ->.
    cbn [matchChunk match_chunk]. assert (q = "") as ->.
    { destruct (decide (q = "")) as [|Hq]; [done|]. exfalso.
      eapply (scan_progress q); [done| |exact Hs|done].
      clear -Hd. revert star q Hd. induction p as [|c p IH]; intros star q; cbn; [by intros [= <- <-]|].
      destruct (decide _); [intros [= <- <-]; by destruct (drop_stars p) as [b r] eqn:E; apply (IH b)|].
      intros [= <- <-]. cbn. by rewrite decide_False. }
    injection Hs as <-. cbn [matchChunk match_chunk len]. unfold matchChunk. cbn [match_chunk len].
    destruct fuel; cbn [check_rest]; rewrite decide_True by done; done.
  - rewrite (bool_decide_false (chunk = "")), andb_false_r by done.
    pose proof (λ t, matchChunk_empty chunk t Hne) as Hm.
    destruct (matchChunk chunk "") as [[t|]| |]; [by destruct (Hm t)| |done..]. by destruct star.
Qed.

(** A name on which a pattern shows as malformed is not needed. *)
Lemma Match_syntax p name : Match p name = BadPattern → Match p "" = BadPattern.
Proof. intros Hm. by eapply check_rest_syntax, match_loop_syntax. Qed.
