(* ===== verification/Net.v ===== *)
(** * Addresses (packages net and net/netip)

    The parts of the standard library the SSRF guard and the configuration
    rest on.  An address is the list of its bytes. *)

From S2P Require Import Prelude GoStrings Json Utf8.
Local Open Scope Z_scope.

Definition IP : Type := list Z.

(** ** Text *)

Definition has_byte (c : ascii) (s : string) : bool := bool_decide (is_Some (CutByte s c)).

(** One decimal field: no sign, no leading zero, at most 255. *)
Definition ipv4_field (s : string) : option Z :=
  match s with
  | EmptyString => None
  | String c s' =>
      if bool_decide (c = "0"%char ∧ s' ≠ "") then None
      else match ParseUint s with NumOk n => if n <=? 255 then Some n else None | _ => None end
  end.

Definition parseIPv4 (s : string) : option IP :=
  match SplitByte "." s with
  | [a; b; c; d] => a ← ipv4_field a; b ← ipv4_field b; c ← ipv4_field c; d ← ipv4_field d; Some [a; b; c; d]
  | _ => None
  end.

(** A group of hexadecimal digits: its value, how many, and the rest. *)
Fixpoint hex_group (acc : Z) (n : nat) (s : string) : Z * nat * string :=
  match s with
  | String c s' => match hex_val c with Some v => hex_group (acc * 16 + v) (S n) s' | None => (acc, n, s) end
  | EmptyString => (acc, n, s)
  end.

(** The loop of [parseIPv6]: the bytes so far and where the ellipsis stands.
    Every round adds at least two of sixteen bytes. *)
Fixpoint ipv6_loop (fuel : nat) (ip : list Z) (ellipsis : option nat) (s : string) : option (list Z * option nat * string) :=
  match fuel with
  | O => Some (ip, ellipsis, s)
  | S fuel' =>
      let '(acc, n, rest) := hex_group 0 O s in
      if bool_decide (n = O) || bool_decide (4 < n)%nat then None
      else
        match rest with
        | EmptyString => Some (ip ++ [acc / 256; acc mod 256], ellipsis, "")
        | String c more =>
            if decide (c = "."%char) then
              if bool_decide (ellipsis = None ∧ length ip ≠ 12%nat) || bool_decide (16 < length ip + 4)%nat then None
              else v4 ← parseIPv4 s; Some (ip ++ v4, ellipsis, "")
            else if decide (c = ":"%char) then
              let ip := ip ++ [acc / 256; acc mod 256] in
              match more with
              | EmptyString => None
              | String c' tail =>
                  if decide (c' = ":"%char) then
                    if bool_decide (is_Some ellipsis) then None
                    else if bool_decide (tail = "") then Some (ip, Some (length ip), "")
                    else ipv6_loop fuel' ip (Some (length ip)) tail
                  else ipv6_loop fuel' ip ellipsis more
              end
            else None
        end
  end.

Definition parseIPv6 (s : string) : option IP :=
  let '(ellipsis, s) := match CutPrefix s "::" with Some r => (Some O, r) | None => (None, s) end in
  if bool_decide (is_Some ellipsis) && bool_decide (s = "") then Some (repeat 0 16)
  else
    match ipv6_loop 8 [] ellipsis s with
    | Some (ip, ellipsis, "") =>
        match ellipsis with
        | None => if bool_decide (length ip = 16%nat) then Some ip else None
        | Some e =>
            if bool_decide (length ip < 16)%nat
            then Some (take e ip ++ repeat 0 (16 - length ip) ++ drop e ip) else None
        end
    | _ => None
    end.

(** [netip.ParseAddr] without zones: IPv4 or not, and the bytes.  The first
    of [.] and [:] decides. *)
Fixpoint v4_first (s : string) : option bool :=
  match s with
  | EmptyString => None
  | String c s' => if decide (c = "."%char) then Some true else if decide (c = ":"%char) then Some false else v4_first s'
  end.

Definition ParseAddr (s : string) : option (bool * IP) :=
  if has_byte "%" s then None
  else match v4_first s with
  | Some true => ip ← parseIPv4 s; Some (true, ip)
  | Some false => ip ← parseIPv6 s; Some (false, ip)
  | None => None
  end.

Definition v4InV6Prefix : list Z := [0; 0; 0; 0; 0; 0; 0; 0; 0; 0; 255; 255].

(** [net.ParseIP]: always sixteen bytes. *)
Definition ParseIP (s : string) : option IP :=
  match ParseAddr s with
  | Some (true, ip) => Some (v4InV6Prefix ++ ip)
  | Some (false, ip) => Some ip
  | None => None
  end.

Definition To4 (ip : IP) : option IP :=
  if bool_decide (length ip = 4%nat) then Some ip
  else if bool_decide (length ip = 16%nat ∧ take 12 ip = v4InV6Prefix) then Some (drop 12 ip)
  else None.

(** ** Networks *)

Record IPNet : Type := { net_ip : IP; net_mask : list Z }.

(** [CIDRMask(n, 8 * l)]. *)
Fixpoint CIDRMask (n : nat) (l : nat) : list Z :=
  match l with
  | O => []
  | S l' => if bool_decide (8 <= n)%nat then 255 :: CIDRMask (n - 8) l'
            else (256 - 2 ^ (8 - Z.of_nat n)) :: CIDRMask 0 l'
  end.

Definition mask_bytes (ip mask : list Z) : list Z := zip_with Z.land ip mask.

(** [ParseCIDR]'s network. *)
Definition ParseCIDR (s : string) : option IPNet :=
  '(addr, mask) ← CutByte s "/"%char;
  '(v4, ip) ← ParseAddr addr;
  match ParseUint mask with
  | NumOk n =>
      let l := length ip in
      if n <=? 8 * Z.of_nat l then
        let m := CIDRMask (Z.to_nat n) l in Some {| net_ip := mask_bytes ip m; net_mask := m |}
      else None
  | _ => None
  end.

(** The method [Contains] of [IPNet]. *)
Definition NetContains (n : IPNet) (ip : IP) : bool :=
  let nn := default n.(net_ip) (To4 n.(net_ip)) in
  let m := if bool_decide (length nn = 4%nat ∧ length n.(net_mask) = 16%nat) then drop 12 n.(net_mask) else n.(net_mask) in
  let x := default ip (To4 ip) in
  bool_decide (length x = length nn) && bool_decide (mask_bytes nn m = mask_bytes x m).

(** ** Host and port *)

Definition SplitHostPort (hostport : string) : option (string * string) :=
  let clean (s : string) := negb (has_byte "[" s) && negb (has_byte "]" s) in
  match CutPrefix hostport "[" with
  | Some inner =>
      '(host, rest) ← CutByte inner "]"%char;
      port ← CutPrefix rest ":";
      if negb (has_byte ":" port) && negb (has_byte "[" host) && clean port then Some (host, port) else None
  | None =>
      '(host, port) ← CutByte hostport ":"%char;
      if negb (has_byte ":" port) && clean host && clean port then Some (host, port) else None
  end.

Definition JoinHostPort (host port : string) : string :=
  if has_byte ":" host then "[" +:+ host +:+ "]:" +:+ port else host +:+ ":" +:+ port.

(** ** Reading a network as an interval *)

Fixpoint num (l : list Z) : Z :=
  match l with [] => 0 | b :: l' => b * 2 ^ (8 * Z.of_nat (length l')) + num l' end.

Definition byte_ok (b : Z) : Prop := 0 ≤ b < 256.

Lemma num_range l : Forall byte_ok l → 0 ≤ num l < 2 ^ (8 * Z.of_nat (length l)).
Proof.
  induction 1 as [|b l [Hb Hb'] _ IH]; [done|]. cbn [num length].
  replace (8 * Z.of_nat (S (length l))) with (8 + 8 * Z.of_nat (length l)) by lia.
  rewrite Z.pow_add_r by lia. change (2 ^ 8) with 256. nia.
Qed.

Definition byte_mask_ok (n x : nat) : bool :=
  Z.land (Z.of_nat x) (256 - 2 ^ (8 - Z.of_nat n)) =? Z.of_nat x / 2 ^ (8 - Z.of_nat n) * 2 ^ (8 - Z.of_nat n).

(** All nine masks on all bytes. *)
Lemma byte_mask_table : forallb (λ n, forallb (byte_mask_ok n) (seq 0 256)) (seq 0 9) = true.
Proof. vm_compute. reflexivity. Qed.

Lemma land_byte_mask n x : (n ≤ 8)%nat → byte_ok x →
  Z.land x (256 - 2 ^ (8 - Z.of_nat n)) = x / 2 ^ (8 - Z.of_nat n) * 2 ^ (8 - Z.of_nat n).
Proof.
  intros Hn [H0 H1]. pose proof byte_mask_table as T. rewrite forallb_forall in T.
  specialize (T n ltac:(apply in_seq; lia)). rewrite forallb_forall in T.
  specialize (T (Z.to_nat x) ltac:(apply in_seq; lia)). apply Z.eqb_eq in T.
  by rewrite Z2Nat.id in T by lia.
Qed.

Lemma land_255 x : byte_ok x → Z.land x 255 = x.
Proof. intros Hx. pose proof (land_byte_mask 8 x ltac:(lia) Hx) as E. change (Z.land x 255 = x / 1 * 1) in E. rewrite Z.div_1_r in E. lia. Qed.

Lemma mask_zero (x y : list Z) : length x = length y → mask_bytes x (CIDRMask 0 (length x)) = mask_bytes y (CIDRMask 0 (length y)).
Proof.
  revert y. induction x as [|a x IH]; intros [|b y] Hl; try done. injection Hl as Hl.
  change (Z.land a 0 :: mask_bytes x (CIDRMask 0 (length x)) = Z.land b 0 :: mask_bytes y (CIDRMask 0 (length y))).
  rewrite !Z.land_0_r. f_equal. by apply IH.
Qed.

(** Equal under a mask of [n] bits is equal in the upper [n] bits. *)
Lemma mask_prefix x y n :
  Forall byte_ok x → Forall byte_ok y → length x = length y → (n ≤ 8 * length x)%nat →
  let k := 8 * Z.of_nat (length x) - Z.of_nat n in
  mask_bytes x (CIDRMask n (length x)) = mask_bytes y (CIDRMask n (length x)) ↔ num x / 2 ^ k = num y / 2 ^ k.
Proof.
  intros Hx. revert y n. induction Hx as [|a x Ha Hx IH]; intros [|b y] n Hy Hl Hn; try done.
  apply Forall_cons in Hy as [Hb Hy]. cbn [length] in *. injection Hl as Hl.
  pose proof (num_range x Hx) as Rx. pose proof (num_range y Hy) as Ry. rewrite <- Hl in Ry.
  cbn [num CIDRMask mask_bytes]. rewrite <- Hl. set (L := 8 * Z.of_nat (length x)) in *. cbv zeta.
  case_bool_decide as H8.
  - set (k := 8 * Z.of_nat (S (length x)) - Z.of_nat n).
    specialize (IH y (n - 8)%nat Hy Hl ltac:(lia)). cbv zeta in IH.
    replace (L - Z.of_nat (n - 8)) with k in IH by (unfold k, L; lia).
    assert (Hk : 0 ≤ k ≤ L) by (unfold k, L; lia).
    unfold mask_bytes in *. cbn [zip_with]. rewrite !land_255 by done.
    assert (E2 : 2 ^ L = 2 ^ (L - k) * 2 ^ k) by (rewrite <- Z.pow_add_r by lia; f_equal; lia).
    assert (Hp : 0 < 2 ^ k) by lia. assert (Hq : 0 < 2 ^ (L - k)) by (apply Z.pow_pos_nonneg; lia).
    rewrite !E2, !Z.mul_assoc, !Z.div_add_l by lia.
    assert (Bx : 0 ≤ num x / 2 ^ k < 2 ^ (L - k)) by (split; [apply Z.div_pos; lia|apply Z.div_lt_upper_bound; lia]).
    assert (By : 0 ≤ num y / 2 ^ k < 2 ^ (L - k)) by (split; [apply Z.div_pos; lia|apply Z.div_lt_upper_bound; lia]).
    split.
    + intros [= -> E]. f_equal. by apply IH.
    + intros E. assert (a = b) as -> by nia. f_equal. apply IH. lia.
  - assert (Hz : mask_bytes x (CIDRMask 0 (length x)) = mask_bytes y (CIDRMask 0 (length x))) by (rewrite Hl at 2; by apply mask_zero).
    unfold mask_bytes in *. cbn [zip_with]. rewrite !land_byte_mask by (lia || done).
    set (j := 8 - Z.of_nat n).
    replace (8 * Z.of_nat (S (length x)) - Z.of_nat n) with (L + j) by (unfold L, j; lia).
    assert (0 < 2 ^ j) by (apply Z.pow_pos_nonneg; lia). assert (0 < 2 ^ L) by lia.
    rewrite Z.pow_add_r by (unfold L, j; lia). rewrite <- !Z.div_div by lia.
    rewrite !Z.div_add_l, !(Z.div_small (num x)), !(Z.div_small (num y)), !Z.add_0_r by lia.
    split; [intros [= E _]; nia|intros ->; by f_equal].
Qed.

Definition ip_wf (ip : IP) : Prop := Forall byte_ok ip ∧ (length ip = 4%nat ∨ length ip = 16%nat).

(** First and last address of a network with a contiguous mask of [n] bits. *)
Definition interval (base : IP) (n : nat) : Z * Z :=
  let k := 8 * Z.of_nat (length base) - Z.of_nat n in
  (num base / 2 ^ k * 2 ^ k, num base / 2 ^ k * 2 ^ k + 2 ^ k - 1).

Definition within (x : Z) (r : Z * Z) : bool := (fst r <=? x) && (x <=? snd r).

(** Membership of an address already in its short form is membership in the
    interval. *)
Lemma NetContains_interval (base : IP) n (ip : IP) :
  Forall byte_ok base → Forall byte_ok ip → length ip = length base → (n ≤ 8 * length base)%nat →
  default base (To4 base) = base → default ip (To4 ip) = ip →
  NetContains {| net_ip := base; net_mask := CIDRMask n (length base) |} ip = within (num ip) (interval base n).
Proof.
  intros Hb Hi Hl Hn E1 E2. unfold NetContains. cbn [net_ip net_mask]. rewrite E1, E2.
  assert (Hm : ∀ l k, length (CIDRMask k l) = l).
  { induction l as [|l IH]; intros k; cbn; [done|]. case_bool_decide; cbn; by rewrite IH. }
  rewrite (bool_decide_eq_false_2 (_ ∧ _)) by (rewrite Hm; lia).
  rewrite (bool_decide_eq_true_2 (length ip = _)) by done. cbn [andb].
  pose proof (mask_prefix base ip n Hb Hi (eq_sym Hl) Hn) as Q. cbv zeta in Q.
  unfold within, interval. cbv zeta. cbn [fst snd].
  set (k := 8 * Z.of_nat (length base) - Z.of_nat n) in *.
  assert (0 < 2 ^ k) by (apply Z.pow_pos_nonneg; lia).
  pose proof (Z.div_mod (num ip) (2 ^ k) ltac:(lia)). pose proof (Z.mod_pos_bound (num ip) (2 ^ k) ltac:(lia)).
  destruct (Z.leb_spec (num base / 2 ^ k * 2 ^ k) (num ip)); cbn [andb];
    [destruct (Z.leb_spec (num ip) (num base / 2 ^ k * 2 ^ k + 2 ^ k - 1))|].
  - apply bool_decide_eq_true_2, Q. nia.
  - apply bool_decide_eq_false_2. intros E. apply Q in E. nia.
  - apply bool_decide_eq_false_2. intros E. apply Q in E. nia.
Qed.

Lemma num_app x y : num (x ++ y) = num x * 2 ^ (8 * Z.of_nat (length y)) + num y.
Proof.
  induction x as [|a x IH]; [done|]. cbn [num app]. rewrite IH, length_app.
  replace (8 * Z.of_nat (length x + length y)) with (8 * Z.of_nat (length x) + 8 * Z.of_nat (length y)) by lia.
  rewrite Z.pow_add_r by lia. ring.
Qed.

Lemma num_inj x y : Forall byte_ok x → Forall byte_ok y → length x = length y → num x = num y → x = y.
Proof.
  intros Hx. revert y. induction Hx as [|a x Ha Hx IH]; intros [|b y] Hy Hl E; try done.
  apply Forall_cons in Hy as [Hb Hy]. injection Hl as Hl. cbn [num] in E. rewrite <- Hl in E.
  pose proof (num_range x Hx) as Rx. pose proof (num_range y Hy) as Ry. rewrite <- Hl in Ry.
  assert (a = b) as -> by nia. f_equal. apply IH; [done..|lia].
Qed.

(** The IPv4-mapped addresses are one /96. *)
Lemma mapped_interval (ip : IP) : Forall byte_ok ip → length ip = 16%nat →
  take 12 ip = v4InV6Prefix ↔ within (num ip) (0xffff00000000, 0xffffffffffff) = true.
Proof.
  intros Hb Hl. pose proof (num_app (take 12 ip) (drop 12 ip)) as E. rewrite take_drop in E.
  rewrite length_drop, Hl in E. change (2 ^ (8 * Z.of_nat (16 - 12))) with 4294967296 in E.
  pose proof (num_range (drop 12 ip) (Forall_drop _ _ _ Hb)) as R. rewrite length_drop, Hl in R.
  change (2 ^ (8 * Z.of_nat (16 - 12))) with 4294967296 in R.
  unfold within. cbn [fst snd]. rewrite andb_true_iff, !Z.leb_le. split.
  - intros Hp. rewrite Hp in E. change (num v4InV6Prefix) with 65535 in E. lia.
  - intros Hw. apply num_inj; [by apply Forall_take|by repeat constructor|by rewrite length_take, Hl|].
    change (num v4InV6Prefix) with 65535. lia.
Qed.

(** ** What parses is an address *)

Lemma parse_uint_loop_nonneg s a n : 0 ≤ a → parse_uint_loop a s = NumOk n → 0 ≤ n.
Proof.
  revert a. induction s as [|c s IH]; intros a Ha; cbn [parse_uint_loop]; [by intros [= <-]|].
  unfold digit_of. case_bool_decide; [|done]. case_match; [done|]. apply IH. lia.
Qed.

Lemma ipv4_field_byte s n : ipv4_field s = Some n → byte_ok n.
Proof.
  destruct s as [|c s]; [done|]. cbn [ipv4_field]. case_bool_decide; [done|].
  destruct (ParseUint _) eqn:E; try done. case_match eqn:L; [|done]. intros [= <-].
  unfold ParseUint in E. case_decide; [done|]. apply parse_uint_loop_nonneg in E; [|lia]. apply Z.leb_le in L. unfold byte_ok. lia.
Qed.

Lemma parseIPv4_wf s ip : parseIPv4 s = Some ip → Forall byte_ok ip ∧ length ip = 4%nat.
Proof.
  unfold parseIPv4. destruct (SplitByte _ _) as [|a [|b [|c [|d [|? ?]]]]]; try done.
  destruct (ipv4_field a) eqn:?, (ipv4_field b) eqn:?, (ipv4_field c) eqn:?, (ipv4_field d) eqn:?; try done.
  intros [= <-]. split; [|done]. repeat (apply Forall_cons; split; [by eapply ipv4_field_byte|]). by apply Forall_nil.
Qed.

Lemma hex_val_range c v : hex_val c = Some v → 0 ≤ v < 16.
Proof. unfold hex_val. repeat case_bool_decide; intros [= <-]; lia. Qed.

Lemma hex_group_range s a n b m rest :
  0 ≤ a < 16 ^ Z.of_nat n → hex_group a n s = (b, m, rest) → 0 ≤ b < 16 ^ Z.of_nat m.
Proof.
  revert a n. induction s as [|c s IH]; intros a n Ha; cbn [hex_group]; [by intros [= <- <- <-]|].
  destruct (hex_val c) as [v|] eqn:V; [|by intros [= <- <- <-]].
  apply IH. apply hex_val_range in V. rewrite Nat2Z.inj_succ, Z.pow_succ_r by lia. lia.
Qed.

Lemma group_bytes s acc n rest :
  hex_group 0 0 s = (acc, n, rest) → (n ≤ 4)%nat → Forall byte_ok [acc / 256; acc mod 256].
Proof.
  intros E Hn. apply hex_group_range in E; [|done].
  assert (16 ^ Z.of_nat n ≤ 16 ^ 4) by (apply Z.pow_le_mono_r; lia). change (16 ^ 4) with 65536 in *.
  repeat apply Forall_cons_2; unfold byte_ok; [|apply Z.mod_pos_bound; lia|by apply Forall_nil].
  split; [apply Z.div_pos; lia|apply Z.div_lt_upper_bound; lia].
Qed.

Lemma ipv6_loop_bytes fuel ip e s ip' e' rest :
  Forall byte_ok ip → ipv6_loop fuel ip e s = Some (ip', e', rest) → Forall byte_ok ip'.
Proof.
  revert ip e s. induction fuel as [|fuel IH]; intros ip e s Hip; cbn [ipv6_loop]; [by intros [= <- _ _]|].
  destruct (hex_group 0 0 s) as [[acc n] r] eqn:G.
  case_match eqn:Bad; [done|]. apply orb_false_iff in Bad as [_ Bad%bool_decide_eq_false].
  pose proof (group_bytes _ _ _ _ G ltac:(lia)) as Hg. assert (Hip' := Forall_app_2 _ _ _ Hip Hg).
  destruct r as [|c more]; [by intros [= <- _ _]|].
  case_decide; [|case_decide; [|done]].
  - case_match; [done|]. destruct (parseIPv4 s) as [v|] eqn:V; [|done]. apply parseIPv4_wf in V as [V _].
    intros [= <- _ _]. by apply Forall_app_2.
  - destruct more as [|c' tail]; [done|]. repeat case_match; try done; [by intros [= <- _ _]|by apply IH..].
Qed.

Lemma parseIPv6_wf s ip : parseIPv6 s = Some ip → Forall byte_ok ip ∧ length ip = 16%nat.
Proof.
  unfold parseIPv6. destruct (match CutPrefix s "::" with Some _ => _ | None => _ end) as [e s'].
  case_match eqn:Z0; [intros [= <-]; split; [by repeat constructor|done]|]. clear Z0.
  destruct (ipv6_loop 8 [] e s') as [[[ip' e'] r]|] eqn:L; [|done].
  apply ipv6_loop_bytes in L; [|by apply Forall_nil].
  destruct r; [|done]. destruct e' as [e'|]; case_bool_decide; try done; intros [= <-]; [|done].
  split.
  - apply Forall_app_2; [by apply Forall_take|]. apply Forall_app_2; [|by apply Forall_drop].
    apply Forall_forall. intros x Hx%list_elem_of_In%repeat_spec. by subst.
  - rewrite !length_app, length_take, length_drop, repeat_length. lia.
Qed.

Lemma ParseIP_wf s ip : ParseIP s = Some ip → ip_wf ip.
Proof.
  unfold ParseIP, ParseAddr. destruct (has_byte _ s); [done|].
  destruct (v4_first s) as [[]|]; [| |done].
  - destruct (parseIPv4 s) as [v|] eqn:V; [|done]. apply parseIPv4_wf in V as [V L].
    intros [= <-]. split; [|right; change (S (S (S (S (S (S (S (S (S (S (S (S (length v)))))))))))) = 16%nat); lia]. apply (Forall_app_2 _ v4InV6Prefix v); [by repeat constructor|done].
  - destruct (parseIPv6 s) as [v|] eqn:V; [|done]. apply parseIPv6_wf in V as [V L]. intros [= <-]. by split; [|right].
Qed.

Lemma digits_no_byte c s : all_digits s = true → digit_of c = None → has_byte c s = false.
Proof.
  intros Hs Hc. apply bool_decide_eq_false. intros [[a b] E]. revert a E.
  induction s as [|x s IH]; cbn [CutByte all_digits] in *; [done|]. apply andb_true_iff in Hs as [Hx Hs].
  intros a. case_decide as E.
  - subst. apply bool_decide_eq_true in Hx as [? Hx]. congruence.
  - destruct (CutByte s c) as [[a' b']|]; [|done]. intros [= _ ->]. by apply (IH Hs a').
Qed.

(** A port alone splits back. *)
Lemma SplitHostPort_port n : 0 ≤ n → SplitHostPort (":" +:+ FormatInt n) = Some ("", FormatInt n).
Proof.
  intros Hn. unfold FormatInt. rewrite (proj2 (Z.ltb_ge n 0)) by lia. rewrite string_cons_app.
  change ("" +:+ FormatUint n) with (FormatUint n).
  unfold SplitHostPort. cbn [CutPrefix]. rewrite decide_False by done. cbn [CutByte]. rewrite decide_True by done.
  cbn. by rewrite !digits_no_byte by (apply FormatUint_digits || done).
Qed.
