(* ===== verification/Ssrf.v ===== *)
(** * The outbound guard (internal/ssrf/ssrf.go)

    [Validate], the pre-flight check on a job's URL, and [DialControl], the
    check on the address about to be dialed.  The URL parser and the resolver
    are arguments: nothing is assumed of the first, and of the second that its
    addresses are well-formed. *)

From S2P Require Import Prelude GoStrings Json Utf8 Net.
Local Open Scope Z_scope.

(** The first result of [parseCIDRs] is the loop's: entries that do not parse
    are skipped. *)
Definition parseCIDRs (cidrs : list string) : list IPNet := omap ParseCIDR cidrs.

Definition blockedV4 : list IPNet :=
  parseCIDRs ["0.0.0.0/8"; "10.0.0.0/8"; "100.64.0.0/10"; "127.0.0.0/8"; "169.254.0.0/16"; "172.16.0.0/12";
              "192.0.0.0/24"; "192.0.2.0/24"; "192.168.0.0/16"; "198.18.0.0/15"; "198.51.100.0/24";
              "203.0.113.0/24"; "224.0.0.0/4"; "240.0.0.0/4"; "255.255.255.255/32"].

Definition blockedV6 : list IPNet :=
  parseCIDRs ["::/128"; "::1/128"; "64:ff9b::/96"; "100::/64"; "fc00::/7"; "fe80::/10"; "ff00::/8"].

(** The loop over a list of networks: true when none contains the address. *)
Fixpoint outside (nets : list IPNet) (ip : IP) : bool :=
  match nets with
  | [] => true
  | n :: nets' => if NetContains n ip then false else outside nets' ip
  end.

(** [None] is the nil [net.IP]. *)
Definition IsPublic (ip : option IP) : bool :=
  match ip with
  | None => false
  | Some ip => match To4 ip with Some v4 => outside blockedV4 v4 | None => outside blockedV6 ip end
  end.

(** What follows [blocked by SSRF policy:] in an error. *)
Inductive blocked : Type :=
| ParseURLError
| OnlyHTTP
| MissingHost
| HostNotListed (host : string)
| LookupFailed
| NoAddresses (host : string)
| ResolvesNonPublic (host : string) (ip : IP)
| SplitFailed
| DialNonIP (host : string)
| DialNonPublic (ip : IP).

Record Guard : Type := { AllowedHosts : list string }.

Fixpoint host_listed (hosts : list string) (host : string) : bool :=
  match hosts with
  | [] => false
  | h :: hosts' => if bool_decide (host = h) || HasSuffix host ("." +:+ h) then true else host_listed hosts' host
  end.

Definition hostAllowed (g : Guard) (host : string) : bool :=
  match g.(AllowedHosts) with [] => true | hosts => host_listed hosts host end.

Fixpoint first_private (host : string) (ips : list IP) : option blocked :=
  match ips with
  | [] => None
  | ip :: ips' => if IsPublic (Some ip) then first_private host ips' else Some (ResolvesNonPublic host ip)
  end.

(** The parts of [url.URL] the guard reads. *)
Record URL : Type := { Scheme : string; Hostname : string }.

Section validate.
Context `{Lower}.
Variable url_Parse : string → option URL.
Variable LookupIPAddr : string → option (list IP).

(** [None]: accepted. *)
Definition Validate (g : Guard) (rawURL : string) : option blocked :=
  match url_Parse rawURL with
  | None => Some ParseURLError
  | Some u =>
      if negb (bool_decide (u.(Scheme) = "http")) && negb (bool_decide (u.(Scheme) = "https")) then Some OnlyHTTP else
      let host := ToLower u.(Hostname) in
      if bool_decide (host = "") then Some MissingHost else
      if negb (hostAllowed g host) then Some (HostNotListed host) else
      match match ParseIP host with Some literal => Some [literal] | None => LookupIPAddr host end with
      | None => Some LookupFailed
      | Some [] => Some (NoAddresses host)
      | Some ips => first_private host ips
      end
  end.
End validate.

(** The hook on the address about to be dialed. *)
Definition DialControl (network address : string) : option blocked :=
  match SplitHostPort address with
  | None => Some SplitFailed
  | Some (host, _) =>
      match ParseIP host with
      | None => Some (DialNonIP host)
      | Some ip => if IsPublic (Some ip) then None else Some (DialNonPublic ip)
      end
  end.

(** ** The policy in numbers *)

Definition v4 (a b c d : Z) : Z := num [a; b; c; d].
Definition v6 (hi lo : Z) : Z := hi * 2 ^ 64 + lo.

Definition reserved_v4 : list (Z * Z) :=
  [(v4 0 0 0 0, v4 0 255 255 255); (v4 10 0 0 0, v4 10 255 255 255); (v4 100 64 0 0, v4 100 127 255 255);
   (v4 127 0 0 0, v4 127 255 255 255); (v4 169 254 0 0, v4 169 254 255 255); (v4 172 16 0 0, v4 172 31 255 255);
   (v4 192 0 0 0, v4 192 0 0 255); (v4 192 0 2 0, v4 192 0 2 255); (v4 192 168 0 0, v4 192 168 255 255);
   (v4 198 18 0 0, v4 198 19 255 255); (v4 198 51 100 0, v4 198 51 100 255); (v4 203 0 113 0, v4 203 0 113 255);
   (v4 224 0 0 0, v4 239 255 255 255); (v4 240 0 0 0, v4 255 255 255 255); (v4 255 255 255 255, v4 255 255 255 255)].

(** Upper and lower half. *)
Definition reserved_v6 : list (Z * Z) :=
  let last := 0xffffffffffffffff in
  [(0, 0); (1, 1);
   (v6 0x0064ff9b00000000 0, v6 0x0064ff9b00000000 0xffffffff);
   (v6 0x0100000000000000 0, v6 0x0100000000000000 last);
   (v6 0xfc00000000000000 0, v6 0xfdffffffffffffff last);
   (v6 0xfe80000000000000 0, v6 0xfebfffffffffffff last);
   (v6 0xff00000000000000 0, v6 0xffffffffffffffff last)].

(** ::ffff:0:0/96 reads as its last four bytes. *)
Definition reserved (ip : IP) : bool :=
  if bool_decide (length ip = 4%nat) then existsb (within (num ip)) reserved_v4
  else if within (num ip) (v6 0 0xffff00000000, v6 0 0xffffffffffff) then existsb (within (num ip mod 2 ^ 32)) reserved_v4
  else existsb (within (num ip)) reserved_v6.

#[export] Instance byte_ok_dec b : Decision (byte_ok b).
Proof. unfold byte_ok. apply _. Defined.

(** A network by its base and the length of its prefix. *)
Definition network (p : IP * nat) : IPNet := {| net_ip := fst p; net_mask := CIDRMask (snd p) (length (fst p)) |}.

Definition plain_net (l : nat) (p : IP * nat) : Prop :=
  Forall byte_ok (fst p) ∧ length (fst p) = l ∧ (snd p ≤ 8 * l)%nat ∧ default (fst p) (To4 (fst p)) = fst p.

#[export] Instance plain_net_dec l p : Decision (plain_net l p).
Proof. unfold plain_net. apply _. Defined.

Lemma outside_intervals (nets : list (IP * nat)) (ip : IP) :
  Forall byte_ok ip → default ip (To4 ip) = ip → Forall (plain_net (length ip)) nets →
  outside (network <$> nets) ip = negb (existsb (within (num ip)) ((λ p, interval (fst p) (snd p)) <$> nets)).
Proof.
  intros Hb E. induction 1 as [|[b n] nets (Pb & Pl & Pn & PE) _ IH]; [done|]. cbn [fst snd] in *.
  cbn [fmap list_fmap outside existsb]. unfold network at 1. cbn [fst snd].
  rewrite (NetContains_interval b n ip Pb Hb (eq_sym Pl)) by (done || lia). rewrite IH. by destruct (within _ _).
Qed.

Definition nets4 : list (IP * nat) :=
  [([0; 0; 0; 0], 8%nat); ([10; 0; 0; 0], 8%nat); ([100; 64; 0; 0], 10%nat); ([127; 0; 0; 0], 8%nat); ([169; 254; 0; 0], 16%nat);
   ([172; 16; 0; 0], 12%nat); ([192; 0; 0; 0], 24%nat); ([192; 0; 2; 0], 24%nat); ([192; 168; 0; 0], 16%nat); ([198; 18; 0; 0], 15%nat);
   ([198; 51; 100; 0], 24%nat); ([203; 0; 113; 0], 24%nat); ([224; 0; 0; 0], 4%nat); ([240; 0; 0; 0], 4%nat); ([255; 255; 255; 255], 32%nat)].

Definition nets6 : list (IP * nat) :=
  [(repeat 0 16, 128%nat); (repeat 0 15 ++ [1], 128%nat); ([0; 0x64; 0xff; 0x9b] ++ repeat 0 12, 96%nat); (1 :: repeat 0 15, 64%nat);
   (0xfc :: repeat 0 15, 7%nat); ([0xfe; 0x80] ++ repeat 0 14, 10%nat); (0xff :: repeat 0 15, 8%nat)].

(** Every text of the two lists parses, to these networks. *)
Lemma blockedV4_nets : blockedV4 = network <$> nets4.
Proof. vm_compute. reflexivity. Qed.
Lemma blockedV6_nets : blockedV6 = network <$> nets6.
Proof. vm_compute. reflexivity. Qed.

Lemma nets4_plain : Forall (plain_net 4) nets4.
Proof. apply (bool_decide_eq_true _). vm_compute. reflexivity. Qed.
Lemma nets6_plain : Forall (plain_net 16) nets6.
Proof. apply (bool_decide_eq_true _). vm_compute. reflexivity. Qed.

Lemma outside_v4 (ip : IP) : Forall byte_ok ip → length ip = 4%nat →
  outside blockedV4 ip = negb (existsb (within (num ip)) reserved_v4).
Proof.
  intros Hb Hl. rewrite blockedV4_nets, outside_intervals; [|done| |rewrite Hl; apply nets4_plain].
  - do 2 f_equal.
  - unfold To4. by rewrite bool_decide_eq_true_2.
Qed.

Lemma IsPublic_numeric (ip : IP) : ip_wf ip → IsPublic (Some ip) = negb (reserved ip).
Proof.
  intros [Hb Hl]. unfold IsPublic, reserved, To4. destruct Hl as [Hl|Hl]; rewrite Hl.
  - rewrite !(bool_decide_eq_true_2 (4%nat = 4%nat)) by done. by apply outside_v4.
  - rewrite !(bool_decide_eq_false_2 (16%nat = 4%nat)) by done.
    pose proof (mapped_interval ip Hb Hl) as M. change (v6 0 0xffff00000000, v6 0 0xffffffffffff) with (0xffff00000000, 0xffffffffffff).
    case_bool_decide as T.
    + destruct T as [_ T]. apply M in T as W. rewrite W.
      rewrite outside_v4 by (by apply Forall_drop || by rewrite length_drop, Hl).
      pose proof (num_app (take 12 ip) (drop 12 ip)) as E. rewrite take_drop, length_drop, Hl in E.
      pose proof (num_range (drop 12 ip) (Forall_drop _ _ _ Hb)) as R. rewrite length_drop, Hl in R.
      change (2 ^ (8 * Z.of_nat (16 - 12))) with (2 ^ 32) in *.
      rewrite E, Z.add_comm, Z.mod_add, Z.mod_small by lia. done.
    + destruct (within _ _) eqn:W; [by destruct T; split; [done|apply M]|].
      rewrite blockedV6_nets, outside_intervals; [|done| |rewrite Hl; apply nets6_plain].
      * do 2 f_equal.
      * unfold To4. rewrite Hl. by rewrite !bool_decide_eq_false_2 by (done || tauto).
Qed.

(** [IsPublic] is the numeric policy: an address of four or sixteen bytes is public exactly when its number lies
    in none of the reserved intervals, an IPv4-mapped one being judged by its last four bytes. *)
Theorem IsPublic_exact (ip : IP) : ip_wf ip → IsPublic (Some ip) = negb (reserved ip).
Proof. apply IsPublic_numeric. Qed.

Lemma host_listed_spec hosts host :
  host_listed hosts host = true ↔ ∃ h, h ∈ hosts ∧ (host = h ∨ ∃ sub, host = sub +:+ "." +:+ h).
Proof.
  induction hosts as [|h hosts IH]; cbn [host_listed].
  - split; [done|]. by intros (? & ?%not_elem_of_nil & _).
  - destruct (_ || _) eqn:E.
    + split; [|done]. intros _. exists h. split; [by left|].
      apply orb_true_iff in E as [E%bool_decide_eq_true|E%HasSuffix_spec]; [by left|by right].
    + apply orb_false_iff in E as [E1%bool_decide_eq_false E2]. rewrite IH. split.
      * intros (x & Hx & Hs). exists x. split; [by right|done].
      * intros (x & Hx & Hs). exists x. split; [|done]. apply elem_of_cons in Hx as [->|Hx]; [|done].
        destruct Hs as [->|Hs%HasSuffix_spec]; [done|by rewrite E2 in Hs].
Qed.

(** What the allow-list means: without one every host, else the hosts on it
    and their subdomains, in whatever case either is written. *)
Definition host_permitted `{Lower} (g : Guard) (host : string) : Prop :=
  g.(AllowedHosts) = [] ∨
  ∃ h, h ∈ g.(AllowedHosts) ∧ (ToLower host = ToLower h ∨ ∃ sub, ToLower host = sub +:+ "." +:+ ToLower h).

(** An allow-list in lower case, the way the environment's is loaded. *)
Definition lower_cased `{Lower} (g : Guard) : Prop := Forall (λ h, ToLower h = h) g.(AllowedHosts).

Lemma hostAllowed_spec `{Lower} g host : lower_cased g → hostAllowed g (ToLower host) = true ↔ host_permitted g host.
Proof.
  unfold lower_cased, hostAllowed, host_permitted. destruct (AllowedHosts g) as [|h0 l]; [by split; [left|]|].
  assert (h0 :: l ≠ []) as Hne by done. revert Hne. generalize (h0 :: l). intros hs Hne Hl. rewrite Forall_forall in Hl.
  assert (host_listed hs (ToLower host) = true ↔ ∃ h, h ∈ hs ∧ (ToLower host = ToLower h ∨ ∃ sub, ToLower host = sub +:+ "." +:+ ToLower h)) as E.
  { rewrite host_listed_spec. split; intros (h & Hh & Hs); exists h; by rewrite (Hl h Hh) in *. }
  rewrite E. split; [by right|]. by intros [|].
Qed.

Lemma first_private_spec host ips :
  Forall ip_wf ips → first_private host ips = None ↔ Forall (λ ip, reserved ip = false) ips.
Proof.
  induction 1 as [|ip ips Hw _ IH]; [by split|]. cbn [first_private]. rewrite Forall_cons, <- IH.
  rewrite IsPublic_numeric by done. destruct (reserved ip); cbn [negb]; split; try done; [by intros []|by intros [_ ?]].
Qed.

(** The addresses a name stands for: itself when it is one, else what the resolver says. *)
Definition addresses (LookupIPAddr : string → option (list IP)) (host : string) : option (list IP) :=
  match ParseIP host with Some ip => Some [ip] | None => LookupIPAddr host end.

(** [C19] With an allow-list in lower case [Validate] accepts exactly the http and https URLs whose host is on the
    list or a subdomain of a host on it, in any case (or any host when there is no list), and stands for at least one
    address and for no reserved one: one private answer among public ones is enough to refuse, whatever the URL parser
    and the resolver do. *)
Theorem Validate_public_only `{Lower} url_Parse LookupIPAddr g rawURL :
  (∀ host ips, LookupIPAddr host = Some ips → Forall ip_wf ips) → lower_cased g →
  Validate url_Parse LookupIPAddr g rawURL = None ↔
  ∃ u ips, url_Parse rawURL = Some u ∧ (u.(Scheme) = "http" ∨ u.(Scheme) = "https") ∧
    ToLower u.(Hostname) ≠ "" ∧ host_permitted g u.(Hostname) ∧
    addresses LookupIPAddr (ToLower u.(Hostname)) = Some ips ∧ ips ≠ [] ∧ Forall (λ ip, reserved ip = false) ips.
Proof.
  intros Hr Hg. unfold Validate. fold (addresses LookupIPAddr).
  destruct (url_Parse rawURL) as [u|]; [|by split; [|by intros (? & ? & ? & _)]].
  set (host := ToLower (Hostname u)). change (match ParseIP host with Some _ => _ | None => _ end) with (addresses LookupIPAddr host).
  assert (Hw : ∀ ips, addresses LookupIPAddr host = Some ips → Forall ip_wf ips).
  { unfold addresses. destruct (ParseIP host) eqn:P; [|apply Hr]. intros ips [= <-]. apply ParseIP_wf in P. by apply Forall_singleton. }
  split.
  - case_match eqn:S; [done|]. destruct (bool_decide (host = "")) eqn:Hh; [done|].
    apply bool_decide_eq_false in Hh. destruct (hostAllowed g host) eqn:A; [|done]. cbn [negb].
    destruct (addresses LookupIPAddr host) as [[|ip ips]|] eqn:E; try done. intros F. exists u, (ip :: ips).
    apply hostAllowed_spec in A; [|done]. apply first_private_spec in F; [|by apply Hw].
    repeat split; try done.
    apply andb_false_iff in S as [S%negb_false_iff%bool_decide_eq_true|S%negb_false_iff%bool_decide_eq_true]; auto.
  - intros (u' & ips & [= <-] & S & Hh & A & E & Hne & F). fold host in Hh, E. apply hostAllowed_spec in A; [|done]. fold host in A.
    apply first_private_spec with (host := host) in F; [|by apply Hw].
    rewrite A, (bool_decide_eq_false_2 (host = "")) by done. cbn [negb]. rewrite E.
    destruct ips; [done|]. rewrite F. by destruct S as [-> | ->].
Qed.

(** [C38] The dialer's hook accepts exactly a literal address, with a port, outside every reserved interval: whatever
    name was resolved, redirected to or rebound between the pre-flight check and the connection, the socket is only
    ever opened to a public address. *)
Theorem dialed_public network address :
  DialControl network address = None ↔
  ∃ host port ip, SplitHostPort address = Some (host, port) ∧ ParseIP host = Some ip ∧ reserved ip = false.
Proof.
  unfold DialControl. destruct (SplitHostPort address) as [[host port]|]; [|by split; [|by intros (? & ? & ? & ? & _)]].
  destruct (ParseIP host) as [ip|] eqn:P; [|split; [done|]; intros (? & ? & ? & [= <- <-] & P' & _); congruence].
  change (match To4 ip with Some v => _ | None => _ end) with (IsPublic (Some ip)).
  rewrite (IsPublic_numeric ip) by (by eapply ParseIP_wf). destruct (reserved ip) eqn:R; cbn [negb]; split; try done.
  - intros (? & ? & ip' & [= <- <-] & P' & R'). congruence.
  - intros _. by exists host, port, ip.
Qed.

(** Addresses that carry a private IPv4 address in another way than
    ::ffff:0:0/96 or 64:ff9b::/96 count as public: the deprecated
    IPv4-compatible form and 6to4; so do the site-local fec0::/10 and the
    local-use NAT64 prefix. *)
Theorem embedded_private_public :
  Forall (λ s, option_map (λ ip, IsPublic (Some ip)) (ParseIP s) = Some true)
    ["::127.0.0.1"; "2002:7f00:1::"; "2002:a9fe:a9fe::"; "fec0::1"; "64:ff9b:1::7f00:1"].
Proof. repeat (apply Forall_cons; split; [vm_compute; reflexivity|]). by apply Forall_nil. Qed.

(** The allow-list compares with a lower-cased host and is itself taken as
    written. *)
Theorem allowlist_case : hostAllowed {| AllowedHosts := ["API.example.com"] |} "api.example.com" = false.
Proof. reflexivity. Qed.

(** ** Witnesses *)

#[local] Instance lower_witness : Lower := {| ToLower := lower_ascii; ToLower_ascii _ _ := eq_refl |}.

Definition demo_parse (s : string) : option URL :=
  if bool_decide (s = "https://Hooks.example.com/x") then Some {| Scheme := "https"; Hostname := "Hooks.example.com" |} else None.

Definition demo_lookup (s : string) : option (list IP) :=
  if bool_decide (s = "hooks.example.com") then Some [[93; 184; 216; 34]] else None.

Lemma demo_lookup_wf host ips : demo_lookup host = Some ips → Forall ip_wf ips.
Proof.
  unfold demo_lookup. case_bool_decide; [|done]. intros [= <-]. apply Forall_cons. split; [|by apply Forall_nil].
  split; [|by left]. repeat (apply Forall_cons; split; [by unfold byte_ok|]). by apply Forall_nil.
Defined.

Lemma Validate_public_only_witness :
  Validate demo_parse demo_lookup {| AllowedHosts := ["example.com"] |} "https://Hooks.example.com/x" = None.
Proof.
  apply (Validate_public_only demo_parse demo_lookup {| AllowedHosts := ["example.com"] |} "https://Hooks.example.com/x" demo_lookup_wf).
  { by apply Forall_singleton. }
  exists {| Scheme := "https"; Hostname := "Hooks.example.com" |}, [[93; 184; 216; 34]].
  split; [reflexivity|]. split; [by right|]. split; [done|]. split; [right; exists "example.com"; split; [by left|right; by exists "hooks"]|].
  split; [reflexivity|]. split; [done|]. apply Forall_cons. split; [reflexivity|by apply Forall_nil].
Defined.

Lemma IsPublic_exact_witness : IsPublic (Some [0; 0; 0; 0; 0; 0; 0; 0; 0; 0; 255; 255; 10; 1; 2; 3]) = false.
Proof.
  change false with (negb (reserved [0; 0; 0; 0; 0; 0; 0; 0; 0; 0; 255; 255; 10; 1; 2; 3])).
  apply (IsPublic_exact [0; 0; 0; 0; 0; 0; 0; 0; 0; 0; 255; 255; 10; 1; 2; 3]).
  split; [|by right]. repeat (apply Forall_cons; split; [by unfold byte_ok|]). by apply Forall_nil.
Defined.
