(* ===== verification/Protocol.v ===== *)
(** * Wire protocol (protocol/protocol.go): the frames sent to clients

    An encoder returns the bytes of one frame.  [json.Marshal] fails on a raw
    message that is not JSON, in which case the Go code sends an empty frame. *)

From S2P Require Import Prelude GoStrings Json.
Local Open Scope Z_scope.

Definition OutSuccess : string := "success".
Definition OutError : string := "error".
Definition OutPublishDelivery : string := "publish".
Definition OutReplayTruncated : string := "replayTruncated".
Definition OutBroadcastMsg : string := "message".
Definition OutPresence : string := "presence".
Definition OutSubscriptions : string := "subscriptions".
Definition OutDeliveryReport : string := "deliveryReport".

Definition successFrame (type reqID message : string) : json :=
  JObj ([(key "type", jstring type)] ++ omit (bool_decide (reqID = "")) "reqID" (jstring reqID)
        ++ [(key "message", jstring message)]).

Definition EncodeSuccess (reqID msg : string) : string := print (successFrame OutSuccess reqID msg) "".
Definition EncodeError (reqID msg : string) : string := print (successFrame OutError reqID msg) "".

Definition publishFrame (topic : string) (data : json) (streamID : string) (replay : bool) : json :=
  JObj ([(key "type", jstring OutPublishDelivery); (key "topic", jstring topic); (key "data", data)]
        ++ omit (bool_decide (streamID = "")) "streamId" (jstring streamID)
        ++ omit (negb replay) "replay" (JBool replay)).

Definition EncodePublish (topic : string) (data : raw) (streamID : string) (replay : bool) : string :=
  match raw_value data with
  | Some d => print (publishFrame topic d streamID replay) ""
  | None => ""
  end.

Definition EncodeReplayTruncated (topic oldestAvailable : string) : string :=
  print (JObj [(key "type", jstring OutReplayTruncated); (key "topic", jstring topic);
               (key "oldestAvailable", jstring oldestAvailable)]) "".

(** A nil slice is encoded as an empty list. *)
Definition EncodePresence (reqID topic : string) (subscribers : list string) : string :=
  print (JObj ([(key "type", jstring OutPresence)] ++ omit (bool_decide (reqID = "")) "reqID" (jstring reqID)
    ++ [(key "topic", jstring topic); (key "subscribers", strings subscribers);
        (key "count", jint (Z.of_nat (length subscribers)))])) "".

Definition EncodeSubscriptions (reqID : string) (topics : list string) : string :=
  print (JObj ([(key "type", jstring OutSubscriptions)]
    ++ omit (bool_decide (reqID = "")) "reqID" (jstring reqID) ++ [(key "topics", strings topics)])) "".

Definition EncodeDeliveryReport (topic streamID instance : string) (delivered dropped filtered : Z) : string :=
  print (JObj [(key "type", jstring OutDeliveryReport); (key "topic", jstring topic);
    (key "streamId", jstring streamID); (key "instance", jstring instance);
    (key "delivered", jint delivered); (key "dropped", jint dropped); (key "filtered", jint filtered)]) "".

Definition EncodeBroadcast (data : raw) : string :=
  match raw_value data with
  | Some d => print (JObj [(key "type", jstring OutBroadcastMsg); (key "data", d)]) ""
  | None => ""
  end.

(** ** What a client reads *)

Record delivery : Type := { d_type : string; d_topic : string; d_data : raw; d_streamId : string; d_replay : bool }.

Definition delivery_fields : list (string * setter delivery) :=
  [("type", set_string (λ v a, {| d_type := v; d_topic := a.(d_topic); d_data := a.(d_data);
                                  d_streamId := a.(d_streamId); d_replay := a.(d_replay) |}));
   ("topic", set_string (λ v a, {| d_type := a.(d_type); d_topic := v; d_data := a.(d_data);
                                   d_streamId := a.(d_streamId); d_replay := a.(d_replay) |}));
   ("data", set_raw (λ v a, {| d_type := a.(d_type); d_topic := a.(d_topic); d_data := v;
                               d_streamId := a.(d_streamId); d_replay := a.(d_replay) |}));
   ("streamId", set_string (λ v a, {| d_type := a.(d_type); d_topic := a.(d_topic); d_data := a.(d_data);
                                      d_streamId := v; d_replay := a.(d_replay) |}));
   ("replay", set_bool (λ v a, {| d_type := a.(d_type); d_topic := a.(d_topic); d_data := a.(d_data);
                                  d_streamId := a.(d_streamId); d_replay := v |}))].

Definition read_delivery (frame : string) : option delivery :=
  j ← parse frame;
  unmarshal_struct delivery_fields {| d_type := ""; d_topic := ""; d_data := RawNil; d_streamId := ""; d_replay := false |} j.

Lemma raw_value_wf r d : raw_wf r = true → raw_value r = Some d → wf d = true.
Proof. destruct r; intros Hw ?; simplify_eq/=; [done|by apply html_wf]. Qed.

(** A client that decodes a delivery frame reads back the topic, the stream
    ID, the replay flag and the value that was published. *)
Lemma read_EncodePublish topic data streamID replay d :
  raw_wf data = true → raw_value data = Some d →
  read_delivery (EncodePublish topic data streamID replay) =
    Some {| d_type := "publish"; d_topic := topic; d_data := Raw d; d_streamId := streamID; d_replay := replay |}.
Proof.
  intros Hw Hd. pose proof (raw_value_wf _ _ Hw Hd) as Hwd. unfold EncodePublish. rewrite Hd. unfold read_delivery.
  assert (wf (publishFrame topic d streamID replay) = true) as Hwf.
  { unfold publishFrame. rewrite wf_obj, !forallb_app. cbn [forallb fst snd]. unfold key.
    rewrite !quote_ok, !wf_jstring, Hwd. unfold omit, key.
    case_bool_decide; destruct replay; cbn [forallb fst snd negb]; by rewrite ?quote_ok, ?wf_jstring. }
  rewrite parse_print by done. cbn [mbind option_bind]. unfold publishFrame, omit, unmarshal_struct.
  case_bool_decide as Hs; destruct replay; cbn [app negb]; decode_fields; by subst.
Qed.
