(* ===== verification/Judge.v ===== *)
(** * Per-message routing (bus/judge.go and the judging half of bus/bus.go)

    A [Judge] and a [CandidateSource] are supplied by the embedder, so they
    are arguments. *)

From S2P Require Import Prelude GoStrings Json Prog.
Local Open Scope Z_scope.

Record Message : Type := { Topic : string; Data : raw }.
Record Candidate : Type := { ID : string; Criteria : string }.
Record Decision : Type := { d_ID : string; Deliver : bool; Score : Z }.

Inductive FailurePolicy : Type := DeliverAll | DeliverNone.

Definition FailurePolicy_String (p : FailurePolicy) : string :=
  match p with DeliverNone => "deliver_none" | DeliverAll => "deliver_all" end.

(** [fmt.Errorf] texts quote names with [%q], which stays a parameter. *)
Class GoQuote : Type := { Quote : string → string }.

Definition Judge : Type := Message → list Candidate → result (list Decision).
Definition CandidateSource : Type := string → result (list Candidate).

Section judge.
Context `{!GoQuote}.

(** [resolve]'s loop, with the decisions seen so far. *)
Fixpoint resolve_loop (known seen : gset string) (decisions : list Decision) : result (list string) :=
  match decisions with
  | [] => Ok []
  | d :: ds =>
      if bool_decide (d.(d_ID) ∈ known) then
        if bool_decide (d.(d_ID) ∈ seen) then
          Err (errors_New ("judge returned two decisions for subscriber " +:+ Quote d.(d_ID)))
        else
          match resolve_loop known ({[ d.(d_ID) ]} ∪ seen) ds with
          | Ok out => Ok (if d.(Deliver) then d.(d_ID) :: out else out)
          | Err e => Err e
          end
      else Err (errors_New ("judge returned a decision for unknown subscriber " +:+ Quote d.(d_ID)))
  end.

Definition resolve (candidates : list Candidate) (decisions : list Decision) : result (list string) :=
  resolve_loop (list_to_set (ID <$> candidates)) ∅ decisions.

(** A recipient list: [None] is Go's nil, every subscriber. *)
Definition judgeOnce (source : CandidateSource) (j : Judge) (topic : string) (data : raw)
  : result (option (list string)) :=
  match source topic with
  | Err e => Err (Errorf_w ("candidates for " +:+ Quote topic +:+ ": ") e)
  | Ok [] => Ok None
  | Ok candidates =>
      match j {| Topic := topic; Data := data |} candidates with
      | Err e => Err (Errorf_w ("judge " +:+ Quote topic +:+ ": ") e)
      | Ok decisions =>
          match resolve candidates decisions with
          | Ok out => Ok (Some out)
          | Err e => Err e
          end
      end
  end.

Definition judge (j : option Judge) (source : option CandidateSource) (policy : FailurePolicy)
    (topic : string) (data : raw) : option (list string) :=
  match j, source with
  | Some j, Some source =>
      match judgeOnce source j topic data with
      | Ok recipients => recipients
      | Err _ => match policy with DeliverNone => Some [] | DeliverAll => None end
      end
  | _, _ => None
  end.

(** ** What [resolve] accepts, and what it selects *)

Lemma resolve_loop_spec known seen ds :
  resolve_loop known seen ds =
    match resolve_loop known seen ds with
    | Ok _ => Ok (d_ID <$> filter (λ d, d.(Deliver) = true) ds)
    | Err e => Err e
    end ∧
  (is_ok (resolve_loop known seen ds) = true ↔
   NoDup (d_ID <$> ds) ∧ Forall (λ d, d.(d_ID) ∈ known ∧ d.(d_ID) ∉ seen) ds).
Proof.
  revert seen. induction ds as [|d ds IH]; intros seen; cbn [resolve_loop].
  { split; [done|]. split; [intros _; split; constructor|done]. }
  specialize (IH ({[ d_ID d ]} ∪ seen)) as [IH1 IH2]. cbn [fmap list_fmap].
  rewrite NoDup_cons, Forall_cons.
  case_bool_decide as Hk; [|split; [done|]; split; [done|tauto]].
  case_bool_decide as Hs; [split; [done|]; split; [done|tauto]|].
  split.
  - rewrite filter_cons. destruct (resolve_loop _ _ ds); [|done]. injection IH1 as ->.
    destruct (Deliver d); [by rewrite decide_True|by rewrite decide_False].
  - trans (is_ok (resolve_loop known ({[d_ID d]} ∪ seen) ds) = true); [by case_match|].
    rewrite IH2, !Forall_forall. split.
    + intros [Hnd Hall]. split_and!; [|done|done|done|].
      * intros (x&E&Hx)%list_elem_of_fmap. destruct (Hall _ Hx) as [_ Hn]. set_solver.
      * intros x Hx. destruct (Hall _ Hx). set_solver.
    + intros ((Hnin&Hnd)&_&Hall). split; [done|]. intros x Hx. destruct (Hall _ Hx) as [??].
      split; [done|]. apply not_elem_of_union. split; [|done]. intros E%elem_of_singleton.
      apply Hnin, list_elem_of_fmap. by exists x.
Qed.

(** [resolve] accepts exactly the responses that decide known candidates
    at most once each, and then selects, in order, those marked for delivery:
    a candidate without a decision is left out. *)
Theorem resolve_spec candidates decisions :
  match resolve candidates decisions with
  | Ok out =>
      NoDup (d_ID <$> decisions) ∧ (∀ d, d ∈ decisions → d.(d_ID) ∈ ID <$> candidates) ∧
      out = d_ID <$> filter (λ d, d.(Deliver) = true) decisions
  | Err _ =>
      ¬ (NoDup (d_ID <$> decisions) ∧ ∀ d, d ∈ decisions → d.(d_ID) ∈ ID <$> candidates)
  end.
Proof.
  unfold resolve. destruct (resolve_loop_spec (list_to_set (ID <$> candidates)) ∅ decisions) as [H1 H2].
  rewrite Forall_forall in H2. destruct (resolve_loop _ _ _) as [out|e]; cbn in H2.
  - destruct H2 as [H2 _]. destruct (H2 eq_refl) as [Hnd Hall]. injection H1 as ->. split_and!; [done| |done].
    intros d Hd. by destruct (Hall d Hd) as [?%elem_of_list_to_set _].
  - intros [Hnd Hall]. assert (false = true); [|done]. apply H2. split; [done|].
    intros d Hd. split; [by apply elem_of_list_to_set, Hall|apply not_elem_of_empty].
Qed.

(** The recipient list of a publish: every subscriber without a Judge or
    candidates, the selected ones when the Judge answers properly, and the
    failure policy's choice otherwise, which for [DeliverNone] is the empty
    list and not nil. *)
Theorem judge_spec j source policy topic data candidates decisions :
  source topic = Ok candidates → candidates ≠ [] →
  j {| Topic := topic; Data := data |} candidates = Ok decisions →
  (∀ d, d ∈ decisions → d.(d_ID) ∈ ID <$> candidates) →
  judge (Some j) (Some source) policy topic data =
    if bool_decide (NoDup (d_ID <$> decisions))
    then Some (d_ID <$> filter (λ d, d.(Deliver) = true) decisions)
    else match policy with DeliverNone => Some [] | DeliverAll => None end.
Proof.
  intros Hs Hne Hj Hknown. unfold judge, judgeOnce. rewrite Hs. destruct candidates as [|c cs]; [done|].
  rewrite Hj. unfold resolve.
  destruct (resolve_loop_spec (list_to_set (ID <$> c :: cs)) ∅ decisions) as [H1 H2].
  assert (Forall (λ d, d_ID d ∈ (list_to_set (ID <$> c :: cs) : gset string) ∧ d_ID d ∉ (∅ : gset string)) decisions) as Hall.
  { apply Forall_forall. intros d Hd. split; [by apply elem_of_list_to_set, Hknown|apply not_elem_of_empty]. }
  destruct (resolve_loop _ _ _) as [out|e]; cbn in H2; case_bool_decide as Hnd.
  - by injection H1 as ->.
  - destruct Hnd. by apply H2.
  - assert (false = true); [|done]. by apply H2.
  - done.
Qed.
End judge.
