(* ===== verification/Authz.v ===== *)
(** * Per-topic authorization (authz/authz.go)

    [Rules] grants topics by patterns, with the requesting identity
    substituted for [{userKey}].  The main results say what a substituted
    identity can reach: its own text, and nothing it could smuggle in. *)

From S2P Require Import Prelude GoStrings Json Judge Utf8 Path.
Local Open Scope Z_scope.

Inductive Action : Type := ActionSubscribe | ActionPublish | ActionLock.

Definition action_string (a : Action) : string :=
  match a with ActionSubscribe => "subscribe" | ActionPublish => "publish" | ActionLock => "lock" end.

#[export] Instance action_eq_dec : EqDecision Action.
Proof. solve_decision. Defined.

(** The claims of a credential are only handed on. *)
Record Request (Claims : Type) : Type := {
  q_UserKey : string; q_Action : Action; q_Topic : string; q_Claims : option Claims;
}.
Arguments q_UserKey {Claims}.
Arguments q_Action {Claims}.
Arguments q_Topic {Claims}.
Arguments q_Claims {Claims}.

Definition userKey_token : string := "{userKey}".

Definition glob_char (r : Z) : bool := bool_decide (r ∈ [42; 63; 91; 93; 92]).

Definition escapeGlob (s : string) : string :=
  join ((λ r, if glob_char r.(r_val) then String backslash (write_rune r) else write_rune r) <$> runes s).

Definition expand (pattern userKey : string) : string :=
  if Contains pattern userKey_token then ReplaceAll pattern userKey_token (escapeGlob userKey) else pattern.

(** [strings.ReplaceAll(s, ".", "/")]. *)
Definition slashes (s : string) : string := replace_byte "." slash s.

Definition matchTopic (pattern topic : string) : bool :=
  if decide (pattern = "*") then true
  else match Match (slashes pattern) (slashes topic) with Done ok => ok | _ => false end.

(** [Denied]. *)
Definition Denied (e : error) : bool := errors_Is e ErrDenied.

(** [map[Action][]string]; an absent action has no patterns. *)
Definition Rules : Type := gmap string (list string).

Section authorize.
Context `{!GoQuote} {Claims : Type}.

Definition denial (a : Action) (topic : string) : error :=
  MkErr ("not authorized for topic: " +:+ action_string a +:+ " on " +:+ Quote topic) [ErrDenied].

Definition Authorizer : Type := Request Claims → result ().

Definition AllowAll : Authorizer := λ _, Ok ().
Definition DenyAll : Authorizer := λ req, Err (denial req.(q_Action) req.(q_Topic)).

Fixpoint allow_loop (patterns : list string) (req : Request Claims) : result () :=
  match patterns with
  | [] => Err (denial req.(q_Action) req.(q_Topic))
  | p :: ps => if matchTopic (expand p req.(q_UserKey)) req.(q_Topic) then Ok () else allow_loop ps req
  end.

(** [Rules.Authorize]. *)
Definition Authorize (r : Rules) : Authorizer := λ req,
  allow_loop (default [] (r !! action_string req.(q_Action))) req.

End authorize.

(** ** Reading the rules *)

(** The text of an error of [json.Unmarshal]. *)
Class JsonErrors : Type := json_error : string → string.

(** [json.Unmarshal] into a [map[string][]string]. *)
Fixpoint rule_entries (fs : list (list jchar * json)) (m : gmap string (list string)) : option (gmap string (list string)) :=
  match fs with
  | [] => Some m
  | (k, v) :: fs' =>
      match set_strings (λ l _, default [] l) v [] with
      | Some l => rule_entries fs' (<[unquote k := l]> m)
      | None => None
      end
  end.

Definition read_rules (text : string) : option (gmap string (list string)) :=
  match parse text with
  | Some (JObj fs) => rule_entries fs ∅
  | Some JNull => Some ∅
  | _ => None
  end.

Definition pattern_ok (p : string) : bool :=
  match Match (slashes (expand p "x")) "" with Done _ => true | _ => false end.

Section parse.
Context `{!GoQuote, !JsonErrors}.

Definition known_actions : list string := action_string <$> [ActionSubscribe; ActionPublish; ActionLock].

Definition bad_rule (entry : string * list string) : option error :=
  let '(action, patterns) := entry in
  if bool_decide (action ∈ known_actions) then
    p ← head (filter (λ p, pattern_ok p = false) patterns);
    Some (errors_New ("parse authz rules: bad pattern " +:+ Quote p +:+ " for " +:+ action
            +:+ ": syntax error in pattern"))
  else Some (errors_New ("parse authz rules: unknown action " +:+ Quote action +:+ " (want " +:+ Quote "subscribe"
               +:+ ", " +:+ Quote "publish" +:+ " or " +:+ Quote "lock" +:+ ")")).

(** [Ok None] is nil [Rules]: no policy.  The entries are visited in the
    order of the map; the first bad one is reported. *)
Definition ParseRules (raw : string) : result (option Rules) :=
  let raw := TrimSpace raw in
  if decide (raw = "") then Ok None
  else
    match read_rules raw with
    | None => Err (errors_New ("parse authz rules: " +:+ json_error raw))
    | Some parsed =>
        match head (omap bad_rule (map_to_list parsed)) with
        | Some e => Err e
        | None => Ok (Some parsed)
        end
    end.

End parse.

(** ** What an identity is turned into *)

Fixpoint high_bytes (s : string) : bool :=
  match s with EmptyString => true | String c s' => (128 <=? code c) && high_bytes s' end.

(** A rune is one ASCII byte, or a value from 128 on made of bytes from 128 on. *)
Definition rune_shape (r : rune) : Prop :=
  (∃ c, r = Rune (code c) (String c "") ∧ code c < 128) ∨ (128 <= r.(r_val) ∧ high_bytes r.(r_bytes) = true ∧ r.(r_bytes) ≠ "").

Lemma continuation_shape n lo hi v s v' b t :
  128 <= lo → 0 <= v → continuation n lo hi v s = Some (v', b, t) →
  high_bytes b = true ∧ match n with O => v' = v | S m => (v * 64 + (lo - 128)) * 64 ^ Z.of_nat m <= v' end.
Proof.
  revert lo hi v s v' b t. induction n as [|n IH]; intros lo hi v s v' b t Hlo Hv; cbn [continuation].
  { by intros [= <- <- <-]. }
  destruct s as [|c s]; [done|]. unfold between. destruct ((lo <=? code c) && (code c <=? hi)) eqn:Hb; [|done].
  apply andb_prop in Hb as [Hb _]. apply Z.leb_le in Hb.
  destruct (continuation n _ _ _ s) as [[[v1 b1] t1]|] eqn:E; [|done]. intros [= <- <- <-].
  apply IH in E as [Hb1 Hv1]; [|lia..]. split.
  { cbn [high_bytes]. apply andb_true_intro. split; [apply Z.leb_le; lia|done]. }
  destruct n as [|m]; [subst v1; cbn; lia|].
  rewrite Nat2Z.inj_succ, Z.pow_succ_r by lia. pose proof (Z.pow_pos_nonneg 64 (Z.of_nat m) eq_refl ltac:(lia)). nia.
Qed.

Lemma DecodeRune_shape s r t : DecodeRune s = Some (r, t) → rune_shape r.
Proof.
  assert (∀ c, 128 <= code c → rune_shape (bad_byte c)) as Hbad.
  { intros c Hc. right. cbn. split_and!; [done| |done]. apply andb_true_intro. split; [by apply Z.leb_le|done]. }
  destruct s as [|c s]; [done|]. unfold DecodeRune. destruct (Z.ltb_spec (code c) 128) as [Hc|Hc].
  { intros [= <- <-]. left. by exists c. }
  destruct (lead (code c)) as [[[[n lo] hi] v]|] eqn:Hl; [|intros [= <- <-]; by apply Hbad].
  destruct (continuation n lo hi v s) as [[[v' b] u]|] eqn:E; intros [= <- <-]; [|by apply Hbad].
  right. cbn [r_val r_bytes].
  assert (128 <= v' ∧ high_bytes b = true) as [Hv Hb].
  { assert (128 <= lo ∧ 0 <= v ∧ match n with O => False | S m => 128 <= (v * 64 + (lo - 128)) * 64 ^ Z.of_nat m end)
      as (Hlo&Hv&Hn).
    { unfold lead, between in Hl.
      repeat (match type of Hl with context [if ?b then _ else _] => destruct b eqn:? end; [injection Hl as <- <- <- <-; cbn; lia|]).
      done. }
    apply continuation_shape in E as [Hb Hv']; [|done..]. split; [|done]. destruct n; [done|lia]. }
  split_and!; [done| |done]. cbn [high_bytes]. apply andb_true_intro. split; [by apply Z.leb_le|done].
Qed.

Lemma runes_shape s : Forall rune_shape (runes s).
Proof.
  unfold runes. generalize (String.length s). intros n. revert s. induction n as [|n IH]; intros s; cbn; [constructor|].
  destruct (DecodeRune s) as [[r t]|] eqn:E; [|constructor]. constructor; [by eapply DecodeRune_shape|apply IH].
Qed.

Lemma special_code c : special c = true → code c < 128 ∧ glob_char (code c) = true.
Proof.
  unfold special. rewrite bool_decide_eq_true. intros Hc.
  repeat (apply elem_of_cons in Hc as [->|Hc]; [by vm_compute|]). by apply elem_of_nil in Hc.
Qed.

Lemma literal_high s : high_bytes s = true → literal s s.
Proof.
  induction s as [|c s IH]; cbn; [constructor|]. intros [Hc Hs]%andb_prop. apply Z.leb_le in Hc.
  constructor; [|by apply IH]. destruct (special c) eqn:E; [|done]. apply special_code in E. lia.
Qed.

Lemma glob_char_low r : glob_char r = true → r < 128.
Proof.
  unfold glob_char. rewrite bool_decide_eq_true. intros Hr.
  repeat (apply elem_of_cons in Hr as [->|Hr]; [done|]). by apply elem_of_nil in Hr.
Qed.

(** Escaped, the identity stands for itself. *)
Lemma escapeGlob_literal s : literal (escapeGlob s) (to_valid s).
Proof.
  unfold escapeGlob, to_valid. induction (runes_shape s) as [|r l Hr _ IH]; cbn; [constructor|].
  apply literal_app; [|done]. unfold write_rune, is_bad. destruct Hr as [(c&->&Hc)|(Hv&Hb&_)].
  - cbn [r_val r_bytes]. destruct (Z.eqb_spec (code c) RuneError) as [E|_]; [unfold RuneError in E; lia|]. cbn [andb].
    destruct (glob_char (code c)) eqn:E; [by repeat constructor|]. constructor; [|constructor].
    destruct (special c) eqn:Hs; [|done]. apply special_code in Hs as [_ Hs]. congruence.
  - destruct (glob_char r.(r_val)) eqn:E; [apply glob_char_low in E; lia|].
    destruct (_ && _); apply literal_high; done.
Qed.

Lemma to_valid_nonempty s : s ≠ "" → to_valid s ≠ "".
Proof.
  intros Hs. unfold to_valid, runes. destruct s as [|c s]; [done|]. cbn [String.length runes_loop].
  destruct (DecodeRune (String c s)) as [[r t]|] eqn:E.
  - apply DecodeRune_shape in E. cbn. unfold write_rune. destruct E as [(d&->&_)|(_&_&Hne)].
    + by destruct (is_bad _).
    + destruct (is_bad r); [done|]. by destruct (r_bytes r).
  - cbn in E. by repeat case_match.
Qed.

(** ** Substitution *)

Lemma HasPrefix_app p s : HasPrefix (p +:+ s) p = true.
Proof. apply HasPrefix_spec. by exists s. Qed.

Lemma replace_skip old new a s : replace_loop old new (String.length a) (a +:+ s) = replace_loop old new O s.
Proof. induction a as [|c a IH]; [done|]. rewrite string_cons_app. cbn [String.length replace_loop]. apply IH. Qed.

Lemma ReplaceAll_here old new s : old ≠ "" → ReplaceAll (old +:+ s) old new = new +:+ ReplaceAll s old new.
Proof.
  intros Ho. pose proof (HasPrefix_app old s) as Hp. destruct old as [|c old]; [done|].
  unfold ReplaceAll. rewrite string_cons_app in *. cbn [replace_loop]. rewrite Hp. cbn [pred String.length].
  by rewrite replace_skip.
Qed.

(** Text without a brace holds no [{userKey}]. *)
Fixpoint no_brace (s : string) : bool :=
  match s with EmptyString => true | String c s' => negb (bool_decide (c = "{"%char)) && no_brace s' end.

Lemma token_not_prefix c s : c ≠ "{"%char → HasPrefix (String c s) userKey_token = false.
Proof.
  intros Hc. destruct (HasPrefix (String c s) userKey_token) eqn:E; [|done].
  apply HasPrefix_spec in E as [r E]. unfold userKey_token in E. rewrite string_cons_app in E. by injection E.
Qed.

Lemma ReplaceAll_plain p s new :
  no_brace p = true → ReplaceAll (p +:+ s) userKey_token new = p +:+ ReplaceAll s userKey_token new.
Proof.
  induction p as [|c p IH]; [done|]. cbn [no_brace]. intros [Hc Hp]%andb_prop.
  apply negb_true_iff, bool_decide_eq_false in Hc. unfold ReplaceAll. rewrite string_cons_app. cbn [replace_loop].
  rewrite token_not_prefix by done. rewrite string_cons_app. f_equal. by apply IH.
Qed.

Lemma Contains_here p old s : Contains (p +:+ old +:+ s) old = true.
Proof.
  induction p as [|c p IH].
  - change ("" +:+ old +:+ s) with (old +:+ s). pose proof (HasPrefix_app old s) as Hp.
    destruct (old +:+ s); cbn [Contains]; by rewrite Hp.
  - rewrite string_cons_app. cbn [Contains]. rewrite IH. apply orb_true_r.
Qed.

Lemma ReplaceAll_absent s new : Contains s userKey_token = false → ReplaceAll s userKey_token new = s.
Proof.
  unfold ReplaceAll. induction s as [|c s IH]; [done|]. cbn [Contains replace_loop]. intros [-> Hs]%orb_false_iff.
  by rewrite IH.
Qed.

Lemma expand_eq p u : expand p u = ReplaceAll p userKey_token (escapeGlob u).
Proof. unfold expand. destruct (Contains p userKey_token) eqn:E; [done|]. by rewrite ReplaceAll_absent. Qed.

Lemma expand_template pre post u :
  no_brace pre = true → expand (pre +:+ userKey_token +:+ post) u = pre +:+ escapeGlob u +:+ expand post u.
Proof. intros Hp. rewrite !expand_eq, ReplaceAll_plain, ReplaceAll_here by done. done. Qed.

Lemma replace_byte_app a b s t : replace_byte a b (s +:+ t) = replace_byte a b s +:+ replace_byte a b t.
Proof. induction s as [|c s IH]; [done|]. rewrite !string_cons_app. cbn [replace_byte]. by rewrite string_cons_app, IH. Qed.

Lemma literal_not_star p w q : literal p w → w ≠ "" → p +:+ q ≠ "*".
Proof.
  destruct 1 as [|c p w Hc _|c p w _]; [done|..]; intros _; rewrite string_cons_app; [|done].
  intros [= -> _]. discriminate Hc.
Qed.

(** ** What a template grants *)

(** Text of a pattern before [{userKey}]: no metacharacters. *)
Definition plain (s : string) : Prop := literal s s ∧ no_brace s = true.

(** A pattern with the identity after plain text grants exactly the
    topics that start with that text and the identity, taken literally, and
    go on as the rest of the pattern says: no identity widens a pattern. *)
Theorem template_confined pre post u topic :
  plain pre → u ≠ "" →
  matchTopic (expand (pre +:+ userKey_token +:+ post) u) topic = true ↔
  ∃ rest, slashes topic = slashes (pre +:+ to_valid u) +:+ rest ∧ Match (slashes (expand post u)) rest = Done true.
Proof.
  intros [Hpre Hb] Hu. rewrite expand_template by done. unfold matchTopic.
  assert (literal (pre +:+ escapeGlob u) (pre +:+ to_valid u)) as Hl by (apply literal_app; [done|apply escapeGlob_literal]).
  rewrite string_app_assoc, decide_False.
  - pose proof (Match_literal _ _ (slashes (expand post u)) (slashes topic) (literal_replace "." slash _ _ eq_refl eq_refl Hl)) as <-.
    unfold slashes. rewrite replace_byte_app. destruct (Match _ _) as [[]| |]; naive_solver.
  - eapply literal_not_star; [done|]. pose proof (to_valid_nonempty u Hu). destruct pre; [done|]. by rewrite string_cons_app.
Qed.

(** An identity that is valid UTF-8 and one topic segment. *)
Definition segment (u : string) : Prop := u ≠ "" ∧ to_valid u = u ∧ has_slash (slashes u) = false.

Lemma has_slash_cut s : has_slash s = false → CutByte s slash = None.
Proof.
  induction s as [|c s IH]; cbn; [done|]. intros [Hc Hs]%orb_false_iff. apply bool_decide_eq_false in Hc.
  by rewrite IH, decide_False.
Qed.

Lemma slashes_id s : has_slash (slashes s) = false → slashes s = s.
Proof.
  unfold slashes. induction s as [|c s IH]; [done|]. cbn. case_decide; [done|]. intros [_ Hs]%orb_false_iff. by rewrite IH.
Qed.

Section results.
Context `{!GoQuote} {Claims : Type}.

Lemma allow_loop_Ok (patterns : list string) (req : Request Claims) :
  allow_loop patterns req = Ok () ↔
  ∃ p, p ∈ patterns ∧ matchTopic (expand p req.(q_UserKey)) req.(q_Topic) = true.
Proof.
  induction patterns as [|p ps IH]; cbn.
  - split; [done|]. by intros (?&?%elem_of_nil&_).
  - destruct (matchTopic _ _) eqn:E.
    + split; [|done]. intros _. exists p. split; [left|done].
    + rewrite IH. split; [intros (q&?&?); exists q; split; [by right|done]|].
      intros (q&[->|?]%elem_of_cons&?); [congruence|by exists q].
Qed.

Lemma allow_loop_Err (patterns : list string) (req : Request Claims) e :
  allow_loop patterns req = Err e → Denied e = true.
Proof.
  induction patterns as [|p ps IH]; cbn; [intros [= <-]; by vm_compute|]. by destruct (matchTopic _ _).
Qed.

(** [C16] Tenants are kept apart: with patterns [pre{userKey}.*], [pre] plain text, no topic is granted to two different
    identities that are each one segment of valid UTF-8, whatever characters but separators they hold. *)
Theorem tenant_isolation (r : Rules) a pre u1 u2 topic c1 c2 :
  plain pre → (∀ p, p ∈ default [] (r !! action_string a) → p = pre +:+ userKey_token +:+ ".*") →
  segment u1 → segment u2 → u1 ≠ u2 →
  Authorize r (Build_Request Claims u1 a topic c1) = Ok () →
  ∃ e, Authorize r (Build_Request Claims u2 a topic c2) = Err e ∧ Denied e = true.
Proof.
  intros Hpre Hr (Hu1&Hv1&Hs1) (Hu2&Hv2&Hs2) Hne Hok.
  assert (∀ u, u ≠ "" → to_valid u = u → has_slash (slashes u) = false →
    matchTopic (expand (pre +:+ userKey_token +:+ ".*") u) topic = true →
    ∃ rest, slashes topic = slashes pre +:+ u +:+ String slash rest) as Hin.
  { intros u Hu Hv Hs Hm. apply (template_confined _ _ _ _ Hpre Hu) in Hm as (rest&->&Hm).
    rewrite Hv. unfold slashes at 1. rewrite replace_byte_app.
    apply (Match_literal "/" "/" "*") in Hm as (rest'&->&_); [|by repeat constructor].
    exists rest'. fold (slashes u). rewrite (slashes_id u) by done. by rewrite <- string_app_assoc. }
  destruct (Authorize r (Build_Request Claims u2 a topic c2)) as [[]|e] eqn:E.
  - exfalso. apply allow_loop_Ok in Hok as (p&Hp%Hr&Hm1), E as (q&Hq%Hr&Hm2). subst p q. cbn in Hm1, Hm2.
    apply Hin in Hm1 as (r1&E1); [|done..]. apply Hin in Hm2 as (r2&E2); [|done..].
    rewrite E1 in E2. apply string_app_inj in E2. apply (f_equal (λ s, CutByte s slash)) in E2.
    rewrite !CutByte_app in E2 by (apply has_slash_cut; by rewrite <- (slashes_id _)). by injection E2.
  - exists e. split; [done|]. by eapply allow_loop_Err.
Qed.

(** Every question is decided: placing a pattern never runs out of
    fuel, whatever pattern, identity and topic, and the answer is a grant or a
    denial, never an error of another kind. *)
Theorem Authorize_decides (r : Rules) (req : Request Claims) :
  (∀ p, p ∈ default [] (r !! action_string req.(q_Action)) →
    Match (slashes (expand p req.(q_UserKey))) (slashes req.(q_Topic)) ≠ Spin) ∧
  (Authorize r req = Ok () ∨ ∃ e, Authorize r req = Err e ∧ Denied e = true).
Proof.
  split; [intros p _; destruct (match_total (slashes (expand p req.(q_UserKey))) (slashes req.(q_Topic))) as (?&->&?); done|].
  destruct (Authorize r req) as [[]|e] eqn:E; [by left|right]. exists e. split; [done|]. by eapply allow_loop_Err.
Qed.

Context `{!JsonErrors}.

(** Rules that are accepted at startup name the three actions only, and
    none of their patterns is found malformed later, whatever the topic. *)
Theorem ParseRules_checked raw (r : Rules) action patterns p :
  ParseRules raw = Ok (Some r) → r !! action = Some patterns → p ∈ patterns →
  action ∈ known_actions ∧ (Contains p userKey_token = false → ∀ topic, Match (slashes p) (slashes topic) ≠ BadPattern).
Proof.
  unfold ParseRules. destruct (decide _); [done|]. destruct (read_rules _) as [parsed|]; [|done].
  destruct (head (omap bad_rule (map_to_list parsed))) as [e|] eqn:Hb; [done|]. intros [= <-] Hp Hin.
  assert (bad_rule (action, patterns) = None) as Hok.
  { apply eq_None_not_Some. intros [e He]. apply head_None in Hb.
    assert (e ∈ omap bad_rule (map_to_list parsed)) as Hbad.
    { apply list_elem_of_omap. exists (action, patterns). split; [by apply elem_of_map_to_list|done]. }
    rewrite Hb in Hbad. by apply elem_of_nil in Hbad. }
  unfold bad_rule in Hok. destruct (bool_decide _) eqn:Ha; [|done]. apply bool_decide_eq_true in Ha. split; [done|].
  intros Hc topic Hm%Match_syntax.
  destruct (head (filter (λ p, pattern_ok p = false) patterns)) as [q|] eqn:Hq; [done|]. apply head_None in Hq.
  assert (p ∈ filter (λ p, pattern_ok p = false) patterns) as Hf.
  { apply list_elem_of_filter. split; [|done]. unfold pattern_ok, expand. by rewrite Hc, Hm. }
  rewrite Hq in Hf. by apply elem_of_nil in Hf.
Qed.

End results.

(** ** On concrete policies *)

#[local] Instance quote_id : GoQuote := {| Quote := id |}.
#[local] Instance json_errors : JsonErrors := id.

Definition ask (u topic : string) : Request () :=
  {| q_UserKey := u; q_Action := ActionSubscribe; q_Topic := topic; q_Claims := None |}.

Definition tenant_rules : Rules := {[ "subscribe" := ["tenant.{userKey}.*"] ]}.

Lemma tenant_plain : plain "tenant.".
Proof. split; [by repeat constructor|done]. Qed.

(** A wildcard in an identity stays a character. *)
Lemma template_confined_witness :
  matchTopic "tenant.\**" "tenant.*x" = true ↔
    ∃ rest, slashes "tenant.*x" = "tenant/*" +:+ rest ∧ Match "*" rest = Done true.
Proof. exact (template_confined "tenant." "*" "*" "tenant.*x" tenant_plain ltac:(done)). Defined.

Lemma tenant_isolation_witness :
  Authorize tenant_rules (ask "acme" "tenant.acme.orders") = Ok () ∧
  ∃ e, Authorize tenant_rules (ask "*" "tenant.acme.orders") = Err e ∧ Denied e = true.
Proof.
  split; [vm_compute; reflexivity|].
  apply (tenant_isolation tenant_rules ActionSubscribe "tenant." "acme" "*" "tenant.acme.orders" None None).
  - exact tenant_plain.
  - intros p Hp. apply list_elem_of_singleton in Hp. exact Hp.
  - split; [discriminate|split; vm_compute; reflexivity].
  - split; [discriminate|split; vm_compute; reflexivity].
  - discriminate.
  - vm_compute. reflexivity.
Defined.

Definition rules_text : string :=
  let q := String dquote EmptyString in "{" +:+ q +:+ "lock" +:+ q +:+ ":[" +:+ q +:+ "jobs.[a-f]*" +:+ q +:+ "]} ".

Lemma ParseRules_checked_witness :
  ParseRules rules_text = Ok (Some {[ "lock" := ["jobs.[a-f]*"] ]}) ∧
  "lock" ∈ known_actions ∧ (Contains "jobs.[a-f]*" userKey_token = false →
    ∀ topic, Match (slashes "jobs.[a-f]*") (slashes topic) ≠ BadPattern).
Proof.
  assert (ParseRules rules_text = Ok (Some {[ "lock" := ["jobs.[a-f]*"] ]})) as Hr by (vm_compute; reflexivity).
  split; [exact Hr|].
  apply (ParseRules_checked rules_text _ "lock" ["jobs.[a-f]*"] "jobs.[a-f]*" Hr); [vm_compute; reflexivity|].
  apply list_elem_of_singleton. reflexivity.
Defined.

(** What the escaping leaves open: a separator in an identity, which makes
    two identities one tenant, and a range in a class. *)
Example separator_shared :
  Authorize tenant_rules (ask "acme.eu" "tenant.acme.eu.orders") = Ok () ∧
  Authorize tenant_rules (ask "acme/eu" "tenant.acme.eu.orders") = Ok ().
Proof. split; vm_compute; reflexivity. Qed.

(** Bytes that are not UTF-8 are replaced before matching, so identities made
    of them are one tenant. *)
Example invalid_bytes_shared :
  let topic := "tenant." +:+ String "239" (String "191" (String "189" ".orders")) in
  Authorize tenant_rules (ask (String "255" "") topic) = Ok () ∧ Authorize tenant_rules (ask (String "254" "") topic) = Ok ().
Proof. split; vm_compute; reflexivity. Qed.

Example range_smuggled :
  Authorize {[ "subscribe" := ["room.[{userKey}]"] ]} (ask "a-z" "room.m") = Ok ().
Proof. vm_compute. reflexivity. Qed.

Example class_crosses_segments :
  Authorize {[ "subscribe" := ["room[^x]m"] ]} (ask "u" "room.m") = Ok ().
Proof. vm_compute. reflexivity. Qed.

Example denied_other : Authorize tenant_rules (ask "acme" "tenant.acme.eu.orders") = Err (denial ActionSubscribe "tenant.acme.eu.orders").
Proof. vm_compute. reflexivity. Qed.
