(* ===== verification/Auth.v ===== *)
(** * Verifying an upgrade request (auth/auth.go)

    A request is the parts a verifier reads.  The JWT library is an argument:
    the parser is called with the options the code builds, and its claims are
    the decoded JSON object of the token. *)

From S2P Require Import Prelude GoStrings Json Utf8.
Local Open Scope Z_scope.

(** Header and query lookups give the empty text for what is absent. *)
Record HTTPRequest : Type := { header : string → string; query : string → string }.

Definition Claims : Type := gmap string json.

(** [ExpiresAt] is [None] for the zero time, else Unix nanoseconds. *)
Record Result : Type := { r_UserKey : string; r_ExpiresAt : option Z; r_Claims : option Claims }.

Inductive auth_error : Type := ErrUnauthorized | Other (msg : string).

(** [Verifier] and [VerifierFunc]; a nil result with a nil error is [inr None]. *)
Definition Verifier : Type := HTTPRequest → auth_error + option Result.

Record JWTConfig : Type := { Secret : string; Audience : string; Issuer : string }.

(** The options given to [jwt.NewParser]. *)
Record parser_opts : Type := { ValidMethods : list string; WithAudience : option string; WithIssuer : option string }.

Section auth.
Context `{!Lower}.
(** [ParseWithClaims] with the key function's secret, and
    [GetExpirationTime]: [None] is an error, [Some None] no such claim. *)
Variable ParseWithClaims : parser_opts → string → string → option Claims.
Variable GetExpirationTime : Claims → option (option Z).

Definition extractToken (r : HTTPRequest) : string :=
  let h := r.(header) "Authorization" in
  if negb (bool_decide (h = "")) && HasPrefix (ToLower h) "bearer "
  then TrimSpace (String.substring 7 (String.length h - 7) h)
  else r.(query) "token".

Definition parserOpts (cfg : JWTConfig) : parser_opts := {|
  ValidMethods := ["HS256"];
  WithAudience := if bool_decide (cfg.(Audience) = "") then None else Some cfg.(Audience);
  WithIssuer := if bool_decide (cfg.(Issuer) = "") then None else Some cfg.(Issuer) |}.

(** [claims[k].(string)], the empty text when the claim is not a string. *)
Definition string_claim (claims : Claims) (k : string) : string :=
  match claims !! k with Some (JStr r) => unquote r | _ => "" end.

Definition NewJWT (cfg : JWTConfig) : Verifier := λ r,
  let tok := extractToken r in
  if bool_decide (tok = "") then inl ErrUnauthorized else
  match ParseWithClaims (parserOpts cfg) cfg.(Secret) tok with
  | None => inl ErrUnauthorized
  | Some claims =>
      let sub := string_claim claims "sub" in
      let sub := if bool_decide (sub = "") then string_claim claims "userKey" else sub in
      if bool_decide (sub = "") then inl ErrUnauthorized else
      let uk := r.(query) "userKey" in
      if negb (bool_decide (uk = "")) && negb (bool_decide (uk = sub)) then inl ErrUnauthorized else
      inr (Some {| r_UserKey := sub; r_Claims := Some claims;
                   r_ExpiresAt := match GetExpirationTime claims with Some (Some t) => Some t | _ => None end |})
  end.

Definition NewInsecure : Verifier := λ r,
  let uk := r.(query) "userKey" in
  if bool_decide (uk = "") then inl ErrUnauthorized
  else inr (Some {| r_UserKey := uk; r_ExpiresAt := None; r_Claims := None |}).

(** ** What acceptance means *)

(** The identity a token speaks for. *)
Definition identity (claims : Claims) (u : string) : Prop :=
  u ≠ "" ∧ (string_claim claims "sub" = u ∨ string_claim claims "sub" = "" ∧ string_claim claims "userKey" = u).

Definition bearer (r : HTTPRequest) (tok : string) : Prop := extractToken r = tok ∧ tok ≠ "".

(** [C25] The JWT verifier accepts exactly a request that carries a token the parser, restricted to HS256 and to the
    configured audience and issuer, accepts under the configured secret, that names an identity, and that does not
    claim another identity in its query; it answers with that identity, the token's claims and its deadline, and
    every other request is refused as unauthorized. *)
Theorem NewJWT_exact cfg r :
  (∀ res, NewJWT cfg r = inr res ↔ ∃ tok claims u, bearer r tok ∧
    ParseWithClaims (parserOpts cfg) cfg.(Secret) tok = Some claims ∧ identity claims u ∧
    (r.(query) "userKey" = "" ∨ r.(query) "userKey" = u) ∧
    res = Some {| r_UserKey := u; r_Claims := Some claims;
                  r_ExpiresAt := match GetExpirationTime claims with Some (Some t) => Some t | _ => None end |}) ∧
  (∀ e, NewJWT cfg r = inl e → e = ErrUnauthorized).
Proof.
  unfold NewJWT, bearer. set (tok := extractToken r).
  destruct (decide (tok = "")) as [E|E]; [rewrite (bool_decide_eq_true_2 (tok = "")) by done|rewrite (bool_decide_eq_false_2 (tok = "")) by done].
  { split; [|by intros e [= <-]]. intros res. split; [done|]. intros (? & ? & ? & [<- ?] & _). done. }
  destruct (ParseWithClaims _ _ tok) as [claims|] eqn:P.
  2: { split; [|by intros e [= <-]]. intros res. split; [done|]. intros (? & ? & ? & [<- ?] & P' & _). congruence. }
  set (sub := if bool_decide (string_claim claims "sub" = "") then string_claim claims "userKey" else string_claim claims "sub").
  assert (Hid : ∀ u, identity claims u ↔ u = sub ∧ sub ≠ "").
  { intros u. unfold identity, sub. destruct (decide (string_claim claims "sub" = "")) as [S|S].
    - rewrite bool_decide_eq_true_2 by done. naive_solver.
    - rewrite bool_decide_eq_false_2 by done. naive_solver. }
  destruct (decide (sub = "")) as [S|S]; [rewrite (bool_decide_eq_true_2 (sub = "")) by done|rewrite (bool_decide_eq_false_2 (sub = "")) by done].
  { split; [|by intros e [= <-]]. intros res. split; [done|]. intros (? & ? & ? & [<- ?] & P' & I & _).
    assert (x0 = claims) as -> by congruence. by apply Hid in I as []. }
  destruct (negb _ && negb _) eqn:Q.
  - apply andb_true_iff in Q as [Q1%negb_true_iff%bool_decide_eq_false Q2%negb_true_iff%bool_decide_eq_false].
    split; [|by intros e [= <-]]. intros res. split; [done|]. intros (? & c & u & [<- ?] & P' & I & Hq & _).
    assert (c = claims) as -> by congruence. apply Hid in I as [-> _]. naive_solver.
  - split; [|done]. intros res. split.
    + intros [= <-]. exists tok, claims, sub. split; [done|]. split; [done|]. split; [by apply Hid|]. split; [|done].
      apply andb_false_iff in Q as [Q%negb_false_iff%bool_decide_eq_true|Q%negb_false_iff%bool_decide_eq_true]; auto.
    + intros (? & c & u & [<- ?] & P' & I & _ & ->). assert (c = claims) as -> by congruence. by apply Hid in I as [-> _].
Qed.

End auth.
