(* ===== verification/Probe.v ===== *)
(** * The interactive probe (cmd/wsprobe/main.go)

    What it asks for in the URL and what it writes to the socket for what is
    typed.  [url.Parse] and [Encode] are a library, so the query is the map of
    values between them; a write to the socket may fail at any frame.  The
    reader only copies frames to the terminal. *)

From S2P Require Import Prelude Utf8 Auth.

(** ** The request *)

(** [url.Values], with [Set] and [Get]. *)
Abbreviation Values := (gmap string (list string)).
Definition Get (q : Values) (key : string) : string :=
  match q !! key with Some (v :: _) => v | _ => "" end.
Definition Set_ (key value : string) (q : Values) : Values := <[key := [value]]> q.

Record flags : Type := { f_userKey : string; f_token : string; f_keepAlive : bool }.

(** The query the connection is asked for with; [q] is that of [-url]. *)
Definition dial_query (f : flags) (q : Values) : Values :=
  let q := if bool_decide (f.(f_userKey) = "") then q else Set_ "userKey" f.(f_userKey) q in
  let q := if bool_decide (f.(f_token) = "") then q else Set_ "token" f.(f_token) q in
  if f.(f_keepAlive) then Set_ "keepAlive" "true" q else q.

(** The dialer is given no header. *)
Definition dialed (f : flags) (q : Values) : HTTPRequest :=
  {| header := λ _, ""; query := Get (dial_query f q) |}.

Definition given (v fallback : string) : string := if bool_decide (v = "") then fallback else v.

Lemma Get_Set q k v k' : Get (Set_ k v q) k' = if decide (k = k') then v else Get q k'.
Proof. unfold Get, Set_. case_decide as E; [subst; by rewrite lookup_insert_eq|by rewrite lookup_insert_ne]. Qed.

(** The server reads back what was given on the command line, and otherwise
    what the URL said. *)
Lemma dial_query_exact f q :
  Get (dial_query f q) "userKey" = given f.(f_userKey) (Get q "userKey") ∧
  Get (dial_query f q) "token" = given f.(f_token) (Get q "token") ∧
  Get (dial_query f q) "keepAlive" = (if f.(f_keepAlive) then "true" else Get q "keepAlive") ∧
  ∀ k, k ∉ ["userKey"; "token"; "keepAlive"] → Get (dial_query f q) k = Get q k.
Proof.
  unfold dial_query, given. split_and!; [| | |intros k Hk].
  all: repeat case_bool_decide; destruct (f_keepAlive f); rewrite ?Get_Set; repeat case_decide; try done.
  all: subst; exfalso; apply Hk; set_solver.
Qed.

(** A server without a secret takes the probe for the user it names; with one
    it is shown the token. *)
Theorem dialed_identity `{!Lower} f q : f.(f_userKey) ≠ "" →
  NewInsecure (dialed f q) = inr (Some {| r_UserKey := f.(f_userKey); r_ExpiresAt := None; r_Claims := None |}) ∧
  extractToken (dialed f q) = given f.(f_token) (Get q "token").
Proof.
  intros Hu. pose proof (dial_query_exact f q) as (E1 & E2 & _). unfold NewInsecure, extractToken, dialed. cbn [query header].
  rewrite E1, E2. assert (given (f_userKey f) (Get q "userKey") = f_userKey f) as ->; [unfold given|]; by rewrite bool_decide_eq_false_2.
Qed.

Definition as_ann : flags := {| f_userKey := "ann"; f_token := ""; f_keepAlive := true |}.

Lemma dialed_identity_witness `{!Lower} :
  NewInsecure (dialed as_ann ∅) = inr (Some {| r_UserKey := "ann"; r_ExpiresAt := None; r_Claims := None |}) ∧
  extractToken (dialed as_ann ∅) = "".
Proof. exact (dialed_identity as_ann ∅ ltac:(done)). Defined.

(** ** The lines typed *)

Definition newline : ascii := "010".
Definition return_ : ascii := "013".

(** A line and its newline have to fit the buffer given to the scanner. *)
Definition max_token : Z := 1024 * 1024.

(** The pieces between newlines; what follows the last newline is a piece
    unless it is empty. *)
Fixpoint pieces (s : string) : list string :=
  match s with
  | "" => []
  | String c s' =>
      if decide (c = newline) then "" :: pieces s'
      else match pieces s' with p :: ps => String c p :: ps | [] => [String c ""] end
  end.

(** One carriage return at the end of a line is not part of it. *)
Fixpoint dropCR (s : string) : string :=
  match s with
  | "" => ""
  | String c "" => if decide (c = return_) then "" else s
  | String c s' => String c (dropCR s')
  end.

(** [bufio.ScanLines] through [bufio.Scanner]: the lines it yields, and
    whether it ended with [ErrTooLong]. *)
Fixpoint scan (ps : list string) : list string * bool :=
  match ps with
  | [] => ([], false)
  | p :: ps' =>
      if decide (Z.of_nat (String.length p) < max_token)%Z
      then let '(lines, e) := scan ps' in (dropCR p :: lines, e)
      else ([], true)
  end.

Inductive sent : Type := Text (line : string) | CloseBye.
Inductive complaint : Type := WriteFailed | StdinFailed.

Section stdin.
(** Whether the socket takes another frame after those it took; it stops
    doing so when a signal has closed it. *)
Variable accepts : list sent → bool.

(** The loop over the scanner; [false] when a write failed. *)
Fixpoint writes (lines : list string) (out : list sent) : list sent * bool :=
  match lines with
  | [] => (out, true)
  | "" :: lines' => writes lines' out
  | line :: lines' => if accepts out then writes lines' (out ++ [Text line]) else (out, false)
  end.

(** [main] from its scanner on: what the socket took and what is printed. *)
Definition probe (input : string) : list sent * list complaint :=
  let '(lines, too_long) := scan (pieces input) in
  let '(out, ok) := writes lines [] in
  if ok then (if accepts out then out ++ [CloseBye] else out, if too_long then [StdinFailed] else [])
  else (out, [WriteFailed]).

Lemma writes_spec lines out : ∃ k,
  (writes lines out).1 = out ++ (Text <$> take k (filter (λ l, l ≠ "") lines)) ∧
  ((writes lines out).2 = true → k = length (filter (λ l, l ≠ "") lines)).
Proof.
  revert out. induction lines as [|l lines IH]; intros out; [exists O; cbn; by rewrite app_nil_r|].
  rewrite filter_cons. destruct l as [|c l]; [apply IH|]. rewrite decide_True by done. cbn [writes].
  destruct (accepts out); [|exists O; cbn; by rewrite app_nil_r].
  destruct (IH (out ++ [Text (String c l)])) as (k & E1 & E2). exists (S k). rewrite E1, <- app_assoc. split; [done|].
  intros E. cbn. by rewrite E2.
Qed.

Lemma scan_spec ps : ∃ k, (scan ps).1 = dropCR <$> take k ps ∧
  Forall (λ p, Z.of_nat (String.length p) < max_token)%Z (take k ps) ∧
  if (scan ps).2 then ∃ p, ps !! k = Some p ∧ (max_token ≤ Z.of_nat (String.length p))%Z else k = length ps.
Proof.
  induction ps as [|p ps (k & E1 & E2 & E3)]; [by exists O|]. cbn [scan].
  destruct (decide _) as [Hp|Hp]; [|exists O; cbn; split_and!; [done|constructor|exists p; split; [done|lia]]].
  exists (S k). destruct (scan ps) as [lines e]. cbn in *. subst lines. split_and!; [done|by constructor|].
  destruct e; [done|by f_equal].
Qed.

(** Whatever is typed and however the socket fails: the frames are the lines
    that are not empty, in order and from the first on, up to the first line
    too long for the scanner, and a close frame only after the last of them.
    Without a complaint nothing typed was skipped. *)
Theorem probe_sends input : ∃ k fin,
  let lines := filter (λ l, l ≠ "") (scan (pieces input)).1 in
  (probe input).1 = (Text <$> take k lines) ++ fin ∧ fin ∈ [[]; [CloseBye]] ∧
  (fin = [CloseBye] → k = length lines) ∧
  ((probe input).2 = [] → k = length lines ∧ (scan (pieces input)).1 = dropCR <$> pieces input).
Proof.
  unfold probe. pose proof (scan_spec (pieces input)) as (n & S1 & _ & S3).
  destruct (scan (pieces input)) as [lines too_long]. cbn [fst snd] in *.
  pose proof (writes_spec lines []) as (k & E1 & E2). destruct (writes lines []) as [out ok]. cbn [fst snd app] in *. subst out.
  exists k, (if ok && accepts (Text <$> take k (filter (λ l, l ≠ "") lines)) then [CloseBye] else []).
  destruct ok; cbn [andb fst snd]; [|rewrite app_nil_r; split_and!; [done|by left|done|done]].
  split; [by destruct (accepts _); rewrite ?app_nil_r|]. split; [destruct (accepts _); set_solver|]. split; [auto|].
  destruct too_long; [done|]. intros _. split; [auto|]. by rewrite S1, S3, firstn_all.
Qed.
End stdin.

(** ** What is typed line by line arrives line by line *)

(** The text of lines that each end in a newline. *)
Fixpoint typed (lines : list string) : string :=
  match lines with [] => "" | l :: lines' => l +:+ String newline (typed lines') end.

Definition line (l : string) : Prop :=
  (newline ∉ String.list_ascii_of_string l) ∧ dropCR l = l ∧ (Z.of_nat (String.length l) < max_token)%Z.

Lemma pieces_line l s : newline ∉ String.list_ascii_of_string l → pieces (l +:+ String newline s) = l :: pieces s.
Proof.
  induction l as [|c l IH]; [done|]. cbn [String.list_ascii_of_string]. intros [Hc Hl]%not_elem_of_cons.
  change (pieces (String c (l +:+ String newline s)) = String c l :: pieces s). cbn [pieces].
  rewrite decide_False by congruence. by rewrite IH.
Qed.

Lemma pieces_typed lines : Forall line lines → pieces (typed lines) = lines.
Proof. induction 1 as [|l lines (Hl & _) _ IH]; [done|]. cbn [typed]. by rewrite pieces_line, IH. Qed.

Lemma scan_typed lines : Forall line lines → scan lines = (lines, false).
Proof.
  induction 1 as [|l lines (_ & Hr & Hn) _ IH]; [done|]. cbn [scan]. rewrite decide_True by done. by rewrite IH, Hr.
Qed.

Lemma writes_all lines out : writes (λ _, true) lines out = (out ++ (Text <$> filter (λ l, l ≠ "") lines), true).
Proof.
  revert out. induction lines as [|[|c l] lines IH]; intros out; [cbn; by rewrite app_nil_r|apply IH|].
  rewrite filter_cons_True by done. cbn [writes]. by rewrite IH, <- app_assoc.
Qed.

Theorem typed_is_sent lines : Forall line lines →
  probe (λ _, true) (typed lines) = ((Text <$> filter (λ l, l ≠ "") lines) ++ [CloseBye], []).
Proof. intros H. unfold probe. by rewrite pieces_typed, scan_typed, writes_all by done. Qed.

Lemma typed_is_sent_witness :
  Forall line ["{}"; ""; "[1]"] ∧ probe (λ _, true) (typed ["{}"; ""; "[1]"]) = ([Text "{}"; Text "[1]"; CloseBye], []).
Proof.
  assert (Forall line ["{}"; ""; "[1]"]) as H.
  { repeat constructor; (vm_compute; reflexivity) || (apply (bool_decide_unpack _); vm_compute; exact I). }
  split; [exact H|]. exact (typed_is_sent _ H).
Defined.

(** What is left at the end of the input is a line too, and Windows line ends
    are taken off. *)
Example probe_reads : probe (λ _, true) ("a" +:+ String return_ (String newline "b")) = ([Text "a"; Text "b"; CloseBye], []).
Proof. reflexivity. Qed.
