(* ===== verification/Config.v ===== *)
(** * Configuration (internal/config/config.go and wsserver/wsserver.go)

    Environment to [Config], [Config] to [Options], [Options] to [Config].
    The environment is a function with the empty text for what is unset, as
    [os.Getenv] has it, read after the [.env] file was loaded into it; [fresh]
    is the identifier drawn by [uuid.NewString].  A [time.Duration] is the
    [int64] number of its nanoseconds.  The fields of [Options] that are Go
    values (verifier, judge, metrics, ...) pass through untouched, save the
    authorizer. *)

From S2P Require Import Prelude GoStrings Json Utf8 Judge Net Authz.
Local Open Scope Z_scope.

(** ** internal/config *)

Record Config : Type := {
  RedisHost : string;
  RedisPort : Z;
  RedisPassword : string;
  RedisAddrs : list string;
  RedisMasterName : string;
  WebSocketPort : Z;
  WebSocketTimeout : Z;
  MaxPayloadBytes : Z;
  MaxBufferedBytes : Z;
  MaxConsecutiveDrops : Z;
  EnableCompression : bool;
  AllowedOrigins : list string;
  MetricsAddr : string;
  TLSKeyPath : string;
  TLSCertPath : string;
  AuthzRules : string;
  PresenceTopic : string;
  AuthJWTSecret : string;
  AuthJWTAudience : string;
  AuthJWTIssuer : string;
  StreamMaxLength : Z;
  StreamTTL : Z;
  AckCursorTTL : Z;
  RateLimitMessagesPerSec : Z;
  RateLimitJobsPerMin : Z;
  SchedulerAllowedHosts : list string;
  ReadinessTimeout : Z;
  ShutdownTimeout : Z;
  LogLevel : string;
  InstanceID : string;
}.

Definition Millisecond : Z := 1000000.
Definition Second : Z := 1000000000.
Definition DefaultReadinessTimeout : Z := 2 * Second.
Definition DefaultShutdownTimeout : Z := 10 * Second.

Inductive cfg_error : Type :=
| BadNumber (key : string)
| RedisRequired
| PartialTLS
| PortOutOfRange (port : Z)
| PayloadNotPositive
| BufferedNotPositive.

Definition env : Type := string → string.

Definition getenv (e : env) (key fallback : string) : string :=
  if bool_decide (e key = "") then fallback else e key.

(** [getintOr] too: an [int] has 64 bits and [Atoi] reads it as [ParseInt]
    does. *)
Definition getint64Or (e : env) (key : string) (fallback : Z) : cfg_error + Z :=
  if bool_decide (e key = "") then inr fallback
  else let '(n, ok) := ParseInt (e key) in if ok then inr n else inl (BadNumber key).

Definition getintOr : env → string → Z → cfg_error + Z := getint64Or.

(** Trimmed parts that are not empty. *)
Fixpoint csv_parts (parts : list string) : list string :=
  match parts with
  | [] => []
  | part :: parts' => let p := TrimSpace part in if bool_decide (p = "") then csv_parts parts' else p :: csv_parts parts'
  end.

Definition getcsv (e : env) (key : string) : list string := csv_parts (SplitByte "," (e key)).

Section load.
Context `{Lower}.

Definition getbool (e : env) (key : string) (fallback : bool) : bool :=
  let v := TrimSpace (ToLower (e key)) in
  if bool_decide (v = "") then fallback else bool_decide (v ∈ ["1"; "true"; "yes"; "on"]).

(** The loop over SCHEDULER_ALLOWED_HOSTS. *)
Fixpoint lower_parts (parts : list string) : list string :=
  match parts with
  | [] => []
  | h :: parts' => let h := ToLower (TrimSpace h) in if bool_decide (h = "") then lower_parts parts' else h :: lower_parts parts'
  end.

Definition allowed_hosts (e : env) : list string :=
  let hosts := TrimSpace (e "SCHEDULER_ALLOWED_HOSTS") in
  if bool_decide (hosts = "") then [] else lower_parts (SplitByte "," hosts).
End load.

Definition cfg_validate (c : Config) : option cfg_error :=
  if bool_decide (c.(RedisHost) = "") && bool_decide (c.(RedisAddrs) = []) then Some RedisRequired
  else if negb (eqb (bool_decide (c.(TLSKeyPath) = "")) (bool_decide (c.(TLSCertPath) = ""))) then Some PartialTLS
  else if (c.(WebSocketPort) <? 1) || (65535 <? c.(WebSocketPort)) then Some (PortOutOfRange c.(WebSocketPort))
  else if c.(MaxPayloadBytes) <=? 0 then Some PayloadNotPositive
  else if c.(MaxBufferedBytes) <=? 0 then Some BufferedNotPositive
  else None.

Definition RedisAddrList (c : Config) : list string :=
  match c.(RedisAddrs) with [] => [JoinHostPort c.(RedisHost) (FormatInt c.(RedisPort))] | addrs => addrs end.

Definition TLSEnabled (c : Config) : bool := negb (bool_decide (c.(TLSKeyPath) = "")) && negb (bool_decide (c.(TLSCertPath) = "")).

(** A non-positive number of milliseconds is the default. *)
Definition or_default_ms (ms default : Z) : Z := if ms <=? 0 then default / Millisecond else ms.

#[export] Instance cfg_mbind : MBind (sum cfg_error) := λ A B f m, match m with inl e => inl e | inr a => f a end.

Definition Load `{Lower} (e : env) (fresh : string) : cfg_error + Config :=
  redisPort ← getintOr e "REDIS_PORT" 6379;
  port ← getintOr e "WEBSOCKET_PORT" 8080;
  timeoutMs ← getint64Or e "WEBSOCKET_TIMEOUT" (5 * 60 * 1000);
  payload ← getint64Or e "MAX_PAYLOAD_BYTES" (64 * 1024);
  buffered ← getint64Or e "MAX_BUFFERED_BYTES" (1024 * 1024);
  drops ← getintOr e "MAX_CONSECUTIVE_DROPS" 100;
  streamLen ← getint64Or e "STREAM_MAX_LENGTH" 1000;
  streamTTLSec ← getint64Or e "STREAM_TTL_SECONDS" 0;
  ackTTLSec ← getint64Or e "ACK_CURSOR_TTL_SECONDS" (7 * 24 * 3600);
  readyMs ← getint64Or e "READINESS_TIMEOUT_MS" (DefaultReadinessTimeout / Millisecond);
  shutdownMs ← getint64Or e "SHUTDOWN_TIMEOUT_MS" (DefaultShutdownTimeout / Millisecond);
  msgs ← getintOr e "RATE_LIMIT_MESSAGES_PER_SEC" 50;
  jobs ← getintOr e "RATE_LIMIT_JOBS_PER_MIN" 30;
  let cfg := {|
    RedisHost := getenv e "REDIS_HOST" ""; RedisPort := redisPort; RedisPassword := e "REDIS_PASSWORD";
    RedisAddrs := getcsv e "REDIS_ADDRS"; RedisMasterName := e "REDIS_MASTER_NAME";
    WebSocketPort := port; WebSocketTimeout := wrap64 (timeoutMs * Millisecond);
    MaxPayloadBytes := payload; MaxBufferedBytes := buffered; MaxConsecutiveDrops := drops;
    EnableCompression := getbool e "ENABLE_COMPRESSION" false;
    AllowedOrigins := getcsv e "ALLOWED_ORIGINS"; MetricsAddr := e "METRICS_ADDR";
    TLSKeyPath := e "TLS_KEY_PATH"; TLSCertPath := e "TLS_CERT_PATH";
    AuthzRules := getenv e "AUTHZ_RULES" ""; PresenceTopic := getenv e "PRESENCE_TOPIC" "";
    AuthJWTSecret := e "AUTH_JWT_SECRET"; AuthJWTAudience := e "AUTH_JWT_AUDIENCE"; AuthJWTIssuer := e "AUTH_JWT_ISSUER";
    StreamMaxLength := streamLen; StreamTTL := wrap64 (streamTTLSec * Second);
    AckCursorTTL := wrap64 (ackTTLSec * Second);
    RateLimitMessagesPerSec := msgs; RateLimitJobsPerMin := jobs;
    SchedulerAllowedHosts := allowed_hosts e;
    ReadinessTimeout := wrap64 (or_default_ms readyMs DefaultReadinessTimeout * Millisecond);
    ShutdownTimeout := wrap64 (or_default_ms shutdownMs DefaultShutdownTimeout * Millisecond);
    LogLevel := getenv e "LOG_LEVEL" "info"; InstanceID := getenv e "INSTANCE_ID" fresh |} in
  match cfg_validate cfg with Some err => inl err | None => inr cfg end.

(** ** wsserver *)

Section options.
  Context `{!Lower, !GoQuote, !JsonErrors}.
  (** Claims of a credential, and the seams supplied in code other than the
      authorizer, with their zero value. *)
  Context {Claims Ext : Type} (no_ext : Ext).

Record Options : Type := {
  ListenAddr : string;
  o_MetricsAddr : string;
  o_RedisAddrs : list string;
  o_RedisPassword : string;
  o_RedisMasterName : string;
  o_Ext : Ext;
  JWTSecret : string;
  JWTAudience : string;
  JWTIssuer : string;
  o_PresenceTopic : string;
  o_Authorizer : option (@Authorizer Claims);
  o_LogLevel : string;
  o_EnableCompression : bool;
  o_AllowedOrigins : list string;
  o_TLSCertPath : string;
  o_TLSKeyPath : string;
  IdleTimeout : Z;
  o_MaxPayloadBytes : Z;
  o_MaxBufferedBytes : Z;
  o_MaxConsecutiveDrops : Z;
  o_StreamMaxLength : Z;
  o_StreamTTL : Z;
  o_AckCursorTTL : Z;
  MessagesPerSec : Z;
  JobsPerMin : Z;
  o_SchedulerAllowedHosts : list string;
  o_ReadinessTimeout : Z;
  o_ShutdownTimeout : Z;
  o_InstanceID : string;
}.

Inductive opt_error : Type :=
| FromConfig (e : cfg_error)
| FromRules (e : error)
| ListenAddrShape
| ListenAddrPort (port : string).

(** The options of a configuration and of the rules read from it. *)
Definition options_of (cfg : Config) (rules : option Rules) : Options := {|
  ListenAddr := ":" +:+ FormatInt cfg.(WebSocketPort);
  o_MetricsAddr := cfg.(MetricsAddr);
  o_RedisAddrs := RedisAddrList cfg;
  o_RedisPassword := cfg.(RedisPassword);
  o_RedisMasterName := cfg.(RedisMasterName);
  o_Ext := no_ext;
  JWTSecret := cfg.(AuthJWTSecret);
  JWTAudience := cfg.(AuthJWTAudience);
  JWTIssuer := cfg.(AuthJWTIssuer);
  o_LogLevel := cfg.(LogLevel);
  o_PresenceTopic := cfg.(PresenceTopic);
  o_AllowedOrigins := cfg.(AllowedOrigins);
  o_TLSCertPath := cfg.(TLSCertPath);
  o_TLSKeyPath := cfg.(TLSKeyPath);
  IdleTimeout := cfg.(WebSocketTimeout);
  o_MaxPayloadBytes := cfg.(MaxPayloadBytes);
  o_MaxBufferedBytes := cfg.(MaxBufferedBytes);
  o_MaxConsecutiveDrops := if bool_decide (cfg.(MaxConsecutiveDrops) = 0) then -1 else cfg.(MaxConsecutiveDrops);
  o_EnableCompression := cfg.(EnableCompression);
  o_StreamMaxLength := cfg.(StreamMaxLength);
  o_StreamTTL := cfg.(StreamTTL);
  o_AckCursorTTL := cfg.(AckCursorTTL);
  MessagesPerSec := cfg.(RateLimitMessagesPerSec);
  JobsPerMin := cfg.(RateLimitJobsPerMin);
  o_SchedulerAllowedHosts := cfg.(SchedulerAllowedHosts);
  o_ReadinessTimeout := cfg.(ReadinessTimeout);
  o_ShutdownTimeout := cfg.(ShutdownTimeout);
  o_InstanceID := cfg.(InstanceID);
  o_Authorizer := match rules with Some r => Some (@Authorize _ Claims r) | None => None end |}.

Definition OptionsFromEnv (e : env) (fresh : string) : opt_error + Options :=
  match Load e fresh with
  | inl err => inl (FromConfig err)
  | inr cfg =>
      match ParseRules cfg.(AuthzRules) with
      | Err err => inl (FromRules err)
      | Ok rules => inr (options_of cfg rules)
      end
  end.

(** [orInt], [orInt64] and [orDuration]. *)
Definition or_default (v fallback : Z) : Z := if bool_decide (v = 0) then fallback else v.

Definition listen_port (addr : string) : opt_error + Z :=
  if bool_decide (addr = "") then inr 0
  else match SplitHostPort addr with
  | None => inl ListenAddrShape
  | Some (_, port) => let '(n, ok) := ParseInt port in if ok then inr n else inl (ListenAddrPort port)
  end.

Definition toConfig (o : Options) (fresh : string) : opt_error + Config :=
  match listen_port o.(ListenAddr) with
  | inl err => inl err
  | inr port =>
      inr {|
        RedisHost := ""; RedisPort := 0; RedisPassword := o.(o_RedisPassword);
        RedisAddrs := if bool_decide (o.(o_RedisAddrs) = []) then ["localhost:6379"] else o.(o_RedisAddrs);
        RedisMasterName := o.(o_RedisMasterName);
        WebSocketPort := port; WebSocketTimeout := o.(IdleTimeout);
        MaxPayloadBytes := or_default o.(o_MaxPayloadBytes) (64 * 1024);
        MaxBufferedBytes := or_default o.(o_MaxBufferedBytes) (1024 * 1024);
        MaxConsecutiveDrops :=
          if o.(o_MaxConsecutiveDrops) <? 0 then 0 else if o.(o_MaxConsecutiveDrops) =? 0 then 100 else o.(o_MaxConsecutiveDrops);
        EnableCompression := o.(o_EnableCompression);
        AllowedOrigins := o.(o_AllowedOrigins); MetricsAddr := o.(o_MetricsAddr);
        TLSKeyPath := o.(o_TLSKeyPath); TLSCertPath := o.(o_TLSCertPath);
        AuthzRules := ""; PresenceTopic := o.(o_PresenceTopic);
        AuthJWTSecret := o.(JWTSecret); AuthJWTAudience := o.(JWTAudience); AuthJWTIssuer := o.(JWTIssuer);
        StreamMaxLength := or_default o.(o_StreamMaxLength) 1000; StreamTTL := o.(o_StreamTTL);
        AckCursorTTL := or_default o.(o_AckCursorTTL) (7 * 24 * 3600 * Second);
        RateLimitMessagesPerSec := or_default o.(MessagesPerSec) 50;
        RateLimitJobsPerMin := or_default o.(JobsPerMin) 30;
        SchedulerAllowedHosts := o.(o_SchedulerAllowedHosts);
        ReadinessTimeout := or_default o.(o_ReadinessTimeout) DefaultReadinessTimeout;
        ShutdownTimeout := or_default o.(o_ShutdownTimeout) DefaultShutdownTimeout;
        LogLevel := o.(o_LogLevel);
        InstanceID := if bool_decide (o.(o_InstanceID) = "") then fresh else o.(o_InstanceID) |}
  end.

End options.
Arguments Options : clear implicits.

(** ** Loading *)

Definition numeric_keys : list string :=
  ["REDIS_PORT"; "WEBSOCKET_PORT"; "WEBSOCKET_TIMEOUT"; "MAX_PAYLOAD_BYTES"; "MAX_BUFFERED_BYTES"; "MAX_CONSECUTIVE_DROPS";
   "STREAM_MAX_LENGTH"; "STREAM_TTL_SECONDS"; "ACK_CURSOR_TTL_SECONDS"; "READINESS_TIMEOUT_MS"; "SHUTDOWN_TIMEOUT_MS";
   "RATE_LIMIT_MESSAGES_PER_SEC"; "RATE_LIMIT_JOBS_PER_MIN"].

(** Set to something [strconv] refuses. *)
Definition malformed (e : env) (key : string) : Prop := e key ≠ "" ∧ (ParseInt (e key)).2 = false.

#[export] Instance malformed_dec e key : base.Decision (malformed e key).
Proof. unfold malformed. apply _. Defined.

(** The number a variable stands for. *)
Definition setting (e : env) (key : string) (fallback : Z) : Z := if bool_decide (e key = "") then fallback else (ParseInt (e key)).1.

Lemma getint_spec e key fallback :
  getint64Or e key fallback = if bool_decide (malformed e key) then inl (BadNumber key) else inr (setting e key fallback).
Proof.
  unfold getint64Or, setting. case_bool_decide as E.
  - rewrite (bool_decide_eq_false_2 (malformed e key)); [done|]. by intros [].
  - destruct (ParseInt (e key)) as [n []] eqn:P; cbn [fst snd].
    + rewrite (bool_decide_eq_false_2 (malformed e key)); [done|]. intros [_ F]. by rewrite P in F.
    + rewrite (bool_decide_eq_true_2 (malformed e key)); [done|]. split; [done|]. by rewrite P.
Qed.

(** A configuration that can be served. *)
Record servable (c : Config) : Prop := {
  s_redis : c.(RedisHost) ≠ "" ∨ c.(RedisAddrs) ≠ [];
  s_tls : c.(TLSKeyPath) = "" ↔ c.(TLSCertPath) = "";
  s_port : 1 ≤ c.(WebSocketPort) ≤ 65535;
  s_payload : 0 < c.(MaxPayloadBytes);
  s_buffered : 0 < c.(MaxBufferedBytes);
}.

Lemma cfg_validate_spec c : cfg_validate c = None ↔ servable c.
Proof.
  unfold cfg_validate. split.
  - destruct (_ && _) eqn:R; [done|]. destruct (negb _) eqn:T; [done|]. apply negb_false_iff, eqb_prop in T.
    destruct (_ || _) eqn:P; [done|]. apply orb_false_iff in P as [P1%Z.ltb_ge P2%Z.ltb_ge].
    destruct (MaxPayloadBytes c <=? 0) eqn:M; [done|]. apply Z.leb_gt in M.
    destruct (MaxBufferedBytes c <=? 0) eqn:B; [done|]. apply Z.leb_gt in B. intros _. split; [| |done..].
    + apply andb_false_iff in R as [R%bool_decide_eq_false|R%bool_decide_eq_false]; auto.
    + split; intros E; apply (bool_decide_eq_true _); [rewrite <- T|rewrite T]; by apply (bool_decide_eq_true _).
  - intros [R T P M B]. rewrite (bool_decide_ext _ _ T), eqb_reflx. cbn [negb].
    destruct (_ && _) eqn:R'; [apply andb_true_iff in R' as [?%bool_decide_eq_true ?%bool_decide_eq_true]; tauto|].
    rewrite !(proj2 (Z.ltb_ge _ _)), !(proj2 (Z.leb_gt _ _)) by lia. done.
Qed.

(** What the environment has to say for the server to start. *)
Definition startable (e : env) : Prop :=
  (e "REDIS_HOST" ≠ "" ∨ getcsv e "REDIS_ADDRS" ≠ []) ∧ (e "TLS_KEY_PATH" = "" ↔ e "TLS_CERT_PATH" = "") ∧
  1 ≤ setting e "WEBSOCKET_PORT" 8080 ≤ 65535 ∧ 0 < setting e "MAX_PAYLOAD_BYTES" 65536 ∧ 0 < setting e "MAX_BUFFERED_BYTES" 1048576.

(** What every field of a loaded configuration is to be: the fields, the
    variable each is read from, and what it is when the variable is not set. *)
Definition texts (c : Config) (fresh : string) : list (string * string * string) :=
  [(c.(RedisHost), "REDIS_HOST", ""); (c.(RedisPassword), "REDIS_PASSWORD", "");
   (c.(RedisMasterName), "REDIS_MASTER_NAME", ""); (c.(MetricsAddr), "METRICS_ADDR", "");
   (c.(TLSKeyPath), "TLS_KEY_PATH", ""); (c.(TLSCertPath), "TLS_CERT_PATH", "");
   (c.(AuthzRules), "AUTHZ_RULES", ""); (c.(PresenceTopic), "PRESENCE_TOPIC", "");
   (c.(AuthJWTSecret), "AUTH_JWT_SECRET", ""); (c.(AuthJWTAudience), "AUTH_JWT_AUDIENCE", "");
   (c.(AuthJWTIssuer), "AUTH_JWT_ISSUER", ""); (c.(LogLevel), "LOG_LEVEL", "info"); (c.(InstanceID), "INSTANCE_ID", fresh)].

Definition numbers (c : Config) : list (Z * string * Z) :=
  [(c.(RedisPort), "REDIS_PORT", 6379); (c.(WebSocketPort), "WEBSOCKET_PORT", 8080);
   (c.(MaxPayloadBytes), "MAX_PAYLOAD_BYTES", 65536); (c.(MaxBufferedBytes), "MAX_BUFFERED_BYTES", 1048576);
   (c.(MaxConsecutiveDrops), "MAX_CONSECUTIVE_DROPS", 100); (c.(StreamMaxLength), "STREAM_MAX_LENGTH", 1000);
   (c.(RateLimitMessagesPerSec), "RATE_LIMIT_MESSAGES_PER_SEC", 50); (c.(RateLimitJobsPerMin), "RATE_LIMIT_JOBS_PER_MIN", 30)].

(** With the unit of the number in ns. *)
Definition durations (c : Config) : list (Z * string * Z * Z) :=
  [(c.(WebSocketTimeout), "WEBSOCKET_TIMEOUT", 300000, Millisecond); (c.(StreamTTL), "STREAM_TTL_SECONDS", 0, Second);
   (c.(AckCursorTTL), "ACK_CURSOR_TTL_SECONDS", 604800, Second)].

(** In milliseconds; nothing below one is taken. *)
Definition timeouts (c : Config) : list (Z * string * Z) :=
  [(c.(ReadinessTimeout), "READINESS_TIMEOUT_MS", 2000); (c.(ShutdownTimeout), "SHUTDOWN_TIMEOUT_MS", 10000)].

Definition fits (ns : Z) : Prop := Z.abs ns ≤ max_int64.

(** The parts between commas that are not empty once [f] has been applied. *)
Definition parts_of (f : string → string) (v : string) : list string := filter (λ p, p ≠ "") (f <$> SplitByte "," v).

Record configured `{!Lower} (e : env) (fresh : string) (c : Config) : Prop := {
  c_texts v key d : (v, key, d) ∈ texts c fresh → v = if bool_decide (e key = "") then d else e key;
  c_numbers v key d : (v, key, d) ∈ numbers c → v = setting e key d;
  c_durations v key d u : (v, key, d, u) ∈ durations c → fits (setting e key d * u) → v = setting e key d * u;
  c_timeouts v key d : (v, key, d) ∈ timeouts c → let ms := setting e key d in
    ms * Millisecond ≤ max_int64 → v = (if ms <=? 0 then d else ms) * Millisecond;
  c_addrs : c.(RedisAddrs) = parts_of TrimSpace (e "REDIS_ADDRS");
  c_origins : c.(AllowedOrigins) = parts_of TrimSpace (e "ALLOWED_ORIGINS");
  c_hosts : c.(SchedulerAllowedHosts) = parts_of (λ h, ToLower (TrimSpace h)) (TrimSpace (e "SCHEDULER_ALLOWED_HOSTS"));
  c_compression : c.(EnableCompression) = true ↔ TrimSpace (ToLower (e "ENABLE_COMPRESSION")) ∈ ["1"; "true"; "yes"; "on"];
}.

Lemma csv_parts_of v : csv_parts (SplitByte "," v) = parts_of TrimSpace v.
Proof.
  unfold parts_of. induction (SplitByte "," v) as [|p l IH]; [done|]. cbn [csv_parts fmap list_fmap]. rewrite filter_cons.
  case_bool_decide as E; case_decide as D; [done|exact IH|by rewrite IH|by destruct D].
Qed.

Lemma lower_parts_of `{!Lower} v : lower_parts (SplitByte "," v) = parts_of (λ h, ToLower (TrimSpace h)) v.
Proof.
  unfold parts_of. induction (SplitByte "," v) as [|p l IH]; [done|]. cbn [lower_parts fmap list_fmap]. rewrite filter_cons.
  case_bool_decide as E; case_decide as D; [done|exact IH|by rewrite IH|by destruct D].
Qed.

Lemma allowed_hosts_of `{!Lower} e :
  allowed_hosts e = parts_of (λ h, ToLower (TrimSpace h)) (TrimSpace (e "SCHEDULER_ALLOWED_HOSTS")).
Proof.
  unfold allowed_hosts. case_bool_decide as E; [|apply lower_parts_of]. rewrite E. unfold parts_of.
  change (SplitByte "," "") with [""]. change (TrimSpace "") with "". cbn [fmap list_fmap].
  rewrite filter_cons, ToLower_ascii by done. by case_decide.
Qed.

Lemma getbool_spec `{!Lower} e key :
  getbool e key false = true ↔ TrimSpace (ToLower (e key)) ∈ ["1"; "true"; "yes"; "on"].
Proof.
  unfold getbool. case_bool_decide as E; [rewrite E; split; [done|intros Hin; set_solver]|apply bool_decide_eq_true].
Qed.

Lemma wrap64_fits n : fits n → wrap64 n = n.
Proof. intros Hn. apply wrap64_id. unfold fits, in_int64, min_int64, max_int64 in *. lia. Qed.

Lemma timeout_exact ms default : 1 ≤ default ≤ 9223372036854 → ms * Millisecond ≤ max_int64 →
  wrap64 (or_default_ms ms (default * Millisecond) * Millisecond) = (if ms <=? 0 then default else ms) * Millisecond.
Proof.
  intros Hd Hm. unfold or_default_ms. rewrite Z.div_mul by done.
  destruct (Z.leb_spec ms 0); apply wrap64_fits; unfold fits, Millisecond, max_int64 in *; lia.
Qed.

Ltac next_number e :=
  match goal with |- context [filter (malformed e) (?k :: _)] =>
    rewrite (getint_spec e k);
    destruct (decide (malformed e k)) as [Hbad|?];
      [rewrite (filter_cons_True (malformed e) k) by done; by rewrite (bool_decide_eq_true_2 (malformed e k)) by done
      |rewrite (filter_cons_False (malformed e) k) by done; rewrite (bool_decide_eq_false_2 (malformed e k)) by done;
       cbn [mbind cfg_mbind]] end.

(** [C34] Loading is decided by the environment: the first malformed number, in the order they are read, is the error;
    with none, the server starts exactly when the environment is startable, and then every field of the configuration
    is what its variable says, or its default: the texts and numbers as they are, durations in their unit as long as
    they fit 64 bits of nanoseconds, timeouts below one millisecond as their default, lists as their trimmed parts. *)
Theorem Load_decides `{!Lower} (e : env) fresh :
  match filter (malformed e) numeric_keys with
  | key :: _ => Load e fresh = inl (BadNumber key)
  | [] => (startable e → ∃ c, Load e fresh = inr c ∧ configured e fresh c) ∧ (¬ startable e → ∃ err, Load e fresh = inl err)
  end.
Proof.
  unfold Load, getintOr, numeric_keys. do 13 next_number e. cbn [filter list_filter]. cbv zeta.
  match goal with |- context [cfg_validate ?x] => set (c := x) end.
  assert (Hs : servable c ↔ startable e).
  { split; [intros [R T P M B]|intros (R & T & P & M & B)]; subst c; unfold getenv in *; cbn in *.
    - repeat split; try done; try tauto; try by apply T. destruct R as [R|R]; [|by right]. left. by destruct (decide (e "REDIS_HOST" = "")) as [E|E]; [rewrite bool_decide_eq_true_2 in R|].
    - split; cbn; try done. destruct R as [R|R]; [|by right]. left. unfold getenv. by rewrite bool_decide_eq_false_2. }
  split.
  - intros St. exists c. rewrite (proj2 (cfg_validate_spec c)) by (by apply Hs). split; [done|].
    clear St Hs. subst c.
    split; unfold texts, numbers, durations, timeouts; cbn -[Z.mul or_default_ms getcsv allowed_hosts getbool setting wrap64];
      [| | | |apply csv_parts_of|apply csv_parts_of|apply allowed_hosts_of|apply getbool_spec].
    + intros v key d Hin. unfold getenv in Hin. repeat (apply elem_of_cons in Hin as [[= -> -> ->]|Hin]; [by repeat case_bool_decide|]).
      by apply elem_of_nil in Hin.
    + intros v key d Hin. repeat (apply elem_of_cons in Hin as [[= -> -> ->]|Hin]; [done|]). by apply elem_of_nil in Hin.
    + intros v key d u Hin Hf. repeat (apply elem_of_cons in Hin as [[= -> -> -> ->]|Hin]; [by apply wrap64_fits|]). by apply elem_of_nil in Hin.
    + intros v key d Hin Hf. apply elem_of_cons in Hin as [[= -> -> ->]|Hin]; [by apply (timeout_exact _ 2000)|].
      apply list_elem_of_singleton in Hin as [= -> -> ->]. by apply (timeout_exact _ 10000).
  - intros St. destruct (cfg_validate c) as [err|] eqn:V; [by exists err|]. by apply cfg_validate_spec, Hs in V.
Qed.

(** ** Options and back *)

(** The settings for which zero and the default are the same in [Options]. *)
Definition none_zero (c : Config) : Prop :=
  c.(StreamMaxLength) ≠ 0 ∧ c.(AckCursorTTL) ≠ 0 ∧ c.(RateLimitMessagesPerSec) ≠ 0 ∧ c.(RateLimitJobsPerMin) ≠ 0 ∧
  c.(ReadinessTimeout) ≠ 0 ∧ c.(ShutdownTimeout) ≠ 0.

(** The configuration an embedder gets from the environment: where Redis is
    has become one list, the rules have become the authorizer, and no
    eviction is zero. *)
Definition embedded (c : Config) : Config := {|
  RedisHost := ""; RedisPort := 0; RedisPassword := c.(RedisPassword); RedisAddrs := RedisAddrList c;
  RedisMasterName := c.(RedisMasterName); WebSocketPort := c.(WebSocketPort); WebSocketTimeout := c.(WebSocketTimeout);
  MaxPayloadBytes := c.(MaxPayloadBytes); MaxBufferedBytes := c.(MaxBufferedBytes);
  MaxConsecutiveDrops := Z.max 0 c.(MaxConsecutiveDrops); EnableCompression := c.(EnableCompression);
  AllowedOrigins := c.(AllowedOrigins); MetricsAddr := c.(MetricsAddr); TLSKeyPath := c.(TLSKeyPath);
  TLSCertPath := c.(TLSCertPath); AuthzRules := ""; PresenceTopic := c.(PresenceTopic);
  AuthJWTSecret := c.(AuthJWTSecret); AuthJWTAudience := c.(AuthJWTAudience); AuthJWTIssuer := c.(AuthJWTIssuer);
  StreamMaxLength := c.(StreamMaxLength); StreamTTL := c.(StreamTTL); AckCursorTTL := c.(AckCursorTTL);
  RateLimitMessagesPerSec := c.(RateLimitMessagesPerSec); RateLimitJobsPerMin := c.(RateLimitJobsPerMin);
  SchedulerAllowedHosts := c.(SchedulerAllowedHosts); ReadinessTimeout := c.(ReadinessTimeout);
  ShutdownTimeout := c.(ShutdownTimeout); LogLevel := c.(LogLevel); InstanceID := c.(InstanceID) |}.

Lemma RedisAddrList_nonempty c : RedisAddrList c ≠ [].
Proof. unfold RedisAddrList. by destruct (RedisAddrs c). Qed.

Ltac load_numbers H :=
  repeat match type of H with
  | context [getintOr ?e ?k ?d] => destruct (getintOr e k d) as [?|?]; [done|]; cbn [mbind cfg_mbind] in H
  | context [getint64Or ?e ?k ?d] => destruct (getint64Or e k d) as [?|?]; [done|]; cbn [mbind cfg_mbind] in H
  end; cbv zeta in H.

Lemma Load_servable `{!Lower} e fresh c : Load e fresh = inr c → servable c ∧ (fresh ≠ "" → c.(InstanceID) ≠ "").
Proof.
  intros HL. unfold Load in HL.
  load_numbers HL. destruct (cfg_validate _) eqn:V; [done|]. injection HL as <-. apply cfg_validate_spec in V.
  split; [done|]. intros Hf. cbn. unfold getenv. by case_bool_decide.
Qed.

(** No eviction is spelled 0 on one side and -1 on the other. *)
Lemma drops_translate n :
  (let m := if bool_decide (n = 0) then -1 else n in if m <? 0 then 0 else if m =? 0 then 100 else m) = Z.max 0 n.
Proof.
  cbv zeta. destruct (Z.eq_dec n 0) as [->|E]; [done|]. rewrite bool_decide_eq_false_2 by done.
  destruct (Z.ltb_spec n 0); [lia|]. rewrite (proj2 (Z.eqb_neq _ _)) by done. lia.
Qed.

Lemma Load_texts `{!Lower} e fresh c : Load e fresh = inr c →
  c.(AuthzRules) = e "AUTHZ_RULES" ∧ c.(AuthJWTSecret) = e "AUTH_JWT_SECRET" ∧
  c.(AuthJWTAudience) = e "AUTH_JWT_AUDIENCE" ∧ c.(AuthJWTIssuer) = e "AUTH_JWT_ISSUER".
Proof.
  intros HL. unfold Load in HL. load_numbers HL. destruct (cfg_validate _) eqn:V; [done|]. injection HL as <-.
  split; [|done]. cbn. unfold getenv. by case_bool_decide.
Qed.

Section round_trip.
  Context `{!Lower, !GoQuote, !JsonErrors} {Claims Ext : Type} (no_ext : Ext).

(** [C33] The command and an embedder that starts from the environment run the same server: mapping a loaded
    configuration to [Options] and back gives the configuration itself, the address of Redis normalised and the rules
    turned into the authorizer, as long as no setting is zero. *)
Theorem env_round_trip e fresh fresh' c o :
  Load e fresh = inr c → none_zero c → fresh ≠ "" →
  OptionsFromEnv (Claims := Claims) no_ext e fresh = inr o →
  toConfig o fresh' = inr (embedded c) ∧
  ∃ rules, ParseRules c.(AuthzRules) = Ok rules ∧ o.(o_Authorizer) = match rules with Some r => Some (Authorize r) | None => None end.
Proof.
  intros L (N1 & N2 & N3 & N4 & N5 & N6) Hf. unfold OptionsFromEnv. rewrite L.
  destruct (ParseRules (AuthzRules c)) as [rules|] eqn:P; [|done]. intros [= <-].
  split; [|by exists rules]. apply Load_servable in L as [[_ _ Sp Sm Sb] Hi]. specialize (Hi Hf).
  unfold toConfig, options_of, listen_port. cbn -[SplitHostPort FormatInt String.append Z.mul].
  rewrite bool_decide_eq_false_2 by done.
  rewrite SplitHostPort_port by lia. rewrite ParseInt_FormatInt by (unfold in_int64, min_int64, max_int64; lia).
  unfold or_default, embedded. rewrite (bool_decide_eq_false_2 (RedisAddrList c = [])) by apply RedisAddrList_nonempty.
  pose proof (drops_translate (MaxConsecutiveDrops c)) as D. cbv zeta in D. rewrite D. by rewrite !bool_decide_eq_false_2 by (done || lia).
Qed.
End round_trip.

(** ** What the two layers lose *)

Section losses.
  Context `{!Lower, !GoQuote, !JsonErrors} {Claims Ext : Type} (no_ext : Ext).

(** A zero of the environment comes back as the default: the cursor
    lifetime, the stream length and both rate limits. *)
Theorem zero_is_default c fresh c' :
  c.(AckCursorTTL) = 0 → c.(StreamMaxLength) = 0 → c.(RateLimitMessagesPerSec) = 0 → c.(RateLimitJobsPerMin) = 0 →
  toConfig (options_of (Claims := Claims) no_ext c None) fresh = inr c' →
  c'.(AckCursorTTL) = 7 * 24 * 3600 * Second ∧ c'.(StreamMaxLength) = 1000 ∧
  c'.(RateLimitMessagesPerSec) = 50 ∧ c'.(RateLimitJobsPerMin) = 30.
Proof.
  intros E1 E2 E3 E4. unfold toConfig. destruct (listen_port _); [done|]. intros [= <-].
  cbn -[Z.mul]. by rewrite E1, E2, E3, E4.
Qed.

(** The host of a listen address is dropped. *)
Theorem listen_host_dropped (o : Options Claims Ext) host port n fresh :
  SplitHostPort o.(ListenAddr) = Some (host, port) → ParseInt port = (n, true) →
  ∃ c, toConfig o fresh = inr c ∧ c.(WebSocketPort) = n ∧ c.(RedisHost) = "".
Proof.
  intros Hs Hp. unfold toConfig, listen_port. case_bool_decide as E; [by rewrite E in Hs|].
  rewrite Hs, Hp. eexists. split; [reflexivity|done].
Qed.

(** What [Load] rejects as a mistake, [toConfig] accepts: with one TLS path
    the server comes up in plain text. *)
Theorem half_tls_is_plain (o : Options Claims Ext) fresh c :
  o.(o_TLSCertPath) ≠ "" → o.(o_TLSKeyPath) = "" → toConfig o fresh = inr c →
  cfg_validate c = Some PartialTLS ∧ TLSEnabled c = false.
Proof.
  intros Hc Hk. unfold toConfig. destruct (listen_port _) as [|port]; [done|]. intros [= <-].
  unfold cfg_validate, TLSEnabled. cbn -[Z.mul]. rewrite Hk.
  rewrite (bool_decide_eq_false_2 (o_TLSCertPath o = "")) by done. split; [|done].
  destruct (bool_decide (o_RedisAddrs o = [])) eqn:R; [done|]. by rewrite R.
Qed.
End losses.

(** ** Witnesses *)

#[local] Instance lower_witness : Lower := {| ToLower := lower_ascii; ToLower_ascii _ _ := eq_refl |}.
#[local] Instance quote_witness : GoQuote := {| Quote := id |}.
#[local] Instance json_witness : JsonErrors := id.

Definition demo_env : env := λ k,
  if bool_decide (k = "REDIS_HOST") then "redis" else
  if bool_decide (k = "WEBSOCKET_PORT") then "9000" else
  if bool_decide (k = "MAX_CONSECUTIVE_DROPS") then "0" else
  if bool_decide (k = "SCHEDULER_ALLOWED_HOSTS") then " API.example.com, ,hooks.example.com" else
  if bool_decide (k = "ENABLE_COMPRESSION") then " ON " else "".

Definition demo_config : Config := {|
  RedisHost := "redis"; RedisPort := 6379; RedisPassword := ""; RedisAddrs := []; RedisMasterName := "";
  WebSocketPort := 9000; WebSocketTimeout := 300000 * Millisecond; MaxPayloadBytes := 65536; MaxBufferedBytes := 1048576;
  MaxConsecutiveDrops := 0; EnableCompression := true; AllowedOrigins := []; MetricsAddr := ""; TLSKeyPath := "";
  TLSCertPath := ""; AuthzRules := ""; PresenceTopic := ""; AuthJWTSecret := ""; AuthJWTAudience := ""; AuthJWTIssuer := "";
  StreamMaxLength := 1000; StreamTTL := 0; AckCursorTTL := 604800 * Second; RateLimitMessagesPerSec := 50;
  RateLimitJobsPerMin := 30; SchedulerAllowedHosts := ["api.example.com"; "hooks.example.com"];
  ReadinessTimeout := 2 * Second; ShutdownTimeout := 10 * Second; LogLevel := "info"; InstanceID := "i-1" |}.

Example demo_loads : Load demo_env "i-1" = inr demo_config.
Proof. vm_compute. reflexivity. Qed.

Example first_bad_number :
  Load (λ k, if bool_decide (k = "WEBSOCKET_PORT") then "80a" else if bool_decide (k = "STREAM_TTL_SECONDS") then "1e3" else "") "i"
  = inl (BadNumber "WEBSOCKET_PORT").
Proof. vm_compute. reflexivity. Qed.

(** Milliseconds beyond 292 years wrap around to a negative timeout, which is
    taken for no timeout. *)
Example timeout_wraps : ∃ c,
  Load (λ k, if bool_decide (k = "REDIS_HOST") then "redis" else if bool_decide (k = "WEBSOCKET_TIMEOUT") then "9223372036855" else "") "id"
  = inr c ∧ c.(WebSocketTimeout) < 0.
Proof. eexists. split; [vm_compute; reflexivity|]. vm_compute. reflexivity. Qed.

Lemma env_round_trip_witness : ∃ o,
  OptionsFromEnv (Claims := ()) () demo_env "i-1" = inr o ∧
  (toConfig o "i-2" = inr (embedded demo_config) ∧
   ∃ rules, ParseRules demo_config.(AuthzRules) = Ok rules ∧
     o.(o_Authorizer) = match rules with Some r => Some (Authorize r) | None => None end).
Proof.
  eexists. split; [reflexivity|].
  apply (env_round_trip () demo_env "i-1" "i-2" demo_config); [vm_compute; reflexivity|by vm_compute|done|reflexivity].
Defined.
