(* ===== verification/Bus.v ===== *)
(** * The message bus (bus/bus.go)

    Live fan-out over pub/sub, history in a stream per topic, and the
    hand-over from one to the other when a client subscribes with [since].
    Every span under [b.mu] is one local event of the process, every frame
    handed to a subscriber another. *)

From S2P Require Import Prelude GoStrings Redis RedisModel Prog Time StreamID Json Protocol Judge RateLimit.
Local Open Scope Z_scope.
Local Open Scope prog_scope.

Definition topicChannelPrefix : string := "ws:topic:".
Definition broadcastChannelPrefix : string := "ws:broadcast:".
Definition reportChannelPrefix : string := "ws:report:".
Definition streamKeyPrefix : string := "topic:stream:".

(** ** Interfaces

    [Subscriber], [DropReporter] and [Identified] are Go interfaces a
    subscriber may or may not implement; [BroadcastTarget] is the hub. *)
Class Target (Sub Hub : Type) : Type := {
  Send : Sub → string → Hub → Hub;
  (** [Some] when the subscriber is a [DropReporter]. *)
  SendReporting : Sub → option (string → Hub → bool * Hub);
  (** [Some] when it is [Identified]. *)
  SubscriberID : Sub → option string;
  SendToUser : string → string → Hub → Hub;
  SendToConn : string → string → Hub → Hub;
}.

Record Config : Type := {
  StreamMaxLength : Z;
  StreamTTL : Z;
  InstanceID : string;
  cfg_Judge : option Judge;
  cfg_Candidates : option CandidateSource;
  JudgeFailurePolicy : FailurePolicy;
}.

Record bufferedMsg : Type := { bm_streamID : string; bm_data : raw }.

Record replayState : Type := { buffering : bool; seen : gset string; buf : list bufferedMsg }.

(** ** Payloads between instances *)

Record wireTopicPayload : Type := {
  w_StreamID : string;
  w_Data : raw;
  w_ReportTo : string;
  (** [None] is Go's nil slice: every subscriber. *)
  w_Recipients : option (list string);
}.

Definition marshal_topic (p : wireTopicPayload) : string :=
  match raw_value p.(w_Data) with
  | Some d =>
      print (JObj ([(key "streamId", jstring p.(w_StreamID)); (key "data", d)]
        ++ omit (bool_decide (p.(w_ReportTo) = "")) "reportTo" (jstring p.(w_ReportTo))
        ++ [(key "recipients", match p.(w_Recipients) with Some l => strings l | None => JNull end)])) ""
  | None => ""
  end.

Definition topic_fields : list (string * setter wireTopicPayload) :=
  [("streamId", set_string (λ v p, {| w_StreamID := v; w_Data := p.(w_Data);
      w_ReportTo := p.(w_ReportTo); w_Recipients := p.(w_Recipients) |}));
   ("data", set_raw (λ v p, {| w_StreamID := p.(w_StreamID); w_Data := v;
      w_ReportTo := p.(w_ReportTo); w_Recipients := p.(w_Recipients) |}));
   ("reportTo", set_string (λ v p, {| w_StreamID := p.(w_StreamID); w_Data := p.(w_Data);
      w_ReportTo := v; w_Recipients := p.(w_Recipients) |}));
   ("recipients", set_strings (λ v p, {| w_StreamID := p.(w_StreamID); w_Data := p.(w_Data);
      w_ReportTo := p.(w_ReportTo); w_Recipients := v |}))].

Definition unmarshal_topic (s : string) : option wireTopicPayload :=
  j ← parse s;
  unmarshal_struct topic_fields
    {| w_StreamID := ""; w_Data := RawNil; w_ReportTo := ""; w_Recipients := None |} j.

Record wireReportPayload : Type := {
  r_Topic : string; r_StreamID : string; r_Delivered : Z; r_Dropped : Z; r_Filtered : Z; r_Instance : string;
}.

Definition marshal_report (r : wireReportPayload) : string :=
  print (JObj [(key "topic", jstring r.(r_Topic)); (key "streamId", jstring r.(r_StreamID));
    (key "delivered", jint r.(r_Delivered)); (key "dropped", jint r.(r_Dropped));
    (key "filtered", jint r.(r_Filtered)); (key "instance", jstring r.(r_Instance))]) "".

Definition report_fields : list (string * setter wireReportPayload) :=
  [("topic", set_string (λ v r, {| r_Topic := v; r_StreamID := r.(r_StreamID); r_Delivered := r.(r_Delivered);
      r_Dropped := r.(r_Dropped); r_Filtered := r.(r_Filtered); r_Instance := r.(r_Instance) |}));
   ("streamId", set_string (λ v r, {| r_Topic := r.(r_Topic); r_StreamID := v; r_Delivered := r.(r_Delivered);
      r_Dropped := r.(r_Dropped); r_Filtered := r.(r_Filtered); r_Instance := r.(r_Instance) |}));
   ("delivered", set_int (λ v r, {| r_Topic := r.(r_Topic); r_StreamID := r.(r_StreamID); r_Delivered := v;
      r_Dropped := r.(r_Dropped); r_Filtered := r.(r_Filtered); r_Instance := r.(r_Instance) |}));
   ("dropped", set_int (λ v r, {| r_Topic := r.(r_Topic); r_StreamID := r.(r_StreamID); r_Delivered := r.(r_Delivered);
      r_Dropped := v; r_Filtered := r.(r_Filtered); r_Instance := r.(r_Instance) |}));
   ("filtered", set_int (λ v r, {| r_Topic := r.(r_Topic); r_StreamID := r.(r_StreamID); r_Delivered := r.(r_Delivered);
      r_Dropped := r.(r_Dropped); r_Filtered := v; r_Instance := r.(r_Instance) |}));
   ("instance", set_string (λ v r, {| r_Topic := r.(r_Topic); r_StreamID := r.(r_StreamID); r_Delivered := r.(r_Delivered);
      r_Dropped := r.(r_Dropped); r_Filtered := r.(r_Filtered); r_Instance := v |}))].

Definition unmarshal_report (s : string) : option wireReportPayload :=
  j ← parse s;
  unmarshal_struct report_fields {| r_Topic := ""; r_StreamID := ""; r_Delivered := 0; r_Dropped := 0;
                                    r_Filtered := 0; r_Instance := "" |} j.

Definition marshal_broadcast (data : raw) : string :=
  match raw_value data with Some d => print (JObj [(key "data", d)]) "" | None => "" end.

Definition unmarshal_broadcast (s : string) : option raw :=
  j ← parse s; unmarshal_struct [("data", set_raw (λ v _, v))] RawNil j.

(** ** The bus *)

Section bus.
Context {Sub : Type} `{Countable Sub} {Hub : Type} `{!Target Sub Hub} `{!GoQuote}.

Record bus : Type := Bus {
  topicSubs : gmap string (gset Sub);
  replay : gmap (Sub * string) replayState;
  (** The [LocalSubscriptions] gauge. *)
  gauge : Z;
}.

(** What one server process keeps: the bus, the connections, and the counter
    of the rate limiter. *)
Record proc : Type := Proc { p_bus : bus; p_hub : Hub; p_seq : Z }.

#[export] Instance proc_seq : HasSeq proc :=
  {| get_seq := p_seq; set_seq := λ n p, Proc p.(p_bus) p.(p_hub) n; get_set_seq n p := eq_refl |}.

Definition with_bus (f : bus → bus) : prog proc () :=
  local_ (λ p, ((), Proc (f p.(p_bus)) p.(p_hub) p.(p_seq))).

Definition with_hub (f : Hub → Hub) : prog proc () :=
  local_ (λ p, ((), Proc p.(p_bus) (f p.(p_hub)) p.(p_seq))).

Definition subscribers (b : bus) (topic : string) : gset Sub := default ∅ (b.(topicSubs) !! topic).

Definition addLocalSubLocked (topic : string) (sub : Sub) (b : bus) : bus :=
  let set := subscribers b topic in
  if bool_decide (sub ∈ set) then Bus (<[topic := set]> b.(topicSubs)) b.(replay) b.(gauge)
  else Bus (<[topic := {[ sub ]} ∪ set]> b.(topicSubs)) b.(replay) (b.(gauge) + 1).

Definition AddLocalSubscription (topic : string) (sub : Sub) : prog proc () :=
  with_bus (addLocalSubLocked topic sub).

(** Remove a subscriber from a set, and the set with its last member. *)
Definition drop_sub (topic : string) (sub : Sub) (b : bus) : bus :=
  match b.(topicSubs) !! topic with
  | None => b
  | Some set =>
      let set' := set ∖ {[ sub ]} in
      Bus (if decide (set' = ∅) then delete topic b.(topicSubs) else <[topic := set']> b.(topicSubs))
        b.(replay) (if bool_decide (sub ∈ set) then b.(gauge) - 1 else b.(gauge))
  end.

Definition RemoveLocalSubscription (topic : string) (sub : Sub) : prog proc () :=
  with_bus (λ b, let b := drop_sub topic sub b in Bus b.(topicSubs) (delete (sub, topic) b.(replay)) b.(gauge)).

(** Sets that do not hold [sub] are left alone. *)
Definition RemoveSubscriberAll (sub : Sub) : prog proc () :=
  with_bus (λ b,
    let b := foldr (λ topic b, if bool_decide (sub ∈ subscribers b topic) then drop_sub topic sub b else b)
               b (map_to_list b.(topicSubs)).*1 in
    Bus b.(topicSubs) (filter (λ k, k.1.1 ≠ sub) b.(replay)) b.(gauge)).

(** *** Live fan-out *)

Definition allowedSubscriber (allowed : option (gset string)) (sub : Sub) : bool :=
  match allowed with
  | None => true
  | Some allowed =>
      match SubscriberID sub with None => true | Some id => bool_decide (id ∈ allowed) end
  end.

(** The critical section of [handleTopic]: whom to deliver to, and how many
    were filtered.  Map iteration visits the subscribers in some order. *)
Fixpoint fanout_locked (topic : string) (p : wireTopicPayload) (allowed : option (gset string))
    (subs : list Sub) (b : bus) : list Sub * Z * bus :=
  match subs with
  | [] => ([], 0, b)
  | sub :: subs' =>
      let live :=
        let '(deliver, filtered, b') := fanout_locked topic p allowed subs' b in
        if allowedSubscriber allowed sub then (sub :: deliver, filtered, b')
        else (deliver, filtered + 1, b') in
      match b.(replay) !! (sub, topic) with
      | Some st =>
          if st.(buffering) then
            let m := {| bm_streamID := p.(w_StreamID); bm_data := p.(w_Data) |} in
            fanout_locked topic p allowed subs'
              (Bus b.(topicSubs)
                 (<[(sub, topic) := {| buffering := true; seen := st.(seen); buf := st.(buf) ++ [m] |}]> b.(replay))
                 b.(gauge))
          else live
      | None => live
      end
  end.

(** The delivery loop, with the counts of delivered and dropped frames. *)
Fixpoint deliver_frames (reporting : bool) (frame : string) (subs : list Sub) (delivered dropped : Z)
  : prog proc (Z * Z) :=
  match subs with
  | [] => Ret (delivered, dropped)
  | sub :: subs' =>
      let plain := bind (with_hub (Send sub frame)) (λ _,
        deliver_frames reporting frame subs' (delivered + 1) dropped) in
      if reporting then
        match SendReporting sub with
        | Some send =>
            bind (local_ (λ p, let '(ok, h) := send frame p.(p_hub) in (ok, Proc p.(p_bus) h p.(p_seq)))) (λ ok : bool,
              if ok then deliver_frames reporting frame subs' (delivered + 1) dropped
              else deliver_frames reporting frame subs' delivered (dropped + 1))
        | None => plain
        end
      else plain
  end.

Context (cfg : Config).

(** A failed publish is logged and forgotten. *)
Definition sendReport (topic : string) (p : wireTopicPayload) (delivered dropped filtered : Z) : prog proc () :=
  let payload := marshal_report {| r_Topic := topic; r_StreamID := p.(w_StreamID); r_Delivered := delivered;
    r_Dropped := dropped; r_Filtered := filtered; r_Instance := cfg.(InstanceID) |} in
  bind (call (PUBLISH (reportChannelPrefix +:+ p.(w_ReportTo)) payload)) (λ _, Ret ()).

Definition handleTopic (topic payload : string) : prog proc () :=
  match unmarshal_topic payload with
  | None => Ret ()
  | Some p =>
      let allowed := list_to_set <$> p.(w_Recipients) in
      bind (local_ (λ pr,
        let '(deliver, filtered, b) :=
          fanout_locked topic p allowed (elements (subscribers pr.(p_bus) topic)) pr.(p_bus) in
        ((deliver, filtered), Proc b pr.(p_hub) pr.(p_seq)))) (λ '(deliver, filtered),
      if bool_decide (deliver = []) then Ret ()
      else
        let frame := EncodePublish topic p.(w_Data) p.(w_StreamID) false in
        bind (deliver_frames (bool_decide (p.(w_ReportTo) ≠ "")) frame deliver 0 0) (λ '(delivered, dropped),
        if bool_decide (p.(w_ReportTo) ≠ "") then sendReport topic p delivered dropped filtered
        else Ret ()))
  end.

Definition handleReport (connID payload : string) : prog proc () :=
  match unmarshal_report payload with
  | None => Ret ()
  | Some r =>
      with_hub (SendToConn connID (EncodeDeliveryReport r.(r_Topic) r.(r_StreamID) r.(r_Instance)
        r.(r_Delivered) r.(r_Dropped) r.(r_Filtered)))
  end.

Definition handleBroadcast (userKey payload : string) : prog proc () :=
  match unmarshal_broadcast payload with
  | None => Ret ()
  | Some data => with_hub (SendToUser userKey (EncodeBroadcast data))
  end.

Definition dispatch (channel payload : string) : prog proc () :=
  match CutPrefix channel topicChannelPrefix with
  | Some topic => handleTopic topic payload
  | None =>
      match CutPrefix channel broadcastChannelPrefix with
      | Some userKey => handleBroadcast userKey payload
      | None =>
          match CutPrefix channel reportChannelPrefix with
          | Some connID => handleReport connID payload
          | None => Ret ()
          end
      end
  end.

(** *** Publishing *)

(** The text stored in the stream. *)
Definition stream_text (data : raw) : string :=
  match data with
  | RawNil => "null"
  | Raw j => print j ""
  | RawBad s => if decide (s = "") then "null" else s
  end.

Definition PublishTopic (topic : string) (data : raw) (reportTo : string) : prog proc (result string) :=
  let recipients := judge cfg.(cfg_Judge) cfg.(cfg_Candidates) cfg.(JudgeFailurePolicy) topic data in
  streamID ←? wrapped "xadd: "
    (call (XADD (streamKeyPrefix +:+ topic) cfg.(StreamMaxLength) (stream_text data)));
  let announce := marshal_topic {| w_StreamID := streamID; w_Data := data;
    w_ReportTo := reportTo; w_Recipients := recipients |} in
  wrapped "publish topic: " (call (PUBLISH (topicChannelPrefix +:+ topic) announce)) ;?
  Ret (Ok streamID).

Definition PublishBroadcast (userKey : string) (data : raw) : prog proc (result ()) :=
  wrapped "publish broadcast: "
    (call (PUBLISH (broadcastChannelPrefix +:+ userKey) (marshal_broadcast data))) ;?
  Ret (Ok ()).

(** *** Replay *)

Definition sinceMs (since : string) : string :=
  match CutByte since "-" with
  | Some (a, _) => if decide (a = "") then since else a
  | None => since
  end.

Definition replayMessages (topic since : string) : prog proc (result (list bufferedMsg * bool * string)) :=
  let streamKey := streamKeyPrefix +:+ topic in
  entries ←? wrapped "xrange: " (call (XRANGE streamKey (sinceMs since)));
  let out := (λ e, {| bm_streamID := e.1; bm_data := raw_of_text e.2 |}) <$>
               filter (λ e : string * string, 0 < compareStreamIDs e.1 since) entries in
  if 0 <? (ParseInt (sinceMs since)).1 then
    bind (call (XRANGE_FIRST streamKey)) (λ r,
      match r with
      | Ok (Some (oldest, _)) =>
          if compareStreamIDs since oldest <? 0 then Ret (Ok (out, true, oldest))
          else Ret (Ok (out, false, ""))
      | _ => Ret (Ok (out, false, ""))
      end)
  else Ret (Ok (out, false, "")).

Definition put_replay (sub : Sub) (topic : string) (st : replayState) (b : bus) : bus :=
  Bus b.(topicSubs) (<[(sub, topic) := st]> b.(replay)) b.(gauge).

Definition del_replay (sub : Sub) (topic : string) (b : bus) : bus :=
  Bus b.(topicSubs) (delete (sub, topic) b.(replay)) b.(gauge).

(** Step 1: subscribe and buffer, in one critical section. *)
Definition register (sub : Sub) (topic : string) : prog proc () :=
  with_bus (λ b, put_replay sub topic {| buffering := true; seen := ∅; buf := [] |} (addLocalSubLocked topic sub b)).

Definition mark_seen (sub : Sub) (topic streamID : string) : prog proc () :=
  with_bus (λ b,
    match b.(replay) !! (sub, topic) with
    | Some st => put_replay sub topic {| buffering := st.(buffering); seen := {[ streamID ]} ∪ st.(seen);
                                         buf := st.(buf) |} b
    | None => b
    end).

(** Step 3: stop buffering and take what replay did not cover. *)
Definition stop_buffering (sub : Sub) (topic : string) : prog proc (list bufferedMsg) :=
  local_ (λ p,
    let leftover :=
      match p.(p_bus).(replay) !! (sub, topic) with
      | Some st => filter (λ m, m.(bm_streamID) ∉ st.(seen)) st.(buf)
      | None => []
      end in
    (leftover, Proc (del_replay sub topic p.(p_bus)) p.(p_hub) p.(p_seq))).

Definition SubscribeWithReplay (sub : Sub) (topic since : string) : prog proc (result (bool * string)) :=
  match parseSinceCursor since with
  | Err e => Ret (Err e)
  | Ok cursor =>
      bind (register sub topic) (λ _,
      bind (replayMessages topic cursor) (λ r,
        match r with
        | Err e => bind (with_bus (del_replay sub topic)) (λ _, Ret (Err e))
        | Ok (msgs, trunc, oldest) =>
            bind (for_each msgs (λ m,
              bind (mark_seen sub topic m.(bm_streamID)) (λ _,
              with_hub (Send sub (EncodePublish topic m.(bm_data) m.(bm_streamID) true))))) (λ _,
            bind (stop_buffering sub topic) (λ leftover,
            bind (for_each leftover (λ m,
              with_hub (Send sub (EncodePublish topic m.(bm_data) m.(bm_streamID) false)))) (λ _,
            Ret (Ok (trunc, oldest)))))
        end))
  end.

(** *** Trimming *)

Definition trimAllStreams : prog proc () :=
  bind now (λ t,
  let cutoffMs := UnixMilli (of_UnixMilli t - cfg.(StreamTTL)) in
  bind (call (SCAN streamKeyPrefix)) (λ r,
    match r with
    | Ok ks => for_each ks (λ k, bind (call (XTRIM_MINID k (cutoffMs, 0))) (λ _, Ret ()))
    | Err _ => Ret ()
    end)).
End bus.
