(* ===== verification/BusInv.v ===== *)
(** * The subscription registry stays consistent

    An invariant of the maps behind [b.mu], kept by every operation of the bus
    and hence along every interleaving. *)

From S2P Require Import Prelude GoStrings Redis RedisModel Prog StreamID Json Protocol Judge RateLimit Bus.
Local Open Scope Z_scope.

Section registry.
Context {Sub : Type} `{Countable Sub}.
Implicit Types (b : bus (Sub := Sub)) (sub : Sub) (topic : string).

(** How many subscriptions a registry holds. *)
Definition total (m : gmap string (gset Sub)) : Z := map_fold (λ _ S n, Z.of_nat (size S) + n) 0 m.

Record bus_ok b : Prop := {
  ok_nonempty topic S : b.(topicSubs) !! topic = Some S → S ≠ ∅;
  ok_gauge : b.(gauge) = total b.(topicSubs);
  ok_replay sub topic : is_Some (b.(replay) !! (sub, topic)) → sub ∈ subscribers b topic;
}.

Lemma total_insert_None m topic S : m !! topic = None → total (<[topic := S]> m) = Z.of_nat (size S) + total m.
Proof. intros. unfold total. rewrite map_fold_insert_L; [done| |done]. intros. lia. Qed.

Lemma total_delete m topic S : m !! topic = Some S → total m = Z.of_nat (size S) + total (delete topic m).
Proof.
  intros Hm. rewrite <- (insert_id m topic S) at 1 by done. rewrite <- insert_delete_eq.
  by rewrite total_insert_None by apply lookup_delete_eq.
Qed.

Lemma total_insert m topic S :
  total (<[topic := S]> m) = Z.of_nat (size S) + total m - Z.of_nat (size (default ∅ (m !! topic))).
Proof.
  destruct (m !! topic) as [S0|] eqn:Hm; cbn.
  - rewrite <- insert_delete_eq, total_insert_None by apply lookup_delete_eq.
    rewrite (total_delete m topic S0) by done. lia.
  - rewrite total_insert_None by done. rewrite size_empty. lia.
Qed.

Lemma subscribers_insert b topic topic' S r g :
  subscribers (Bus (<[topic := S]> b.(topicSubs)) r g) topic' =
    if decide (topic = topic') then S else subscribers b topic'.
Proof.
  unfold subscribers; cbn. case_decide; subst; [by rewrite lookup_insert_eq|by rewrite lookup_insert_ne].
Qed.

Lemma subscribers_add topic sub b topic' sub' :
  sub' ∈ subscribers (addLocalSubLocked topic sub b) topic' ↔
  (sub' = sub ∧ topic' = topic) ∨ sub' ∈ subscribers b topic'.
Proof.
  unfold addLocalSubLocked. case_bool_decide; rewrite subscribers_insert; case_decide; subst; set_solver.
Qed.

Lemma add_ok topic sub b : bus_ok b → bus_ok (addLocalSubLocked topic sub b).
Proof.
  intros [Hne Hg Hr]. split.
  - intros t S. unfold addLocalSubLocked. case_bool_decide as Hin; cbn;
      intros [[<- <-]|[_ ?]]%lookup_insert_Some; [set_solver|by eapply Hne|set_solver|by eapply Hne].
  - unfold addLocalSubLocked. case_bool_decide as Hin; cbn; rewrite total_insert, Hg.
    + unfold subscribers. lia.
    + rewrite size_union, size_singleton by set_solver. unfold subscribers. lia.
  - intros s t Hs. rewrite subscribers_add. right. apply Hr. revert Hs.
    unfold addLocalSubLocked. by case_bool_decide.
Qed.

Lemma subscribers_drop topic sub b topic' sub' :
  sub' ∈ subscribers (drop_sub topic sub b) topic' ↔
  sub' ∈ subscribers b topic' ∧ ¬ (sub' = sub ∧ topic' = topic).
Proof.
  unfold drop_sub. destruct (topicSubs b !! topic) as [S|] eqn:HS.
  - case_decide as He.
    + unfold subscribers; cbn. destruct (decide (topic = topic')) as [<-|Hne].
      * rewrite lookup_delete_eq, HS. cbn. set_solver.
      * rewrite lookup_delete_ne by done. naive_solver.
    + rewrite subscribers_insert. case_decide; subst.
      * unfold subscribers. rewrite HS. cbn. set_solver.
      * naive_solver.
  - split; [|tauto]. intros Hs. split; [done|]. intros [-> ->]. unfold subscribers in Hs. rewrite HS in Hs. set_solver.
Qed.

(** [drop_sub] alone may leave a replay entry behind. *)
Definition reg_ok b : Prop :=
  (∀ topic S, b.(topicSubs) !! topic = Some S → S ≠ ∅) ∧ b.(gauge) = total b.(topicSubs).

Lemma drop_reg_ok topic sub b : reg_ok b → reg_ok (drop_sub topic sub b).
Proof.
  intros [Hne Hg]. unfold drop_sub, reg_ok. destruct (topicSubs b !! topic) as [S|] eqn:HS; [|done]. cbn.
  assert (Z.of_nat (size (S ∖ {[ sub ]})) = Z.of_nat (size S) - (if bool_decide (sub ∈ S) then 1 else 0)) as Hsz.
  { case_bool_decide as Hin.
    - rewrite size_difference, size_singleton by set_solver.
      assert (size S ≠ 0%nat); [|lia]. intros E%size_empty_inv. set_solver.
    - replace (S ∖ {[sub]}) with S by set_solver. lia. }
  split.
  - intros t T. destruct (decide (S ∖ {[sub]} = ∅)) as [He|He].
    + intros [_ ?]%lookup_delete_Some. by eapply Hne.
    + intros [[<- <-]|[_ ?]]%lookup_insert_Some; [done|by eapply Hne].
  - destruct (decide (S ∖ {[sub]} = ∅)) as [He|He].
    + rewrite He, size_empty in Hsz. rewrite (total_delete _ _ _ HS) in Hg. case_bool_decide; lia.
    + rewrite total_insert, HS. cbn. case_bool_decide; lia.
Qed.

Lemma remove_ok topic sub b :
  bus_ok b →
  bus_ok (let b := drop_sub topic sub b in Bus b.(topicSubs) (delete (sub, topic) b.(replay)) b.(gauge)).
Proof.
  intros [Hne Hg Hr]. destruct (drop_reg_ok topic sub b (conj Hne Hg)) as [Hne' Hg']. cbv zeta. split; [done|done|]. cbn [replay].
  intros s t [st [Hk Hst]%lookup_delete_Some]. unfold subscribers; cbn.
  change (s ∈ subscribers (drop_sub topic sub b) t). apply subscribers_drop. split; [|by intros [-> ->]].
  apply Hr. revert Hst. unfold drop_sub. repeat case_match; eauto.
Qed.

(** The loop of [RemoveSubscriberAll]. *)
Lemma drop_all_spec sub topics b :
  reg_ok b →
  let b' := foldr (λ t b, if bool_decide (sub ∈ subscribers b t) then drop_sub t sub b else b) b topics in
  reg_ok b' ∧ b'.(replay) = b.(replay) ∧
  ∀ t s, s ∈ subscribers b' t ↔ s ∈ subscribers b t ∧ ¬ (s = sub ∧ t ∈ topics).
Proof.
  intros Hok. induction topics as [|t0 topics (IH1&IH2&IH3)]; cbn [foldr].
  { split_and!; [done|done|]. intros t s. set_solver. }
  cbv zeta. case_bool_decide as Hin.
  - split_and!; [by apply drop_reg_ok| |].
    + rewrite <- IH2. unfold drop_sub. by repeat case_match.
    + intros t s. rewrite subscribers_drop, IH3. set_solver.
  - split_and!; [done|done|]. intros t s. rewrite IH3. split; [|set_solver].
    intros [Hs Hn]. split; [done|]. intros [-> [->|?]%elem_of_cons]; [|naive_solver].
    apply Hin. apply IH3. naive_solver.
Qed.

Definition remove_all (sub : Sub) b : bus :=
  let b := foldr (λ topic b, if bool_decide (sub ∈ subscribers b topic) then drop_sub topic sub b else b)
             b (map_to_list b.(topicSubs)).*1 in
  Bus b.(topicSubs) (filter (λ k, k.1.1 ≠ sub) b.(replay)) b.(gauge).

Lemma subscribers_remove_all sub b t s :
  reg_ok b → s ∈ subscribers (remove_all sub b) t ↔ s ∈ subscribers b t ∧ s ≠ sub.
Proof.
  intros Hok. destruct (drop_all_spec sub (map_to_list (topicSubs b)).*1 b Hok) as (_&_&Hs).
  change (s ∈ subscribers (foldr (λ topic b, if bool_decide (sub ∈ subscribers b topic)
    then drop_sub topic sub b else b) b (map_to_list (topicSubs b)).*1) t ↔ s ∈ subscribers b t ∧ s ≠ sub).
  rewrite Hs. split; [|naive_solver]. intros [Hin Hn]. split; [done|]. intros ->. apply Hn. split; [done|].
  unfold subscribers in Hin. destruct (topicSubs b !! t) as [S|] eqn:HS; [|set_solver].
  apply list_elem_of_fmap. exists (t, S). split; [done|]. by apply elem_of_map_to_list.
Qed.

Lemma remove_all_ok sub b : bus_ok b → bus_ok (remove_all sub b).
Proof.
  intros [Hne Hg Hr].
  destruct (drop_all_spec sub (map_to_list (topicSubs b)).*1 b (conj Hne Hg)) as ([Hne' Hg']&Hrep&_).
  split; [done|done|]. unfold remove_all; cbn [replay]. intros s t [st [Hst Hs]%map_lookup_filter_Some]. cbn in Hs.
  apply subscribers_remove_all; [done|]. split; [|done]. apply Hr. rewrite Hrep in Hst. by exists st.
Qed.

Lemma put_replay_ok sub topic st b :
  bus_ok b → sub ∈ subscribers b topic → bus_ok (put_replay sub topic st b).
Proof.
  intros [Hne Hg Hr] Hin. split; [done|done|]. unfold put_replay; cbn [replay].
  intros s t [x [[[= <- <-] _]|[_ ?]]%lookup_insert_Some]; [done|].
  by apply Hr.
Qed.

Lemma del_replay_ok sub topic b : bus_ok b → bus_ok (del_replay sub topic b).
Proof. intros [Hne Hg Hr]. split; [done|done|]. unfold del_replay; cbn [replay]. intros s t [x [_ ?]%lookup_delete_Some]. by apply Hr. Qed.

Lemma fanout_ok {Hub} `{!Target Sub Hub} topic p allowed subs b :
  bus_ok b → bus_ok (fanout_locked topic p allowed subs b).2.
Proof.
  revert b. induction subs as [|s subs IH]; intros b Hok; cbn [fanout_locked]; [done|].
  assert (bus_ok (let '(deliver, filtered, b') := fanout_locked topic p allowed subs b in
    if allowedSubscriber allowed s then (s :: deliver, filtered, b') else (deliver, filtered + 1, b')).2) as Hlive.
  { specialize (IH b Hok). destruct (fanout_locked _ _ _ _ _) as [[??]?]. by case_match. }
  destruct (replay b !! (s, topic)) as [st|] eqn:Hst; [|done]. destruct (buffering st); [|done].
  apply IH. apply (put_replay_ok s topic _ b Hok). apply (ok_replay _ Hok). by rewrite Hst.
Qed.
End registry.

(** ** Along any interleaving *)

Section programs.
Context `{RedisServer Srv} {Sub : Type} `{Countable Sub} {Hub : Type} `{!Target Sub Hub} `{!GoQuote}.
Context (cfg : Config).
Implicit Types (m : mem Srv (proc (Sub := Sub) (Hub := Hub))).

Definition proc_ok m : Prop := bus_ok m.(loc).(p_bus).

Abbreviation keeps := (λ R (e : event (proc (Sub := Sub) (Hub := Hub)) R), event_preserves proc_ok e).

Lemma keeps_redis {R} (c : rcmd R) : keeps _ (Redis c).
Proof. intros f m Hm. unfold proc_ok, event_step, with_srv. by destruct (deliver _ _ _). Qed.

Lemma keeps_now : keeps _ Now.
Proof. by intros f m Hm. Qed.

Lemma keeps_local {R} (g : proc → R * proc) :
  (∀ p, bus_ok p.(p_bus) → bus_ok (g p).2.(p_bus)) → keeps _ (Local g).
Proof. intros Hg f m Hm. unfold proc_ok in *. cbn. specialize (Hg _ Hm). by destruct (g (loc m)). Qed.

Lemma keeps_with_bus (f : bus → bus) : (∀ b, bus_ok b → bus_ok (f b)) → all_events keeps (with_bus f).
Proof. intros Hf. constructor; [|constructor]. apply keeps_local. intros p. apply Hf. Qed.

Lemma keeps_with_hub (f : Hub → Hub) : all_events keeps (with_hub f).
Proof. constructor; [|constructor]. by apply keeps_local. Qed.

Lemma keeps_call {R} (c : rcmd R) : all_events keeps (call c).
Proof. constructor; [apply keeps_redis|constructor]. Qed.

Lemma keeps_rbind {A B} (p : prog proc (result A)) (k : A → prog proc (result B)) :
  all_events keeps p → (∀ a, all_events keeps (k a)) → all_events keeps (rbind p k).
Proof. intros. apply all_events_bind; [done|]. intros []; [done|constructor]. Qed.

Lemma keeps_wrapped {A} pfx (p : prog proc (result A)) : all_events keeps p → all_events keeps (wrapped pfx p).
Proof. intros. apply all_events_bind; [done|]. constructor. Qed.

Lemma keeps_for_each {A} (l : list A) (f : A → prog proc ()) :
  (∀ x, all_events keeps (f x)) → all_events keeps (for_each l f).
Proof. intros Hf. induction l; cbn; [constructor|]. apply all_events_bind; auto. Qed.

Create HintDb keeps.
Hint Resolve keeps_with_bus keeps_with_hub keeps_call keeps_rbind keeps_wrapped keeps_for_each
  add_ok remove_ok remove_all_ok del_replay_ok : keeps.
Hint Constructors all_events : keeps.

Lemma keeps_deliver_frames reporting frame subs i j : all_events keeps (deliver_frames reporting frame subs i j).
Proof.
  revert i j. induction subs as [|s subs IH]; intros i j; cbn [deliver_frames]; [constructor|].
  destruct reporting; [destruct (SendReporting s) as [send|]|].
  - apply all_events_bind; [|by intros []]. constructor; [|constructor].
    apply keeps_local. intros p Hp. by destruct (send frame (p_hub p)).
  - apply all_events_bind; auto with keeps.
  - apply all_events_bind; auto with keeps.
Qed.

Lemma keeps_handleTopic topic payload : all_events keeps (handleTopic cfg topic payload).
Proof.
  unfold handleTopic. destruct (unmarshal_topic payload) as [p|]; [|constructor].
  apply all_events_bind.
  - constructor; [|constructor]. apply keeps_local. intros pr Hpr.
    pose proof (fanout_ok topic p (list_to_set <$> w_Recipients p) (elements (subscribers (p_bus pr) topic)) _ Hpr).
    by destruct (fanout_locked _ _ _ _ _) as [[??]?].
  - intros [deliver filtered]. case_bool_decide; [constructor|].
    apply all_events_bind; [apply keeps_deliver_frames|]. intros [??]. case_bool_decide; [|constructor].
    apply all_events_bind; auto with keeps.
Qed.

Lemma keeps_dispatch channel payload : all_events keeps (dispatch cfg channel payload).
Proof.
  unfold dispatch. repeat case_match; [apply keeps_handleTopic| | |constructor].
  - unfold handleBroadcast. case_match; auto with keeps.
  - unfold handleReport. case_match; auto with keeps.
Qed.

Lemma keeps_replayMessages topic since :
  all_events keeps (replayMessages (Sub := Sub) (Hub := Hub) topic since).
Proof.
  apply keeps_rbind; [auto with keeps|]. intros l. case_match; [|constructor].
  apply all_events_bind; [auto with keeps|]. intros [[[??]|]|]; repeat case_match; constructor.
Qed.

Lemma keeps_SubscribeWithReplay sub topic since : all_events keeps (SubscribeWithReplay sub topic since).
Proof.
  unfold SubscribeWithReplay. case_match; [|constructor].
  apply all_events_bind.
  { apply keeps_with_bus. intros b Hb. apply put_replay_ok; [by apply add_ok|].
    apply subscribers_add. by left. }
  intros _. apply all_events_bind; [apply keeps_replayMessages|].
  intros [[[msgs trunc] oldest]|e]; [|apply all_events_bind; auto with keeps].
  apply all_events_bind.
  { apply keeps_for_each. intros x. apply all_events_bind; [|auto with keeps].
    apply keeps_with_bus. intros b Hb. case_match; [|done]. apply put_replay_ok; [done|].
    apply (ok_replay _ Hb). by eexists. }
  intros _. apply all_events_bind.
  { constructor; [|constructor]. apply keeps_local. intros p Hp. by apply del_replay_ok. }
  intros leftover. apply all_events_bind; auto with keeps.
Qed.

(** Everything the rest of the server asks of the bus, results dropped. *)
Inductive bus_op : prog (proc (Sub := Sub) (Hub := Hub)) () → Prop :=
| op_dispatch channel payload : bus_op (dispatch cfg channel payload)
| op_publish topic data reportTo : bus_op (bind (PublishTopic cfg topic data reportTo) (λ _, Ret ()))
| op_broadcast userKey data : bus_op (bind (PublishBroadcast userKey data) (λ _, Ret ()))
| op_add topic sub : bus_op (AddLocalSubscription topic sub)
| op_remove topic sub : bus_op (RemoveLocalSubscription topic sub)
| op_remove_all sub : bus_op (RemoveSubscriberAll sub)
| op_subscribe sub topic since : bus_op (bind (SubscribeWithReplay sub topic since) (λ _, Ret ()))
| op_trim : bus_op (trimAllStreams cfg).

Lemma bus_op_keeps p : bus_op p → all_events keeps p.
Proof.
  intros [channel payload|topic data reportTo|userKey data|topic sub|topic sub|sub|sub topic since|].
  - apply keeps_dispatch.
  - apply all_events_bind; [|constructor]. unfold PublishTopic. apply keeps_rbind; [auto with keeps|].
    intros id. apply keeps_rbind; auto with keeps.
  - apply all_events_bind; [|constructor]. unfold PublishBroadcast. apply keeps_rbind; auto with keeps.
  - apply keeps_with_bus. intros b. apply add_ok.
  - apply keeps_with_bus. intros b. apply remove_ok.
  - apply keeps_with_bus. intros b. apply remove_all_ok.
  - apply all_events_bind; [apply keeps_SubscribeWithReplay|constructor].
  - unfold trimAllStreams. apply all_events_bind; [constructor; [apply keeps_now|constructor]|].
    intros t. apply all_events_bind; [auto with keeps|]. intros [ks|]; [|constructor].
    apply keeps_for_each. intros k. apply all_events_bind; auto with keeps.
Qed.

(** [C18] Along every interleaving of bus operations, with any timing and any
    network fault, the registry is consistent: no topic is kept without a
    subscriber, the gauge equals the number of subscriptions, and only
    subscribers have a replay under way. *)
Theorem registry_invariant (ps : list (prog proc ())) (sched : list sched_item) m :
  Forall bus_op ps → bus_ok m.(loc).(p_bus) → bus_ok (srun sched (ps, m)).2.(loc).(p_bus).
Proof.
  intros Hps Hm. apply (srun_preserves proc_ok); [done| |done].
  eapply Forall_impl; [done|]. apply bus_op_keeps.
Qed.
End programs.
