(* ===== verification/Replay.v ===== *)
(** * From history to live messages without a gap

    [SubscribeWithReplay] runs while other goroutines of the process fan
    messages out and every instance appends to the stream and trims it.  The
    environment may do anything between two of its events except touch the
    replay state it owns, beyond appending to its buffer; [Fanout] shows that
    fan-out and publishing keep to that. *)

From S2P Require Import Prelude GoStrings Redis RedisModel Prog Time StreamID Json Protocol Judge RateLimit Bus.
Local Open Scope Z_scope.

(** Subscribers that record what they are handed. *)
Class Identify (Sub : Type) : Type := identify : Sub → option string.

Abbreviation outbox Sub := (list (Sub * string)).

#[export] Instance recorder {Sub} `{!Identify Sub} : Target Sub (outbox Sub) := {|
  Send := λ s f h, h ++ [(s, f)];
  SendReporting := λ _, None;
  SubscriberID := identify;
  SendToUser := λ _ _ h, h;
  SendToConn := λ _ _ h, h;
|}.

Section replay.
Context `{RedisServer Srv} `{!RedisLaws Srv} {Sub : Type} `{Countable Sub} `{!Identify Sub} `{!GoQuote}.
Abbreviation process := (proc (Sub := Sub) (Hub := outbox Sub)).
Context (sub : Sub) (topic : string).
Implicit Types (m : mem Srv process) (S : list (sid * string)) (bs h : list bufferedMsg).

(** What happens to a stream, one entry at a time: one is added at the end,
    or the oldest is trimmed. *)
Inductive change : Type :=
| Added (e : sid * string)
| Evicted.
Implicit Types ap : list change.

Definition change_step S (x : change) : list (sid * string) :=
  match x with Added e => S ++ [e] | Evicted => tail S end.

Definition changed ap S : list (sid * string) := foldl change_step S ap.

Lemma changed_app ap1 ap2 S : changed (ap1 ++ ap2) S = changed ap2 (changed ap1 S).
Proof. apply foldl_app. Qed.

Lemma changed_evicted n S : changed (replicate n Evicted) S = drop n S.
Proof. revert S. induction n as [|n IH]; intros [|x S]; [done..| |apply IH].
  pose proof (IH []) as E. by rewrite drop_nil in E.
Qed.

Definition change_ok (x : change) : Prop := match x with Added e => sid_ok e.1 | Evicted => True end.

Lemma changed_ok ap S : Forall (λ e, sid_ok e.1) S → Forall change_ok ap → Forall (λ e, sid_ok e.1) (changed ap S).
Proof.
  intros HS Hap. revert S HS. induction Hap as [|[e|] ap He _ IH]; intros S HS; [done|apply IH..].
  - by apply Forall_app_2; [|constructor].
  - by destruct HS.
Qed.

Definition streamKey : string := streamKeyPrefix +:+ topic.

Definition stream_is m S : Prop := ∃ last, as_stream (keys m.(srv)) streamKey = Some (last, S).

Definition replay_of m : option replayState := m.(loc).(p_bus).(replay) !! (sub, topic).

(** What others may do in between: change the stream by [ap], and have the
    buffer of this replay, while it is open, receive [h]. *)
Record env_step ap h m m' : Prop := {
  env_stream S : stream_is m S → stream_is m' (changed ap S);
  env_replay :
    match replay_of m with
    | Some st => st.(buffering) = true →
        replay_of m' = Some {| buffering := true; seen := st.(seen); buf := st.(buf) ++ h |}
    | None => replay_of m' = None ∧ h = []
    end;
}.

(** Whoever changes the server only. *)
Lemma env_elsewhere ap S m m' :
  stream_is m S → m'.(loc) = m.(loc) → stream_is m' (changed ap S) → env_step ap [] m m'.
Proof.
  intros [last HS] Hl HS'. split.
  - intros S0 [last0 HS0]. rewrite HS in HS0. by injection HS0 as <- <-.
  - unfold replay_of. rewrite Hl. destruct (_ !! _) as [[? ? ?]|]; [|done]. cbn. intros ->. by rewrite app_nil_r.
Qed.

(** From one event to the attempt of the next one that gets through; between
    the attempts that are resent others go on. *)
Inductive reaches {R} (e : event process R) m : list change → list bufferedMsg → mem Srv process → Prop :=
| reach_env ap h m' : env_step ap h m m' → reaches e m ap h m'
| reach_again ap1 h1 m1 ap2 h2 m2 : is_remote e = true → reaches e m ap1 h1 m1 →
    env_step ap2 h2 (event_step Resent e m1).2 m2 → reaches e m (ap1 ++ ap2) (h1 ++ h2) m2.

Lemma reaches_local {R} (e : event process R) m ap h m' : is_remote e = false → reaches e m ap h m' → env_step ap h m m'.
Proof. intros He [|]; [done|congruence]. Qed.

(** A run of a program among others: what they did to the stream, what
    they buffered, and the frames the program itself handed out. *)
Fixpoint env_run {A} (p : prog process A) m ap h (own : outbox Sub) (a : A) m' : Prop :=
  match p with
  | Ret a0 => ap = [] ∧ h = [] ∧ own = [] ∧ a = a0 ∧ m' = m
  | Do e k => ∃ f ap1 h1 m1 ap2 h2 own2,
      ap = ap1 ++ ap2 ∧ h = h1 ++ h2 ∧
      own = drop (length m1.(loc).(p_hub)) (event_step f e m1).2.(loc).(p_hub) ++ own2 ∧
      reaches e m ap1 h1 m1 ∧ again f e = false ∧
      env_run (k (event_step f e m1).1) (event_step f e m1).2 ap2 h2 own2 a m'
  end.

Lemma env_run_bind {A B} (p : prog process A) (k : A → prog process B) m ap h own b m' :
  env_run (bind p k) m ap h own b m' →
  ∃ a m1 ap1 ap2 h1 h2 own1 own2, ap = ap1 ++ ap2 ∧ h = h1 ++ h2 ∧ own = own1 ++ own2 ∧
    env_run p m ap1 h1 own1 a m1 ∧ env_run (k a) m1 ap2 h2 own2 b m'.
Proof.
  revert m ap h own. induction p as [a|R e k' IH]; intros m ap h own Hr; cbn [bind] in Hr.
  { by exists a, m, [], ap, [], h, [], own. }
  cbn [env_run] in Hr. destruct Hr as (f&ap1&h1&m1&ap2&h2&own2&->&->&->&Henv&Hf&Hr).
  apply IH in Hr as (a&m2&ap3&ap4&h3&h4&own3&own4&->&->&->&Hp&Hk).
  exists a, m2, (ap1 ++ ap3), ap4, (h1 ++ h3), h4, (drop (length m1.(loc).(p_hub)) (event_step f e m1).2.(loc).(p_hub) ++ own3), own4.
  rewrite <- !(assoc_L (++)). split_and!; [done..| |done].
  cbn [env_run]. by exists f, ap1, h1, m1, ap3, h3, own3.
Qed.

Lemma env_run_step {A R} m1 (e : event process R) (k : R → prog process A) m ap1 h1 ap2 h2 own1 own2 a m' :
  env_step ap1 h1 m m1 →
  drop (length m1.(loc).(p_hub)) (event_step Fine e m1).2.(loc).(p_hub) = own1 →
  env_run (k (event_step Fine e m1).1) (event_step Fine e m1).2 ap2 h2 own2 a m' →
  env_run (Do e k) m (ap1 ++ ap2) (h1 ++ h2) (own1 ++ own2) a m'.
Proof.
  intros ? <- ?. exists Fine, ap1, h1, m1, ap2, h2, own2. unfold again. rewrite andb_false_r.
  split_and!; try done. by apply reach_env.
Qed.

(** While the replay is open. *)
Record open m S (sn : gset string) bs : Prop := {
  open_stream : stream_is m S;
  open_state : replay_of m = Some {| buffering := true; seen := sn; buf := bs |};
}.

Lemma open_env m S sn bs ap h m' : open m S sn bs → env_step ap h m m' → open m' (changed ap S) sn (bs ++ h).
Proof.
  intros [HS Hst] [Hs Hr]. split; [by apply Hs|]. rewrite Hst in Hr. by apply Hr.
Qed.

(** One command: the process state is as before, and so is the stream if the
    command only reads. *)
Lemma env_run_call {R} (c : rcmd R) m ap h own r m' :
  env_run (call c) m ap h own r m' →
  ∃ ap1 h1 m1 f, reaches (Redis c) m ap1 h1 m1 ∧ f ≠ Resent ∧ ap = ap1 ∧ h = h1 ∧ own = [] ∧
    (r, m'.(srv)) = deliver f (exec c) m1.(srv) ∧ m'.(loc) = m1.(loc).
Proof.
  cbn [call act env_run]. intros (f&ap1&h1&m1&ap2&h2&own2&->&->&->&Henv&Hf&->&->&->&->&->).
  exists ap1, h1, m1, f. rewrite !app_nil_r. split; [done|]. split; [by destruct f|]. cbn. unfold with_srv.
  destruct (deliver f (exec c) (srv m1)) as [r' s]; cbn. rewrite drop_all.
  by split_and!.
Qed.

Definition set_bus (f : bus → bus) (p : process) : process := Proc (f p.(p_bus)) p.(p_hub) p.(p_seq).
Definition set_hub (f : outbox Sub → outbox Sub) (p : process) : process := Proc p.(p_bus) (f p.(p_hub)) p.(p_seq).

Lemma env_run_with_bus f m ap h own u m' :
  env_run (with_bus f) m ap h own u m' →
  ∃ m1, env_step ap h m m1 ∧ own = [] ∧ m' = Mem m1.(srv) (set_bus f m1.(loc)) m1.(clock).
Proof.
  cbn [with_bus local_ act env_run]. intros (g&ap1&h1&m1&ap2&h2&own2&->&->&->&Henv&_&->&->&->&_&->). apply reaches_local in Henv; [|done].
  exists m1. rewrite !app_nil_r. cbn. by rewrite drop_all.
Qed.

Lemma env_run_send frame m ap h own u m' :
  env_run (with_hub (Send sub frame)) m ap h own u m' →
  ∃ m1, env_step ap h m m1 ∧ own = [(sub, frame)] ∧
    m' = Mem m1.(srv) (set_hub (λ l, l ++ [(sub, frame)]) m1.(loc)) m1.(clock).
Proof.
  cbn [with_hub local_ act env_run]. intros (g&ap1&h1&m1&ap2&h2&own2&->&->&->&Henv&_&->&->&->&_&->). apply reaches_local in Henv; [|done].
  exists m1. rewrite !app_nil_r. cbn. by rewrite drop_app_length.
Qed.

Lemma open_set_hub m S sn bs f srv' clock' :
  keys srv' = keys m.(srv) → open m S sn bs → open (Mem srv' (set_hub f m.(loc)) clock') S sn bs.
Proof. intros Hk [[last HS] Hst]. split; [exists last; cbn; by rewrite Hk|done]. Qed.

(** A command that changes no key, sent again and again. *)
Lemma open_reaches {R} (c : rcmd R) m S sn bs ap h m' :
  (∀ s, keys (exec c s).2 = keys s) → open m S sn bs → reaches (Redis c) m ap h m' → open m' (changed ap S) sn (bs ++ h).
Proof.
  intros Hk Hopen Hr. induction Hr as [ap h m' Henv|ap1 h1 m1 ap2 h2 m2 _ _ IH Henv]; [by eapply open_env|].
  rewrite changed_app, (assoc_L (++)). eapply open_env; [|exact Henv]. destruct IH as [[last HS] Hst]. split; [exists last; cbn; by rewrite Hk|done].
Qed.

Lemma env_run_reads {R} (c : rcmd R) m S sn bs ap h own r m' :
  (∀ s, keys (exec c s).2 = keys s) → open m S sn bs → env_run (call c) m ap h own r m' →
  own = [] ∧ open m' (changed ap S) sn (bs ++ h) ∧
  ∀ a, r = Ok a → ∃ s, keys s = keys m'.(srv) ∧ (exec c s).1 = Ok a.
Proof.
  intros Hk Hopen (ap1&h1&m1&f&Henv&Hf&->&->&->&Hd&Hloc)%env_run_call.
  pose proof (open_reaches _ _ _ _ _ _ _ _ Hk Hopen Henv) as [[last HS] Hst].
  assert (keys m'.(srv) = keys m1.(srv)) as Hsame.
  { destruct f; cbn in Hd.
    - by rewrite <- (Hk m1.(srv)), <- Hd.
    - by injection Hd as _ ->.
    - injection Hd as _ ->. apply Hk.
    - done. }
  split; [done|]. split.
  - split; [exists last; by rewrite Hsame|]. unfold replay_of in *. by rewrite Hloc.
  - intros a ->. destruct f; cbn in Hd; [|by simplify_eq..]. exists m1.(srv). by rewrite <- Hd.
Qed.

Lemma xrange_reads k st (s : Srv) : keys (exec (XRANGE k st) s).2 = keys s.
Proof.
  pose proof (law_xrange k st s) as Hl. unfold after in Hl.
  destruct (as_stream (keys s) k) as [[??]|]; [case_match|]; tauto.
Qed.

Lemma xrange_first_reads k (s : Srv) : keys (exec (XRANGE_FIRST k) s).2 = keys s.
Proof.
  pose proof (law_xrange_first k s) as Hl. unfold after in Hl.
  destruct (as_stream (keys s) k) as [[??]|]; tauto.
Qed.

(** ** What the stream gives for a cursor *)

Definition entry_msg (e : sid * string) : bufferedMsg :=
  {| bm_streamID := format_sid e.1; bm_data := raw_of_text e.2 |}.

Lemma newer_entries c S :
  sid_ok c → Forall (λ e, sid_ok e.1) S →
  (λ e : string * string, {| bm_streamID := e.1; bm_data := raw_of_text e.2 |}) <$>
    filter (λ e : string * string, 0 < compareStreamIDs e.1 (format_sid c))
      ((λ p, (format_sid p.1, p.2)) <$> filter (λ p, c.1 ≤ p.1.1) S) =
  entry_msg <$> filter (λ e, sid_lt c e.1) S.
Proof.
  intros Hc HS. rewrite filter_fmap, <- list_fmap_compose. unfold compose, entry_msg; cbn. f_equal.
  induction HS as [|[i d] S Hi _ IH]; [done|].
  assert (0 < compareStreamIDs (format_sid i) (format_sid c) ↔ sid_lt c i) as Hcmp.
  { rewrite <- (position_format_sid c), <- (position_format_sid i) by done. rewrite <- compareStreamIDs_gt.
    rewrite !position_format_sid by done. pose proof (compareStreamIDs_range (format_sid i) (format_sid c)). lia. }
  rewrite !(filter_cons _ (i, d)). cbn [fst snd]. destruct (decide (sid_lt c i)) as [Hlt|Hnl].
  - rewrite decide_True by (unfold sid_lt in Hlt; lia).
    rewrite filter_cons. cbn [fst]. rewrite decide_True by by apply Hcmp. f_equal. exact IH.
  - case_decide; [|done]. rewrite filter_cons. cbn [fst]. rewrite decide_False by (by rewrite Hcmp). done.
Qed.

Lemma replayMessages_run c m S sn bs ap h own msgs tr oldest m' :
  sid_ok c → open m S sn bs → Forall (λ e, sid_ok e.1) S → Forall change_ok ap →
  env_run (replayMessages topic (format_sid c)) m ap h own (Ok (msgs, tr, oldest)) m' →
  own = [] ∧ open m' (changed ap S) sn (bs ++ h) ∧
  ∃ ap1 ap2, ap = ap1 ++ ap2 ∧ msgs = entry_msg <$> filter (λ e, sid_lt c e.1) (changed ap1 S).
Proof.
  intros Hc Hopen Hok Hap. unfold replayMessages, rbind, wrapped. fold streamKey.
  assert (sinceMs (format_sid c) = FormatUint c.1) as Hms.
  { unfold sinceMs. rewrite CutByte_format_sid. by rewrite decide_False by apply FormatUint_nonempty. }
  rewrite Hms.
  intros (r&m1&ap1&ap2&h1&h2&own1&own2&->&->&->&Hx&Hk)%env_run_bind.
  apply env_run_bind in Hx as (r0&m0&ap3&ap4&h3&h4&own3&own4&->&->&->&Hx&(->&->&->&->&->)).
  rewrite !app_nil_r in *.
  destruct (env_run_reads _ _ _ _ _ _ _ _ _ _ (xrange_reads streamKey _) Hopen Hx) as (->&Hopen1&Hr).
  destruct r0 as [l|e]; cbn [wrap_err] in Hk; [|by destruct Hk as (_&_&_&?&_)].
  destruct (Hr l eq_refl) as (s&Hs&Hl).
  assert (l = (λ p, (format_sid p.1, p.2)) <$> filter (λ p, c.1 ≤ p.1.1) (changed ap3 S)) as ->.
  { pose proof (law_xrange streamKey (FormatUint c.1) s) as Hlaw. destruct Hopen1 as [[last HS] _].
    rewrite Hs, HS, ParseUint_FormatUint in Hlaw by (destruct Hc; unfold max_int64, max_uint64 in *; lia).
    unfold after in Hlaw. rewrite Hl in Hlaw. destruct Hlaw as [[= ->] _]. done. }
  rewrite newer_entries in Hk; [|done|].
  2: { apply Forall_app in Hap as [? _]. by apply changed_ok. }
  split_and!.
  - destruct (0 <? _); [|by destruct Hk as (_&_&->&_)].
    apply env_run_bind in Hk as (r&m2&ap5&ap6&h5&h6&own5&own6&->&->&->&Hf&Hk).
    destruct (env_run_reads _ _ _ _ _ _ _ _ _ _ (xrange_first_reads streamKey) Hopen1 Hf) as (->&_&_).
    repeat case_match; by destruct Hk as (_&_&->&_).
  - destruct (0 <? _).
    + apply env_run_bind in Hk as (r&m2&ap5&ap6&h5&h6&own5&own6&->&->&->&Hf&Hk).
      destruct (env_run_reads _ _ _ _ _ _ _ _ _ _ (xrange_first_reads streamKey) Hopen1 Hf) as (_&Hopen2&_).
      rewrite <- changed_app, <- !(assoc_L (++)) in Hopen2.
      repeat case_match; destruct Hk as (->&->&_&_&->); by rewrite !app_nil_r.
    + destruct Hk as (->&->&_&_&->). by rewrite !app_nil_r.
  - exists ap3, ap2. split; [done|].
    destruct (0 <? _); [|by destruct Hk as (_&_&_&[= -> _ _]&_)].
    apply env_run_bind in Hk as (r&m2&ap5&ap6&h5&h6&own5&own6&_&_&_&_&Hk).
    repeat case_match; by destruct Hk as (_&_&_&[= -> _ _]&_).
Qed.

(** ** The two sending loops *)

Definition replay_frame (x : bufferedMsg) : Sub * string :=
  (sub, EncodePublish topic x.(bm_data) x.(bm_streamID) true).
Definition live_frame (x : bufferedMsg) : Sub * string :=
  (sub, EncodePublish topic x.(bm_data) x.(bm_streamID) false).

Lemma replay_loop msgs m S sn bs ap h own u m' :
  open m S sn bs →
  env_run (for_each msgs (λ x,
    bind (mark_seen sub topic x.(bm_streamID)) (λ _,
    with_hub (Send sub (EncodePublish topic x.(bm_data) x.(bm_streamID) true))))) m ap h own u m' →
  own = replay_frame <$> msgs ∧ open m' (changed ap S) (list_to_set (bm_streamID <$> msgs) ∪ sn) (bs ++ h).
Proof.
  revert m S sn bs ap h own. induction msgs as [|x msgs IH]; intros m S sn bs ap h own Hopen Hr.
  { destruct Hr as (->&->&->&_&->). rewrite !app_nil_r. split; [done|]. cbn. by rewrite union_empty_l_L. }
  cbn [for_each] in Hr. apply env_run_bind in Hr as (u1&m1&ap1&ap2&h1&h2&own1&own2&->&->&->&Hx&Hk).
  apply env_run_bind in Hx as (u2&m2&ap3&ap4&h3&h4&own3&own4&->&->&->&Hmark&Hsend).
  apply env_run_with_bus in Hmark as (m3&Henv3&->&->).
  pose proof (open_env _ _ _ _ _ _ _ Hopen Henv3) as [HS3 Hst3].
  apply env_run_send in Hsend as (m4&Henv4&->&->).
  assert (open (Mem (srv m3) (set_bus (λ b, match replay b !! (sub, topic) with
      | Some st => put_replay sub topic {| buffering := buffering st; seen := {[ bm_streamID x ]} ∪ seen st; buf := buf st |} b
      | None => b end) (loc m3)) (clock m3)) (changed ap3 S) ({[ bm_streamID x ]} ∪ sn) (bs ++ h3)) as Hopen3.
  { split; [done|]. unfold replay_of in *. cbn. rewrite Hst3. cbn. by rewrite lookup_insert_eq. }
  pose proof (open_env _ _ _ _ _ _ _ Hopen3 Henv4) as Hopen4.
  apply (open_set_hub _ _ _ _ (λ l, l ++ [replay_frame x]) (srv m4) (clock m4)) in Hopen4; [|done].
  destruct (IH _ _ _ _ _ _ _ Hopen4 Hk) as [-> Hopen'].
  split; [done|]. rewrite <- !(assoc_L (++)) in Hopen'. rewrite <- !(assoc_L (++)), !changed_app in *.
  cbn [fmap list_fmap list_to_set]. rewrite <- (assoc_L (∪)), (union_comm_L {[bm_streamID x]}), <- (assoc_L (∪)).
  by rewrite (union_comm_L sn).
Qed.

Lemma closed_env ap h m m' : replay_of m = None → env_step ap h m m' → replay_of m' = None ∧ h = [].
Proof. intros Hm [_ Hr]. by rewrite Hm in Hr. Qed.

Lemma live_loop msgs m ap h own u m' :
  replay_of m = None →
  env_run (for_each msgs (λ x,
    with_hub (Send sub (EncodePublish topic x.(bm_data) x.(bm_streamID) false)))) m ap h own u m' →
  own = live_frame <$> msgs ∧ h = [] ∧ replay_of m' = None.
Proof.
  revert m ap h own. induction msgs as [|x msgs IH]; intros m ap h own Hm Hr.
  { by destruct Hr as (->&->&->&_&->). }
  cbn [for_each] in Hr. apply env_run_bind in Hr as (u1&m1&ap1&ap2&h1&h2&own1&own2&->&->&->&Hx&Hk).
  apply env_run_send in Hx as (m2&Henv&->&->).
  destruct (closed_env _ _ _ _ Hm Henv) as [Hm2 ->].
  by destruct (IH _ _ _ _ (Hm2 : replay_of (Mem _ (set_hub _ _) _) = None) Hk) as (->&->&?).
Qed.

Lemma env_run_stop m S sn bs ap h own leftover m' :
  open m S sn bs → env_run (stop_buffering sub topic) m ap h own leftover m' →
  own = [] ∧ replay_of m' = None ∧ leftover = filter (λ x, x.(bm_streamID) ∉ sn) (bs ++ h).
Proof.
  cbn [stop_buffering local_ act env_run]. intros Hopen (g&ap1&h1&m1&ap2&h2&own2&->&->&->&Henv&_&->&->&->&->&->). apply reaches_local in Henv; [|done].
  destruct (open_env _ _ _ _ _ _ _ Hopen Henv) as [_ Hst]. rewrite !app_nil_r. cbn. rewrite drop_all.
  unfold replay_of in *. cbn. rewrite Hst, lookup_delete_eq. done.
Qed.

(** [C1] A subscription with [since], run among any publishing to the stream,
    any trimming of it and any fan-out of the process, hands the subscriber
    exactly the entries above the cursor that the stream holds at one moment
    of the call, in order and flagged as replay, followed by every message
    that was fanned out meanwhile and is not among them, in order of arrival.
    So what is published before the cursor is read is
    replayed, what is announced later is buffered, nothing is handed out
    twice, and the replay state is gone at the end. *)
Theorem replay_exact since c m last S ap heard own tr oldest m' :
  parseSinceCursor since = Ok (format_sid c) → sid_ok c →
  as_stream (keys m.(srv)) streamKey = Some (last, S) → Forall (λ e, sid_ok e.1) S → Forall change_ok ap →
  replay_of m = None →
  env_run (SubscribeWithReplay sub topic since) m ap heard own (Ok (tr, oldest)) m' →
  ∃ ap1, ap1 `prefix_of` ap ∧
    let entries := entry_msg <$> filter (λ e, sid_lt c e.1) (changed ap1 S) in
    own = (replay_frame <$> entries) ++
          (live_frame <$> filter (λ x, x.(bm_streamID) ∉ bm_streamID <$> entries) heard) ∧
    replay_of m' = None.
Proof.
  intros Hcur Hc HS Hok Hap Hm Hr. unfold SubscribeWithReplay in Hr. rewrite Hcur in Hr.
  apply env_run_bind in Hr as (u1&m1&ap1&ap2&h1&h2&own1&own2&->&->&->&Hreg&Hr).
  apply env_run_with_bus in Hreg as (m0&Henv0&->&->).
  destruct (closed_env _ _ _ _ Hm Henv0) as [_ ->].
  assert (open (Mem (srv m0) (set_bus (λ b, put_replay sub topic {| buffering := true; seen := ∅; buf := [] |}
    (addLocalSubLocked topic sub b)) (loc m0)) (clock m0)) (changed ap1 S) ∅ []) as Hopen.
  { split; [apply (env_stream _ _ _ _ Henv0); by exists last|]. unfold replay_of. cbn. by rewrite lookup_insert_eq. }
  apply env_run_bind in Hr as (r&m2&ap3&ap4&h3&h4&own3&own4&->&->&->&Hmsgs&Hr).
  destruct r as [[[msgs tr'] oldest']|e].
  2: { apply env_run_bind in Hr as (u2&?&?&?&?&?&?&?&_&_&_&_&Hr). by destruct Hr as (_&_&_&?&_). }
  rewrite !Forall_app in Hap. destruct Hap as (Hap1&Hap3&_).
  destruct (replayMessages_run _ _ _ _ _ _ _ _ _ _ _ _ Hc Hopen (changed_ok _ _ Hok Hap1) Hap3 Hmsgs) as (->&Hopen2&ap5&ap6&->&->).
  apply env_run_bind in Hr as (u2&m3&ap7&ap8&h5&h6&own5&own6&->&->&->&Hloop&Hr).
  destruct (replay_loop _ _ _ _ _ _ _ _ _ _ Hopen2 Hloop) as [-> Hopen3].
  apply env_run_bind in Hr as (left&m4&ap9&ap10&h7&h8&own7&own8&->&->&->&Hstop&Hr).
  destruct (env_run_stop _ _ _ _ _ _ _ _ _ Hopen3 Hstop) as (->&Hnone&->).
  apply env_run_bind in Hr as (u4&m5&ap11&ap12&h9&h10&own9&own10&->&->&->&Hlive&(->&->&->&_&->)).
  destruct (live_loop _ _ _ _ _ _ _ Hnone Hlive) as (->&->&Hnone').
  exists (ap1 ++ ap5). split; [|split; [|done]].
  { rewrite <- !(assoc_L (++)). by apply prefix_app, prefix_app_r. }
  rewrite !app_nil_r. cbn [app]. rewrite changed_app. f_equal. f_equal.
  rewrite <- (assoc_L (++)). apply list_filter_iff. intros x. rewrite union_empty_r_L. set_solver.
Qed.
End replay.
