(* ===== verification/Trim.v ===== *)
(** * Trimmed history (bus/bus.go, [trimAllStreams], [replayMessages])

    The streams are cut by age in a loop of every instance and by length at
    every append.  What the trim removes, and when a client that catches up
    is told that something it missed is gone. *)

From S2P Require Import Prelude GoStrings Redis RedisModel Prog Time StreamID Json Protocol Judge RateLimit Bus Replay.
Local Open Scope Z_scope.
Local Open Scope prog_scope.

(** ** One pass over the streams *)

(** [runTrimLoop]: the period in ns. *)
Definition trim_period (StreamTTL : Z) : Z :=
  let period := Z.quot StreamTTL 4 in if period <? 60000000000 then 60000000000 else period.

(** What is left of an entry of the keyspace. *)
Definition trimmed (cutoff : Z) (e : entry) : entry :=
  match e.(e_val) with
  | RStream last es => Entry (RStream last (filter (λ p, ¬ sid_lt p.1 (cutoff, 0)) es)) e.(e_ttl)
  | _ => e
  end.

Lemma trimmed_again c e : trimmed c (trimmed c e) = trimmed c e.
Proof. destruct e as [[] ttl]; cbn; try done. unfold trimmed. cbn. do 2 f_equal. rewrite list_filter_filter. apply list_filter_iff. tauto. Qed.

Section trim.
Context `{RedisServer Srv} `{!RedisLaws Srv} {Sub : Type} `{Countable Sub} {Hub : Type}.
Abbreviation process := (proc (Sub := Sub) (Hub := Hub)).
Context (cfg : Config).
Implicit Types (m : mem Srv process).

Lemma xtrim_trims k c (s : Srv) : 0 ≤ c →
  (∀ k', keys (exec (XTRIM_MINID k (c, 0)) s).2 !! k' =
     if decide (k' = k) then trimmed c <$> keys s !! k else keys s !! k') ∧
  pubs (exec (XTRIM_MINID k (c, 0)) s).2 = pubs s.
Proof.
  intros Hc. pose proof (law_xtrim_minid k (c, 0) s) as Hl. unfold as_stream in Hl.
  destruct (keys s !! k) as [[v ttl]|] eqn:Hk.
  - destruct v as [| | |last es]; cbn [e_val] in Hl.
    1-3: destruct Hl as (_&->&->); split; [|done]; intros k'; destruct (decide (k' = k)) as [->|]; by rewrite ?Hk.
    unfold after in Hl. destruct Hl as [-> ->]. split; [|done]. rewrite decide_False by (cbn; intros [|]; [done|lia]).
    intros k'. unfold put_stream. destruct (decide (k' = k)) as [->|Hne]; [|by rewrite lookup_insert_ne].
    rewrite lookup_insert_eq. unfold ttl_of. by rewrite Hk.
  - unfold after in Hl. destruct Hl as [-> ->]. split; [|done]. rewrite decide_True by by left.
    intros k'. destruct (decide (k' = k)) as [->|]; by rewrite ?Hk.
Qed.

Lemma trim_loop c ks m : 0 ≤ c →
  wp0 (for_each ks (λ k, bind (call (XTRIM_MINID k (c, 0))) (λ _, Ret ()))) (λ _ m',
    m'.(loc) = m.(loc) ∧ pubs m'.(srv) = pubs m.(srv) ∧
    ∀ k, keys m'.(srv) !! k = if decide (k ∈ ks) then trimmed c <$> keys m.(srv) !! k else keys m.(srv) !! k) m.
Proof.
  intros Hc. revert m. induction ks as [|k ks IH]; intros m; cbn [for_each].
  { cbn. split_and!; [done|done|]. intros k. by rewrite decide_False by apply not_elem_of_nil. }
  apply wp0_bind, wp0_bind, wp0_call. destruct (xtrim_trims k c m.(srv) Hc) as [Ht Hp].
  destruct (exec (XTRIM_MINID k (c, 0)) (srv m)) as [r s]. cbn [wp0 snd] in *.
  eapply wp0_mono; [apply IH|]. intros u m' (Hl & Hp' & Hk). cbn [srv loc] in *. split_and!; [done|congruence|].
  intros k'. rewrite Hk, Ht. destruct (decide (k' = k)) as [->|Hne].
  - rewrite (decide_True (P := k ∈ k :: ks)) by by left. destruct (decide (k ∈ ks)); [|done].
    destruct (keys (srv m) !! k); cbn; [by rewrite trimmed_again|done].
  - destruct (decide (k' ∈ ks)); [rewrite decide_True by by right|rewrite decide_False by (intros [?|?]%elem_of_cons; done)]; done.
Qed.

(** [C24] A pass of the trim loop removes from every topic's stream exactly the entries older than the retention time,
    and touches nothing else. *)
Theorem trimAllStreams_exact m :
  let cutoff := UnixMilli (of_UnixMilli m.(clock) - cfg.(StreamTTL)) in
  0 ≤ cutoff →
  wp0 (trimAllStreams cfg) (λ _ m', m'.(loc) = m.(loc) ∧ pubs m'.(srv) = pubs m.(srv) ∧
    ∀ k, keys m'.(srv) !! k =
      if HasPrefix k streamKeyPrefix then trimmed cutoff <$> keys m.(srv) !! k else keys m.(srv) !! k) m.
Proof.
  intros cutoff Hc. unfold trimAllStreams. apply wp0_bind. cbn [now act wp0 event_step]. fold cutoff.
  wp0_next Hs. destruct Hs as ((l & -> & Hin) & Hk & Hp).
  eapply wp0_mono; [by apply trim_loop|]. intros u m' (Hl & Hp' & Hm). cbn [srv loc] in *. split_and!; [done|congruence|].
  intros k. rewrite Hm, Hk. destruct (decide (k ∈ l)) as [Hkl|Hkl].
  - apply Hin in Hkl as [_ ->]. done.
  - destruct (HasPrefix k streamKeyPrefix) eqn:Hpre; [|done]. destruct (keys (srv m) !! k) eqn:E; [|done].
    destruct Hkl. apply Hin. rewrite E. eauto.
Qed.
End trim.

(** ** Being told of a gap *)

Section gaps.
Context `{RedisServer Srv} `{!RedisLaws Srv} {Sub : Type} `{Countable Sub} `{!Identify Sub} `{!GoQuote}.
Abbreviation process := (proc (Sub := Sub) (Hub := outbox Sub)).
Implicit Types (m : mem Srv process) (es : list (sid * string)).

Lemma sinceMs_format_sid (c : sid) : sinceMs (format_sid c) = FormatUint c.1.
Proof. unfold sinceMs. rewrite CutByte_format_sid. by rewrite decide_False by apply FormatUint_nonempty. Qed.

(** After the history has been read: whether anything is missing before it. *)
Definition second_read (topic : string) (c : sid) (out : list bufferedMsg) : prog process (result (list bufferedMsg * bool * string)) :=
  bind (call (XRANGE_FIRST (streamKeyPrefix +:+ topic))) (λ r,
    match r with
    | Ok (Some (oldest, _)) =>
        if compareStreamIDs (format_sid c) oldest <? 0 then Ret (Ok (out, true, oldest)) else Ret (Ok (out, false, ""))
    | _ => Ret (Ok (out, false, ""))
    end).

Lemma first_read topic c m last es :
  sid_ok c → 0 < c.1 → Forall (λ e, sid_ok e.1) es → as_stream (keys m.(srv)) (streamKeyPrefix +:+ topic) = Some (last, es) →
  (prog_step Fine (replayMessages topic (format_sid c)) m).1 =
    second_read topic c (entry_msg <$> filter (λ e, sid_lt c e.1) es).
Proof.
  intros Hc Hpos Hes Hs. unfold replayMessages, rbind, wrapped. rewrite sinceMs_format_sid.
  pose proof (law_xrange (streamKeyPrefix +:+ topic) (FormatUint c.1) m.(srv)) as Hl. destruct Hc as [Hc1 Hc2].
  rewrite Hs, ParseUint_FormatUint in Hl by (unfold max_int64, max_uint64 in *; lia). destruct Hl as [Hr _].
  cbn [call act bind prog_step event_step]. unfold with_srv. cbn [deliver].
  destruct (exec _ (srv m)) as [r s]. cbn [fst snd] in *. subst r. cbn [again is_remote wrap_err bind fst andb].
  rewrite newer_entries by done. rewrite ParseInt_FormatUint by (unfold max_int64 in *; lia). cbn [fst].
  by rewrite (proj2 (Z.ltb_lt _ _)).
Qed.

Lemma compare_format_lt (c i : sid) : sid_ok c → sid_ok i →
  (compareStreamIDs (format_sid c) (format_sid i) <? 0) = bool_decide (sid_lt c i).
Proof.
  intros Hc Hi. pose proof (compareStreamIDs_range (format_sid c) (format_sid i)) as Hrange.
  pose proof (compareStreamIDs_lt (format_sid c) (format_sid i)) as Hlt. rewrite !position_format_sid in Hlt by done.
  case_bool_decide; [apply Z.ltb_lt|apply Z.ltb_ge]; destruct (decide (compareStreamIDs (format_sid c) (format_sid i) = -1)); intuition lia.
Qed.

Lemma second_read_step topic c out m last es :
  sid_ok c → Forall (λ e, sid_ok e.1) es → as_stream (keys m.(srv)) (streamKeyPrefix +:+ topic) = Some (last, es) →
  (prog_step Fine (second_read topic c out) m).1 =
    Ret (Ok (match es with
             | e :: _ => if decide (sid_lt c e.1) then (out, true, format_sid e.1) else (out, false, "")
             | [] => (out, false, "")
             end)).
Proof.
  intros Hc Hes Hs. pose proof (law_xrange_first (streamKeyPrefix +:+ topic) m.(srv)) as Hl. rewrite Hs in Hl. destruct Hl as [Hr _].
  unfold second_read. cbn [call act bind prog_step event_step]. unfold with_srv. cbn [deliver].
  destruct (exec _ (srv m)) as [r s]. cbn [fst snd] in *. subst r. cbn [again is_remote bind fst andb].
  destruct es as [|[i d] es]; [done|]. cbn [head fmap option_fmap option_map fst]. inversion Hes as [|?? Hi _]; subst. cbn in Hi.
  rewrite compare_format_lt by done.
  cbn [fst]. by destruct (bool_decide_reflect (sid_lt c i)), (decide (sid_lt c i)).
Qed.

(** A second read that fails is taken for no gap. *)
Lemma failed_check_unflagged topic c out : ∃ k,
  second_read topic c out = Do (Redis (XRANGE_FIRST (streamKeyPrefix +:+ topic))) k ∧ ∀ e, k (Err e) = Ret (Ok (out, false, "")).
Proof. by eexists. Qed.

(** The trim loop is part of the environment [replay_exact] allows: in a
    stream in order, what is older than the cutoff is at the front. *)
Lemma younger_suffix c es : StronglySorted sid_lt es.*1 → ∃ n, filter (λ p, ¬ sid_lt p.1 c) es = drop n es.
Proof.
  induction es as [|e es IH]; intros Hs; [by exists 0%nat|]. rewrite fmap_cons in Hs. inversion Hs as [|?? Hs' Hall]; subst.
  destruct (decide (sid_lt e.1 c)) as [Hlt|Hge].
  - rewrite filter_cons_False by tauto. destruct (IH Hs') as [n ->]. by exists (S n).
  - exists 0%nat. rewrite filter_cons_True by done. cbn [drop]. f_equal. apply filter_all, Forall_forall. intros x Hx Hlt. apply Hge.
    eapply sid_lt_trans; [|exact Hlt]. rewrite Forall_forall in Hall. apply Hall. by apply list_elem_of_fmap_2.
Qed.

Lemma trim_is_environment sub topic c m last es :
  0 ≤ c → as_stream (keys m.(srv)) (streamKeyPrefix +:+ topic) = Some (last, es) → StronglySorted sid_lt es.*1 →
  wp0 (call (XTRIM_MINID (streamKeyPrefix +:+ topic) (c, 0))) (λ _ m', ∃ n, env_step sub topic (replicate n Evicted) [] m m') m.
Proof.
  intros Hc Hs Hsort. apply wp0_call. pose proof (xtrim_trims (streamKeyPrefix +:+ topic) c m.(srv) Hc) as [Hk _].
  destruct (exec _ (srv m)) as [r s]. cbn [fst snd] in *. destruct (younger_suffix (c, 0) es Hsort) as [n Hn]. exists n.
  eapply env_elsewhere; [by exists last|done|]. rewrite changed_evicted, <- Hn. exists last.
  unfold streamKey, as_stream in *. cbn [srv]. rewrite Hk, decide_True by done.
  destruct (keys (srv m) !! _) as [[[] ttl]|]; cbn in *; by simplify_eq.
Qed.

Lemma older_not_newer c (old later : list (sid * string)) e :
  StronglySorted sid_lt (old ++ later).*1 → e ∈ later → ¬ sid_lt c e.1 → filter (λ e, sid_lt c e.1) old = [].
Proof.
  intros Hs He Hc. apply filter_none, Forall_forall. intros x Hx Hlt. apply Hc. eapply sid_lt_trans; [exact Hlt|].
  rewrite fmap_app in Hs. apply (StronglySorted_app_1_elem_of _ _ _ _ _ Hs); by apply list_elem_of_fmap_2.
Qed.

(** [C3] No silent gap.  A client catches up from a cursor above the first millisecond while the stream is appended to
    and trimmed, before and between the two reads, both of which succeed: it gets what the stream held after the
    cursor at the first read, in order; if a message after its cursor had been trimmed before that and anything is
    left at the second read, the reply says so; and when it says so it names the oldest entry left, which is above the
    cursor. *)
Theorem gaps_are_flagged topic c m1 m2 old es ap n last1 last2 :
  sid_ok c → 0 < c.1 → Forall (λ e, sid_ok e.1) (es ++ ap) → StronglySorted sid_lt (old ++ es ++ ap).*1 →
  as_stream (keys m1.(srv)) (streamKeyPrefix +:+ topic) = Some (last1, es) →
  as_stream (keys m2.(srv)) (streamKeyPrefix +:+ topic) = Some (last2, drop n (es ++ ap)) →
  let missed := filter (λ e, sid_lt c e.1) old in
  let p := (prog_step Fine (replayMessages topic (format_sid c)) m1).1 in
  ∃ truncated oldest,
    (prog_step Fine p m2).1 = Ret (Ok (entry_msg <$> filter (λ e, sid_lt c e.1) es, truncated, oldest)) ∧
    (missed ≠ [] → drop n (es ++ ap) ≠ [] → truncated = true) ∧
    (truncated = true → ∃ e rest, drop n (es ++ ap) = e :: rest ∧ oldest = format_sid e.1 ∧ sid_lt c e.1).
Proof.
  intros Hc Hpos Hok Hs Ha Hb missed p. pose proof (proj1 (proj1 (Forall_app _ _ _) Hok)) as Hes.
  unfold p. erewrite first_read by done. rewrite (second_read_step topic c _ m2 last2 (drop n (es ++ ap)) Hc (Forall_drop _ _ _ Hok) Hb).
  destruct (drop n (es ++ ap)) as [|e rest] eqn:E; [by eexists _, _|].
  destruct (decide (sid_lt c e.1)) as [Hlt|Hge]; eexists _, _; (split; [done|]); (split; [|]); [done|by eauto|intros Hm _|done].
  destruct Hm. apply (older_not_newer c old (es ++ ap) e); [done| |done].
  rewrite <- (take_drop n (es ++ ap)), E. apply elem_of_app. right. by left.
Qed.
End gaps.
