(* ===== verification/Fanout.v ===== *)
(** * Who receives a published message

    The fan-out of one announcement, from the payload on the channel to the
    frames handed to subscribers, and the publish that made the payload. *)

From S2P Require Import Prelude GoStrings Redis RedisModel Prog Time StreamID Json Protocol Judge RateLimit Bus BusInv Replay.
Local Open Scope Z_scope.
Local Open Scope prog_scope.

(** ** Payload round trips *)

(** The announcement as received: its data compacted. *)
Definition received (p : wireTopicPayload) (d : json) : wireTopicPayload :=
  {| w_StreamID := p.(w_StreamID); w_Data := Raw d; w_ReportTo := p.(w_ReportTo);
     w_Recipients := p.(w_Recipients) |}.

(** An announcement survives the wire: in particular a recipient list
    that is nil, "every subscriber", and one that is empty, "nobody", stay
    apart. *)
Lemma unmarshal_marshal_topic p d :
  raw_wf p.(w_Data) = true → raw_value p.(w_Data) = Some d →
  unmarshal_topic (marshal_topic p) = Some (received p d).
Proof.
  intros Hw Hd. pose proof (raw_value_wf _ _ Hw Hd) as Hwd. destruct p as [id data rep recs].
  unfold marshal_topic, unmarshal_topic; cbn [w_Data w_StreamID w_ReportTo w_Recipients] in *. rewrite Hd.
  rewrite parse_print.
  2: { rewrite wf_obj, !forallb_app. cbn [forallb fst snd]. unfold key. rewrite !quote_ok, !wf_jstring, Hwd.
       unfold omit, key. case_bool_decide; cbn [forallb fst snd]; rewrite ?quote_ok, ?wf_jstring;
         destruct recs; rewrite ?wf_strings; done. }
  cbn [mbind option_bind]. unfold omit, unmarshal_struct, topic_fields.
  case_bool_decide as Hs; destruct recs; cbn [app]; decode_fields; unfold received; cbn; by subst.
Qed.

(** ** Publishing *)

Section publish.
Context `{RedisServer Srv} `{!RedisLaws Srv} {Sub : Type} `{Countable Sub} {Hub : Type} `{!Target Sub Hub} `{!GoQuote}.
Implicit Types (m : mem Srv (proc (Sub := Sub) (Hub := Hub))).

(** How many of the oldest entries of a stream that came to hold [L] may have
    been dropped: none, or as many as leave [MAXLEN] of them. *)
Definition capped (maxlen : Z) (n : nat) (L : list (sid * string)) : Prop :=
  n = 0%nat ∨ 0 < maxlen ∧ maxlen + Z.of_nat n ≤ Z.of_nat (length L).

Lemma capped_le maxlen n S e : capped maxlen n (S ++ [e]) → (n ≤ length S)%nat.
Proof. unfold capped. rewrite length_app. cbn. intros [->|[? ?]]; lia. Qed.

(** A publish that found the topic's stream. *)
Lemma PublishTopic_wp cfg topic data rep m last S d :
  raw_value data = Some d →
  as_stream (keys m.(srv)) (streamKey topic) = Some (last, S) →
  let recipients := judge cfg.(cfg_Judge) cfg.(cfg_Candidates) cfg.(JudgeFailurePolicy) topic data in
  wp0 (PublishTopic cfg topic data rep) (λ r m', ∃ i n,
    r = Ok (format_sid i) ∧ sid_lt last i ∧ 0 ≤ i.1 ∧ 0 ≤ i.2 ∧
    as_stream (keys m'.(srv)) (streamKey topic) = Some (i, drop n (S ++ [(i, stream_text data)])) ∧
    capped cfg.(StreamMaxLength) n (S ++ [(i, stream_text data)]) ∧
    pubs m'.(srv) = pubs m.(srv) ++ [(topicChannelPrefix +:+ topic,
      marshal_topic {| w_StreamID := format_sid i; w_Data := data; w_ReportTo := rep; w_Recipients := recipients |})] ∧
    m'.(loc) = m.(loc)) m.
Proof.
  intros Hd HS recipients. unfold PublishTopic. cbv zeta. fold recipients. fold (streamKey topic).
  wp0_next Ha. rewrite HS in Ha. destruct Ha as (i&n&->&Hlt&?&?&Hn&Hk&Hp). cbn [wrap_err].
  wp0_next Hb. cbn [srv] in Hb. destruct Hb as (Hok&Hk3&Hp3). destruct r as [|]; [|done].
  cbn. exists i, n. split_and!; try done.
  - rewrite Hk3, Hk. unfold as_stream, put_stream. by rewrite lookup_insert_eq.
  - unfold capped. rewrite length_app. cbn. lia.
  - by rewrite Hp3, Hp.
Qed.
End publish.

Section fanout.
Context `{RedisServer Srv} `{!RedisLaws Srv} {Sub : Type} `{Countable Sub} `{!Identify Sub} `{!GoQuote}.
Abbreviation process := (proc (Sub := Sub) (Hub := outbox Sub)).
Abbreviation registry := (bus (Sub := Sub)).
Implicit Types (m : mem Srv process) (topic : string) (s : Sub) (b : registry).

Definition is_buffering b s topic : bool :=
  match b.(replay) !! (s, topic) with Some st => st.(buffering) | None => false end.

Definition allowed_by (recipients : option (list string)) s : bool :=
  allowedSubscriber (Hub := outbox Sub) (list_to_set <$> recipients) s.

(** Who gets it live, and who is left out by the recipient list. *)
Definition live_to b topic (recipients : option (list string)) (subs : list Sub) : list Sub :=
  filter (λ s, is_buffering b s topic = false ∧ allowed_by recipients s = true) subs.
Definition left_out b topic (recipients : option (list string)) (subs : list Sub) : list Sub :=
  filter (λ s, is_buffering b s topic = false ∧ allowed_by recipients s = false) subs.

Definition with_msg (st : replayState) (x : bufferedMsg) : replayState :=
  {| buffering := true; seen := st.(seen); buf := st.(buf) ++ [x] |}.

Lemma fanout_locked_spec topic p subs b :
  NoDup subs →
  let '(deliver, filtered, b') := fanout_locked (Hub := outbox Sub) topic p (list_to_set <$> p.(w_Recipients)) subs b in
  deliver = live_to b topic p.(w_Recipients) subs ∧
  filtered = Z.of_nat (length (left_out b topic p.(w_Recipients) subs)) ∧
  b'.(topicSubs) = b.(topicSubs) ∧ b'.(gauge) = b.(gauge) ∧
  ∀ s t, b'.(replay) !! (s, t) =
    if decide (s ∈ subs ∧ t = topic ∧ is_buffering b s topic = true)
    then (λ st, with_msg st {| bm_streamID := p.(w_StreamID); bm_data := p.(w_Data) |}) <$> b.(replay) !! (s, t)
    else b.(replay) !! (s, t).
Proof.
  revert b. induction subs as [|s0 subs IH]; intros b Hnd; cbn [fanout_locked].
  { by split_and!. }
  apply NoDup_cons in Hnd as [Hnin Hnd].
  unfold live_to, left_out. rewrite !filter_cons. fold (allowed_by p.(w_Recipients) s0).
  destruct (is_buffering b s0 topic) eqn:Hb.
  - unfold is_buffering in Hb. destruct (replay b !! (s0, topic)) as [st|] eqn:Hst; [|done]. rewrite Hb.
    rewrite !decide_False by naive_solver.
    match goal with |- context [fanout_locked _ _ _ _ ?x] => set (b1 := x) end.
    specialize (IH b1 Hnd).
    assert (∀ s, s ∈ subs → is_buffering b1 s topic = is_buffering b s topic) as Hsame.
    { intros s Hs. unfold is_buffering, b1; cbn. rewrite lookup_insert_ne; [done|]. intros [= ->]. done. }
    destruct (fanout_locked _ _ _ _ _) as [[deliver filtered] b']. destruct IH as (->&->&->&->&Hrep).
    split_and!; [| |done|done|].
    + apply filter_ext_in. intros s Hs. by rewrite Hsame.
    + do 2 f_equal. apply filter_ext_in. intros s Hs. by rewrite Hsame.
    + intros s t. rewrite Hrep. destruct (decide (s = s0 ∧ t = topic)) as [[-> ->]|Hne].
      * rewrite decide_False by naive_solver. rewrite decide_True by (split_and!; [by left|done|];
          unfold is_buffering; by rewrite Hst). unfold b1; cbn [replay]. by rewrite lookup_insert_eq, Hst.
      * assert (replay b1 !! (s, t) = replay b !! (s, t)) as ->.
        { unfold b1; cbn [replay]. apply lookup_insert_ne. intros [= -> ->]. naive_solver. }
        destruct (decide (s ∈ subs ∧ t = topic ∧ is_buffering b1 s topic = true)) as [(Hs&->&Hb1)|Hn1].
        -- rewrite decide_True; [done|]. split_and!; [by right|done|]. by rewrite <- Hsame.
        -- rewrite decide_False; [done|]. intros ([->|Hs]%elem_of_cons&->&Hb2); [naive_solver|].
           apply Hn1. split_and!; [done|done|]. by rewrite Hsame.
  - specialize (IH b Hnd).
    match goal with |- match ?M with _ => _ end => assert (M =
      let '(deliver, filtered, b') := fanout_locked (Hub := outbox Sub) topic p (list_to_set <$> w_Recipients p) subs b in
      if allowed_by p.(w_Recipients) s0 then (s0 :: deliver, filtered, b') else (deliver, filtered + 1, b')) as -> end.
    { unfold is_buffering in Hb. case_match; [by rewrite Hb|done]. }
    destruct (fanout_locked _ _ _ _ _) as [[deliver filtered] b'].
    destruct IH as (->&->&HS&Hg&Hrep).
    assert (∀ s t, b'.(replay) !! (s, t) =
      if decide (s ∈ s0 :: subs ∧ t = topic ∧ is_buffering b s topic = true)
      then (λ st, with_msg st {| bm_streamID := p.(w_StreamID); bm_data := p.(w_Data) |}) <$> b.(replay) !! (s, t)
      else b.(replay) !! (s, t)) as Hrep'.
    { intros s t. rewrite Hrep. assert (s = s0 → is_buffering b s topic ≠ true) by (intros ->; by rewrite Hb).
      repeat case_decide; set_solver. }
    destruct (allowed_by _ s0) eqn:Hal.
    + rewrite decide_True by done. rewrite decide_False by naive_solver. done.
    + rewrite decide_False by naive_solver. rewrite decide_True by done. split_and!; try done. cbn [length]. unfold left_out. lia.
Qed.

(** ** One announcement on one instance *)

Definition live_frames topic (d : json) (id : string) (subs : list Sub) : outbox Sub :=
  (λ s, (s, EncodePublish topic (Raw d) id false)) <$> subs.

Lemma deliver_frames_wp reporting frame subs i j m :
  wp0 (deliver_frames reporting frame subs i j) (λ r m',
    r = (i + Z.of_nat (length subs), j) ∧
    m' = Mem m.(srv) (Proc m.(loc).(p_bus) (m.(loc).(p_hub) ++ ((λ s, (s, frame)) <$> subs)) m.(loc).(p_seq))
           m.(clock)) m.
Proof.
  revert i m. induction subs as [|s subs IH]; intros i m.
  { cbn. rewrite app_nil_r, Z.add_0_r. by destruct m as [? [] ?]. }
  assert (wp0 (bind (with_hub (Send s frame)) (λ _, deliver_frames reporting frame subs (i + 1) j)) (λ r m',
    r = (i + Z.of_nat (length (s :: subs)), j) ∧
    m' = Mem m.(srv) (Proc m.(loc).(p_bus) (m.(loc).(p_hub) ++ ((λ s, (s, frame)) <$> s :: subs)) m.(loc).(p_seq))
           m.(clock)) m) as Hplain.
  { apply wp0_bind. cbn. eapply wp0_mono; [apply IH|]. intros r m' [-> ->]. cbn.
    rewrite <- (assoc_L (++)). split; [f_equal; lia|done]. }
  by destruct reporting.
Qed.

(** The report of one fan-out. *)
Definition report_of (cfg : Config) topic (p : wireTopicPayload) (delivered filtered : nat) : list (string * string) :=
  if bool_decide (delivered ≠ 0%nat ∧ p.(w_ReportTo) ≠ "") then
    [(reportChannelPrefix +:+ p.(w_ReportTo),
      marshal_report {| r_Topic := topic; r_StreamID := p.(w_StreamID); r_Delivered := Z.of_nat delivered;
        r_Dropped := 0; r_Filtered := Z.of_nat filtered; r_Instance := cfg.(InstanceID) |})]
  else [].

(** The local effect of an announcement: live frames, and a copy in the buffer
    of every replay under way on the topic. *)
Definition announced topic (p : wireTopicPayload) (d : json) m m' : Prop :=
  let b := m.(loc).(p_bus) in let subs := elements (subscribers b topic) in
  m'.(loc).(p_hub) =
    m.(loc).(p_hub) ++ live_frames topic d p.(w_StreamID) (live_to b topic p.(w_Recipients) subs) ∧
  m'.(loc).(p_bus).(topicSubs) = b.(topicSubs) ∧
  keys m'.(srv) = keys m.(srv) ∧
  ∀ s t, m'.(loc).(p_bus).(replay) !! (s, t) =
    if decide (s ∈ subscribers b topic ∧ t = topic ∧ is_buffering b s topic = true)
    then (λ st, with_msg st {| bm_streamID := p.(w_StreamID); bm_data := Raw d |}) <$> b.(replay) !! (s, t)
    else b.(replay) !! (s, t).

Lemma handleTopic_wp cfg topic p d m :
  raw_wf p.(w_Data) = true → raw_value p.(w_Data) = Some d →
  wp0 (handleTopic cfg topic (marshal_topic p)) (λ _ m',
    announced topic p d m m' ∧
    pubs m'.(srv) = pubs m.(srv) ++
      report_of cfg topic p
        (length (live_to m.(loc).(p_bus) topic p.(w_Recipients) (elements (subscribers m.(loc).(p_bus) topic))))
        (length (left_out m.(loc).(p_bus) topic p.(w_Recipients) (elements (subscribers m.(loc).(p_bus) topic))))) m.
Proof.
  intros Hw Hd. unfold handleTopic. rewrite (unmarshal_marshal_topic p d) by done.
  apply wp0_bind. cbn [local_ act wp0 event_step].
  pose proof (fanout_locked_spec topic (received p d) (elements (subscribers m.(loc).(p_bus) topic)) m.(loc).(p_bus)
    (NoDup_elements _)) as Hf.
  destruct (fanout_locked _ _ _ _ _) as [[deliver filtered] b']. destruct Hf as (->&->&HS&_&Hrep).
  cbn [w_Recipients received] in *. set (subs := elements _) in *.
  assert (∀ h (sv : Srv), keys sv = keys m.(srv) →
    h = p_hub (loc m) ++ live_frames topic d (w_StreamID p) (live_to (p_bus (loc m)) topic (w_Recipients p) subs) →
    announced topic p d m (Mem sv (Proc b' h (p_seq (loc m))) (clock m))) as Hann.
  { intros h sv Hk ->. split_and!; cbn; [done|done|done|]. intros s t. rewrite Hrep. unfold subs.
    apply decide_ext. by rewrite elem_of_elements. }
  case_bool_decide as Hnil; cbn [wp0].
  - split.
    { apply Hann; [done|]. rewrite Hnil. cbn. by rewrite app_nil_r. }
    rewrite Hnil. cbn [length srv].
    unfold report_of. rewrite bool_decide_false, app_nil_r; [done|]. intros [? _]. done.
  - apply wp0_bind. eapply wp0_mono; [apply deliver_frames_wp|]. intros [i j] m1 [[= -> ->] ->]. cbn [srv loc clock p_bus p_hub p_seq].
    unfold report_of. case_bool_decide as Hrep'.
    + rewrite bool_decide_true.
      2: { split; [|done]. by destruct (live_to _ _ _ _). }
      unfold sendReport. cbn zeta. apply wp0_bind, wp0_call. cbn [srv loc clock]. cbn [w_ReportTo received w_StreamID] in *.
      match goal with |- context [exec ?c ?s] => pose proof (law_publish (reportChannelPrefix +:+ w_ReportTo p)
        (marshal_report {| r_Topic := topic; r_StreamID := w_StreamID p;
           r_Delivered := 0 + Z.of_nat (length (live_to (p_bus (loc m)) topic (w_Recipients p) subs)); r_Dropped := 0;
           r_Filtered := Z.of_nat (length (left_out (p_bus (loc m)) topic (w_Recipients p) subs));
           r_Instance := InstanceID cfg |}) s) as Hl; unfold after in Hl; destruct (exec c s) as [r s'] end.
      cbn [fst snd] in Hl. destruct Hl as (_&Hk&Hp). cbn. split; [by apply Hann|]. by rewrite Hp.
    + rewrite bool_decide_false by naive_solver. cbn. rewrite app_nil_r. split; [by apply Hann|done].
Qed.

(** ** From a publish to its deliveries *)

(** [C6] On a faultless network a publish succeeds and appends exactly one entry to what the topic's stream held, save
    the oldest entries beyond [MAXLEN], and puts one announcement on the channel; and every instance that dispatches
    the announcement, whatever its state, hands the message to exactly its subscribers of the topic that the
    publisher's one judgement lets through and that are not in the middle of a replay, and buffers it for those that
    are. *)
Theorem publish_delivers cfg cfg' topic data rep m last S d :
  raw_wf data = true → raw_value data = Some d →
  as_stream (keys m.(srv)) (streamKey topic) = Some (last, S) →
  wp0 (PublishTopic cfg topic data rep) (λ r m', ∃ i payload n,
    r = Ok (format_sid i) ∧ sid_lt last i ∧ capped cfg.(StreamMaxLength) n (S ++ [(i, stream_text data)]) ∧
    as_stream (keys m'.(srv)) (streamKey topic) = Some (i, drop n S ++ [(i, stream_text data)]) ∧
    pubs m'.(srv) = pubs m.(srv) ++ [(topicChannelPrefix +:+ topic, payload)] ∧
    ∀ m2, wp0 (dispatch cfg' (topicChannelPrefix +:+ topic) payload) (λ _ m3,
      announced topic
        {| w_StreamID := format_sid i; w_Data := data; w_ReportTo := rep;
           w_Recipients := judge cfg.(cfg_Judge) cfg.(cfg_Candidates) cfg.(JudgeFailurePolicy) topic data |}
        d m2 m3) m2) m.
Proof.
  intros Hw Hd HS. eapply wp0_mono; [by eapply PublishTopic_wp|].
  intros r m' (i&n&->&Hlt&_&_&Hs&Hn&Hp&_).
  eexists i, _, n. split_and!; [done|done|exact Hn| |exact Hp|].
  - rewrite Hs. by rewrite drop_app_le by by eapply capped_le.
  - intros m2. unfold dispatch. rewrite CutPrefix_app.
    eapply wp0_mono; [by apply handleTopic_wp|]. by intros ? ? [? _].
Qed.

(** A subscription from the beginning of a one-entry stream. *)
Lemma subscribe_one sub topic i text m :
  sid_ok i → sid_lt (0, 0) i →
  as_stream (keys m.(srv)) (streamKey topic) = Some (i, [(i, text)]) →
  wp0 (SubscribeWithReplay sub topic "0-0") (λ r m',
    r = Ok (false, "") ∧
    m'.(loc).(p_hub) = m.(loc).(p_hub) ++ [(sub, EncodePublish topic (raw_of_text text) (format_sid i) true)]) m.
Proof.
  intros Hi Hpos HS. unfold SubscribeWithReplay.
  change (parseSinceCursor "0-0") with (Ok "0-0"). cbv beta iota.
  apply wp0_bind. cbn [register with_bus local_ act wp0 event_step].
  apply wp0_bind. unfold replayMessages. fold (streamKey topic).
  change (sinceMs "0-0") with "0". change (0 <? (ParseInt "0").1) with false. cbv iota.
  wp0_next Hx. cbn [srv] in Hx. rewrite HS in Hx. change (ParseUint "0") with (NumOk 0) in Hx.
  destruct Hx as (->&Hk&_). cbn [wrap_err wp0].
  pose proof (newer_entries (0, 0) [(i, text)]) as Hn. cbn [fst] in Hn.
  change (format_sid (0, 0)) with "0-0" in Hn. rewrite Hn; [|split; cbn; unfold max_int64; lia|by constructor].
  rewrite filter_cons_True, filter_nil by done. cbn. rewrite lookup_insert_eq. cbn. rewrite lookup_insert_eq. cbn.
  done.
Qed.

(** The judgement travels in the announcement only.  An entry of the
    stream carries the data alone, so a subscriber the Judge rejected is
    handed the message when it subscribes with [since]. *)
Theorem replay_ignores_judge cfg topic data m sub id d :
  raw_value data = Some d →
  judge cfg.(cfg_Judge) cfg.(cfg_Candidates) cfg.(JudgeFailurePolicy) topic data = Some [] →
  identify sub = Some id →
  keys m.(srv) !! streamKey topic = None →
  wp0 (PublishTopic cfg topic data "") (λ r m1, ∃ i, r = Ok (format_sid i) ∧
    allowed_by (judge cfg.(cfg_Judge) cfg.(cfg_Candidates) cfg.(JudgeFailurePolicy) topic data) sub = false ∧
    (sid_ok i → wp0 (SubscribeWithReplay sub topic "0-0") (λ _ m', m'.(loc).(p_hub) =
       m.(loc).(p_hub) ++ [(sub, EncodePublish topic (raw_of_text (stream_text data)) (format_sid i) true)]) m1)) m.
Proof.
  intros Hd Hj Hid Hk.
  assert (as_stream (keys m.(srv)) (streamKey topic) = Some ((0, 0), [])) as HS by (unfold as_stream; by rewrite Hk).
  eapply wp0_mono; [by eapply PublishTopic_wp|].
  intros r m1 (i&n&->&Hlt&_&_&Hs&Hn&_&Hloc). apply capped_le in Hn. cbn in Hn. assert (n = 0%nat) as -> by lia. cbn [drop app] in Hs.
  exists i. split_and!; [done| |].
  - rewrite Hj. unfold allowed_by, allowedSubscriber. cbn. by rewrite Hid.
  - intros Hi. eapply wp0_mono; [by apply subscribe_one|]. intros r m' [_ Hm']. by rewrite Hm', Hloc.
Qed.

(** A Judge that selects nobody does keep the message from live subscribers. *)
Lemma live_to_nobody b topic subs :
  Forall (λ s, is_Some (identify s)) subs → live_to b topic (Some []) subs = [].
Proof.
  intros Hall. apply filter_none. eapply Forall_impl; [done|]. intros s [id Hid] [_ Ha].
  unfold allowed_by, allowedSubscriber in Ha. cbn in Ha. rewrite Hid in Ha. done.
Qed.

(** So is publishing, from here or from elsewhere: the entry is added, and as
    many are trimmed as the length limit asks for. *)
Lemma publish_is_environment cfg sub topic data rep m last S d :
  raw_value data = Some d →
  as_stream (keys m.(srv)) (streamKey topic) = Some (last, S) →
  wp0 (PublishTopic cfg topic data rep) (λ _ m', ∃ i n,
    env_step sub topic (Added (i, stream_text data) :: replicate n Evicted) [] m m') m.
Proof.
  intros Hd HS. eapply wp0_mono; [by eapply PublishTopic_wp|].
  intros r m' (i&n&_&_&_&_&Hs&_&_&Hl). exists i, n. eapply env_elsewhere; [by exists last|done|].
  exists i. cbn [changed foldl change_step]. rewrite Hs. f_equal. f_equal. symmetry. apply changed_evicted.
Qed.

(** Fan-out is the environment [replay_exact] assumes: a whole dispatch on
    the process leaves the stream alone, and a replay under way on the topic
    receives exactly the announced message, whomever the Judge chose. *)
Theorem fanout_is_environment cfg sub topic topic' p d m :
  raw_wf p.(w_Data) = true → raw_value p.(w_Data) = Some d → bus_ok m.(loc).(p_bus) →
  (∀ st, replay_of sub topic m = Some st → st.(buffering) = true) →
  wp0 (handleTopic cfg topic' (marshal_topic p)) (λ _ m',
    env_step sub topic [] (if bool_decide (topic' = topic ∧ is_Some (replay_of sub topic m))
      then [{| bm_streamID := p.(w_StreamID); bm_data := Raw d |}] else []) m m') m.
Proof.
  intros Hw Hd Hok Hbuf. eapply wp0_mono; [by apply handleTopic_wp|].
  intros _ m' [(_&_&Hk&Hrep) _]. split.
  - intros S [last HS]. exists last. by rewrite Hk.
  - unfold replay_of in *. rewrite Hrep. destruct (replay (p_bus (loc m)) !! (sub, topic)) as [st|] eqn:Hst.
    + intros Hb. assert (sub ∈ subscribers (p_bus (loc m)) topic) as Hin by (apply (ok_replay _ Hok); by rewrite Hst).
      assert (is_buffering (p_bus (loc m)) sub topic = true) as Hbuf' by (unfold is_buffering; by rewrite Hst).
      destruct (decide (topic' = topic)) as [->|Hne].
      * rewrite decide_True by done. rewrite bool_decide_true by (split; [done|by eexists]). done.
      * rewrite decide_False, bool_decide_false by naive_solver. rewrite app_nil_r. destruct st; cbn in *. by subst.
    + rewrite decide_False, bool_decide_false; [done|by intros [_ [? ?]]|].
      intros (_&<-&Hb). unfold is_buffering in Hb. by rewrite Hst in Hb.
Qed.
End fanout.
