(* ===== verification/Order.v ===== *)
(** * In what order messages arrive (bus/bus.go, [Run], [dispatch])

    An instance listens to one subscription on Redis and dispatches what it
    gets one by one.  What a subscriber is handed follows the order of the
    announcements, and when one goroutine publishes after the other that is
    the order of the stream. *)

From S2P Require Import Prelude GoStrings Redis RedisModel Prog Time StreamID Json Protocol Judge RateLimit Bus BusInv Replay Fanout.
Local Open Scope Z_scope.
Local Open Scope prog_scope.

Section order.
Context `{RedisServer Srv} `{!RedisLaws Srv} {Sub : Type} `{Countable Sub} `{!Identify Sub} `{!GoQuote}.
Abbreviation process := (proc (Sub := Sub) (Hub := outbox Sub)).
Abbreviation registry := (bus (Sub := Sub)).
Implicit Types (m : mem Srv process) (topic : string) (s : Sub) (b : registry) (h : outbox Sub).

(** ** The listening loop *)

(** What the select of [Run] finds: a message, the closed channel, or the
    end of the context. *)
Inductive heard : Type :=
| Message (channel payload : string)
| ChannelClosed
| CtxDone.

(** The loop over what it finds; [false] while it goes on waiting. *)
Fixpoint listen (cfg : Config) (l : list heard) : prog process bool :=
  match l with
  | [] => Ret false
  | Message ch payload :: l' => bind (dispatch cfg ch payload) (λ _, listen cfg l')
  | (ChannelClosed | CtxDone) :: _ => Ret true
  end.

(** ** What one subscriber is handed *)

Definition frames_of s h : list string := snd <$> filter (λ x, x.1 = s) h.

Lemma frames_of_app s h h' : frames_of s (h ++ h') = frames_of s h ++ frames_of s h'.
Proof. unfold frames_of. by rewrite filter_app, fmap_app. Qed.

Lemma frames_of_each s (frame : string) (subs : list Sub) : NoDup subs →
  frames_of s ((λ c, (c, frame)) <$> subs) = if decide (s ∈ subs) then [frame] else [].
Proof.
  unfold frames_of. induction 1 as [|c subs Hc _ IH]; cbn [fmap list_fmap]; [by rewrite decide_False by apply not_elem_of_nil|].
  rewrite filter_cons. cbn [fst]. destruct (decide (c = s)) as [->|Hne].
  - rewrite fmap_cons, IH. rewrite decide_False by done. by rewrite decide_True by by left.
  - rewrite IH. apply decide_ext. rewrite elem_of_cons. naive_solver.
Qed.

(** The frame one announcement brings to a subscriber that is not in the
    middle of a replay. *)
Definition heard_of b s (x : heard) : option string :=
  match x with
  | Message ch payload =>
      topic ← CutPrefix ch topicChannelPrefix;
      p ← unmarshal_topic payload;
      if decide (s ∈ subscribers b topic ∧ allowed_by p.(w_Recipients) s = true)
      then Some (EncodePublish topic p.(w_Data) p.(w_StreamID) false) else None
  | _ => None
  end.

(** No replay of [s] is under way. *)
Definition settled b s : Prop := ∀ t, b.(replay) !! (s, t) = None.

(** The bus is as before for [s]. *)
Record unmoved s b b' : Prop := {
  un_subs : b'.(topicSubs) = b.(topicSubs);
  un_settled : settled b' s;
}.

Lemma handleTopic_heard cfg topic payload s m : settled m.(loc).(p_bus) s →
  wp0 (handleTopic cfg topic payload) (λ _ m',
    unmoved s m.(loc).(p_bus) m'.(loc).(p_bus) ∧
    frames_of s m'.(loc).(p_hub) = frames_of s m.(loc).(p_hub) ++
      default [] ((λ f, [f]) <$> heard_of m.(loc).(p_bus) s (Message (topicChannelPrefix +:+ topic) payload))) m.
Proof.
  intros Hs. unfold handleTopic, heard_of. rewrite CutPrefix_app. cbn [mbind option_bind].
  destruct (unmarshal_topic payload) as [p|]; cbn [mbind option_bind wp0].
  2: { split; [by split|]. cbn. by rewrite app_nil_r. }
  apply wp0_bind. cbn [local_ act wp0 event_step].
  pose proof (fanout_locked_spec topic p (elements (subscribers m.(loc).(p_bus) topic)) m.(loc).(p_bus) (NoDup_elements _)) as Hf.
  destruct (fanout_locked _ _ _ _ _) as [[deliver filtered] b']. destruct Hf as (->&_&HS&_&Hrep).
  set (subs := elements _) in *. set (live := live_to _ _ _ _) in *.
  assert (unmoved s m.(loc).(p_bus) b') as Hun.
  { split; [done|]. intros t. rewrite Hrep, Hs. by destruct (decide _). }
  assert ((s ∈ live) ↔ s ∈ subscribers (p_bus (loc m)) topic ∧ allowed_by p.(w_Recipients) s = true) as Hlive.
  { unfold live, live_to, subs. rewrite list_elem_of_filter, elem_of_elements. unfold is_buffering. rewrite Hs. naive_solver. }
  assert (∀ h, h = m.(loc).(p_hub) ++ ((λ c, (c, EncodePublish topic p.(w_Data) p.(w_StreamID) false)) <$> live) →
    frames_of s h = frames_of s m.(loc).(p_hub) ++
      default [] ((λ f, [f]) <$> (if decide (s ∈ subscribers (p_bus (loc m)) topic ∧ allowed_by p.(w_Recipients) s = true)
                                 then Some (EncodePublish topic p.(w_Data) p.(w_StreamID) false) else None))) as Hh.
  { intros h ->. rewrite frames_of_app. f_equal. rewrite frames_of_each by apply NoDup_filter, NoDup_elements.
    destruct (decide (s ∈ live)) as [Hin|Hin]; [rewrite decide_True by tauto|rewrite decide_False by tauto]; done. }
  case_bool_decide as Hnil; cbn [wp0].
  - split; [done|]. apply Hh. rewrite Hnil. cbn. by rewrite app_nil_r.
  - apply wp0_bind. eapply wp0_mono; [apply deliver_frames_wp|]. intros [i j] m1 [_ ->]. cbn [srv loc clock p_bus p_hub p_seq].
    case_bool_decide; [|by split; [|apply Hh]].
    unfold sendReport. apply wp0_bind, wp0_call. destruct (exec _ _). by split; [|apply Hh].
Qed.

Lemma dispatch_heard cfg ch payload s m : settled m.(loc).(p_bus) s →
  wp0 (dispatch cfg ch payload) (λ _ m',
    unmoved s m.(loc).(p_bus) m'.(loc).(p_bus) ∧
    frames_of s m'.(loc).(p_hub) = frames_of s m.(loc).(p_hub) ++
      default [] ((λ f, [f]) <$> heard_of m.(loc).(p_bus) s (Message ch payload))) m.
Proof.
  intros Hs. unfold dispatch. destruct (CutPrefix ch topicChannelPrefix) as [topic|] eqn:Hch.
  { apply CutPrefix_Some in Hch as ->. by apply handleTopic_heard. }
  unfold heard_of. rewrite Hch. cbn [mbind option_bind fmap option_fmap option_map default]. rewrite app_nil_r.
  unfold handleBroadcast, handleReport. repeat case_match; cbn; by split.
Qed.

Lemma listen_heard cfg l s m : settled m.(loc).(p_bus) s →
  wp0 (listen cfg (uncurry Message <$> l)) (λ ended m', ended = false ∧
    frames_of s m'.(loc).(p_hub) = frames_of s m.(loc).(p_hub) ++ omap (heard_of m.(loc).(p_bus) s) (uncurry Message <$> l)) m.
Proof.
  revert m. induction l as [|[ch payload] l IH]; intros m Hs; [cbn; by rewrite app_nil_r|].
  cbn [fmap list_fmap uncurry listen]. apply wp0_bind. eapply wp0_mono; [by apply dispatch_heard|]. intros _ m1 [[Hsubs Hset] Hf].
  eapply wp0_mono; [by apply IH|]. intros ended m2 [-> ->]. split; [done|]. rewrite Hf, <- (assoc_L (++)). f_equal.
  assert (∀ x, heard_of (p_bus (loc m1)) s x = heard_of (p_bus (loc m)) s x) as Hsame.
  { intros [?? | |]; [|done|done]. unfold heard_of, subscribers. by rewrite Hsubs. }
  cbn [omap list_omap]. rewrite (list_omap_ext _ _ _ _ (Forall_Forall2_diag _ _ (Forall_true _ _ Hsame))).
  by destruct (heard_of _ _ (Message ch payload)).
Qed.

Lemma listen_app cfg l rest m Q :
  wp0 (listen cfg (uncurry Message <$> l)) (λ _ m', wp0 (listen cfg rest) Q m') m →
  wp0 (listen cfg ((uncurry Message <$> l) ++ rest)) Q m.
Proof.
  revert m. induction l as [|[ch payload] l IH]; intros m; [done|]. cbn [fmap list_fmap uncurry app listen]. intros Hp. apply wp0_bind_inv in Hp.
  apply wp0_bind. eapply wp0_mono; [exact Hp|]. intros u m1. apply IH.
Qed.

(** [C11] Order and number are kept: whatever an instance hears, well-formed or not, a subscriber with no replay under way
    is handed exactly the announcements of the topics it is subscribed to that the recipient lists let through, each
    once and in the order of the channel, up to the point where the channel is closed or the context ends. *)
Theorem listener_in_order cfg l rest s m : settled m.(loc).(p_bus) s →
  rest = [] ∨ (∃ x r, rest = x :: r ∧ (x = ChannelClosed ∨ x = CtxDone)) →
  wp0 (listen cfg ((uncurry Message <$> l) ++ rest)) (λ ended m',
    ended = bool_decide (rest ≠ []) ∧
    frames_of s m'.(loc).(p_hub) = frames_of s m.(loc).(p_hub) ++ omap (heard_of m.(loc).(p_bus) s) (uncurry Message <$> l)) m.
Proof.
  intros Hs Hr. apply listen_app. eapply wp0_mono; [by apply listen_heard|]. intros _ m' [_ Hf].
  by destruct Hr as [->|(x & r & -> & [-> | ->])].
Qed.

(** ** One publisher *)

(** One goroutine publishes one message after the other. *)
Fixpoint publish_all (cfg : Config) topic (datas : list raw) : prog process (list (result string)) :=
  match datas with
  | [] => Ret []
  | data :: datas' =>
      bind (PublishTopic cfg topic data "") (λ r, bind (publish_all cfg topic datas') (λ rs, Ret (r :: rs)))
  end.

(** What is stored reads back as what was published: a replayed message has
    the frame of the live one. *)
Lemma EncodePublish_stored topic data d id replay :
  raw_wf data = true → raw_value data = Some d →
  EncodePublish topic (raw_of_text (stream_text data)) id replay = EncodePublish topic (Raw d) id replay.
Proof.
  intros Hw Hd. unfold EncodePublish. assert (raw_value (raw_of_text (stream_text data)) = raw_value (Raw d)) as ->; [|done].
  unfold raw_of_text. destruct data as [|j|text]; [by injection Hd as <-| |done]. cbn in Hd, Hw |- *. injection Hd as <-.
  by rewrite parse_print, html_idemp by done.
Qed.

Definition frame_of topic (e : sid * string) : string := EncodePublish topic (raw_of_text e.2) (format_sid e.1) false.

(** What the announcement of a message is for somebody listening. *)
Lemma heard_announcement cfg b topic data d i s :
  raw_wf data = true → raw_value data = Some d → s ∈ subscribers b topic →
  allowed_by (judge cfg.(cfg_Judge) cfg.(cfg_Candidates) cfg.(JudgeFailurePolicy) topic data) s = true →
  heard_of b s (Message (topicChannelPrefix +:+ topic)
    (marshal_topic {| w_StreamID := format_sid i; w_Data := data; w_ReportTo := "";
       w_Recipients := judge cfg.(cfg_Judge) cfg.(cfg_Candidates) cfg.(JudgeFailurePolicy) topic data |})) =
  Some (frame_of topic (i, stream_text data)).
Proof.
  intros Hw Hd Hs Ha. unfold heard_of. rewrite CutPrefix_app. cbn [mbind option_bind].
  rewrite (unmarshal_marshal_topic _ d) by done. cbn [mbind option_bind received w_Recipients w_Data w_StreamID].
  rewrite decide_True by done. unfold frame_of. cbn [fst snd]. by rewrite (EncodePublish_stored _ data d).
Qed.

Definition publishable cfg topic s data : Prop :=
  raw_wf data = true ∧ is_Some (raw_value data) ∧
  allowed_by (judge cfg.(cfg_Judge) cfg.(cfg_Candidates) cfg.(JudgeFailurePolicy) topic data) s = true.

Lemma publish_all_wp cfg topic datas s m last S :
  Forall (publishable cfg topic s) datas →
  as_stream (keys m.(srv)) (streamKey topic) = Some (last, S) →
  wp0 (publish_all cfg topic datas) (λ rs m', ∃ es anns n,
    rs = (λ e : sid * string, Ok (format_sid e.1)) <$> es ∧ es.*2 = stream_text <$> datas ∧ StronglySorted sid_lt (last :: es.*1) ∧
    capped cfg.(StreamMaxLength) n (S ++ es) ∧ (∃ last', as_stream (keys m'.(srv)) (streamKey topic) = Some (last', drop n (S ++ es))) ∧
    pubs m'.(srv) = pubs m.(srv) ++ anns ∧
    (∀ b, s ∈ subscribers b topic → omap (heard_of b s) (uncurry Message <$> anns) = frame_of topic <$> es)) m.
Proof.
  intros Hd. revert m last S. induction Hd as [|data datas (Hw & [d Hv] & Ha) _ IH]; intros m last S HS; cbn [publish_all].
  { cbn. exists [], [], 0%nat. rewrite !app_nil_r. split_and!; try done; [by repeat constructor|by left|by exists last]. }
  apply wp0_bind. eapply wp0_mono; [by eapply PublishTopic_wp|].
  intros r m1 (i & n & -> & Hlt & _ & _ & Hs1 & Hn & Hp & _).
  apply wp0_bind. eapply wp0_mono; [by eapply IH|].
  intros rs m2 (es & anns & n2 & -> & Ht & Hsort & Hn2 & [last' Hs2] & Hp2 & Hh). cbn [wp0].
  eexists ((i, stream_text data) :: es), (_ :: anns), (n + n2)%nat. split_and!.
  - done.
  - cbn. by rewrite Ht.
  - cbn. inversion Hsort as [|?? Hs' Hall]; subst. constructor; [done|].
    constructor; [done|]. eapply Forall_impl; [exact Hall|]. intros x Hx. by eapply sid_lt_trans.
  - unfold capped in *. rewrite ?length_drop, !length_app in *. cbn [length] in *. rewrite length_drop, length_app in Hn2. cbn in Hn2. lia.
  - apply capped_le in Hn. exists last'. rewrite Hs2, <- drop_drop. f_equal. f_equal. f_equal.
    change ((i, stream_text data) :: es) with ([(i, stream_text data)] ++ es). rewrite (assoc_L (++)).
    by rewrite (drop_app_le (S ++ _)) by (rewrite length_app; lia).
  - rewrite Hp2, Hp. by rewrite <- (assoc_L (++)).
  - intros b Hb. cbn [fmap list_fmap omap list_omap uncurry]. rewrite (heard_announcement _ _ _ _ d) by done. f_equal. by apply Hh.
Qed.

(** [C5] The order of the stream, on a faultless network: what one publisher publishes one after the other, alone on
    the topic, is stored once each, in that order under rising IDs, behind what the stream held (save the oldest
    entries beyond [MAXLEN]); and a subscriber of any instance that is not in the middle of a replay and that every
    judgement lets through, and whose instance hears these announcements one after the other, is handed exactly these
    entries, in that order, once each, with the text a replay would give. *)
Theorem stream_order cfg topic datas s m last S :
  Forall (publishable cfg topic s) datas →
  as_stream (keys m.(srv)) (streamKey topic) = Some (last, S) →
  wp0 (publish_all cfg topic datas) (λ rs m', ∃ es anns n,
    rs = (λ e : sid * string, Ok (format_sid e.1)) <$> es ∧ es.*2 = stream_text <$> datas ∧ StronglySorted sid_lt (last :: es.*1) ∧
    capped cfg.(StreamMaxLength) n (S ++ es) ∧ (∃ last', as_stream (keys m'.(srv)) (streamKey topic) = Some (last', drop n (S ++ es))) ∧
    pubs m'.(srv) = pubs m.(srv) ++ anns ∧
    ∀ cfg' m2, settled m2.(loc).(p_bus) s → s ∈ subscribers m2.(loc).(p_bus) topic →
      wp0 (listen cfg' (uncurry Message <$> anns)) (λ _ m3,
        frames_of s m3.(loc).(p_hub) = frames_of s m2.(loc).(p_hub) ++ (frame_of topic <$> es)) m2) m.
Proof.
  intros Hd HS. eapply wp0_mono; [by eapply publish_all_wp|].
  intros rs m' (es & anns & n & Hr & Ht & Hsort & Hn & Hs & Hp & Hh). exists es, anns, n. split_and!; [done..|].
  intros cfg' m2 Hset Hin. eapply wp0_mono; [by apply listen_heard|].
  intros _ m3 [_ ->]. by rewrite Hh.
Qed.
End order.
