(* ===== verification/BusWitness.v ===== *)
(** * Concrete runs of the bus theorems

    Two subscribers named by strings on the model server, every one
    addressable by the Judge under its own name. *)

From S2P Require Import Prelude GoStrings Redis RedisModel Prog Time StreamID Json Protocol Judge RateLimit Bus BusInv Replay Trim Fanout Order.
Local Open Scope Z_scope.

#[export] Instance string_identify : Identify string := Some.
#[export] Instance plain_quote : GoQuote := {| Quote := id |}.

Definition empty_bus : bus (Sub := string) := Bus ∅ ∅ 0.
Definition empty_proc : proc (Sub := string) (Hub := outbox string) := Proc empty_bus [] 0.

(** A Judge that turns everybody away. *)
Definition nobody : Config := {|
  StreamMaxLength := 100; StreamTTL := 0; InstanceID := "i1";
  cfg_Judge := Some (λ _ _, Ok []);
  cfg_Candidates := Some (λ _, Ok [{| ID := "bob"; Criteria := "" |}]);
  JudgeFailurePolicy := DeliverAll;
|}.

Lemma empty_bus_ok : bus_ok empty_bus.
Proof. split; [done|done|]. by intros s t [? ?]. Qed.

Definition with_stream (es : list (sid * string)) : mem server (proc (Sub := string) (Hub := outbox string)) :=
  Mem (Server {[ "topic:stream:news" := Entry (RStream (9, 0) es) None ]} [] 0) empty_proc 0.

Lemma read_EncodePublish_witness :
  read_delivery (EncodePublish "a<b" (Raw (JArr [JNum "1"; JNull])) "5-0" true) =
    Some {| d_type := "publish"; d_topic := "a<b"; d_data := Raw (JArr [JNum "1"; JNull]);
            d_streamId := "5-0"; d_replay := true |}.
Proof. by apply (read_EncodePublish "a<b" (Raw (JArr [JNum "1"; JNull])) "5-0" true). Defined.

Lemma unmarshal_marshal_topic_witness :
  unmarshal_topic (marshal_topic {| w_StreamID := "5-0"; w_Data := RawNil; w_ReportTo := ""; w_Recipients := Some [] |}) =
    Some {| w_StreamID := "5-0"; w_Data := Raw JNull; w_ReportTo := ""; w_Recipients := Some [] |}.
Proof.
  by apply (unmarshal_marshal_topic
    {| w_StreamID := "5-0"; w_Data := RawNil; w_ReportTo := ""; w_Recipients := Some [] |} JNull).
Defined.

Lemma judge_spec_witness :
  judge (Some (λ _ _, Ok [{| d_ID := "bob"; Deliver := true; Score := 0 |}]))
    (Some (λ _, Ok [{| ID := "bob"; Criteria := "" |}; {| ID := "eve"; Criteria := "" |}])) DeliverNone "t" RawNil = Some ["bob"].
Proof.
  apply (judge_spec (λ _ _, Ok [{| d_ID := "bob"; Deliver := true; Score := 0 |}])
    (λ _, Ok [{| ID := "bob"; Criteria := "" |}; {| ID := "eve"; Criteria := "" |}]) DeliverNone "t" RawNil
    [{| ID := "bob"; Criteria := "" |}; {| ID := "eve"; Criteria := "" |}] [{| d_ID := "bob"; Deliver := true; Score := 0 |}]);
    [done|done|done|].
  intros d [->|[]%not_elem_of_nil]%elem_of_cons. by left.
Defined.

Lemma registry_invariant_witness :
  bus_ok (srun [Step 0 Fine; Step 1 Fine; Step 0 Fine; Step 2 Fine; Step 0 Fine]
    ([bind (SubscribeWithReplay "bob" "news" "0-0") (λ _, Ret ());
      AddLocalSubscription "news" "eve"; RemoveSubscriberAll "bob"], with_stream [])).2.(loc).(p_bus).
Proof.
  apply (registry_invariant nobody); [|apply empty_bus_ok].
  constructor; [constructor|]. constructor; [constructor|]. constructor; [constructor|constructor].
Defined.

Lemma publish_delivers_witness :
  wp0 (PublishTopic nobody "news" (Raw (JBool true)) "") (λ r m', ∃ i payload,
    r = Ok (format_sid i) ∧ pubs m'.(srv) = [("ws:topic:news", payload)]) (with_stream []).
Proof.
  eapply wp0_mono; [eapply (publish_delivers nobody nobody "news" (Raw (JBool true)) "" (with_stream []) (9, 0) [] (JBool true))|].
  - done.
  - done.
  - done.
  - intros r m' (i&payload&n&->&_&_&_&Hp&_). by exists i, payload.
Defined.

Lemma replay_ignores_judge_witness :
  wp0 (PublishTopic nobody "news" (Raw (JBool true)) "") (λ r m1, ∃ i, r = Ok (format_sid i) ∧
    (sid_ok i → wp0 (SubscribeWithReplay "bob" "news" "0-0")
       (λ _ m', m'.(loc).(p_hub) = [("bob", EncodePublish "news" (Raw (JBool true)) (format_sid i) true)]) m1))
    (Mem fresh_server empty_proc 0).
Proof.
  eapply wp0_mono.
  - eapply (replay_ignores_judge nobody "news" (Raw (JBool true)) (Mem fresh_server empty_proc 0) "bob" "bob" (JBool true));
      done.
  - intros r m1 (i&->&_&Hi). exists i. split; [done|exact Hi].
Defined.

Definition announcement : wireTopicPayload :=
  {| w_StreamID := "9-1"; w_Data := Raw (JBool true); w_ReportTo := ""; w_Recipients := Some [] |}.

(** Bob subscribed and is being replayed to. *)
Definition replaying : mem server (proc (Sub := string) (Hub := outbox string)) :=
  Mem fresh_server (Proc (Bus {[ "news" := {[ "bob" ]} ]}
    {[ ("bob", "news") := {| buffering := true; seen := ∅; buf := [] |} ]} 1) [] 0) 0.

Lemma replaying_ok : bus_ok replaying.(loc).(p_bus).
Proof.
  split; cbn.
  - intros t S [_ <-]%lookup_singleton_Some. done.
  - done.
  - intros s t [st [[= <- <-] _]%lookup_singleton_Some]. unfold subscribers; cbn. by apply elem_of_singleton.
Qed.

Lemma fanout_is_environment_witness :
  wp0 (handleTopic nobody "news" (marshal_topic announcement)) (λ _ m',
    env_step "bob" "news" [] [{| bm_streamID := "9-1"; bm_data := Raw (JBool true) |}] replaying m') replaying.
Proof.
  eapply wp0_mono.
  - eapply (fanout_is_environment nobody "bob" "news" "news" announcement (JBool true) replaying).
    + done.
    + done.
    + apply replaying_ok.
    + intros st Hst. vm_compute in Hst. by injection Hst as <-.
  - intros u m' He. exact He.
Defined.

Definition heard_msg : bufferedMsg := {| bm_streamID := "9-1"; bm_data := Raw (JBool true) |}.

Lemma idle m : env_step (Srv := server) "bob" "news" [] [] m m.
Proof.
  split; [intros S [last HS]; by exists last|].
  destruct (replay_of "bob" "news" m) as [[? ? ?]|]; cbn; [|done]. intros ->. by rewrite app_nil_r.
Qed.

(** Another instance published: its entry pushed the oldest one out of the
    stream, and Bob's buffer took the announcement. *)
Definition hear (x : bufferedMsg) (sv : server) (m : mem server (proc (Sub := string) (Hub := outbox string))) :=
  Mem sv (set_bus (λ b, match replay b !! ("bob", "news") with
    | Some st => put_replay "bob" "news" (with_msg st x) b | None => b end) m.(loc)) m.(clock).

Lemma hear_env x sv m st e e' last last' :
  replay_of "bob" "news" m = Some st → st.(buffering) = true →
  as_stream (keys m.(srv)) "topic:stream:news" = Some (last, [e]) →
  as_stream (keys sv) "topic:stream:news" = Some (last', [e']) →
  env_step "bob" "news" [Added e'; Evicted] [x] m (hear x sv m).
Proof.
  intros Hst Hb He He'. split.
  - intros S [l HS]. exists last'. change (streamKey "news") with "topic:stream:news" in *.
    rewrite He in HS. injection HS as <- <-. exact He'.
  - rewrite Hst. intros _. unfold replay_of, hear in *. cbn. rewrite Hst. cbn. by rewrite lookup_insert_eq.
Qed.

Definition later_server : server := Server {[ "topic:stream:news" := Entry (RStream (9, 1) [((9, 1), "true")]) None ]} [] 0.

Definition meanwhile : list change := [Added ((9, 1), "true"); Evicted].

Definition subscribed_run (own : outbox string) m' : Prop :=
  env_run "bob" "news" (SubscribeWithReplay "bob" "news" "0-0") (with_stream [((9, 0), "1")])
    meanwhile [heard_msg] own (Ok (false, "")) m'.

(** One run: a message is published while the history is being sent. *)
Lemma a_run : ∃ own m', subscribed_run own m' ∧
  own = [("bob", EncodePublish "news" (Raw (JNum "1")) "9-0" true);
         ("bob", EncodePublish "news" (Raw (JBool true)) "9-1" false)].
Proof.
  eexists _, _. split; [|reflexivity]. unfold subscribed_run.
  (* register, and read the stream *)
  do 2 (eapply (env_run_step "bob" "news" _ _ _ _ [] [] meanwhile [heard_msg] [] [_; _]); [apply idle|reflexivity|]).
  (* mark the entry after the announcement *)
  eapply (env_run_step "bob" "news" _ _ _ _ meanwhile [heard_msg] [] [] [] [_; _]);
    [by eapply (hear_env _ later_server)|reflexivity|].
  (* it is sent, buffering stops, what was heard is sent *)
  eapply (env_run_step "bob" "news" _ _ _ _ [] [] [] [] [_] [_]); [apply idle|reflexivity|].
  eapply (env_run_step "bob" "news" _ _ _ _ [] [] [] [] [] [_]); [apply idle|reflexivity|].
  eapply (env_run_step "bob" "news" _ _ _ _ [] [] [] [] [_] []); [apply idle|reflexivity|].
  by split_and!.
Qed.

Lemma replay_exact_witness :
  ∃ own m', subscribed_run own m' ∧ ∃ ap1, ap1 `prefix_of` meanwhile ∧
    let entries := entry_msg <$> filter (λ e, sid_lt (0, 0) e.1) (changed ap1 [((9, 0), "1")]) in
    own = (replay_frame "bob" "news" <$> entries) ++
          (live_frame "bob" "news" <$> filter (λ x, x.(bm_streamID) ∉ bm_streamID <$> entries) [heard_msg]).
Proof.
  destruct a_run as (own&m'&Hr&_). exists own, m'. split; [exact Hr|].
  destruct (replay_exact "bob" "news" "0-0" (0, 0) (with_stream [((9, 0), "1")]) (9, 0) [((9, 0), "1")]
    meanwhile [heard_msg] own false "" m') as (ap1&Hap&Hown&_).
  - done.
  - split; cbn; unfold max_int64; lia.
  - done.
  - constructor; [|constructor]. split; cbn; unfold max_int64; lia.
  - repeat constructor; cbn; unfold max_int64; lia.
  - done.
  - exact Hr.
  - by exists ap1.
Defined.

(** The append, sent again after its reply was lost, stores the message twice:
    whoever catches up later gets it twice. *)
Lemma stored_twice :
  let '(r, m) := outcome (PublishTopic nobody "news" (Raw (JBool true)) "") [(0%N, Resent)] (Mem fresh_server empty_proc 0) in
  r = Ok "0-2" ∧ (as_stream (keys m.(srv)) "topic:stream:news" ≫= λ p, Some p.2) = Some [((0, 1), "true"); ((0, 2), "true")].
Proof. vm_compute. split; reflexivity. Qed.

(** ** Trimming *)

Definition hourly : Config := {|
  StreamMaxLength := 100; StreamTTL := 3600000000000; InstanceID := "i1"; cfg_Judge := None; cfg_Candidates := None;
  JudgeFailurePolicy := DeliverAll;
|}.

Definition at_hours (h : Z) (es : list (sid * string)) : mem server (proc (Sub := string) (Hub := outbox string)) :=
  Mem (with_stream es).(srv) empty_proc (h * 3600000).

Lemma trimAllStreams_exact_witness :
  wp0 (trimAllStreams hourly) (λ _ m',
    keys m'.(srv) !! "topic:stream:news" = Some (Entry (RStream (9, 0) [((7200000, 0), "2")]) None))
    (at_hours 2 [((5, 0), "1"); ((7200000, 0), "2")]).
Proof.
  eapply wp0_mono; [apply (trimAllStreams_exact hourly (at_hours 2 [((5, 0), "1"); ((7200000, 0), "2")])); vm_compute; discriminate|].
  intros u m' (_&_&Hk). rewrite Hk. vm_compute. reflexivity.
Defined.

(** Of three messages the first was trimmed before the client came back. *)
Lemma gaps_are_flagged_witness :
  let m := with_stream [((6, 0), "2"); ((9, 0), "3")] in
  (prog_step Fine (prog_step Fine (replayMessages "news" "4-0") m).1 m).1 =
    Ret (Ok (entry_msg <$> [((6, 0), "2"); ((9, 0), "3")], true, "6-0")).
Proof.
  intros m.
  destruct (gaps_are_flagged "news" (4, 0) m m [((5, 0), "1")] [((6, 0), "2"); ((9, 0), "3")] [] 0 (9, 0) (9, 0)) as (tr&oldest&E&Ht&Ho).
  - split; cbn; unfold max_int64; lia.
  - done.
  - repeat constructor; cbn; unfold max_int64; lia.
  - repeat constructor; cbn; lia.
  - done.
  - done.
  - rewrite Ht in * by done. destruct (Ho eq_refl) as (e&rest&[= <- <-]&->&_). exact E.
Defined.

(** When all of the history a client missed has been trimmed it is told
    nothing: here a message that it had not seen grows older than an hour. *)
Lemma emptied_history_unflagged :
  let m := at_hours 3 [((7200000, 0), "2")] in
  let '(_, m') := outcome (trimAllStreams hourly) [] (Mem m.(srv) m.(loc) (4 * 3600000)) in
  (outcome (SubscribeWithReplay "bob" "news" "7100000-0") [] m').1 = Ok (false, "") ∧
  (outcome (SubscribeWithReplay "bob" "news" "7100000-0") [] m').2.(loc).(p_hub) = [].
Proof. vm_compute. split; reflexivity. Qed.

(** ** Order *)

Definition open_house : Config := {|
  StreamMaxLength := 100; StreamTTL := 0; InstanceID := "i1"; cfg_Judge := None; cfg_Candidates := None;
  JudgeFailurePolicy := DeliverAll;
|}.

Definition announcement_of (id : string) (r : option (list string)) : string * string :=
  ("ws:topic:news", marshal_topic {| w_StreamID := id; w_Data := Raw (JBool true); w_ReportTo := ""; w_Recipients := r |}).

(** Bob is subscribed to one topic, and the second message is not for him. *)
Definition listening : mem server (proc (Sub := string) (Hub := outbox string)) :=
  Mem fresh_server (Proc (Bus {[ "news" := {[ "bob" ]} ]} ∅ 1) [] 0) 0.

Lemma listener_in_order_witness :
  wp0 (listen open_house ((uncurry Message <$> [announcement_of "9-1" None; ("ws:topic:news", "garbage"); announcement_of "9-2" (Some []);
         announcement_of "9-3" (Some ["bob"])]) ++ [CtxDone]))
    (λ ended m', ended = true ∧ frames_of "bob" m'.(loc).(p_hub) =
       [EncodePublish "news" (Raw (JBool true)) "9-1" false; EncodePublish "news" (Raw (JBool true)) "9-3" false]) listening.
Proof.
  eapply wp0_mono.
  - apply (listener_in_order open_house _ [CtxDone] "bob" listening).
    + intros t. reflexivity.
    + right. exists CtxDone, []. split; [done|by right].
  - intros ended m' [-> ->]. split; [reflexivity|]. vm_compute. reflexivity.
Defined.

Lemma stream_order_witness :
  wp0 (publish_all open_house "news" [Raw (JNum "1"); Raw (JNum "2")]) (λ rs m', ∃ i j anns,
    rs = [Ok (format_sid i); Ok (format_sid j)] ∧ sid_lt i j ∧ pubs m'.(srv) = anns ∧
    wp0 (listen open_house (uncurry Message <$> anns)) (λ _ m3, frames_of "bob" m3.(loc).(p_hub) =
      [frame_of "news" (i, "1"); frame_of "news" (j, "2")]) listening) (with_stream []).
Proof.
  eapply wp0_mono.
  - apply (stream_order open_house "news" [Raw (JNum "1"); Raw (JNum "2")] "bob" (with_stream []) (9, 0) []); [|done].
    repeat constructor; by eexists.
  - intros rs m' (es & anns & n & -> & Ht & Hs & _ & _ & Hp & Hl).
    destruct es as [|[i a] [|[j b] [|? ?]]]; cbn in Ht; simplify_eq. exists i, j, anns. split; [done|].
    split; [cbn in Hs; inversion Hs as [|?? Hs1 _]; inversion Hs1 as [|?? _ Hall]; by inversion Hall|]. split; [done|].
    eapply wp0_mono; [apply (Hl open_house listening); [by intros t|by apply elem_of_singleton]|].
    intros _ m3 ->. reflexivity.
Defined.
