(* ===== verification/Conn.v ===== *)
(** * One client connection (internal/connection/hub.go, [Conn])

    Senders of any goroutine push frames into a bounded channel and one writer
    goroutine takes them out.  The operations are split at their atomic
    accesses to shared state, [action]; any interleaving of goroutines is a
    sequence of actions.  The sequential operations compose them in the order
    of the code. *)

From S2P Require Import Prelude GoStrings.
Local Open Scope Z_scope.

Inductive outFrame : Type :=
| frameText (payload : string)
| framePing
| frameClose (closeCode : Z) (payload : string).

#[export] Instance outFrame_eq_dec : EqDecision outFrame.
Proof. solve_decision. Defined.

Definition CloseNormalClosure : Z := 1000.
Definition CloseGoingAway : Z := 1001.
Definition ClosePolicyViolation : Z := 1008.
Definition CloseTryAgainLater : Z := 1013.

Record Conn : Type := {
  id : string;
  userKey : string;
  capacity : nat;
  maxBuf : Z;
  maxDrops : Z;
  (** Shared state. *)
  sendCh : list outFrame;
  bufBytes : Z;
  consecDrops : Z;
  closeBegun : bool;
  closed : bool;
  closeReason : option string;
  (** The writer: the frame it holds, what reached the socket, and whether it
      has returned, which closes [drained] and the socket. *)
  writing : option outFrame;
  wire : list outFrame;
  drained : bool;
  (** Goroutines between two atomic accesses: messages that passed the checks
      of [SendReporting] but are not queued; byte counts of queued messages
      not yet added to [bufBytes], with whether a reset of [consecDrops]
      follows. *)
  checked : list string;
  adding : list (Z * bool);
}.

Record ConnConfig : Type := {
  cfg_UserKey : string; MaxBufferedBytes : Z; SendChanCapacity : Z; cfg_ID : string; MaxConsecutiveDrops : Z;
}.

(** [NewConn]; [uuid] is the identifier generated when none is given. *)
Definition NewConn (cfg : ConnConfig) (uuid : string) : Conn := {|
  id := if decide (cfg.(cfg_ID) = "") then uuid else cfg.(cfg_ID);
  userKey := cfg.(cfg_UserKey);
  capacity := Z.to_nat (if cfg.(SendChanCapacity) <=? 0 then 64 else cfg.(SendChanCapacity));
  maxBuf := if cfg.(MaxBufferedBytes) <=? 0 then 1024 * 1024 else cfg.(MaxBufferedBytes);
  maxDrops := cfg.(MaxConsecutiveDrops);
  sendCh := []; bufBytes := 0; consecDrops := 0; closeBegun := false; closed := false; closeReason := None;
  writing := None; wire := []; drained := false; checked := []; adding := [];
|}.

Definition len (s : string) : Z := Z.of_nat (String.length s).

Definition has_room (c : Conn) : bool := bool_decide (length c.(sendCh) < c.(capacity))%nat.

(** ** Updates *)

Definition set_queue (q : list outFrame) (c : Conn) : Conn :=
  {| id := c.(id); userKey := c.(userKey); capacity := c.(capacity); maxBuf := c.(maxBuf); maxDrops := c.(maxDrops);
     sendCh := q; bufBytes := c.(bufBytes); consecDrops := c.(consecDrops); closeBegun := c.(closeBegun);
     closed := c.(closed); closeReason := c.(closeReason); writing := c.(writing); wire := c.(wire);
     drained := c.(drained); checked := c.(checked); adding := c.(adding) |}.

Definition push (f : outFrame) (c : Conn) : Conn := set_queue (c.(sendCh) ++ [f]) c.

Definition set_counts (b d : Z) (c : Conn) : Conn :=
  {| id := c.(id); userKey := c.(userKey); capacity := c.(capacity); maxBuf := c.(maxBuf); maxDrops := c.(maxDrops);
     sendCh := c.(sendCh); bufBytes := b; consecDrops := d; closeBegun := c.(closeBegun);
     closed := c.(closed); closeReason := c.(closeReason); writing := c.(writing); wire := c.(wire);
     drained := c.(drained); checked := c.(checked); adding := c.(adding) |}.

Definition set_closing (begun cl : bool) (r : option string) (c : Conn) : Conn :=
  {| id := c.(id); userKey := c.(userKey); capacity := c.(capacity); maxBuf := c.(maxBuf); maxDrops := c.(maxDrops);
     sendCh := c.(sendCh); bufBytes := c.(bufBytes); consecDrops := c.(consecDrops); closeBegun := begun;
     closed := cl; closeReason := r; writing := c.(writing); wire := c.(wire);
     drained := c.(drained); checked := c.(checked); adding := c.(adding) |}.

Definition set_writer (w : option outFrame) (out : list outFrame) (d : bool) (c : Conn) : Conn :=
  {| id := c.(id); userKey := c.(userKey); capacity := c.(capacity); maxBuf := c.(maxBuf); maxDrops := c.(maxDrops);
     sendCh := c.(sendCh); bufBytes := c.(bufBytes); consecDrops := c.(consecDrops); closeBegun := c.(closeBegun);
     closed := c.(closed); closeReason := c.(closeReason); writing := w; wire := out;
     drained := d; checked := c.(checked); adding := c.(adding) |}.

Definition set_flight (ch : list string) (ad : list (Z * bool)) (c : Conn) : Conn :=
  {| id := c.(id); userKey := c.(userKey); capacity := c.(capacity); maxBuf := c.(maxBuf); maxDrops := c.(maxDrops);
     sendCh := c.(sendCh); bufBytes := c.(bufBytes); consecDrops := c.(consecDrops); closeBegun := c.(closeBegun);
     closed := c.(closed); closeReason := c.(closeReason); writing := c.(writing); wire := c.(wire);
     drained := c.(drained); checked := ch; adding := ad |}.

(** ** Atomic parts of the operations *)

(** [closeOnce.Do]'s body: record the category and try to queue a close
    frame, then close the channel. *)
Definition close_begin (code : Z) (reason category : string) (c : Conn) : Conn :=
  if c.(closeBegun) then c
  else
    let c := set_closing true c.(closed) (Some category) c in
    if has_room c then push (frameClose code reason) c else c.

Definition close_end (c : Conn) : Conn :=
  if c.(closeBegun) then set_closing true true c.(closeReason) c else c.

Definition closeWith (code : Z) (reason category : string) (c : Conn) : Conn :=
  close_end (close_begin code reason category c).

(** [recordDrop]: count, and whether the budget is spent. *)
Definition count_drop (c : Conn) : bool * Conn :=
  if c.(maxDrops) <=? 0 then (false, c)
  else
    let n := c.(consecDrops) + 1 in
    (negb (n <? c.(maxDrops)), set_counts c.(bufBytes) n c).

Definition recordDrop (c : Conn) : Conn :=
  let '(evict, c) := count_drop c in
  if evict then closeWith CloseTryAgainLater "slow consumer" "slow_consumer" c else c.

(** ** Sending

    The checks at the head of [SendReporting]: the message is refused, dropped
    for its size, or goes on. *)
Inductive send_check : Type := Refused | TooBig | Passed.

Definition check_send (msg : string) (c : Conn) : send_check :=
  if c.(closed) then Refused
  else if c.(maxBuf) <? c.(bufBytes) + len msg then TooBig
  else Passed.

(** Its [select].  With room in the channel and the connection closed, Go
    picks either case; [sel] says which. *)
Inductive selected : Type := Queued (c : Conn) | Gone | Full.

Definition select_send (sel : bool) (f : outFrame) (c : Conn) : selected :=
  if has_room c && (negb c.(closed) || sel) then Queued (push f c)
  else if c.(closed) then Gone
  else Full.

(** After the frame is queued: [bufBytes.Add] and, in [SendReporting],
    [consecDrops.Store(0)]. *)
Definition count_sent (n : Z) (reset : bool) (c : Conn) : Conn :=
  set_counts (c.(bufBytes) + n) (if reset then 0 else c.(consecDrops)) c.

(** ** The sequential operations *)

Definition SendReporting (sel : bool) (msg : string) (c : Conn) : bool * Conn :=
  match check_send msg c with
  | Refused => (false, c)
  | TooBig => (false, recordDrop c)
  | Passed =>
      match select_send sel (frameText msg) c with
      | Queued c => (true, count_sent (len msg) true c)
      | Gone => (false, c)
      | Full => (false, recordDrop c)
      end
  end.

Definition Send (sel : bool) (msg : string) (c : Conn) : Conn := (SendReporting sel msg c).2.

(** [None]: the call blocks, until the writer makes room, the connection
    closes or the context ends ([gone]). *)
Definition SendNow (sel gone : bool) (msg : string) (c : Conn) : option Conn :=
  if has_room c && (negb (c.(closed) || gone) || sel) then
    Some (count_sent (len msg) false (push (frameText msg) c))
  else if c.(closed) || gone then Some c
  else None.

Definition Ping (sel : bool) (c : Conn) : Conn :=
  if c.(closed) then c
  else if select_send sel framePing c is Queued c' then c' else c.

Definition Close (code : Z) (reason : string) (c : Conn) : Conn := closeWith code reason "server" c.
Definition IsClosed (c : Conn) : bool := c.(closed).
Definition SubscriberID (c : Conn) : string := c.(id).

(** *** The writer *)

Definition writer_recv (c : Conn) : Conn :=
  if c.(drained) then c
  else
    match c.(writing), c.(sendCh) with
    | None, f :: q => set_queue q (set_writer (Some f) c.(wire) false c)
    | _, _ => c
    end.

(** The write of the frame it holds, which the socket accepts or not. *)
Definition writer_write (ok : bool) (c : Conn) : Conn :=
  match c.(writing) with
  | None => c
  | Some f =>
      let out := if ok then c.(wire) ++ [f] else c.(wire) in
      match f with
      | frameText p => set_counts (c.(bufBytes) - len p) c.(consecDrops) (set_writer None out (negb ok) c)
      | framePing => set_writer None out (negb ok) c
      | frameClose code reason =>
          let code := if decide (code = 0) then CloseNormalClosure else code in
          set_writer None (if ok then c.(wire) ++ [frameClose code reason] else c.(wire)) true c
      end
  end.

(** ** Interleavings *)

Inductive action : Type :=
| ACheck (msg : string)
| ASelect (k : nat) (sel : bool)
| ACount (k : nat)
| ASendNow (sel gone : bool) (msg : string)
| APing (sel : bool)
| ACloseBegin (code : Z) (reason category : string)
| ACloseEnd
| ARecv
| AWrite (ok : bool).

#[export] Instance action_eq_dec : EqDecision action.
Proof. solve_decision. Defined.

Definition take_nth {A} (k : nat) (l : list A) : list A := take k l ++ drop (S k) l.

(** [SendReporting] is [ACheck], [ASelect], [ACount], where the goroutine
    that finds the budget of drops spent goes on to [ACloseBegin] and
    [ACloseEnd] like every other closer; [SendNow] is [ASendNow], [ACount];
    [APing] ignores [closed], which covers a stale first check. *)
Definition step (a : action) (c : Conn) : Conn :=
  match a with
  | ACheck msg =>
      match check_send msg c with
      | Refused => c
      | TooBig => (count_drop c).2
      | Passed => set_flight (c.(checked) ++ [msg]) c.(adding) c
      end
  | ASelect k sel =>
      match c.(checked) !! k with
      | None => c
      | Some msg =>
          let c := set_flight (take_nth k c.(checked)) c.(adding) c in
          match select_send sel (frameText msg) c with
          | Queued c => set_flight c.(checked) (c.(adding) ++ [(len msg, true)]) c
          | Gone => c
          | Full => (count_drop c).2
          end
      end
  | ACount k =>
      match c.(adding) !! k with
      | None => c
      | Some (n, reset) => count_sent n reset (set_flight c.(checked) (take_nth k c.(adding)) c)
      end
  | ASendNow sel gone msg =>
      if has_room c && (negb (c.(closed) || gone) || sel)
      then set_flight c.(checked) (c.(adding) ++ [(len msg, false)]) (push (frameText msg) c)
      else c
  | APing sel => if select_send sel framePing c is Queued c' then c' else c
  | ACloseBegin code reason category => close_begin code reason category c
  | ACloseEnd => close_end c
  | ARecv => writer_recv c
  | AWrite ok => writer_write ok c
  end.

Definition steps (l : list action) (c : Conn) : Conn := foldl (λ c a, step a c) c l.

(** ** Invariant *)

Definition is_close (f : outFrame) : Prop := if f is frameClose _ _ then True else False.
#[export] Instance is_close_dec f : Decision (is_close f).
Proof. destruct f; apply _. Defined.

Definition frame_bytes (f : outFrame) : Z := if f is frameText p then len p else 0.
Definition text_bytes (l : list outFrame) : Z := foldr (λ f n, frame_bytes f + n) 0 l.
Definition owed (l : list (Z * bool)) : Z := foldr (λ p n, p.1 + n) 0 l.

(** What the writer holds, and every frame in the order it was queued. *)
Definition held (c : Conn) : list outFrame := option_list c.(writing).
Definition line (c : Conn) : list outFrame := c.(wire) ++ held c ++ c.(sendCh).

Definition closes (l : list outFrame) : nat := length (filter is_close l).

Record conn_ok (c : Conn) : Prop := {
  ok_cap : (length c.(sendCh) ≤ c.(capacity))%nat;
  ok_bytes : c.(bufBytes) = text_bytes (held c ++ c.(sendCh)) - owed c.(adding);
  ok_once : (closes (line c) ≤ if c.(closeBegun) then 1 else 0)%nat;
  ok_closed : c.(closed) = true → c.(closeBegun) = true;
  ok_reason : c.(closeBegun) = bool_decide (is_Some c.(closeReason));
  ok_drained : c.(drained) = true → c.(writing) = None;
  ok_last : ∀ f, f ∈ c.(wire) → is_close f → c.(drained) = true;
  ok_end : ∀ pre f post, c.(wire) = pre ++ f :: post → is_close f → post = [];
}.

Lemma text_bytes_cons f l : text_bytes (f :: l) = frame_bytes f + text_bytes l.
Proof. done. Qed.

Lemma owed_cons p l : owed (p :: l) = p.1 + owed l.
Proof. done. Qed.

Lemma text_bytes_app a b : text_bytes (a ++ b) = text_bytes a + text_bytes b.
Proof.
  induction a as [|x a IH]; [done|].
  cbn [app]. rewrite !text_bytes_cons. lia.
Qed.

Lemma owed_app a b : owed (a ++ b) = owed a + owed b.
Proof.
  induction a as [|x a IH]; [done|].
  cbn [app]. rewrite !owed_cons. lia.
Qed.

Lemma closes_app a b : closes (a ++ b) = (closes a + closes b)%nat.
Proof. unfold closes. by rewrite filter_app, length_app. Qed.

Lemma closes_text p l : closes (frameText p :: l) = closes l. Proof. done. Qed.
Lemma closes_ping l : closes (framePing :: l) = closes l. Proof. done. Qed.
Lemma closes_close code r l : closes (frameClose code r :: l) = S (closes l). Proof. done. Qed.

Lemma owed_take_nth k l p : l !! k = Some p → owed l = p.1 + owed (take_nth k l).
Proof.
  intros Hk. rewrite <- (take_drop_middle _ _ _ Hk) at 1. unfold take_nth.
  rewrite !owed_app, owed_cons. lia.
Qed.

Lemma text_bytes_nil : text_bytes [] = 0. Proof. done. Qed.
Lemma owed_nil : owed [] = 0. Proof. done. Qed.
Lemma closes_nil : closes [] = 0%nat. Proof. done. Qed.

Arguments text_bytes : simpl never.
Arguments owed : simpl never.
Arguments closes : simpl never.

Create HintDb conn.
Create Rewrite HintDb conn.
#[export] Hint Rewrite text_bytes_cons text_bytes_nil text_bytes_app owed_cons owed_nil owed_app
  closes_app closes_text closes_ping closes_close closes_nil length_app : conn.

(** Sizes and counts of queues. *)
Ltac conn_arith :=
  unfold line, held in *; cbn in *; autorewrite with conn in *; cbn in *; lia.

(** An update of the connection: the obligations it leaves unchanged are
    assumptions, the others are sums. *)
Ltac conn_ok :=
  split; cbn in *; try done; try conn_arith.

Lemma has_room_true c : has_room c = true → (length c.(sendCh) < c.(capacity))%nat.
Proof. unfold has_room. by case_bool_decide. Qed.

Lemma push_text_ok msg b c :
  has_room c = true → conn_ok c →
  conn_ok (set_flight c.(checked) (c.(adding) ++ [(len msg, b)]) (push (frameText msg) c)).
Proof. intros Hr%has_room_true []. conn_ok. Qed.

Lemma push_ping_ok c : has_room c = true → conn_ok c → conn_ok (push framePing c).
Proof. intros Hr%has_room_true []. conn_ok. Qed.

Lemma set_checked_ok l c : conn_ok c → conn_ok (set_flight l c.(adding) c).
Proof. by intros []. Qed.

Lemma count_drop_ok c : conn_ok c → conn_ok (count_drop c).2.
Proof. intros Hc. unfold count_drop. case_match; cbn; [done|]. destruct Hc. conn_ok. Qed.

Lemma count_sent_ok k n reset c :
  c.(adding) !! k = Some (n, reset) → conn_ok c →
  conn_ok (count_sent n reset (set_flight c.(checked) (take_nth k c.(adding)) c)).
Proof. intros Hk%owed_take_nth []. conn_ok. Qed.

Lemma close_begin_ok code r cat c : conn_ok c → conn_ok (close_begin code r cat c).
Proof.
  intros Hc. unfold close_begin. destruct (closeBegun c) eqn:Hb; [done|]. destruct Hc.
  rewrite ?Hb in *.
  case_match eqn:Hr; [apply has_room_true in Hr|]; conn_ok.
Qed.

Lemma close_end_ok c : conn_ok c → conn_ok (close_end c).
Proof.
  intros Hc. unfold close_end. destruct (closeBegun c) eqn:Hb; [|done]. destruct Hc.
  rewrite Hb in *. conn_ok.
Qed.

Lemma writer_recv_ok c : conn_ok c → conn_ok (writer_recv c).
Proof.
  intros Hc. unfold writer_recv. destruct (drained c) eqn:Hd; [done|].
  destruct (writing c) eqn:Hw; [done|]. destruct (sendCh c) as [|f q] eqn:Hq; [done|]. destruct Hc.
  unfold line, held in *. rewrite ?Hw, ?Hq in *. conn_ok.
  intros g Hg Hcl. rewrite <- Hd. by eapply ok_last0.
Qed.

Lemma snoc_middle {A} (l pre post : list A) x g :
  l ++ [x] = pre ++ g :: post →
  (post = [] ∧ g = x) ∨ ∃ post', post = post' ++ [x] ∧ l = pre ++ g :: post'.
Proof.
  destruct post as [|y post' _] using rev_ind.
  - intros [_ ->]%app_inj_tail. by left.
  - rewrite app_comm_cons, app_assoc. intros [-> ->]%app_inj_tail. right. eauto.
Qed.

Lemma writer_write_ok ok c : conn_ok c → conn_ok (writer_write ok c).
Proof.
  intros Hc. unfold writer_write. destruct (writing c) as [f|] eqn:Hw; [|done].
  assert (drained c = false) as Hd.
  { destruct Hc. destruct (drained c); [|done]. by rewrite ok_drained0 in Hw. }
  assert (Forall (λ g, ¬ is_close g) c.(wire)) as Hnc.
  { apply Forall_forall. intros g Hg Hcl. pose proof (ok_last _ Hc g Hg Hcl). congruence. }
  assert (∀ g post pre, c.(wire) = pre ++ g :: post → ¬ is_close g) as Hnc'.
  { intros g post pre He. rewrite He in Hnc. by apply Forall_app, proj2, Forall_cons in Hnc as [? _]. }
  destruct Hc. unfold line, held in *. rewrite Hw in *.
  destruct f as [p| |code r], ok; conn_ok.
  all: try (intros g Hg Hcl; apply elem_of_app in Hg as [Hg|Hg]; [by eauto|apply list_elem_of_singleton in Hg; by subst]).
  all: try (intros g Hg Hcl; by edestruct (proj1 (Forall_forall _ _) Hnc g Hg)).
  all: intros pre g post He Hcl.
  all: apply snoc_middle in He as [[-> ->]|(post' & -> & He)]; [done|by edestruct Hnc'].
Qed.

Lemma select_send_Queued sel f c c' :
  select_send sel f c = Queued c' → has_room c = true ∧ c' = push f c.
Proof. unfold select_send. destruct (has_room c); cbn; repeat case_match; intros; by simplify_eq. Qed.

Lemma step_ok a c : conn_ok c → conn_ok (step a c).
Proof.
  intros Hc. destruct a as [msg|k sel|k|sel gone msg|sel|code r cat| | |ok]; cbn [step].
  - destruct (check_send msg c); [done|by apply count_drop_ok|by apply set_checked_ok].
  - destruct (checked c !! k) as [msg|] eqn:Hk; [|done].
    pose proof (set_checked_ok (take_nth k c.(checked)) c Hc) as Hc'.
    destruct (select_send _ _ _) eqn:Hs; [|done|by apply count_drop_ok].
    apply select_send_Queued in Hs as [Hr ->].
    exact (push_text_ok msg true _ Hr Hc').
  - destruct (adding c !! k) as [[n reset]|] eqn:Hk; [|done]. by apply count_sent_ok.
  - case_match eqn:Hr; [|done]. apply andb_true_iff in Hr as [Hr _]. by apply push_text_ok.
  - destruct (select_send _ _ _) eqn:Hs; [|done|done].
    apply select_send_Queued in Hs as [Hr ->]. by apply push_ping_ok.
  - by apply close_begin_ok.
  - by apply close_end_ok.
  - by apply writer_recv_ok.
  - by apply writer_write_ok.
Qed.

Lemma steps_cons a l c : steps (a :: l) c = steps l (step a c).
Proof. done. Qed.

Lemma steps_app l1 l2 c : steps (l1 ++ l2) c = steps l2 (steps l1 c).
Proof. apply foldl_app. Qed.

Lemma steps_ind (P : Conn → Prop) (Q : action → Prop) :
  (∀ a c, Q a → P c → P (step a c)) → ∀ l c, Forall Q l → P c → P (steps l c).
Proof. intros Hs l. induction l as [|a l IH]; intros c Hl Hc; [done|]. inversion Hl; subst. apply IH; eauto. Qed.

Lemma steps_ok l c : conn_ok c → conn_ok (steps l c).
Proof.
  intros Hc. eapply (steps_ind conn_ok (λ _, True)); [by intros; apply step_ok|by apply Forall_true|done].
Qed.

Lemma NewConn_ok cfg uuid : conn_ok (NewConn cfg uuid).
Proof. split; cbn; try done; [lia|set_solver|by intros [|??] ???]. Qed.

(** ** Order *)

(** The frame as it reaches the socket. *)
Definition norm (f : outFrame) : outFrame :=
  if f is frameClose 0 r then frameClose CloseNormalClosure r else f.

(** The frames an action queues, and a sequence of actions. *)
Definition queued (a : action) (c : Conn) : list outFrame :=
  match a with
  | ASelect k sel =>
      match c.(checked) !! k with
      | Some msg => if select_send sel (frameText msg) c is Queued _ then [frameText msg] else []
      | None => []
      end
  | ASendNow sel gone msg =>
      if has_room c && (negb (c.(closed) || gone) || sel) then [frameText msg] else []
  | APing sel => if select_send sel framePing c is Queued _ then [framePing] else []
  | ACloseBegin code reason _ => if negb c.(closeBegun) && has_room c then [frameClose code reason] else []
  | _ => []
  end.

Fixpoint history (l : list action) (c : Conn) : list outFrame :=
  match l with [] => [] | a :: l => queued a c ++ history l (step a c) end.

(** The three ways a step touches the queue and the writer. *)
Inductive effect (a : action) (c c' : Conn) : Prop :=
| effect_queue :
    c'.(wire) = c.(wire) → c'.(writing) = c.(writing) → c'.(drained) = c.(drained) →
    c'.(sendCh) = c.(sendCh) ++ queued a c → effect a c c'
| effect_recv f q :
    a = ARecv → c.(drained) = false → c.(writing) = None → c.(sendCh) = f :: q →
    c'.(wire) = c.(wire) → c'.(writing) = Some f → c'.(drained) = false → c'.(sendCh) = q → effect a c c'
| effect_write ok f :
    a = AWrite ok → c.(writing) = Some f → c'.(wire) = c.(wire) ++ (if ok then [norm f] else []) →
    c'.(writing) = None → c'.(drained) = negb ok || bool_decide (is_close f) →
    c'.(sendCh) = c.(sendCh) → effect a c c'.

Lemma count_drop_same c :
  let c' := (count_drop c).2 in
  c'.(wire) = c.(wire) ∧ c'.(writing) = c.(writing) ∧ c'.(drained) = c.(drained) ∧ c'.(sendCh) = c.(sendCh).
Proof. unfold count_drop. by case_match. Qed.

Lemma step_effect a c : effect a c (step a c).
Proof.
  pose proof (count_drop_same c) as (?&?&?&?).
  destruct a as [msg|k sel|k|sel gone msg|sel|code r cat| | |ok]; cbn [step].
  - destruct (check_send msg c); apply effect_queue; rewrite ?app_nil_r; cbn; by rewrite ?app_nil_r.
  - destruct (checked c !! k) as [msg|] eqn:Hk; [|by apply effect_queue; cbn; rewrite ?Hk, ?app_nil_r].
    pose proof (count_drop_same (set_flight (take_nth k c.(checked)) c.(adding) c)) as (?&?&?&?).
    destruct (select_send _ _ _) eqn:Hs.
    1: apply select_send_Queued in Hs as Hs'; destruct Hs' as [_ ->].
    all: unfold select_send in Hs; cbn in Hs.
    all: apply effect_queue; cbn; rewrite ?Hk; unfold select_send; try done.
    all: change (has_room (set_flight _ _ c)) with (has_room c) in Hs.
    all: destruct (has_room c && _); [done|]; destruct (closed c); cbn; by rewrite ?app_nil_r.
  - destruct (adding c !! k) as [[n reset]|]; apply effect_queue; cbn; by rewrite ?app_nil_r.
  - apply effect_queue; cbn; case_match; cbn; by rewrite ?app_nil_r.
  - apply effect_queue; cbn; destruct (select_send _ _ _) eqn:Hs; cbn; rewrite ?app_nil_r; try done.
    all: apply select_send_Queued in Hs as [_ ->]; done.
  - unfold close_begin. apply effect_queue; cbn.
    all: destruct (closeBegun c); cbn; rewrite ?app_nil_r; try done.
    all: change (has_room (set_closing _ _ _ c)) with (has_room c); case_match; cbn; by rewrite ?app_nil_r.
  - unfold close_end. apply effect_queue; case_match; cbn; by rewrite ?app_nil_r.
  - unfold writer_recv. destruct (drained c) eqn:Hd; [apply effect_queue; cbn; by rewrite ?app_nil_r|].
    destruct (writing c) eqn:Hw; [apply effect_queue; cbn; by rewrite ?app_nil_r|].
    destruct (sendCh c) as [|f q] eqn:Hq; [apply effect_queue; cbn; by rewrite ?Hq, ?app_nil_r|].
    by eapply effect_recv.
  - unfold writer_write. destruct (writing c) as [f|] eqn:Hw;
      [|apply effect_queue; cbn; by rewrite ?app_nil_r].
    eapply effect_write; [done|done|..]; destruct f as [p| |code r], ok; cbn; rewrite ?app_nil_r; try done.
    by destruct code.
Qed.
(** No write of the schedule fails. *)
Definition write_ok (a : action) : Prop := a ≠ AWrite false.

Lemma history_app l1 l2 c : history (l1 ++ l2) c = history l1 c ++ history l2 (steps l1 c).
Proof.
  revert c. induction l1 as [|a l IH]; intros c; [done|]. cbn. by rewrite IH, app_assoc.
Qed.

Lemma norm_idem f : norm (norm f) = norm f.
Proof. by destruct f as [p| |[] r]. Qed.

Lemma step_line a c :
  write_ok a → norm <$> line (step a c) = norm <$> (line c ++ queued a c).
Proof.
  intros Ha. unfold line, held.
  destruct (step_effect a c) as [-> -> _ ->|f q -> _ -> -> -> -> _ ->|[] f -> -> -> -> _ ->]; [| | |by destruct Ha].
  - by rewrite <- !app_assoc.
  - cbn. by rewrite app_nil_r.
  - cbn. rewrite app_nil_r, <- !app_assoc, !fmap_app. cbn. by rewrite norm_idem.
Qed.

Lemma steps_line l c :
  Forall write_ok l → norm <$> line (steps l c) = norm <$> (line c ++ history l c).
Proof.
  revert c. induction l as [|a l IH]; intros c Hl; cbn; [by rewrite app_nil_r|].
  inversion Hl; subst. change (foldl _ _ l) with (steps l (step a c)).
  by rewrite IH, fmap_app, step_line, <- fmap_app, <- app_assoc by done.
Qed.

(** A failed write ends the writer, and what it held is lost. *)
Definition logged (H : list outFrame) (c : Conn) : Prop :=
  ∃ rest, norm <$> H = (norm <$> c.(wire)) ++ rest ∧
          (c.(drained) = false → rest = norm <$> (held c ++ c.(sendCh))).

Lemma step_logged H a c : conn_ok c → logged H c → logged (H ++ queued a c) (step a c).
Proof.
  intros Hc (rest & HH & Hr). unfold logged, held in *. rewrite fmap_app, HH.
  destruct (step_effect a c) as [-> -> -> ->|f q -> Hd Hw Hq -> -> -> ->|ok f -> Hw -> -> Hd ->].
  - exists (rest ++ (norm <$> queued a c)). rewrite app_assoc. split; [done|].
    intros Hd. rewrite Hr by done. by rewrite !fmap_app, <- !app_assoc.
  - exists rest. cbn. rewrite app_nil_r. split; [done|]. intros _. by rewrite Hr, Hw, Hq.
  - assert (drained c = false) as Hd0.
    { destruct (drained c) eqn:E; [|done]. by rewrite (ok_drained _ Hc E) in Hw. }
    rewrite (Hr Hd0), Hw. cbn. rewrite app_nil_r. destruct ok.
    + exists (norm <$> c.(sendCh)). rewrite fmap_app, <- app_assoc. cbn. by rewrite norm_idem.
    + rewrite app_nil_r. eexists. split; [done|]. cbn in Hd. intros. congruence.
Qed.

Lemma steps_logged l H c : conn_ok c → logged H c → logged (H ++ history l c) (steps l c).
Proof.
  revert H c. induction l as [|a l IH]; intros H c Hc HH; cbn; [by rewrite app_nil_r|].
  rewrite app_assoc. apply IH; [by apply step_ok|by apply step_logged].
Qed.
(** ** Closing *)

Lemma close_begin_wins a c r :
  c.(closeBegun) = true → c.(closeReason) = Some r →
  (step a c).(closeBegun) = true ∧ (step a c).(closeReason) = Some r ∧
  (c.(closed) = true → (step a c).(closed) = true).
Proof.
  intros Hb Hr.
  destruct a; cbn [step]; unfold count_drop, select_send, close_begin, close_end, writer_recv, writer_write;
    rewrite ?Hb; repeat case_match; simplify_eq; by cbn.
Qed.

(** Writer turns: a receive and later a write, with any other actions around
    them. *)
Fixpoint turns (l : list action) (holding : bool) : nat :=
  match l with
  | [] => 0
  | ARecv :: l => turns l true
  | AWrite _ :: l => if holding then S (turns l false) else turns l false
  | _ :: l => turns l holding
  end.

Lemma line_close_last c :
  conn_ok c → c.(drained) = false → ∀ f, f ∈ c.(wire) → ¬ is_close f.
Proof. intros Hc Hd f Hf Hcl. by rewrite (ok_last _ Hc f Hf Hcl) in Hd. Qed.

(** No close frame is queued and none can be: nothing ends the writer. *)
Definition zombie (c : Conn) : Prop :=
  c.(closeBegun) = true ∧ c.(drained) = false ∧ closes (line c) = 0%nat.

Lemma queued_close a c : c.(closeBegun) = true → closes (queued a c) = 0%nat.
Proof. intros Hb. destruct a; cbn; rewrite ?Hb; by repeat case_match. Qed.

Lemma closes_norm l : closes (norm <$> l) = closes l.
Proof.
  induction l as [|f l IH]; [done|]. cbn [fmap list_fmap].
  destruct f as [p| |code r]; cbn; autorewrite with conn; [done|done|].
  destruct code; cbn; by rewrite closes_close, IH.
Qed.

Lemma zombie_step a c : write_ok a → zombie c → zombie (step a c).
Proof.
  intros Ha (Hb & Hd & Hz).
  assert (closes (line (step a c)) = 0)%nat as Hz'.
  { rewrite <- closes_norm, step_line, closes_norm by done.
    by rewrite closes_app, Hz, queued_close. }
  split; [|split; [|done]].
  - destruct a; cbn [step]; unfold count_drop, select_send, close_begin, close_end, writer_recv, writer_write;
      rewrite ?Hb; repeat case_match; simplify_eq; by cbn.
  - destruct (step_effect a c) as [_ _ -> _|f q _ _ _ _ _ _ -> _|[] f -> Hw Hwire _ -> _]; [done|done| |by destruct Ha].
    case_bool_decide as Hcl; [|done]. unfold line in Hz'. rewrite Hwire, !closes_app in Hz'.
    destruct f as [p| |[] r]; cbn in *; rewrite ?closes_close in Hz'; done || lia.
Qed.
(** A list with one close frame splits around it in one way. *)
Lemma close_position pre f post pre' f' post' :
  (closes (pre ++ f :: post) ≤ 1)%nat → is_close f → is_close f' →
  pre ++ f :: post = pre' ++ f' :: post' → pre = pre' ∧ f = f' ∧ post = post'.
Proof.
  assert (∀ g l, is_close g → closes (g :: l) = S (closes l)) as Hcons by (by intros []).
  assert (∀ g l, closes l ≤ closes (g :: l))%nat as Hle by (intros [] ?; autorewrite with conn; lia).
  intros Hone Hf Hf'. revert pre' Hone.
  induction pre as [|x pre IH]; intros [|y pre'] Hone He; simplify_eq/=; [done|..].
  - rewrite Hcons, closes_app, Hcons in Hone by done. lia.
  - rewrite Hcons, closes_app, Hcons in Hone by done. lia.
  - destruct (IH pre') as (-> & -> & ->); [|done|done].
    pose proof (Hle y (pre ++ f :: post)). lia.
Qed.

Lemma is_close_norm f : is_close (norm f) ↔ is_close f.
Proof. by destruct f as [p| |[] r]. Qed.

(** On the way to a graceful end: the frames [pre], then the close [fc]. *)
Definition flushing (pre : list outFrame) (fc : outFrame) (c : Conn) : Prop :=
  conn_ok c ∧ (∃ post, norm <$> line c = pre ++ fc :: post) ∧
  (c.(drained) = true → norm <$> c.(wire) = pre ++ [fc]).

Lemma wire_close_drained c f : conn_ok c → is_close f → f ∈ norm <$> c.(wire) → c.(drained) = true.
Proof.
  intros Hc Hf Hin. apply list_elem_of_fmap in Hin as (g & -> & Hg).
  apply (ok_last _ Hc g Hg). by apply is_close_norm.
Qed.

Lemma one_close c : conn_ok c → (closes (norm <$> line c) ≤ 1)%nat.
Proof. intros Hc. rewrite closes_norm. pose proof (ok_once _ Hc). destruct (closeBegun c); lia. Qed.

Lemma flushing_step pre fc a c :
  write_ok a → is_close fc → flushing pre fc c →
  flushing pre fc (step a c) ∧ (length c.(wire) ≤ length (step a c).(wire))%nat.
Proof.
  intros Ha Hfc (Hc & [post Hp] & Hd).
  split; [split; [by apply step_ok|split]|].
  - exists (post ++ (norm <$> queued a c)). by rewrite step_line, fmap_app, Hp, <- app_assoc.
  - destruct (step_effect a c) as [-> _ -> _|f q _ _ _ _ _ _ -> _|[] f -> Hw -> _ -> _];
      [done|done| |by destruct Ha].
    case_bool_decide as Hf; [|done]. intros _.
    pose proof (one_close _ Hc) as H1. unfold line, held in Hp, H1. rewrite Hw in Hp, H1.
    rewrite fmap_app in Hp, H1. cbn in Hp, H1.
    destruct (close_position _ _ _ _ _ _ H1 (proj2 (is_close_norm f) Hf) Hfc Hp) as (<- & <- & _).
    rewrite fmap_app. cbn. by rewrite norm_idem.
  - destruct (step_effect a c) as [-> _ _ _|f q _ _ _ _ -> _ _ _|ok f _ _ -> _ _ _]; rewrite ?length_app; lia.
Qed.

Lemma flushing_wire pre fc c :
  is_close fc → flushing pre fc c → (length pre < length c.(wire))%nat → c.(drained) = true.
Proof.
  intros Hfc (Hc & [post Hp] & _) Hl. apply (wire_close_drained c fc Hc Hfc).
  unfold line in Hp. rewrite fmap_app in Hp.
  apply (list_elem_of_lookup_2 _ (length pre)).
  rewrite <- (lookup_app_l _ (norm <$> (held c ++ c.(sendCh)))) by (by rewrite length_fmap).
  rewrite Hp. by apply list_lookup_middle.
Qed.

Lemma drained_stays a c : conn_ok c → c.(drained) = true → (step a c).(drained) = true.
Proof.
  intros Hc Hd. pose proof (ok_drained _ Hc Hd).
  by destruct (step_effect a c) as [_ _ -> _|f q _ Hd' _ _ _ _ _ _|ok f _ Hw _ _ _ _]; congruence.
Qed.

Lemma flushing_drained pre fc l c :
  Forall write_ok l → is_close fc → flushing pre fc c → c.(drained) = true →
  norm <$> (steps l c).(wire) = pre ++ [fc].
Proof.
  intros Hl Hfc Hf Hd. 
  assert (flushing pre fc (steps l c) ∧ (steps l c).(drained) = true) as [(_ & _ & Hw) Hd']; [|by apply Hw].
  apply (steps_ind (λ c, flushing pre fc c ∧ c.(drained) = true) write_ok); [|done|done].
  intros a c' Ha [Hf' Hd']. split; [by apply flushing_step|]. by apply drained_stays; [apply Hf'|].
Qed.
Lemma closeWith_room code reason category c :
  c.(closeBegun) = false → has_room c = true →
  closeWith code reason category c =
  set_closing true true (Some category) (push (frameClose code reason) c).
Proof.
  intros Hb Hr. unfold closeWith, close_begin, close_end. rewrite Hb.
  change (has_room (set_closing _ _ _ c)) with (has_room c). by rewrite Hr.
Qed.

Lemma closeWith_full code reason category c :
  c.(closeBegun) = false → has_room c = false →
  closeWith code reason category c = set_closing true true (Some category) c.
Proof.
  intros Hb Hr. unfold closeWith, close_begin, close_end. rewrite Hb.
  change (has_room (set_closing _ _ _ c)) with (has_room c). by rewrite Hr.
Qed.

Lemma recv_holds pre fc c :
  is_close fc → flushing pre fc c → c.(drained) = false → (step ARecv c).(writing) ≠ None.
Proof.
  intros Hfc Hf Hd. destruct (step_effect ARecv c) as [_ -> _ Hq|f q _ _ _ _ _ -> _ _|]; [|done|done].
  intros Hw. cbn [queued] in Hq. rewrite app_nil_r in Hq. cbn in Hq.
  unfold writer_recv in Hq. rewrite Hd, Hw in Hq. cbn in Hq.
  destruct (sendCh c) as [|f q] eqn:E; [|by apply (f_equal length) in Hq; cbn in Hq; lia].
  destruct Hf as (Hc & [post Hp] & _). unfold line, held in Hp. rewrite E, Hw in Hp. cbn in Hp.
  rewrite app_nil_r in Hp.
  enough (drained c = true) by congruence. apply (wire_close_drained c fc Hc Hfc).
  rewrite Hp. apply elem_of_app. right. by left.
Qed.

Lemma flush_progress pre fc l h c :
  Forall write_ok l → is_close fc → flushing pre fc c →
  (h = true → c.(writing) ≠ None) → (length pre < length c.(wire) + turns l h)%nat →
  norm <$> (steps l c).(wire) = pre ++ [fc].
Proof.
  intros Hl Hfc. revert c h. induction l as [|a l IH]; intros c h Hf Hh Ht.
  { apply Hf. cbn in Ht. apply (flushing_wire pre fc); [done|done|lia]. }
  destruct (drained c) eqn:Hd; [by apply flushing_drained|].
  inversion Hl as [|?? Ha Hl']; subst.
  destruct (flushing_step pre fc a c Ha Hfc Hf) as [Hf' Hw]. rewrite steps_cons.
  destruct (decide (a = ARecv)) as [->|Hr].
  { apply (IH Hl' _ true Hf'); [|cbn [turns] in Ht; lia]. intros _. by eapply recv_holds. }
  destruct (step_effect a c) as [_ Hwr _ _|f q ? _ _ _ _ _ _ _|[] f -> Hwr Hwire _ _ _];
    [|done| |by destruct Ha].
  - destruct a as [| | | | | | | |[]]; try done;
      try (apply (IH Hl' _ h Hf'); [by rewrite Hwr|cbn [turns] in Ht; lia]).
    apply (IH Hl' _ false Hf'); [done|]. destruct h; cbn [turns] in Ht; [|lia].
    assert (c.(writing) = None) as Hn.
    { cbn in Hwr. destruct (writing c) as [f|] eqn:E; [|done].
      unfold writer_write in Hwr. rewrite E in Hwr. by destruct f. }
    by destruct (Hh eq_refl).
  - apply (IH Hl' _ false Hf'); [done|]. rewrite Hwire, length_app. cbn.
    destruct h; cbn [turns] in Ht; lia.
Qed.
(** ** The sequential operations as action sequences *)

Lemma take_nth_last {A} (l : list A) x : take_nth (length l) (l ++ [x]) = l.
Proof.
  unfold take_nth. rewrite take_app_length, drop_ge by (rewrite length_app; cbn; lia). apply app_nil_r.
Qed.

Lemma set_flight_same c : set_flight c.(checked) c.(adding) c = c.
Proof. by destruct c. Qed.

(** The actions of one call of [SendReporting]. *)
Definition drop_actions (c : Conn) : list action :=
  if (count_drop c).1 then [ACloseBegin CloseTryAgainLater "slow consumer" "slow_consumer"; ACloseEnd] else [].

Definition send_actions (sel : bool) (msg : string) (c : Conn) : list action :=
  ACheck msg ::
  match check_send msg c with
  | Refused => []
  | TooBig => drop_actions c
  | Passed =>
      ASelect (length c.(checked)) sel ::
      match select_send sel (frameText msg) c with
      | Queued _ => [ACount (length c.(adding))]
      | Gone => []
      | Full => drop_actions c
      end
  end.

Lemma drop_steps c : steps (drop_actions c) (count_drop c).2 = recordDrop c.
Proof. unfold drop_actions, recordDrop. by destruct (count_drop c) as [[] ?]. Qed.

Lemma select_passed sel msg c :
  let c1 := set_flight (c.(checked) ++ [msg]) c.(adding) c in
  step (ASelect (length c.(checked)) sel) c1 =
  match select_send sel (frameText msg) c with
  | Queued c' => set_flight c'.(checked) (c'.(adding) ++ [(len msg, true)]) c'
  | Gone => c
  | Full => (count_drop c).2
  end.
Proof.
  cbn. rewrite list_lookup_middle by done. rewrite take_nth_last.
  change (set_flight (checked c) (adding c) (set_flight (checked c ++ [msg]) (adding c) c))
    with (set_flight (checked c) (adding c) c). by rewrite set_flight_same.
Qed.

Lemma Send_steps sel msg c : steps (send_actions sel msg c) c = Send sel msg c.
Proof.
  unfold send_actions, Send, SendReporting. rewrite steps_cons. cbn [step].
  destruct (check_send msg c); [done|apply drop_steps|].
  rewrite steps_cons, select_passed.
  destruct (select_send _ _ c) as [c'| |] eqn:Hs; [|done|apply drop_steps].
  apply select_send_Queued in Hs as [_ ->]. cbn.
  rewrite list_lookup_middle by done. unfold count_sent. cbn. by rewrite take_nth_last.
Qed.

Lemma Send_ok sel msg c : conn_ok c → conn_ok (Send sel msg c).
Proof. rewrite <- Send_steps. apply steps_ok. Qed.

Lemma closeWith_steps code r cat c : steps [ACloseBegin code r cat; ACloseEnd] c = closeWith code r cat c.
Proof. done. Qed.

Lemma Ping_steps sel c : Ping sel c = if c.(closed) then c else step (APing sel) c.
Proof. done. Qed.

Lemma SendNow_steps sel gone msg c c' :
  SendNow sel gone msg c = Some c' →
  c' = c ∨ c' = steps [ASendNow sel gone msg; ACount (length c.(adding))] c.
Proof.
  unfold SendNow. cbn. case_match; intros; [|case_match; simplify_eq; by left].
  right. simplify_eq. cbn. rewrite list_lookup_middle by done. cbn.
  unfold count_sent. cbn. by rewrite take_nth_last.
Qed.

(** A message the connection drops. *)
Definition refuses (c : Conn) (msg : string) : Prop :=
  has_room c = false ∨ c.(maxBuf) < c.(bufBytes) + len msg.

Lemma SendReporting_refused sel msg c :
  c.(closed) = false → refuses c msg → SendReporting sel msg c = (false, recordDrop c).
Proof.
  intros Hcl Hr. unfold SendReporting, check_send. rewrite Hcl.
  destruct (Z.ltb_spec (maxBuf c) (bufBytes c + len msg)); [done|].
  destruct Hr as [Hr|]; [|lia]. unfold select_send. by rewrite Hr, Hcl.
Qed.

Lemma Send_closed sel msg c : c.(closed) = true → SendReporting sel msg c = (false, c).
Proof. intros Hcl. unfold SendReporting, check_send. by rewrite Hcl. Qed.
Lemma drop_below sel m c :
  c.(closed) = false → refuses c m → 0 < c.(maxDrops) → c.(consecDrops) + 1 < c.(maxDrops) →
  Send sel m c = set_counts c.(bufBytes) (c.(consecDrops) + 1) c.
Proof.
  intros Hcl Hm ? ?. unfold Send. rewrite SendReporting_refused by done. unfold recordDrop, count_drop. cbn.
  rewrite (proj2 (Z.leb_gt _ _)), (proj2 (Z.ltb_lt _ _)) by lia. done.
Qed.

Lemma drop_last sel m c :
  c.(closed) = false → refuses c m → 0 < c.(maxDrops) → c.(maxDrops) ≤ c.(consecDrops) + 1 →
  Send sel m c = closeWith CloseTryAgainLater "slow consumer" "slow_consumer"
                   (set_counts c.(bufBytes) (c.(consecDrops) + 1) c).
Proof.
  intros Hcl Hm ? ?. unfold Send. rewrite SendReporting_refused by done. unfold recordDrop, count_drop. cbn.
  rewrite (proj2 (Z.leb_gt _ _)), (proj2 (Z.ltb_ge _ _)) by lia. done.
Qed.

Lemma Sends_closed sel msgs c : c.(closed) = true → foldl (λ c msg, Send sel msg c) c msgs = c.
Proof.
  intros Hcl. induction msgs as [|m msgs IH]; [done|]. cbn. unfold Send at 2. by rewrite Send_closed.
Qed.

Lemma first_close_stays l c r :
  c.(closeBegun) = true → c.(closeReason) = Some r →
  (steps l c).(closeReason) = Some r ∧ (c.(closed) = true → (steps l c).(closed) = true).
Proof.
  intros Hb Hr. revert c Hb Hr. induction l as [|a l IH]; intros c Hb Hr; [done|].
  destruct (close_begin_wins a c r Hb Hr) as (Hb' & Hr' & Hc').
  destruct (IH _ Hb' Hr') as [??]. rewrite steps_cons. eauto.
Qed.

(** ** Claims *)

(** [C10] Whatever the senders, the closers, the pinger and the writer do and
    however they interleave, the connection stays sound: the queue is within
    its capacity; [bufBytes] is the text queued or being written, less what
    senders still have to add; at most one close frame is ever queued, and
    only by a close; a close has exactly one recorded category; a close frame
    is the last thing on the wire, and the writer has then returned. *)
Theorem conn_invariant cfg uuid l : conn_ok (steps l (NewConn cfg uuid)).
Proof. apply steps_ok, NewConn_ok. Qed.

(** First in, first out, without loss or duplication: what is on the wire is
    always a prefix of the frames in the order they were queued, and as long
    as no write fails the rest of them is held by the writer or queued. *)
Theorem fifo cfg uuid l :
  let c := steps l (NewConn cfg uuid) in
  (norm <$> c.(wire)) `prefix_of` (norm <$> history l (NewConn cfg uuid)) ∧
  (Forall write_ok l → norm <$> line c = norm <$> history l (NewConn cfg uuid)).
Proof.
  cbn. split.
  - destruct (steps_logged l [] (NewConn cfg uuid)) as (rest & Hr & _).
    + apply NewConn_ok.
    + by exists [].
    + cbn in Hr. rewrite Hr. by apply prefix_app_r.
  - intros Hl. by rewrite steps_line.
Qed.

(** [C20] A graceful close flushes: when the queue has room as the close begins and
    no write fails, then after as many turns of the writer as there were
    frames waiting, and the close frame, whatever else happens in between,
    the socket has received everything queued before the close, the close
    frame, and nothing after it, and the writer has returned. *)
Theorem close_flushes code reason category c l :
  conn_ok c → c.(closeBegun) = false → c.(drained) = false → has_room c = true → Forall write_ok l →
  (length (held c ++ c.(sendCh)) < turns l false)%nat →
  let c' := steps l (closeWith code reason category c) in
  c'.(drained) = true ∧ norm <$> c'.(wire) = norm <$> (line c ++ [frameClose code reason]).
Proof.
  intros Hc Hb Hd Hr Hl Ht. cbn.
  pose proof (close_end_ok _ (close_begin_ok code reason category c Hc)) as Hok.
  fold (closeWith code reason category c) in Hok.
  rewrite closeWith_room in * by done. set (c0 := set_closing true true _ _) in *.
  assert (flushing (norm <$> line c) (norm (frameClose code reason)) c0) as Hf.
  { split; [done|]. split; [exists []|cbn; congruence].
    unfold line, held. cbn. by rewrite !fmap_app, <- !app_assoc. }
  rewrite fmap_app. cbn [fmap list_fmap].
  assert (is_close (norm (frameClose code reason))) as Hcl by by apply is_close_norm.
  assert (norm <$> (steps l c0).(wire) = (norm <$> line c) ++ [norm (frameClose code reason)]) as Hend.
  { apply (flush_progress _ _ _ false); [done|done|done|done|].
    rewrite length_fmap. unfold line. rewrite length_app. cbn. lia. }
  split; [|done]. apply (wire_close_drained _ (norm (frameClose code reason))); [|done|].
  - apply steps_ok, Hf.
  - rewrite Hend. apply elem_of_app. right. by left.
Qed.

(** The sequential operations are sequences of the atomic actions, whatever
    other goroutines are in the middle of, so what holds along every
    interleaving holds of them. *)
Theorem operations_are_steps sel gone msg c :
  steps (send_actions sel msg c) c = Send sel msg c ∧
  Ping sel c = (if c.(closed) then c else step (APing sel) c) ∧
  (∀ c', SendNow sel gone msg c = Some c' →
     c' = c ∨ c' = steps [ASendNow sel gone msg; ACount (length c.(adding))] c) ∧
  ∀ code reason category,
    steps [ACloseBegin code reason category; ACloseEnd] c = closeWith code reason category c.
Proof.
  split; [apply Send_steps|]. split; [apply Ping_steps|].
  split; [intros c'; apply SendNow_steps|done].
Qed.

(** Only the first close counts: whatever runs between it and a second one,
    and after that, the recorded category is the first one's and the
    connection stays closed. *)
Theorem first_close_wins code r cat code' r' cat' l l' c :
  c.(closeBegun) = false →
  let c' := steps l' (closeWith code' r' cat' (steps l (closeWith code r cat c))) in
  c'.(closeReason) = Some cat ∧ c'.(closed) = true.
Proof.
  intros Hb. cbn.
  set (c1 := closeWith code r cat c).
  assert (c1.(closeBegun) = true ∧ c1.(closeReason) = Some cat ∧ c1.(closed) = true) as (Hb1 & Hr1 & Hc1).
  { unfold c1. destruct (has_room c) eqn:Hr; [by rewrite closeWith_room|by rewrite closeWith_full]. }
  rewrite <- closeWith_steps, <- !steps_app.
  destruct (first_close_stays (l ++ [ACloseBegin code' r' cat'; ACloseEnd] ++ l') c1 cat Hb1 Hr1) as [H1 H2].
  eauto.
Qed.

(** Eviction of a slow consumer: with a budget of [maxDrops] consecutive
    drops, a connection survives every shorter run of dropped messages with
    nothing but the count changed, and a run that reaches the budget closes
    it as a slow consumer, with the 1013 close frame queued if there is room.
    An accepted message starts the count again. *)
Theorem slow_consumer_evicted sel c msgs :
  c.(closed) = false → c.(closeBegun) = false → 0 < c.(maxDrops) → c.(consecDrops) < c.(maxDrops) →
  Forall (refuses c) msgs →
  let c' := foldl (λ c msg, Send sel msg c) c msgs in
  let n := c.(consecDrops) + Z.of_nat (length msgs) in
  (n < c.(maxDrops) → c' = set_counts c.(bufBytes) n c) ∧
  (c.(maxDrops) ≤ n → c'.(closed) = true ∧ c'.(closeReason) = Some "slow_consumer" ∧
     c'.(sendCh) = c.(sendCh) ++ (if has_room c then [frameClose CloseTryAgainLater "slow consumer"] else [])) ∧
  (∀ msg, (SendReporting sel msg c).1 = true → (Send sel msg c).(consecDrops) = 0).
Proof.
  cbn. intros Hcl Hb Hmax Hd Hm. split; [|split].
  - revert c Hcl Hb Hmax Hd Hm. induction msgs as [|m msgs IH]; intros c Hcl Hb Hmax Hd Hm Hn.
    { cbn. rewrite Z.add_0_r. by destruct c. }
    inversion Hm; subst. cbn [length foldl] in *. rewrite drop_below by (done || lia).
    rewrite IH; try done; cbn in *; [|lia|lia]. unfold set_counts; cbn. f_equal. lia.
  - revert c Hcl Hb Hmax Hd Hm. induction msgs as [|m msgs IH]; intros c Hcl Hb Hmax Hd Hm Hn.
    { cbn in *. lia. }
    inversion Hm; subst. cbn [length foldl] in *.
    destruct (decide (c.(consecDrops) + 1 < c.(maxDrops))).
    { rewrite drop_below by done. apply (IH (set_counts _ _ c)); try done; cbn in *; lia. }
    rewrite drop_last by (done || lia). 
    set (c1 := set_counts _ _ c). destruct (has_room c) eqn:Hr.
    + rewrite closeWith_room by done. by rewrite Sends_closed.
    + rewrite closeWith_full by done. rewrite Sends_closed by done. cbn. by rewrite app_nil_r.
  - intros msg. unfold Send, SendReporting. destruct (check_send msg c); try done.
    by destruct (select_send _ _ _).
Qed.

(** Who is evicted because the queue is full is never told and never
    disconnected: the close frame is not queued, [closed] turns every further
    message away, and as long as the socket accepts what is left of the queue
    the writer neither sends a close frame nor returns, under any
    interleaving. *)
Theorem evicted_not_told sel msg c l :
  conn_ok c → c.(closed) = false → c.(closeBegun) = false → c.(drained) = false →
  0 < c.(maxDrops) → c.(maxDrops) ≤ c.(consecDrops) + 1 → has_room c = false → Forall write_ok l →
  let c' := steps l (Send sel msg c) in
  c'.(closed) = true ∧ c'.(closeReason) = Some "slow_consumer" ∧
  c'.(drained) = false ∧ closes c'.(wire) = 0%nat ∧ ∀ m, SendReporting sel m c' = (false, c').
Proof.
  cbn. intros Hc Hcl Hb Hd Hmax Hn Hr Hl.
  rewrite drop_last by (done || by left). rewrite closeWith_full by done.
  set (c0 := set_closing true true _ _).
  assert (zombie (steps l c0)) as (Hb' & Hd' & Hz).
  { apply (steps_ind zombie write_ok); [intros ????; by apply zombie_step|done|].
    split; [done|]. split; [done|]. pose proof (ok_once _ Hc) as H1. rewrite Hb in H1.
    unfold line, held in *. cbn. lia. }
  destruct (first_close_stays l c0 "slow_consumer") as [Hr' Hcl']; [done|done|]. specialize (Hcl' eq_refl).
  split; [done|]. split; [done|]. split; [done|]. split; [|intros m; by apply Send_closed].
  unfold line in Hz. rewrite closes_app in Hz. lia.
Qed.

(** ** Concrete runs *)

Definition small : Conn :=
  NewConn {| cfg_UserKey := "u"; MaxBufferedBytes := 10; SendChanCapacity := 2; cfg_ID := "c1"; MaxConsecutiveDrops := 2 |} "".

Lemma close_flushes_witness :
  let c' := steps [ARecv; AWrite true; ACheck "late"; ARecv; APing false; AWrite true]
              (closeWith 1000 "bye" "server" (Send true "hi" small)) in
  c'.(drained) = true ∧ c'.(wire) = [frameText "hi"; frameClose 1000 "bye"].
Proof.
  destruct (close_flushes 1000 "bye" "server" (Send true "hi" small)
              [ARecv; AWrite true; ACheck "late"; ARecv; APing false; AWrite true]) as [Hd Hw];
    [apply Send_ok, NewConn_ok|reflexivity|reflexivity|reflexivity|by repeat constructor|vm_compute; lia|].
  split; [exact Hd|vm_compute; reflexivity].
Defined.

Lemma first_close_wins_witness :
  (steps [ARecv] (closeWith 1013 "slow" "slow_consumer" (steps [AWrite true]
     (closeWith 1000 "bye" "server" small)))).(closeReason) = Some "server".
Proof. apply (first_close_wins 1000 "bye" "server" 1013 "slow" "slow_consumer" [AWrite true] [ARecv] small eq_refl). Defined.

Lemma slow_consumer_evicted_witness :
  (foldl (λ c msg, Send true msg c) small ["longer than 10"; "longer than 10"]).(closeReason) = Some "slow_consumer".
Proof.
  destruct (slow_consumer_evicted true small ["longer than 10"; "longer than 10"]) as (_ & H & _);
    [reflexivity|reflexivity|reflexivity|reflexivity| |].
  - constructor; [by right|]. constructor; [by right|constructor].
  - apply H. vm_compute. by intros.
Defined.

Definition full : Conn := Send true "c" (Send true "b" (Send true "a" small)).

Lemma evicted_not_told_witness :
  let c' := steps [ARecv; AWrite true; ARecv; AWrite true; ARecv] (Send true "d" full) in
  c'.(closed) = true ∧ c'.(drained) = false ∧ c'.(wire) = [frameText "a"; frameText "b"] ∧ c'.(sendCh) = [] ∧
  closes c'.(wire) = 0%nat.
Proof.
  destruct (evicted_not_told true "d" full [ARecv; AWrite true; ARecv; AWrite true; ARecv])
    as (H1 & _ & H2 & H3 & _);
    [do 3 apply Send_ok; apply NewConn_ok|done|done|done|done|done|done|by repeat constructor|].
  split; [exact H1|]. split; [exact H2|]. split; [reflexivity|]. split; [reflexivity|exact H3].
Defined.
