(* ===== verification/Watch.v ===== *)
(** * The goroutines around a connection (internal/connection/hub.go, [Conn.Run])

    The reader, the idle watcher and the expiry watcher, each split at its
    channel operations, run beside the senders, closers and the writer of
    [Conn].  Time is a clock in ns that only passes by [Pass]; a timer can be
    taken from any moment at or after its deadline, for goroutines run when
    they are scheduled.  Where Go's [select] has several cases ready, any may
    be taken: each is an event of its own. *)

From S2P Require Import Prelude GoStrings Conn.
Local Open Scope Z_scope.

Definition ClosePeer : string := "peer".
Definition CloseReadError : string := "read_error".
Definition CloseIdleTimeout : string := "idle_timeout".
Definition CloseTokenExpired : string := "token_expired".
Definition CloseServer : string := "server".
Definition CloseSlowConsumer : string := "slow_consumer".

(** [Reading]: in the loop of [runReader]; [ReadDone]: it returned, with
    [readErr]; [RunDone]: [Run] has closed the connection and calls [onDone]. *)
Inductive reader_state : Type := Reading | ReadDone (readErr : bool) | RunDone.

(** [Unstarted]: the goroutine has not got to its timers; [NoTimeout]: it
    waits for the context only; [Armed]: timer and ticker are set. *)
Inductive idle_state : Type := Unstarted | NoTimeout | Armed (deadline : Z) (tick : option Z) | IdleDone.

Inductive expiry_state : Type := ExpiryWaits (at_ : Z) | ExpiryDone.

Record settings : Type := { idleTimeout : Z; keepAlive : bool; expiresAt : option Z }.

Record group : Type := {
  conn : Conn;
  clock : Z;
  ctx_done : bool;
  reader : reader_state;
  (** [idleReset], a channel of one place. *)
  idleReset : bool;
  idle : idle_state;
  expiry : expiry_state;
  (** For the specification: when the socket was last heard of, the start
      included. *)
  heard : Z;
}.

(** [Run] with its goroutines just spawned. *)
Definition start (s : settings) (c : Conn) (t : Z) : group := {|
  conn := c; clock := t; ctx_done := false; reader := Reading; idleReset := false; idle := Unstarted;
  expiry := match s.(expiresAt) with Some e => ExpiryWaits e | None => ExpiryDone end; heard := t |}.

Definition set_conn (c : Conn) (g : group) : group :=
  {| conn := c; clock := g.(clock); ctx_done := g.(ctx_done); reader := g.(reader); idleReset := g.(idleReset);
     idle := g.(idle); expiry := g.(expiry); heard := g.(heard) |}.
Definition set_reader (r : reader_state) (g : group) : group :=
  {| conn := g.(conn); clock := g.(clock); ctx_done := g.(ctx_done); reader := r; idleReset := g.(idleReset);
     idle := g.(idle); expiry := g.(expiry); heard := g.(heard) |}.
Definition set_idle (tok : bool) (i : idle_state) (g : group) : group :=
  {| conn := g.(conn); clock := g.(clock); ctx_done := g.(ctx_done); reader := g.(reader); idleReset := tok;
     idle := i; expiry := g.(expiry); heard := g.(heard) |}.
Definition set_expiry (e : expiry_state) (g : group) : group :=
  {| conn := g.(conn); clock := g.(clock); ctx_done := g.(ctx_done); reader := g.(reader); idleReset := g.(idleReset);
     idle := g.(idle); expiry := e; heard := g.(heard) |}.
Definition set_time (t : Z) (cancelled : bool) (g : group) : group :=
  {| conn := g.(conn); clock := t; ctx_done := cancelled; reader := g.(reader); idleReset := g.(idleReset);
     idle := g.(idle); expiry := g.(expiry); heard := g.(heard) |}.

Definition resetIdle (g : group) : group :=
  {| conn := g.(conn); clock := g.(clock); ctx_done := g.(ctx_done); reader := g.(reader); idleReset := true;
     idle := g.(idle); expiry := g.(expiry); heard := g.(clock) |}.

(** A ticker holds one tick; those due while it is not taken are dropped. *)
Definition next_tick (t period now : Z) : Z := t + ((now - t) / period + 1) * period.

(** ** Events *)

Inductive gevent : Type :=
| Pass (d : Z)
| Cancel
(** The reader: a message or a pong comes in; the read fails, with a close
    error it expects or another; [Run] goes on after the reader. *)
| Read
| Pong
| ReadFails (unexpected : bool)
| RunCloses
(** The idle watcher: its start, and the cases of its [select]. *)
| IdleStarts
| IdleResets
| IdlePings (sel : bool)
| IdleFires
| IdleQuits
(** The expiry watcher: its deadline, and the other two cases. *)
| ExpiryFires
| ExpiryQuits
(** Everybody else. *)
| Other (a : action).

Definition gstep (s : settings) (e : gevent) (g : group) : group :=
  match e with
  | Pass d => set_time (g.(clock) + Z.max 0 d) g.(ctx_done) g
  | Cancel => set_time g.(clock) true g
  | Read | Pong => if g.(reader) is Reading then resetIdle g else g
  | ReadFails unexpected => if g.(reader) is Reading then set_reader (ReadDone unexpected) g else g
  | RunCloses =>
      match g.(reader) with
      | ReadDone readErr =>
          set_reader RunDone
            (set_conn (closeWith CloseNormalClosure "" (if readErr then CloseReadError else ClosePeer) g.(conn)) g)
      | _ => g
      end
  | IdleStarts =>
      match g.(idle) with
      | Unstarted =>
          if s.(idleTimeout) <=? 0 then set_idle g.(idleReset) NoTimeout g
          else set_idle g.(idleReset)
                 (Armed (g.(clock) + s.(idleTimeout)) (if s.(keepAlive) then Some (g.(clock) + s.(idleTimeout) / 2) else None)) g
      | _ => g
      end
  | IdleResets =>
      match g.(idle) with
      | Armed _ tick => if g.(idleReset) then set_idle false (Armed (g.(clock) + s.(idleTimeout)) tick) g else g
      | _ => g
      end
  | IdlePings sel =>
      match g.(idle) with
      | Armed d (Some t) =>
          if t <=? g.(clock)
          then set_conn (Ping sel g.(conn)) (set_idle g.(idleReset) (Armed d (Some (next_tick t (s.(idleTimeout) / 2) g.(clock)))) g)
          else g
      | _ => g
      end
  | IdleFires =>
      match g.(idle) with
      | Armed d _ =>
          if d <=? g.(clock)
          then set_conn (closeWith CloseNormalClosure "idle timeout" CloseIdleTimeout g.(conn)) (set_idle g.(idleReset) IdleDone g)
          else g
      | _ => g
      end
  | IdleQuits =>
      match g.(idle) with
      | NoTimeout => if g.(ctx_done) then set_idle g.(idleReset) IdleDone g else g
      | Armed _ _ => if g.(ctx_done) || g.(conn).(closed) then set_idle g.(idleReset) IdleDone g else g
      | _ => g
      end
  | ExpiryFires =>
      match g.(expiry) with
      | ExpiryWaits t =>
          if t <=? g.(clock)
          then set_conn (closeWith ClosePolicyViolation "token expired" CloseTokenExpired g.(conn)) (set_expiry ExpiryDone g)
          else g
      | ExpiryDone => g
      end
  | ExpiryQuits =>
      match g.(expiry) with
      | ExpiryWaits _ => if g.(ctx_done) || g.(conn).(closed) then set_expiry ExpiryDone g else g
      | ExpiryDone => g
      end
  | Other a => set_conn (step a g.(conn)) g
  end.

Definition gsteps (s : settings) (l : list gevent) (g : group) : group := foldl (λ g e, gstep s e g) g l.

(** ** Invariant *)

(** Closers other than these goroutines: the server and the eviction of a
    slow consumer. *)
Definition foreign (a : action) : Prop :=
  if a is ACloseBegin _ _ cat then cat = CloseServer ∨ cat = CloseSlowConsumer else True.

Definition ordinary (e : gevent) : Prop := if e is Other a then foreign a else True.

Lemma closeWith_closed code r cat c : (closeWith code r cat c).(closed) = true.
Proof.
  destruct (closeBegun c) eqn:B; [unfold closeWith, close_begin, close_end; by rewrite B, B|].
  destruct (has_room c) eqn:R; [by rewrite closeWith_room|by rewrite closeWith_full].
Qed.

(** The first category stays, the first one is recorded. *)
Lemma closeWith_reason code r cat c : conn_ok c →
  (closeWith code r cat c).(closeReason) = Some (default cat c.(closeReason)).
Proof.
  intros H. pose proof (ok_reason c H) as E. destruct (closeBegun c) eqn:B.
  - symmetry in E. apply bool_decide_eq_true in E as [x E]. rewrite E. cbn.
    unfold closeWith, close_begin, close_end. by rewrite B, B.
  - symmetry in E. apply bool_decide_eq_false, eq_None_not_Some in E. rewrite E. cbn.
    destruct (has_room c) eqn:R; [by rewrite closeWith_room|by rewrite closeWith_full].
Qed.

Lemma step_reason a c : conn_ok c → foreign a →
  (step a c).(closeReason) = c.(closeReason) ∨
  (step a c).(closeReason) = Some CloseServer ∨ (step a c).(closeReason) = Some CloseSlowConsumer.
Proof.
  intros H F. pose proof (ok_reason c H) as E.
  destruct a; cbn [step]; unfold count_drop, select_send, close_begin, close_end, writer_recv, writer_write;
    repeat case_match; simplify_eq; cbn in *; destruct_or?; subst; eauto.
Qed.

Lemma step_closed a c : conn_ok c → c.(closed) = true → (step a c).(closed) = true.
Proof.
  intros H Hc. pose proof (ok_closed c H Hc) as B. pose proof (ok_reason c H) as E. rewrite B in E.
  symmetry in E. apply bool_decide_eq_true in E as [r E]. by apply (close_begin_wins a c r B E).
Qed.

Record sound (s : settings) (g : group) : Prop := {
  s_conn : conn_ok g.(conn);
  s_heard : g.(heard) ≤ g.(clock);
  s_idle d k : g.(idle) = Armed d k →
    0 < s.(idleTimeout) ∧ d ≤ g.(clock) + s.(idleTimeout) ∧ (g.(idleReset) = false → g.(heard) + s.(idleTimeout) ≤ d);
  s_waits e : g.(expiry) = ExpiryWaits e → s.(expiresAt) = Some e;
  s_over : g.(expiry) = ExpiryDone → s.(expiresAt) = None ∨ g.(ctx_done) = true ∨ g.(conn).(closed) = true;
  s_run : g.(reader) = RunDone → g.(conn).(closed) = true;
  s_token : g.(conn).(closeReason) = Some CloseTokenExpired → ∃ e, s.(expiresAt) = Some e ∧ e ≤ g.(clock);
  s_idled : g.(conn).(closeReason) = Some CloseIdleTimeout → g.(idle) = IdleDone ∧ 0 < s.(idleTimeout);
  s_peer r : r = ClosePeer ∨ r = CloseReadError → g.(conn).(closeReason) = Some r → g.(reader) = RunDone;
}.

Lemma start_sound s cfg uuid t : sound s (start s (NewConn cfg uuid) t).
Proof.
  split; cbn; try done; [apply NewConn_ok|by case_match; intros; simplify_eq|].
  case_match; [done|by left].
Qed.

Lemma closeWith_ok code r cat c : conn_ok c → conn_ok (closeWith code r cat c).
Proof. rewrite <- closeWith_steps. apply steps_ok. Qed.

Lemma Ping_cases sel c : Ping sel c = c ∨ Ping sel c = step (APing sel) c.
Proof. rewrite Ping_steps. destruct (closed c); auto. Qed.

(** A change of the connection that records no category. *)
Lemma quiet_sound s a g : foreign a → sound s g → sound s (set_conn (step a g.(conn)) g).
Proof.
  intros F [Hc Hh Hi Hw Ho Hr Ht Hd Hp].
  pose proof (step_reason a _ Hc F) as R. pose proof (step_closed a _ Hc) as C.
  split; cbn; try done; [by apply step_ok|naive_solver|naive_solver| | |].
  1-2: intros E; destruct R as [R|[R|R]]; rewrite R in E; [auto|done|done].
  intros r Hr' E. destruct R as [R|[R|R]]; rewrite R in E; [by eapply Hp|..]; simplify_eq; by destruct Hr'.
Qed.

(** A close by one of these goroutines, explained by the state it leaves. *)
Lemma close_sound s code r cat g g' :
  sound s g →
  g'.(conn) = closeWith code r cat g.(conn) → g'.(heard) ≤ g'.(clock) → g'.(clock) = g.(clock) →
  (∀ d k, g'.(idle) = Armed d k → g.(idle) = Armed d k ∧ g'.(idleReset) = g.(idleReset) ∧ g'.(heard) = g.(heard)) →
  (∀ e, g'.(expiry) = ExpiryWaits e → g.(expiry) = ExpiryWaits e) →
  (cat = CloseTokenExpired → ∃ e, s.(expiresAt) = Some e ∧ e ≤ g'.(clock)) →
  (g.(idle) = IdleDone → g'.(idle) = IdleDone) → (cat = CloseIdleTimeout → g'.(idle) = IdleDone ∧ 0 < s.(idleTimeout)) →
  (g.(reader) = RunDone → g'.(reader) = RunDone) → (cat = ClosePeer ∨ cat = CloseReadError → g'.(reader) = RunDone) →
  sound s g'.
Proof.
  intros [Hc Hh Hi Hw Ho Hr Ht Hd Hp] E1 E2 E3 E4 E5 E6 E7 E8 E9 E10.
  pose proof (closeWith_reason code r cat _ Hc) as R. pose proof (closeWith_closed code r cat g.(conn)) as C.
  split; rewrite ?E1; try done; [by apply closeWith_ok|..].
  - intros d k E. apply E4 in E as (E & -> & ->). rewrite E3. by eapply Hi.
  - auto.
  - by right; right.
  - rewrite R. destruct (closeReason (conn g)); cbn; intros [= ->]; [rewrite E3; auto|auto].
  - rewrite R. destruct (closeReason (conn g)); cbn; intros [= ->]; [naive_solver|auto].
  - rewrite R. intros q Hq. destruct (closeReason (conn g)) eqn:Q; cbn; intros [= ->]; [eapply E9, Hp; eauto|auto].
Qed.

Lemma gstep_sound s e g : ordinary e → sound s g → sound s (gstep s e g).
Proof.
  intros O G. pose proof G as [Hc Hh Hi Hw Ho Hr Ht Hd Hp]. destruct e; cbn [gstep].
  - split; cbn; try done; [lia| |].
    + intros dl k E. destruct (Hi dl k E) as (? & ? & ?). split_and!; [done|lia|done].
    + intros E. destruct (Ht E) as (x & ? & ?). exists x. split; [done|lia].
  - split; cbn; try done. auto.
  - destruct (reader g) eqn:R; try done. split; cbn; try done; [|congruence|intros q Hq E; pose proof (Hp q Hq E); congruence].
    intros dl k E. destruct (Hi dl k E) as (? & ? & _). by split_and!.
  - destruct (reader g) eqn:R; try done. split; cbn; try done; [|congruence|intros q Hq E; pose proof (Hp q Hq E); congruence].
    intros dl k E. destruct (Hi dl k E) as (? & ? & _). by split_and!.
  - destruct (reader g) eqn:R; try done. split; cbn; try done. intros q Hq E; pose proof (Hp q Hq E); congruence.
  - destruct (reader g) eqn:R; try done. eapply close_sound; [done|reflexivity|..]; cbn; try done; [by destruct readErr..].
  - destruct (idle g) eqn:I; try done. destruct (Z.leb_spec (idleTimeout s) 0).
    + split; cbn; try done. intros E; pose proof (proj1 (Hd E)); congruence.
    + split; cbn; try done; [intros ? ? [= <- _]; split_and!; [done|lia|lia]|]. intros E; pose proof (proj1 (Hd E)); congruence.
  - destruct (idle g) as [| |dl k|] eqn:I; try done. destruct (idleReset g); [|done].
    destruct (Hi dl k eq_refl) as (? & _). split; cbn; try done; [intros ? ? [= <- _]; split_and!; [done|lia|lia]|].
    intros E; pose proof (proj1 (Hd E)); congruence.
  - destruct (idle g) as [| |dl [t|]|] eqn:I; try done. case_match; [|done].
    assert (sound s (set_idle (idleReset g) (Armed dl (Some (next_tick t (idleTimeout s / 2) (clock g)))) g)) as G'.
    { split; cbn; try done; [intros ? ? [= <- _]; by eapply Hi|]. intros E; pose proof (proj1 (Hd E)); congruence. }
    destruct (Ping_cases sel (conn g)) as [-> | ->]; [by destruct G'; split|]. by apply (quiet_sound s (APing sel)) in G'.
  - destruct (idle g) as [| |dl k|] eqn:I; try done. case_match; [|done].
    destruct (Hi dl k eq_refl) as (? & _). eapply close_sound; [done|reflexivity|..]; cbn; try done.
    all: intros [E|E]; discriminate E.
  - destruct (idle g) as [| |dl k|] eqn:I; try done; case_match; try done.
    all: split; cbn; try done; [..|intros E; destruct (Hd E); congruence]; naive_solver.
  - destruct (expiry g) as [t|] eqn:X; [|done]. destruct (Z.leb_spec t (clock g)); [|done].
    eapply close_sound; [done|reflexivity|..]; cbn; try done; [intros _; exists t; auto|intros [E|E]; discriminate E].
  - destruct (expiry g) as [t|] eqn:X; [|done]. case_match eqn:D; [|done]. split; cbn; try done.
    intros _. right. by apply orb_true_iff in D.
  - by apply quiet_sound.
Qed.

Lemma gsteps_sound s l g : Forall ordinary l → sound s g → sound s (gsteps s l g).
Proof.
  intros L. revert g. induction L as [|e l O L IH]; intros g G; [done|]. cbn. by apply IH, gstep_sound.
Qed.

(** ** Claims *)

Section claims.
Context (s : settings) (cfg : ConnConfig) (uuid : string) (t0 : Z) (l : list gevent).
Abbreviation g := (gsteps s l (start s (NewConn cfg uuid) t0)).

(** [C32] A socket does not outlive its credential, however messages, pongs, pings, timers, senders and closers
    interleave: once the clock has reached the deadline, the expiry watcher's next turn leaves the connection closed,
    unless it was already gone because the server ended the connection's context; and a close is put down to an
    expired token only when a token had a deadline and it had passed. *)
Theorem credential_enforced : Forall ordinary l →
  (∀ e, s.(expiresAt) = Some e → e ≤ g.(clock) →
     g.(ctx_done) = true ∨ (gstep s ExpiryFires g).(conn).(closed) = true) ∧
  (g.(conn).(closeReason) = Some CloseTokenExpired → ∃ e, s.(expiresAt) = Some e ∧ e ≤ g.(clock)).
Proof.
  intros O. pose proof (gsteps_sound s l _ O (start_sound s cfg uuid t0)) as [Hc Hh Hi Hw Ho Hr Ht Hd Hp]. cbn beta in *.
  split; [|done]. intros e E L. cbn [gstep]. destruct (expiry g) as [t|].
  - right. specialize (Hw t eq_refl). replace e with t in L by congruence. rewrite (proj2 (Z.leb_le t (clock g))) by done. apply closeWith_closed.
  - destruct (Ho eq_refl) as [N|[?|?]]; [congruence|auto..].
Qed.

(** [C36] The idle timeout is exact: an armed timer never waits longer than the timeout from now, and when it is taken
    the connection is closed; it is taken only after the socket has been silent for the whole timeout, save that a
    reset may lie unread beside it; and only a timeout that is set ever closes a socket as idle. *)
Theorem idle_exact : Forall ordinary l →
  (∀ d k, g.(idle) = Armed d k → d ≤ g.(clock) + s.(idleTimeout) ∧
     (d ≤ g.(clock) → (gstep s IdleFires g).(conn).(closed) = true ∧
        (g.(idleReset) = true ∨ g.(heard) + s.(idleTimeout) ≤ g.(clock)))) ∧
  (g.(conn).(closeReason) = Some CloseIdleTimeout → 0 < s.(idleTimeout)).
Proof.
  intros O. pose proof (gsteps_sound s l _ O (start_sound s cfg uuid t0)) as [Hc Hh Hi Hw Ho Hr Ht Hd Hp]. cbn beta in *.
  split; [|by intros E; apply Hd]. intros d k E. destruct (Hi d k E) as (Hpos & Hle & Hres). split; [done|].
  intros L. cbn [gstep]. rewrite E, (proj2 (Z.leb_le d (clock g))) by done. split; [apply closeWith_closed|].
  destruct (idleReset g); [by left|right]. specialize (Hres eq_refl). lia.
Qed.

(** However a connection ends, [Run] hands it to the clean-up closed, with a recorded category and at most one close
    frame on its way. *)
Theorem run_ends_closed : Forall ordinary l → g.(reader) = RunDone →
  g.(conn).(closed) = true ∧ (∃ r, g.(conn).(closeReason) = Some r) ∧ (closes (line g.(conn)) ≤ 1)%nat.
Proof.
  intros O R. pose proof (gsteps_sound s l _ O (start_sound s cfg uuid t0)) as [Hc Hh Hi Hw Ho Hr Ht Hd Hp]. cbn beta in *.
  specialize (Hr R). split; [done|]. pose proof (ok_closed _ Hc Hr) as B. pose proof (ok_reason _ Hc) as E. rewrite B in E.
  symmetry in E. apply bool_decide_eq_true in E as [r E]. split; [by exists r|]. pose proof (ok_once _ Hc) as Ho'. by rewrite B in Ho'.
Qed.
End claims.

(** ** Witnesses *)

Definition sec : Z := 1000000000.
Definition demo : settings := {| idleTimeout := 300 * sec; keepAlive := true; expiresAt := Some (60 * sec) |}.
Definition demo_cfg : ConnConfig :=
  {| cfg_UserKey := "alice"; MaxBufferedBytes := 0; SendChanCapacity := 0; cfg_ID := ""; MaxConsecutiveDrops := 100 |}.

(** A client that keeps talking past its deadline. *)
Definition chatty : list gevent :=
  [IdleStarts; Pass (30 * sec); Read; IdleResets; Other ARecv; Pass (40 * sec); Pong; IdleResets].

Lemma credential_enforced_witness :
  let g := gsteps demo chatty (start demo (NewConn demo_cfg "c1") 0) in
  60 * sec ≤ g.(clock) ∧ g.(ctx_done) = false ∧
  ((∀ e, demo.(expiresAt) = Some e → e ≤ g.(clock) → g.(ctx_done) = true ∨ (gstep demo ExpiryFires g).(conn).(closed) = true) ∧
   (g.(conn).(closeReason) = Some CloseTokenExpired → ∃ e, demo.(expiresAt) = Some e ∧ e ≤ g.(clock))).
Proof.
  cbv zeta. split; [vm_compute; discriminate|]. split; [reflexivity|].
  apply (credential_enforced demo demo_cfg "c1" 0 chatty). repeat constructor.
Defined.

(** A silent one with no deadline. *)
Definition silent_client : list gevent := [IdleStarts; Pass (150 * sec); IdlePings true; Pass (150 * sec)].
Definition no_deadline : settings := {| idleTimeout := 300 * sec; keepAlive := true; expiresAt := None |}.

Lemma idle_exact_witness :
  let g := gsteps no_deadline silent_client (start no_deadline (NewConn demo_cfg "c1") 0) in
  g.(idle) = Armed (300 * sec) (Some (300 * sec)) ∧
  ((∀ d k, g.(idle) = Armed d k → d ≤ g.(clock) + no_deadline.(idleTimeout) ∧
     (d ≤ g.(clock) → (gstep no_deadline IdleFires g).(conn).(closed) = true ∧
        (g.(idleReset) = true ∨ g.(heard) + no_deadline.(idleTimeout) ≤ g.(clock)))) ∧
   (g.(conn).(closeReason) = Some CloseIdleTimeout → 0 < no_deadline.(idleTimeout))).
Proof.
  cbv zeta. split; [vm_compute; reflexivity|].
  apply (idle_exact no_deadline demo_cfg "c1" 0 silent_client). repeat constructor.
Defined.

Definition gone : list gevent := [Read; ReadFails false; RunCloses].

Lemma run_ends_closed_witness :
  let g := gsteps demo gone (start demo (NewConn demo_cfg "c1") 0) in
  g.(reader) = RunDone ∧ (g.(conn).(closed) = true ∧ (∃ r, g.(conn).(closeReason) = Some r) ∧ (closes (line g.(conn)) ≤ 1)%nat).
Proof.
  cbv zeta. split; [reflexivity|].
  apply (run_ends_closed demo demo_cfg "c1" 0 gone); [repeat constructor|reflexivity].
Defined.

(** Both channels ready: the select may take the timer although the client has
    just been heard of. *)
Example reset_ignored :
  let g := gsteps no_deadline [IdleStarts; Pass (300 * sec); Read; IdleFires] (start no_deadline (NewConn demo_cfg "c1") 0) in
  g.(heard) = g.(clock) ∧ g.(conn).(closeReason) = Some CloseIdleTimeout.
Proof. vm_compute. done. Qed.
