(* ===== verification/Hub.v ===== *)
(** * The hub of a process (internal/connection/hub.go, [Hub])

    The open connections grouped by user.  Go passes [*Conn] pointers around;
    here a [handle] is the pointer with the two fields that never change, and
    the hub carries the heap of connection objects.  Every method is one
    critical section under [mu], and hands frames to connections after it. *)

From S2P Require Import Prelude GoStrings Redis RedisModel Prog Time StreamID Json Protocol Judge RateLimit Bus Conn.
Local Open Scope Z_scope.

Record handle : Type := { ptr : positive; conn_id : string; conn_user : string }.

#[export] Instance handle_eq_dec : EqDecision handle.
Proof. solve_decision. Defined.

#[export] Instance handle_countable : Countable handle.
Proof.
  refine (inj_countable' (λ h, (ptr h, conn_id h, conn_user h))
            (λ '(p, i, u), {| ptr := p; conn_id := i; conn_user := u |}) _).
  by intros [].
Defined.

Record Hub : Type := { users : gmap string (list handle); heap : gmap handle Conn }.

Definition NewHub : Hub := {| users := ∅; heap := ∅ |}.

(** Go ranges over a map in an unspecified order. *)
Class MapRange : Type := {
  range_users : gmap string (list handle) → list (string * list handle);
  range_users_perm m : range_users m ≡ₚ map_to_list m;
}.

Definition conns_of (h : Hub) (userKey : string) : list handle := default [] (h.(users) !! userKey).

Definition Add (c : handle) (h : Hub) : bool * Hub :=
  let first := bool_decide (conns_of h c.(conn_user) = []) in
  (first, {| users := <[c.(conn_user) := conns_of h c.(conn_user) ++ [c]]> h.(users); heap := h.(heap) |}).

Definition Remove (c : handle) (h : Hub) : bool * Hub :=
  let out := filter (λ x, x ≠ c) (conns_of h c.(conn_user)) in
  if decide (out = []) then (true, {| users := delete c.(conn_user) h.(users); heap := h.(heap) |})
  else (false, {| users := <[c.(conn_user) := out]> h.(users); heap := h.(heap) |}).

(** A frame for one connection object, and whether it was queued. *)
Definition send_conn (c : handle) (msg : string) (h : Hub) : bool * Hub :=
  match h.(heap) !! c with
  | None => (false, h)
  | Some x =>
      let '(ok, x) := Conn.SendReporting true msg x in
      (ok, {| users := h.(users); heap := <[c := x]> h.(heap) |})
  end.

Definition SendToUser (userKey msg : string) (h : Hub) : Hub :=
  foldl (λ h c, (send_conn c msg h).2) h (conns_of h userKey).

(** The two nested loops of [SendToConn], each left at the first match. *)
Definition find_conn `{!MapRange} (connID : string) (h : Hub) : option handle :=
  list_find (λ c, c.(conn_id) = connID)
    (mjoin (range_users h.(users)).*2) ≫= λ p, Some p.2.

Definition SendToConn `{!MapRange} (connID msg : string) (h : Hub) : Hub :=
  match find_conn connID h with Some c => (send_conn c msg h).2 | None => h end.

Definition Snapshot `{!MapRange} (h : Hub) : list handle := mjoin (range_users h.(users)).*2.

(** [WaitDrained], as its context ends: how many writers have not returned. *)
Definition WaitDrained (conns : list handle) (h : Hub) : nat :=
  length (filter (λ c, (drained <$> h.(heap) !! c) ≠ Some true) conns).

(** The hub and its connections are what the bus delivers to. *)
#[export] Instance hub_target `{!MapRange} : Target handle Hub := {|
  Bus.Send := λ c msg h, (send_conn c msg h).2;
  Bus.SendReporting := λ c, Some (send_conn c);
  Bus.SubscriberID := λ c, Some c.(conn_id);
  Bus.SendToUser := SendToUser;
  Bus.SendToConn := SendToConn;
|}.

(** ** Lemmas *)

(** What registering and leaving keep true. *)
Record hub_ok (h : Hub) : Prop := {
  hub_nonempty u l : h.(users) !! u = Some l → l ≠ [];
  hub_keyed u c : c ∈ conns_of h u → c.(conn_user) = u;
  hub_nodup u : NoDup (conns_of h u);
}.

Definition registered (h : Hub) (c : handle) : Prop := c ∈ conns_of h c.(conn_user).

#[export] Instance registered_dec h c : base.Decision (registered h c).
Proof. unfold registered. apply _. Defined.

Lemma conns_of_insert h heap' k u l :
  conns_of {| users := <[k := l]> h.(users); heap := heap' |} u = if decide (k = u) then l else conns_of h u.
Proof.
  unfold conns_of; cbn. destruct (decide (k = u)) as [->|]; [by rewrite lookup_insert_eq|by rewrite lookup_insert_ne].
Qed.

Lemma conns_of_delete h heap' k u :
  conns_of {| users := delete k h.(users); heap := heap' |} u = if decide (k = u) then [] else conns_of h u.
Proof.
  unfold conns_of; cbn. destruct (decide (k = u)) as [->|]; [by rewrite lookup_delete_eq|by rewrite lookup_delete_ne].
Qed.

Create Rewrite HintDb hub.
#[export] Hint Rewrite conns_of_insert conns_of_delete : hub.

Lemma conns_of_Add c h u :
  conns_of (Add c h).2 u = if decide (c.(conn_user) = u) then conns_of h u ++ [c] else conns_of h u.
Proof. unfold Add. cbn. autorewrite with hub. by destruct (decide _) as [->|]. Qed.

Lemma conns_of_Remove c h u :
  conns_of (Remove c h).2 u =
  if decide (c.(conn_user) = u) then filter (λ x, x ≠ c) (conns_of h u) else conns_of h u.
Proof.
  unfold Remove. destruct (decide (filter _ _ = [])) as [E|]; cbn; autorewrite with hub;
    destruct (decide (conn_user c = u)) as [<-|]; done.
Qed.

Lemma Add_ok c h : hub_ok h → ¬ registered h c → hub_ok (Add c h).2.
Proof.
  intros [Hn Hk Hd] Hr. split.
  - intros u l. cbn. intros [[<- <-]|[_ ?]]%lookup_insert_Some; [by destruct (conns_of _ _)|eauto].
  - intros u x. rewrite conns_of_Add. case_decide; [|apply Hk].
    intros [?|Hx]%elem_of_app; [by apply Hk|]. by apply list_elem_of_singleton in Hx as ->.
  - intros u. rewrite conns_of_Add. case_decide; [|done]. subst u.
    apply NoDup_app. split; [done|]. split; [|by apply NoDup_singleton].
    intros x Hx Hxc. apply list_elem_of_singleton in Hxc as ->. done.
Qed.

Lemma Remove_ok c h : hub_ok h → hub_ok (Remove c h).2.
Proof.
  intros [Hn Hk Hd]. split.
  - intros u l. unfold Remove. destruct (decide (filter _ _ = [])); cbn.
    + intros [_ ?]%lookup_delete_Some. eauto.
    + intros [[<- <-]|[_ ?]]%lookup_insert_Some; eauto.
  - intros u x. rewrite conns_of_Remove. case_decide; [|apply Hk].
    intros [_ ?]%list_elem_of_filter. eauto.
  - intros u. rewrite conns_of_Remove. case_decide; [|done]. by apply NoDup_filter.
Qed.

Lemma send_conn_users c msg h : (send_conn c msg h).2.(users) = h.(users).
Proof. unfold send_conn. destruct (heap h !! c) as [x|]; [|done]. by destruct (SendReporting _ _ _). Qed.

Lemma send_conn_heap c msg h d :
  (send_conn c msg h).2.(heap) !! d =
  if decide (d = c) then Conn.Send true msg <$> h.(heap) !! c else h.(heap) !! d.
Proof.
  unfold send_conn, Conn.Send. destruct (heap h !! c) as [x|] eqn:E.
  - destruct (SendReporting true msg x) as [ok x'] eqn:Ex; cbn.
    destruct (decide (d = c)) as [->|]; [by rewrite lookup_insert_eq; cbn; rewrite Ex|by rewrite lookup_insert_ne].
  - by destruct (decide (d = c)) as [->|].
Qed.

Lemma send_all msg l h :
  NoDup l →
  let h' := foldl (λ h c, (send_conn c msg h).2) h l in
  h'.(users) = h.(users) ∧
  ∀ d, h'.(heap) !! d = if decide (d ∈ l) then Conn.Send true msg <$> h.(heap) !! d else h.(heap) !! d.
Proof.
  intros Hd. revert h. induction Hd as [|c l Hc Hd IH]; intros h; [done|]. cbn.
  destruct (IH (send_conn c msg h).2) as [Hu Hh]. split; [by rewrite Hu, send_conn_users|].
  intros d. rewrite Hh, send_conn_heap.
  destruct (decide (d = c)) as [->|Hne].
  - rewrite decide_False by done. by rewrite decide_True by by left.
  - destruct (decide (d ∈ l)); [rewrite decide_True by by right|rewrite decide_False]; try done.
    intros [->|?]%elem_of_cons; done.
Qed.

Section ranges.
Context `{!MapRange}.

Lemma range_elem h c : hub_ok h → c ∈ mjoin (range_users h.(users)).*2 ↔ registered h c.
Proof.
  intros Hh. rewrite list_elem_of_join. unfold registered. split.
  - intros (l & Hc & Hl). apply list_elem_of_fmap in Hl as ([u l'] & -> & Hl).
    rewrite range_users_perm in Hl. apply elem_of_map_to_list in Hl. cbn in Hc.
    assert (c ∈ conns_of h u) as Hu by (unfold conns_of; by rewrite Hl).
    by rewrite (hub_keyed _ Hh _ _ Hu).
  - unfold conns_of. destruct (users h !! conn_user c) as [l|] eqn:E; cbn; [|by intros ?%not_elem_of_nil].
    intros Hc. exists l. split; [done|]. apply list_elem_of_fmap. exists (conn_user c, l). split; [done|].
    rewrite range_users_perm. by apply elem_of_map_to_list.
Qed.

Lemma range_nodup h : hub_ok h → NoDup (mjoin (range_users h.(users)).*2).
Proof.
  intros Hh. assert (NoDup (range_users h.(users)).*1) as Hd.
  { rewrite range_users_perm. apply NoDup_fst_map_to_list. }
  assert (∀ p, p ∈ range_users h.(users) → conns_of h p.1 = p.2) as Hp.
  { intros [u l] Hin. rewrite range_users_perm in Hin. apply elem_of_map_to_list in Hin.
    unfold conns_of. cbn. by rewrite Hin. }
  revert Hd Hp. generalize (range_users h.(users)). intros ps.
  induction ps as [|[u l] ps IH]; intros Hd Hp; cbn; [constructor|].
  apply NoDup_cons in Hd as [Hu Hd]. apply NoDup_app. split; [|split].
  - specialize (Hp (u, l) ltac:(by left)). cbn in Hp. rewrite <- Hp. apply Hh.
  - intros c Hc Hin. apply list_elem_of_join in Hin as (l' & Hc' & Hl').
    apply list_elem_of_fmap in Hl' as ([u' l''] & -> & Hl'). cbn in *.
    pose proof (Hp (u, l) ltac:(by left)) as H1. pose proof (Hp (u', l'') ltac:(by right)) as H2. cbn in *.
    rewrite <- H1 in Hc. rewrite <- H2 in Hc'.
    pose proof (hub_keyed _ Hh _ _ Hc). pose proof (hub_keyed _ Hh _ _ Hc'). subst u.
    apply Hu. apply list_elem_of_fmap. exists (u', l''). by split; [|].
  - apply IH; [done|]. intros p Hin. apply Hp. by right.
Qed.
End ranges.

(** ** Runs of connects and disconnects *)

Inductive hub_op : Type := OAdd (c : handle) | ORemove (c : handle).

Definition hub_step (o : hub_op) (h : Hub) : bool * Hub :=
  match o with OAdd c => Add c h | ORemove c => Remove c h end.

(** A connection is added once, and removed once after that. *)
Definition hub_enabled (o : hub_op) (h : Hub) : Prop :=
  match o with OAdd c => ¬ registered h c | ORemove c => registered h c end.

Fixpoint hub_run (l : list hub_op) (h : Hub) : list (hub_op * bool) * Hub :=
  match l with
  | [] => ([], h)
  | o :: l =>
      let '(b, h) := hub_step o h in
      let '(evs, h) := hub_run l h in ((o, b) :: evs, h)
  end.

Fixpoint hub_valid (l : list hub_op) (h : Hub) : Prop :=
  match l with [] => True | o :: l => hub_enabled o h ∧ hub_valid l (hub_step o h).2 end.

(** What a presence feed sees of a user: its first socket, its last one. *)
Definition presence_change (u : string) (e : hub_op * bool) : Z :=
  match e with
  | (OAdd c, true) => if decide (c.(conn_user) = u) then 1 else 0
  | (ORemove c, true) => if decide (c.(conn_user) = u) then -1 else 0
  | _ => 0
  end.

Definition present (h : Hub) (u : string) : Z := if decide (conns_of h u = []) then 0 else 1.

Lemma hub_step_ok o h : hub_ok h → hub_enabled o h → hub_ok (hub_step o h).2.
Proof. destruct o; cbn; intros; [by apply Add_ok|by apply Remove_ok]. Qed.

Lemma hub_step_present o h u :
  hub_ok h → hub_enabled o h →
  present (hub_step o h).2 u = present h u + presence_change u (o, (hub_step o h).1).
Proof.
  intros Hh He. unfold present. destruct o as [c|c]; cbn [hub_step hub_enabled presence_change] in *.
  - rewrite conns_of_Add. unfold Add. cbn [fst].
    destruct (decide (conn_user c = u)) as [<-|]; case_bool_decide as Hf; cbn; [|..|by rewrite Z.add_0_r].
    + rewrite Hf. by rewrite decide_False by done.
    + rewrite !decide_False; [done|done|]. by destruct (conns_of h (conn_user c)).
    + by rewrite Z.add_0_r.
  - rewrite conns_of_Remove. unfold Remove.
    destruct (decide (conn_user c = u)) as [<-|].
    + assert (conns_of h (conn_user c) ≠ []) as Hn.
      { unfold registered in He. intros E. rewrite E in He. by apply not_elem_of_nil in He. }
      rewrite (decide_False _ _ Hn). by destruct (decide (filter _ _ = [])).
    + destruct (decide (filter _ _ = [])); cbn; by rewrite Z.add_0_r.
Qed.

Lemma hub_run_ok l h : hub_ok h → hub_valid l h → hub_ok (hub_run l h).2.
Proof.
  revert h. induction l as [|o l IH]; intros h Hh; [done|]. intros [He Hv]. cbn.
  pose proof (hub_step_ok o h Hh He) as Hok. destruct (hub_step o h) as [b h1]. cbn in *.
  specialize (IH _ Hok Hv). by destruct (hub_run l h1).
Qed.

Definition sum (l : list Z) : Z := foldr Z.add 0 l.

Lemma hub_run_present l h u :
  hub_ok h → hub_valid l h →
  present (hub_run l h).2 u = present h u + sum (presence_change u <$> (hub_run l h).1).
Proof.
  revert h. induction l as [|o l IH]; intros h Hh; [cbn; lia|]. intros [He Hv]. cbn.
  pose proof (hub_step_ok o h Hh He) as Hok. pose proof (hub_step_present o h u Hh He) as Hp.
  destruct (hub_step o h) as [b h1]. cbn in *. specialize (IH _ Hok Hv).
  destruct (hub_run l h1) as [evs h2]. cbn in *. unfold sum in *. by rewrite IH, Hp, Z.add_assoc.
Qed.

(** ** Claims *)

(** [C23] A presence feed fed by what [Add] and [Remove] report is right at every
    moment: for every user, the first-socket reports less the last-socket
    reports of any run make one when the user has a connection and none when
    not, however many sockets come and go; and the hub holds no empty entry,
    no connection under a foreign user, and none twice. *)
Theorem presence_balanced l u :
  hub_valid l NewHub →
  let '(evs, h) := hub_run l NewHub in
  hub_ok h ∧ present h u = sum (presence_change u <$> evs).
Proof.
  intros Hv. assert (hub_ok NewHub) as H0 by (split; cbn; [done|by intros ?? ?%not_elem_of_nil|constructor]).
  pose proof (hub_run_ok l _ H0 Hv) as Hok. pose proof (hub_run_present l _ u H0 Hv) as Hp.
  destruct (hub_run l NewHub) as [evs h]. split; [done|]. cbn in Hp. by rewrite Hp.
Qed.

(** A message for a user reaches each of the user's connections exactly once,
    and no other connection. *)
Theorem SendToUser_exact userKey msg h :
  hub_ok h →
  let h' := SendToUser userKey msg h in
  h'.(users) = h.(users) ∧
  ∀ c, h'.(heap) !! c =
    if decide (c ∈ conns_of h userKey) then Conn.Send true msg <$> h.(heap) !! c else h.(heap) !! c.
Proof. intros Hh. apply send_all, Hh. Qed.

(** A report for a connection ID reaches exactly that connection, whichever
    order Go ranges over the map in, as long as IDs are unique; for an ID
    nobody has, nothing happens. *)
Theorem SendToConn_exact `{!MapRange} connID msg h :
  hub_ok h →
  (∀ c d, registered h c → registered h d → c.(conn_id) = d.(conn_id) → c = d) →
  (∀ c, registered h c → c.(conn_id) = connID → SendToConn connID msg h = (send_conn c msg h).2) ∧
  ((∀ c, registered h c → c.(conn_id) ≠ connID) → SendToConn connID msg h = h).
Proof.
  intros Hh Hu. unfold SendToConn, find_conn.
  destruct (list_find _ _) as [[i d]|] eqn:E; cbn.
  - apply list_find_Some in E as (Hd & Hid & _).
    apply list_elem_of_lookup_2, range_elem in Hd; [|done]. split.
    + intros c Hc Hcid. by rewrite (Hu c d) by congruence.
    + intros Hn. by destruct (Hn d).
  - apply list_find_None in E. rewrite Forall_forall in E. split; [|done].
    intros c Hc Hid. by destruct (E c); [apply range_elem|].
Qed.

(** The snapshot taken for a shutdown is every registered connection, once,
    and waiting for it reports zero exactly when every one of their writers
    has returned. *)
Theorem Snapshot_exact `{!MapRange} h :
  hub_ok h →
  NoDup (Snapshot h) ∧ (∀ c, c ∈ Snapshot h ↔ registered h c) ∧
  (WaitDrained (Snapshot h) h = 0%nat ↔ ∀ c, registered h c → drained <$> h.(heap) !! c = Some true).
Proof.
  intros Hh. split; [by apply range_nodup|]. split; [intros c; by apply range_elem|].
  unfold WaitDrained. rewrite length_zero_iff_nil. split.
  - intros Hf c Hc. destruct (decide (drained <$> h.(heap) !! c = Some true)); [done|].
    assert (c ∈ filter (λ c, (drained <$> h.(heap) !! c) ≠ Some true) (Snapshot h)) as Hin.
    { apply list_elem_of_filter. split; [done|]. by apply range_elem. }
    rewrite Hf in Hin. by apply not_elem_of_nil in Hin.
  - intros Ha. apply filter_none, Forall_forall. intros c Hc Hn. apply Hn, Ha. by apply range_elem.
Qed.

(** ** Concrete runs *)

#[local] Instance ranges_in_map_order : MapRange := {| range_users := map_to_list; range_users_perm m := reflexivity _ |}.

Definition tab1 : handle := {| ptr := 1; conn_id := "c1"; conn_user := "ann" |}.
Definition tab2 : handle := {| ptr := 2; conn_id := "c2"; conn_user := "ann" |}.

Definition two_tabs : Hub :=
  {| users := {[ "ann" := [tab1; tab2] ]}; heap := {[ tab1 := small; tab2 := small ]} |}.

Lemma two_tabs_conns u c : c ∈ conns_of two_tabs u → u = "ann" ∧ c ∈ [tab1; tab2].
Proof.
  unfold conns_of. cbn. destruct (decide (u = "ann")) as [->|Hu].
  - by rewrite lookup_singleton_eq.
  - rewrite lookup_singleton_ne by done. cbn. by intros ?%not_elem_of_nil.
Qed.

Lemma two_tabs_ok : hub_ok two_tabs.
Proof.
  split.
  - intros u l. cbn. by intros [_ <-]%lookup_singleton_Some.
  - intros u c [-> Hc]%two_tabs_conns.
    apply elem_of_cons in Hc as [->|Hc]; [done|]. by apply list_elem_of_singleton in Hc as ->.
  - intros u. unfold conns_of. cbn. destruct (decide (u = "ann")) as [->|].
    + rewrite lookup_singleton_eq. cbn. repeat constructor; [|by intros ?%not_elem_of_nil].
      by intros Hc%list_elem_of_singleton.
    + rewrite lookup_singleton_ne by done. constructor.
Qed.

Lemma presence_balanced_witness :
  let '(evs, h) := hub_run [OAdd tab1; OAdd tab2; ORemove tab1; ORemove tab2] NewHub in
  (evs.*2 = [true; false; false; true]) ∧ hub_ok h ∧ present h "ann" = sum (presence_change "ann" <$> evs).
Proof.
  split; [vm_compute; reflexivity|].
  apply (presence_balanced [OAdd tab1; OAdd tab2; ORemove tab1; ORemove tab2] "ann").
  repeat split; cbn [hub_enabled].
  all: apply (bool_decide_unpack _); vm_compute; exact I.
Defined.

Lemma SendToUser_exact_witness :
  (SendToUser "ann" "hi" two_tabs).(heap) !! tab2 = Some (Conn.Send true "hi" small).
Proof. destruct (SendToUser_exact "ann" "hi" two_tabs two_tabs_ok) as [_ H]. exact (H tab2). Defined.

Lemma SendToConn_exact_witness : SendToConn "c2" "hi" two_tabs = (send_conn tab2 "hi" two_tabs).2.
Proof.
  destruct (SendToConn_exact "c2" "hi" two_tabs two_tabs_ok) as [H _].
  - intros c d [_ Hc]%two_tabs_conns [_ Hd]%two_tabs_conns.
    apply elem_of_cons in Hc as [->|Hc]; apply elem_of_cons in Hd as [->|Hd]; try done.
    all: try apply list_elem_of_singleton in Hc as ->; try apply list_elem_of_singleton in Hd as ->; done.
  - apply (H tab2); [|done]. unfold registered, conns_of. cbn. rewrite lookup_singleton_eq. right. by left.
Defined.

Lemma Snapshot_exact_witness :
  NoDup (Snapshot two_tabs) ∧ WaitDrained (Snapshot two_tabs) two_tabs = 2%nat.
Proof. split; [apply (Snapshot_exact two_tabs two_tabs_ok)|vm_compute; reflexivity]. Defined.
