(* ===== verification/Lifecycle.v ===== *)
(** * Running and stopping the server (internal/app/app.go, [Run] and [shutdown])

    [Run] starts the bus, the scheduler, the HTTP server and perhaps the
    metrics server, waits for the context or the first error, shuts down and
    waits for all of them.  Each goroutine is the phases it goes through, each
    event one of its moves; the waits of [shutdown] all end with its deadline,
    so it is one move.  What the subsystems do meanwhile is modelled with
    them; here the connections matter only for being closed. *)

From S2P Require Import Prelude GoStrings Redis RedisModel Prog Time StreamID Json Protocol Judge RateLimit Bus Conn Hub.
Local Open Scope Z_scope.

(** [Bus.Run]: before [PSubscribe], before its ping is answered, in its loop,
    returned. *)
Inductive bus_phase : Type := BusNew | BusPinging | BusLooping | BusReturned.
Inductive phase : Type := Running | Returned.

Inductive main_phase : Type :=
| Selecting
| ShuttingDown (runErr : option string)
| Waiting (runErr : option string)
| Done (runErr : option string).

#[export] Instance bus_phase_eq_dec : EqDecision bus_phase.
Proof. solve_decision. Defined.
#[export] Instance phase_eq_dec : EqDecision phase.
Proof. solve_decision. Defined.
#[export] Instance main_phase_eq_dec : EqDecision main_phase.
Proof. solve_decision. Defined.

Record app : Type := {
  cancelled : bool;
  bus_run : bus_phase;
  sched_run : phase;
  http_run : phase;
  (** Not started without an address. *)
  metrics_run : phase;
  (** [errCh], three places. *)
  errCh : list string;
  main : main_phase;
  (** What [shutdown] has closed. *)
  server_shut : bool;
  pubsub_closed : bool;
  hub : Hub;
}.

Definition App (with_metrics : bool) : app := {|
  cancelled := false; bus_run := BusNew; sched_run := Running; http_run := Running;
  metrics_run := if with_metrics then Running else Returned;
  errCh := []; main := Selecting; server_shut := false; pubsub_closed := false; hub := NewHub |}.

Inductive move : Type :=
(** The context of [Run] ends. *)
| Cancel
| BusSubscribes
| BusPings (err : option string)
| BusStops
| SchedStops
| HttpFails (err : string)
| HttpStops
| MetricsStop
(** A connection registers, or leaves. *)
| Connects (c : handle) (x : Conn)
| Leaves (c : handle)
(** [Run] itself: either case of its select, [shutdown], [wg.Wait]. *)
| SeesCancel
| SeesError
| Shutdown
| WaitEnds.

Definition update (a : app) (c : bool) (b : bus_phase) (s h m : phase) (e : list string) (w : main_phase) : app :=
  {| cancelled := c; bus_run := b; sched_run := s; http_run := h; metrics_run := m; errCh := e; main := w;
     server_shut := a.(server_shut); pubsub_closed := a.(pubsub_closed); hub := a.(hub) |}.

Definition set_hub (h : Hub) (a : app) : app :=
  {| cancelled := a.(cancelled); bus_run := a.(bus_run); sched_run := a.(sched_run); http_run := a.(http_run);
     metrics_run := a.(metrics_run); errCh := a.(errCh); main := a.(main); server_shut := a.(server_shut);
     pubsub_closed := a.(pubsub_closed); hub := h |}.

(** [c.Close(CloseGoingAway, ...)] on one connection object. *)
Definition close_conn (h : Hub) (c : handle) : Hub :=
  {| users := h.(users); heap := alter (Conn.Close CloseGoingAway "server shutting down") c h.(heap) |}.

Ltac split_step Hs :=
  repeat match type of Hs with
  | (if decide ?P then _ else _) = _ => destruct (decide P)
  | (if ?x then _ else _) = _ => destruct x eqn:?
  | match ?x with _ => _ end = _ => destruct x eqn:?
  end; try discriminate Hs; injection Hs as <-; simplify_eq/=.

Section run.
Context `{!MapRange}.

(** [shutdown]: the servers, the connections of the snapshot, the bus.
    [Bus.Close] does nothing, for good, when there is no subscription yet. *)
Definition shutdown (a : app) (runErr : option string) : app := {|
  cancelled := a.(cancelled); bus_run := a.(bus_run); sched_run := a.(sched_run); http_run := a.(http_run);
  metrics_run := a.(metrics_run); errCh := a.(errCh); main := Waiting runErr; server_shut := true;
  pubsub_closed := negb (bool_decide (a.(bus_run) = BusNew));
  hub := foldl close_conn a.(hub) (Snapshot a.(hub)) |}.

(** [None]: the move is not possible. *)
Definition move_step (v : move) (a : app) : option app :=
  let '(c, b, s, h, m, e, w) := (a.(cancelled), a.(bus_run), a.(sched_run), a.(http_run), a.(metrics_run), a.(errCh), a.(main)) in
  match v with
  | Cancel => if c then None else Some (update a true b s h m e w)
  | BusSubscribes => if decide (b = BusNew) then Some (update a c BusPinging s h m e w) else None
  | BusPings err =>
      if decide (b = BusPinging) then
        match err with
        | None => Some (update a c BusLooping s h m e w)
        | Some x => Some (update a c BusReturned s h m (e ++ ["bus: psubscribe ping: " +:+ x]) w)
        end
      else None
  | BusStops => if decide (b = BusLooping) then if c || a.(pubsub_closed) then Some (update a c BusReturned s h m e w) else None else None
  | SchedStops => if decide (s = Running) then if c then Some (update a c b Returned h m e w) else None else None
  | HttpFails x =>
      if decide (h = Running) then
        if a.(server_shut) then None else Some (update a c b s Returned m (e ++ ["http server: " +:+ x]) w)
      else None
  | HttpStops => if decide (h = Running) then if a.(server_shut) then Some (update a c b s Returned m e w) else None else None
  | MetricsStop => if decide (m = Running) then Some (update a c b s h Returned e w) else None
  | Connects x o => if decide (registered a.(hub) x) then None
                    else Some (set_hub {| users := (Add x a.(hub)).2.(users); heap := <[x := o]> a.(hub).(heap) |} a)
  | Leaves x => Some (set_hub (Remove x a.(hub)).2 a)
  | SeesCancel => if decide (w = Selecting) then if c then Some (update a c b s h m e (ShuttingDown None)) else None else None
  | SeesError =>
      if decide (w = Selecting) then
        match e with x :: e' => Some (update a c b s h m e' (ShuttingDown (Some x))) | [] => None end
      else None
  | Shutdown => match w with ShuttingDown r => Some (shutdown a r) | _ => None end
  | WaitEnds =>
      match w with
      | Waiting r =>
          if decide (b = BusReturned ∧ s = Returned ∧ h = Returned ∧ m = Returned) then Some (update a c b s h m e (Done r)) else None
      | _ => None
      end
  end.

Fixpoint moves (l : list move) (a : app) : option app :=
  match l with [] => Some a | v :: l' => a' ← move_step v a; moves l' a' end.

(** Moves of the server itself, not of its surroundings. *)
Definition internal (v : move) : Prop :=
  match v with Cancel | Connects _ _ | Leaves _ => False | _ => True end.

(** ** Invariant *)

(** How many goroutines may still report an error. *)
Definition reporters (b : bus_phase) (h : phase) : nat :=
  (match b with BusReturned => 0 | _ => 1 end + match h with Returned => 0 | Running => 1 end).

Definition reported (x : string) : Prop := HasPrefix x "bus: " = true ∨ HasPrefix x "http server: " = true.

(** What [Run] is about to return has a reason. *)
Definition explained (cancelled : bool) (w : main_phase) : Prop :=
  match w with
  | Selecting => True
  | ShuttingDown r | Waiting r | Done r => match r with None => cancelled = true | Some x => reported x end
  end.

Definition joined (a : app) : Prop :=
  a.(bus_run) = BusReturned ∧ a.(sched_run) = Returned ∧ a.(http_run) = Returned ∧ a.(metrics_run) = Returned.

Record running_ok (a : app) : Prop := {
  ok_hub : hub_ok a.(hub);
  (** Each of the two goroutines that report an error reports once, so no
      send on [errCh] ever waits. *)
  ok_errs : (length a.(errCh) + reporters a.(bus_run) a.(http_run) ≤ 2)%nat;
  ok_cause : explained a.(cancelled) a.(main);
  ok_kinds : Forall reported a.(errCh);
  ok_stop : a.(main) = Selecting ∨ (∃ r, a.(main) = ShuttingDown r) ∨ a.(server_shut) = true;
  ok_sched : a.(sched_run) = Returned → a.(cancelled) = true;
  ok_done r : a.(main) = Done r → joined a;
}.
Lemma hub_ok_users h h' : h'.(users) = h.(users) → hub_ok h → hub_ok h'.
Proof. intros E [H1 H2 H3]. unfold conns_of in *. split; rewrite ?E; try done; unfold conns_of; by rewrite E. Qed.

Lemma close_conns_users l h : (foldl close_conn h l).(users) = h.(users).
Proof. revert h. induction l as [|c l IH]; intros h; cbn; [done|]. by rewrite IH. Qed.

Lemma NewHub_ok : hub_ok NewHub.
Proof. split; cbn; [done|by intros ?? ?%not_elem_of_nil|constructor]. Qed.

Lemma App_ok m : running_ok (App m).
Proof. split; cbn; auto using NewHub_ok; done. Qed.

Lemma move_ok v a a' : running_ok a → move_step v a = Some a' → running_ok a'.
Proof.
  destruct a as [c b s h m e w ss pc hb]. intros [H1 H2 H3 H4 H5 H6 H7] Hs.
  destruct v; cbn [move_step cancelled bus_run sched_run http_run metrics_run errCh main] in Hs; split_step Hs.
  all: split; cbn; try assumption; try done; auto.
  all: try (intros r E; destruct (H7 r E) as (? & ? & ? & ?); unfold joined in *; cbn in *; by (congruence || split_and!)).
  all: rewrite ?length_app; cbn; try (unfold reporters in *; cbn in *; lia).
  all: try (apply Forall_app; split; [done|apply Forall_singleton; unfold reported; auto]).
  - by destruct w as [|[]|[]|[]].
  - eapply hub_ok_users; [|by apply Add_ok]. done.
  - by apply Remove_ok.
  - right; left. eauto.
  - by apply Forall_cons in H4 as [? _].
  - by apply Forall_cons in H4 as [_ ?].
  - right; left. eauto.
  - eapply hub_ok_users; [|done]. apply close_conns_users.
  - destruct H5 as [?|[[? ?]|?]]; [done..|auto].
Qed.

Lemma moves_ok l a a' : running_ok a → moves l a = Some a' → running_ok a'.
Proof.
  revert a. induction l as [|v l IH]; intros a Ha; cbn [moves]; [by intros [= <-]|].
  destruct (move_step v a) as [a1|] eqn:E; [|done]. cbn. apply IH. by eapply move_ok.
Qed.

(** ** Termination *)

(** An upper bound of the server's own moves still to come. *)
Definition todo (a : app) : nat :=
  (match a.(bus_run) with BusNew => 3 | BusPinging => 2 | BusLooping => 1 | BusReturned => 0 end
   + match a.(sched_run) with Running => 1 | Returned => 0 end
   + match a.(http_run) with Running => 1 | Returned => 0 end
   + match a.(metrics_run) with Running => 1 | Returned => 0 end
   + match a.(main) with Selecting => 3 | ShuttingDown _ => 2 | Waiting _ => 1 | Done _ => 0 end)%nat.

Lemma todo_bound a : (todo a ≤ 9)%nat.
Proof. unfold todo. repeat case_match; lia. Qed.

Lemma todo_decreases v a a' : internal v → move_step v a = Some a' → (todo a' < todo a)%nat.
Proof.
  destruct a as [c b s h m e w ss pc hb]. intros Hv Hs.
  destruct v; try done; cbn [move_step cancelled bus_run sched_run http_run metrics_run errCh main] in Hs; split_step Hs;
    unfold todo; cbn; lia.
Qed.

(** After the context has ended some move is always possible until [Run]
    returns. *)
Lemma no_deadlock a : running_ok a → a.(cancelled) = true → (∀ r, a.(main) ≠ Done r) →
  ∃ v a', internal v ∧ move_step v a = Some a'.
Proof.
  destruct a as [c b s h m e w ss pc hb]. intros [_ _ _ _ H5 _ _] Hc Hm. cbn in *. subst c.
  destruct w as [|r|r|r]; [| | |by destruct (Hm r)].
  - exists SeesCancel. eexists. split; [exact I|reflexivity].
  - exists Shutdown. eexists. split; [exact I|reflexivity].
  - assert (ss = true) as -> by (by destruct H5 as [?|[[? ?]|?]]).
    destruct b; [exists BusSubscribes|exists (BusPings None)|exists BusStops|]; [eexists; split; [exact I|reflexivity]..|].
    destruct s; [exists SchedStops; eexists; split; [exact I|reflexivity]|].
    destruct h; [exists HttpStops; eexists; split; [exact I|reflexivity]|].
    destruct m; [exists MetricsStop; eexists; split; [exact I|reflexivity]|].
    exists WaitEnds. eexists. split; [exact I|]. cbn. by rewrite decide_True.
Qed.

(** [C27] A graceful stop always completes: once the context has ended, in whatever state the server is, its goroutines
    make at most nine further moves in any order, and when none of them can move [Run] has returned: nobody waits for
    anybody else in a circle, and no send of an error blocks. *)
Theorem stop_terminates m l a : moves l (App m) = Some a → a.(cancelled) = true →
  ∀ l' a', Forall internal l' → moves l' a = Some a' →
  (length l' ≤ 9)%nat ∧ (length a'.(errCh) ≤ 3)%nat ∧
  ((∀ v, internal v → move_step v a' = None) → ∃ r, a'.(main) = Done r).
Proof.
  intros Hl Hc l' a' Hi Hl'. pose proof (moves_ok l _ a (App_ok m) Hl) as Ha.
  pose proof (moves_ok l' _ a' Ha Hl') as Ha'.
  assert (length l' + todo a' ≤ todo a)%nat as Hn.
  { clear Ha Ha' Hl Hc. revert a Hl'. induction Hi as [|v l' Hv Hi IH]; intros a; cbn [moves length]; [intros [= <-]; lia|].
    destruct (move_step v a) as [a1|] eqn:E; [|done]. cbn [mbind option_bind]. intros Hl'. apply (todo_decreases v a a1 Hv) in E.
    specialize (IH a1 Hl'). lia. }
  split; [pose proof (todo_bound a); lia|]. split; [pose proof (ok_errs _ Ha'); lia|]. intros Hstuck.
  assert (a'.(cancelled) = true) as Hc'.
  { clear Hn Ha Ha' Hl Hstuck. revert a Hc Hl'. induction Hi as [|v l' Hv Hi IH]; intros a Hc; cbn [moves]; [by intros [= <-]|].
    destruct (move_step v a) as [a1|] eqn:E; [|done]. cbn [mbind option_bind]. apply IH.
    destruct a as [c b s h m' e w ss pc hb]. cbn in Hc. subst c.
    destruct v; try done; cbn [move_step cancelled bus_run sched_run http_run metrics_run errCh main] in E; by split_step E. }
  destruct (a'.(main)) as [|r|r|r] eqn:M; [..|by exists r].
  all: destruct (no_deadlock a' Ha' Hc') as (v & a2 & Hv & E); [intros r'; rewrite M; discriminate|].
  all: by rewrite (Hstuck v Hv) in E.
Qed.

(** When [Run] has returned nothing of it is left running: the bus, the scheduler and both HTTP servers have
    returned; a nil error means that the context had ended, and an error is one the bus or the HTTP server reported. *)
Theorem returned_joined m l a r : moves l (App m) = Some a → a.(main) = Done r →
  joined a ∧ match r with None => a.(cancelled) = true | Some x => reported x end.
Proof.
  intros Hl Hm. pose proof (moves_ok l _ a (App_ok m) Hl) as Ha. split; [by eapply ok_done|].
  pose proof (ok_cause _ Ha) as Hx. by rewrite Hm in Hx.
Qed.

(** Nothing inside the server ends its context. *)
Lemma cancelled_by_signal l a a' : moves l a = Some a' → a.(cancelled) = false → a'.(cancelled) = true → Cancel ∈ l.
Proof.
  revert a. induction l as [|v l IH]; intros a; cbn [moves]; [intros [= ->]; congruence|].
  destruct (move_step v a) as [a1|] eqn:E; [|done]. cbn [mbind option_bind]. intros Hl Hc Ht.
  destruct a as [c b s h m' e w ss pc hb]. cbn in Hc. subst c.
  destruct v; [by left|..]; right; apply (IH a1 Hl); try done.
  all: cbn [move_step cancelled bus_run sched_run http_run metrics_run errCh main] in E; by split_step E.
Qed.

(** A failed subsystem does not end the server: whatever fails, as long as the context of [Run] lives [Run] never
    returns, since the scheduler it waits for only stops with that context. *)
Theorem failure_hangs m l a : moves l (App m) = Some a → Cancel ∉ l → ∀ r, a.(main) ≠ Done r.
Proof.
  intros Hl Hc r Hm. pose proof (moves_ok l _ a (App_ok m) Hl) as Ha.
  destruct (ok_done _ Ha r Hm) as (_ & Hs & _). apply (ok_sched _ Ha) in Hs.
  apply Hc. by eapply (cancelled_by_signal l (App m)).
Qed.
(** ** Connections at shutdown *)

Lemma close_conns_lookup l h c : NoDup l →
  (foldl close_conn h l).(heap) !! c =
  if decide (c ∈ l) then Conn.Close CloseGoingAway "server shutting down" <$> h.(heap) !! c else h.(heap) !! c.
Proof.
  revert h. induction l as [|x l IH]; intros h Hl; [by rewrite decide_False by apply not_elem_of_nil|].
  apply NoDup_cons in Hl as [Hx Hl]. cbn [foldl]. rewrite IH by done. cbn.
  destruct (decide (x = c)) as [->|Hne].
  - rewrite decide_False, decide_True, lookup_alter_eq by (done || by left). done.
  - rewrite lookup_alter_ne by done.
    destruct (decide (c ∈ l)); [rewrite decide_True by (by right)|rewrite decide_False by set_solver]; done.
Qed.

(** [shutdown] closes every registered connection as going away, each once, and touches no other: with
    [close_flushes] this is why what a client was owed is still written before it is told to leave. *)
Theorem shutdown_closes m l a a' : moves l (App m) = Some a → move_step Shutdown a = Some a' →
  a'.(hub).(users) = a.(hub).(users) ∧
  ∀ c, a'.(hub).(heap) !! c =
    if decide (registered a.(hub) c) then Conn.Close CloseGoingAway "server shutting down" <$> a.(hub).(heap) !! c
    else a.(hub).(heap) !! c.
Proof.
  intros Hl Hs. pose proof (ok_hub _ (moves_ok l _ a (App_ok m) Hl)) as Hh.
  cbn [move_step] in Hs. destruct (a.(main)) as [|r|r|r]; try discriminate Hs. injection Hs as <-. cbn.
  split; [apply close_conns_users|]. intros c. rewrite close_conns_lookup by by apply range_nodup.
  pose proof (range_elem _ c Hh) as E. destruct (decide (c ∈ Snapshot (hub a))), (decide (registered (hub a) c)); tauto.
Qed.
End run.

(** ** Witnesses *)

#[local] Instance ranges_in_map_order : MapRange := {| range_users := map_to_list; range_users_perm m := reflexivity _ |}.

Definition tab : handle := {| ptr := 1; conn_id := "c1"; conn_user := "alice" |}.
Definition tab_conn : Conn :=
  NewConn {| cfg_UserKey := "alice"; MaxBufferedBytes := 0; SendChanCapacity := 0; cfg_ID := "c1"; MaxConsecutiveDrops := 100 |} "".

Definition serving : list move := [BusSubscribes; BusPings None].
Definition stopping : list move := [SeesCancel; Shutdown; HttpStops; BusStops; MetricsStop; SchedStops; WaitEnds].

Definition after (l : list move) : app := default (App true) (moves l (App true)).

Lemma stop_terminates_witness :
  (after (serving ++ Cancel :: stopping)).(main) = Done None ∧
  ((length stopping ≤ 9)%nat ∧ (length (after (serving ++ Cancel :: stopping)).(errCh) ≤ 3)%nat ∧
   ((∀ v, internal v → move_step v (after (serving ++ Cancel :: stopping)) = None) →
    ∃ r, (after (serving ++ Cancel :: stopping)).(main) = Done r)).
Proof.
  split; [reflexivity|].
  apply (stop_terminates true (serving ++ [Cancel]) (after (serving ++ [Cancel])) eq_refl eq_refl stopping
           (after (serving ++ Cancel :: stopping))); [repeat constructor|reflexivity].
Defined.

Lemma returned_joined_witness :
  joined (after (serving ++ Cancel :: stopping)) ∧ (after (serving ++ Cancel :: stopping)).(cancelled) = true.
Proof. exact (returned_joined true (serving ++ Cancel :: stopping) (after (serving ++ Cancel :: stopping)) None eq_refl eq_refl). Defined.

(** The bus cannot subscribe; everything that can stop has stopped, and [Run]
    waits for the scheduler. *)
Definition broken : list move := [BusSubscribes; BusPings (Some "connection refused"); SeesError; Shutdown; HttpStops; MetricsStop].

Lemma failure_hangs_witness :
  (after broken).(main) = Waiting (Some "bus: psubscribe ping: connection refused") ∧ ∀ r, (after broken).(main) ≠ Done r.
Proof.
  split; [reflexivity|]. apply (failure_hangs true broken (after broken) eq_refl).
  intros H. apply list_elem_of_In in H. repeat destruct H as [H|H]; try discriminate H. exact H.
Defined.

Lemma shutdown_closes_witness :
  let a := after (serving ++ [Connects tab tab_conn; Cancel; SeesCancel]) in let a' := after (serving ++ [Connects tab tab_conn; Cancel; SeesCancel; Shutdown]) in
  (closed <$> a'.(hub).(heap) !! tab) = Some true ∧
  (a'.(hub).(users) = a.(hub).(users) ∧
   ∀ c, a'.(hub).(heap) !! c =
    if decide (registered a.(hub) c) then Conn.Close CloseGoingAway "server shutting down" <$> a.(hub).(heap) !! c
    else a.(hub).(heap) !! c).
Proof.
  cbv zeta. split; [vm_compute; reflexivity|].
  apply (shutdown_closes true (serving ++ [Connects tab tab_conn; Cancel; SeesCancel])); vm_compute; reflexivity.
Defined.
