(* ===== verification/Jobs.v ===== *)
(** * Scheduled jobs (protocol/protocol.go, internal/redisx/scheduler_store.go)

    The job a client sends, its validation, and the sorted set jobs wait in:
    a member is the JSON of the job, its score the time it is due in ms. *)

From S2P Require Import Prelude GoStrings Redis RedisModel Prog Time Json Judge.
Local Open Scope Z_scope.
Local Open Scope prog_scope.

Record JobRetryPolicy : Type := { MaxRetries : Z; RetryDelay : Z }.

Record JobData : Type := {
  JobID : string;
  APIEndpoint : string;
  Method : string;
  Headers : gmap string string;
  Payload : raw;
  RetryPolicy : option JobRetryPolicy;
  ExecuteAt : string;
  ValidUntil : string;
  Interval : Z;
}.

Definition no_job : JobData := {|
  JobID := ""; APIEndpoint := ""; Method := ""; Headers := ∅; Payload := RawNil; RetryPolicy := None;
  ExecuteAt := ""; ValidUntil := ""; Interval := 0;
|}.

(** [StoredJob]: the shape of a member of the scheduler set. *)
Record StoredJob : Type := { s_JobID : string; s_JobData : option JobData }.

(** ** JSON *)

(** Go writes the keys of a map in byte order. *)
Definition key_le (a b : string * string) : Prop := String.leb a.1 b.1 = true.
#[export] Instance key_le_dec a b : base.Decision (key_le a b).
Proof. unfold key_le. apply _. Defined.

Definition headers_json (h : gmap string string) : json :=
  JObj ((λ p, (key p.1, jstring p.2)) <$> merge_sort key_le (map_to_list h)).

Definition retry_json (r : JobRetryPolicy) : json :=
  JObj [(key "maxRetries", jint r.(MaxRetries)); (key "retryDelay", jint r.(RetryDelay))].

(** [None]: [json.Marshal] fails on a payload that is not JSON. *)
Definition job_json (j : JobData) : option json :=
  payload ← (if raw_empty j.(Payload) then Some [] else d ← raw_value j.(Payload); Some [(key "payload", d)]);
  Some (JObj ([(key "jobId", jstring j.(JobID)); (key "apiEndpoint", jstring j.(APIEndpoint));
         (key "method", jstring j.(Method))]
    ++ omit (bool_decide (j.(Headers) = ∅)) "headers" (headers_json j.(Headers))
    ++ payload
    ++ match j.(RetryPolicy) with Some r => [(key "retryPolicy", retry_json r)] | None => [] end
    ++ [(key "executeAt", jstring j.(ExecuteAt))]
    ++ omit (bool_decide (j.(ValidUntil) = "")) "validUntil" (jstring j.(ValidUntil))
    ++ omit (bool_decide (j.(Interval) = 0)) "interval" (jint j.(Interval)))).

Definition marshal_stored (s : StoredJob) : option string :=
  jd ← match s.(s_JobData) with None => Some JNull | Some j => job_json j end;
  Some (print (JObj [(key "jobId", jstring s.(s_JobID)); (key "jobData", jd)]) "").

Definition retry_fields : list (string * setter JobRetryPolicy) :=
  [("maxRetries", set_int (λ v r, {| MaxRetries := v; RetryDelay := r.(RetryDelay) |}));
   ("retryDelay", set_int (λ v r, {| MaxRetries := r.(MaxRetries); RetryDelay := v |}))].

Definition job_fields : list (string * setter JobData) :=
  let upd jobId ep m h p r ex vu iv := {| JobID := jobId; APIEndpoint := ep; Method := m; Headers := h; Payload := p;
    RetryPolicy := r; ExecuteAt := ex; ValidUntil := vu; Interval := iv |} in
  [("jobId", set_string (λ v j, upd v j.(APIEndpoint) j.(Method) j.(Headers) j.(Payload) j.(RetryPolicy) j.(ExecuteAt) j.(ValidUntil) j.(Interval)));
   ("apiEndpoint", set_string (λ v j, upd j.(JobID) v j.(Method) j.(Headers) j.(Payload) j.(RetryPolicy) j.(ExecuteAt) j.(ValidUntil) j.(Interval)));
   ("method", set_string (λ v j, upd j.(JobID) j.(APIEndpoint) v j.(Headers) j.(Payload) j.(RetryPolicy) j.(ExecuteAt) j.(ValidUntil) j.(Interval)));
   ("headers", set_map Headers (λ v j, upd j.(JobID) j.(APIEndpoint) j.(Method) v j.(Payload) j.(RetryPolicy) j.(ExecuteAt) j.(ValidUntil) j.(Interval)));
   ("payload", set_raw (λ v j, upd j.(JobID) j.(APIEndpoint) j.(Method) j.(Headers) v j.(RetryPolicy) j.(ExecuteAt) j.(ValidUntil) j.(Interval)));
   ("retryPolicy", set_ptr retry_fields {| MaxRetries := 0; RetryDelay := 0 |} RetryPolicy
      (λ v j, upd j.(JobID) j.(APIEndpoint) j.(Method) j.(Headers) j.(Payload) v j.(ExecuteAt) j.(ValidUntil) j.(Interval)));
   ("executeAt", set_string (λ v j, upd j.(JobID) j.(APIEndpoint) j.(Method) j.(Headers) j.(Payload) j.(RetryPolicy) v j.(ValidUntil) j.(Interval)));
   ("validUntil", set_string (λ v j, upd j.(JobID) j.(APIEndpoint) j.(Method) j.(Headers) j.(Payload) j.(RetryPolicy) j.(ExecuteAt) v j.(Interval)));
   ("interval", set_int (λ v j, upd j.(JobID) j.(APIEndpoint) j.(Method) j.(Headers) j.(Payload) j.(RetryPolicy) j.(ExecuteAt) j.(ValidUntil) v))].

Definition stored_fields : list (string * setter StoredJob) :=
  [("jobId", set_string (λ v s, {| s_JobID := v; s_JobData := s.(s_JobData) |}));
   ("jobData", set_ptr job_fields no_job s_JobData (λ v s, {| s_JobID := s.(s_JobID); s_JobData := v |}))].

Definition unmarshal_stored (text : string) : option StoredJob :=
  j ← parse text; unmarshal_struct stored_fields {| s_JobID := ""; s_JobData := None |} j.

(** ** Times of a job *)

(** The text of a [time.ParseError]. *)
Class TimeErrors : Type := parse_time_error : string → string.

Definition ParseTime `{!TimeErrors} (s : string) : result instant :=
  match Parse_RFC3339Nano s with Some t => Ok t | None => Err (errors_New (parse_time_error s)) end.

Definition ParseExecuteAt `{!TimeErrors} (s : string) : result instant :=
  if decide (s = "") then Err (errors_New "missing executeAt") else ParseTime s.

Definition ParseValidUntil `{!TimeErrors} (s : string) : result (option instant) :=
  if decide (s = "") then Ok None
  else match ParseTime s with Ok t => Ok (Some t) | Err e => Err e end.

Definition validateJobData `{!TimeErrors, !GoQuote} (j : JobData) : result () :=
  if decide (j.(JobID) = "") then Err (errors_New "jobId is required")
  else if decide (j.(APIEndpoint) = "") then Err (errors_New "apiEndpoint is required")
  else if negb (bool_decide (j.(Method) ∈ ["GET"; "POST"; "PUT"; "DELETE"]))
  then Err (errors_New ("invalid method " +:+ Quote j.(Method)))
  else if decide (j.(ExecuteAt) = "") then Err (errors_New "executeAt is required")
  else match ParseExecuteAt j.(ExecuteAt) with
  | Err e => Err (Errorf_w "executeAt: " e)
  | Ok _ =>
      match (if decide (j.(ValidUntil) = "") then Ok None else ParseValidUntil j.(ValidUntil)) with
      | Err e => Err (Errorf_w "validUntil: " e)
      | Ok _ =>
          match j.(RetryPolicy) with
          | Some r => if (r.(MaxRetries) <? 0) || (r.(RetryDelay) <? 0)
                      then Err (errors_New "retryPolicy fields must be non-negative") else Ok ()
          | None => Ok ()
          end
      end
  end.

(** ** A stored job survives the round trip *)

Definition payload_stored (p : raw) : raw := match p with Raw j => Raw (html j) | _ => RawNil end.

(** The job as it comes back: its payload compacted, characters special to
    HTML escaped. *)
Definition job_stored (j : JobData) : JobData := {|
  JobID := j.(JobID); APIEndpoint := j.(APIEndpoint); Method := j.(Method); Headers := j.(Headers);
  Payload := payload_stored j.(Payload); RetryPolicy := j.(RetryPolicy);
  ExecuteAt := j.(ExecuteAt); ValidUntil := j.(ValidUntil); Interval := j.(Interval);
|}.

Record job_wf (j : JobData) : Prop := {
  wf_payload : raw_wf j.(Payload) = true;
  wf_interval : in_int64 j.(Interval);
  wf_retry r : j.(RetryPolicy) = Some r → in_int64 r.(MaxRetries) ∧ in_int64 r.(RetryDelay);
}.

Lemma add_entries_json l h :
  add_entries ((λ p, (key p.1, jstring p.2)) <$> l) h = Some (foldl (λ h p, <[p.1 := p.2]> h) h l).
Proof.
  revert h. induction l as [|[k v] l IH]; intros h; [done|]. cbn. unfold jstring, key.
  by rewrite !unquote_quote, IH.
Qed.

Lemma insert_all (l : list (string * string)) (h : gmap string string) :
  NoDup l.*1 → foldl (λ h p, <[p.1 := p.2]> h) h l = list_to_map l ∪ h.
Proof.
  revert h. induction l as [|[k v] l IH]; intros h Hd; cbn [foldl]; [cbn; by rewrite (left_id_L ∅ (∪))|].
  cbn in Hd. apply NoDup_cons in Hd as [Hk Hd].
  rewrite IH by done. rewrite <- insert_union_r; [by rewrite insert_union_l|]. by apply not_elem_of_list_to_map_1.
Qed.

Lemma insert_sorted (h : gmap string string) :
  foldl (λ h p, <[p.1 := p.2]> h) ∅ (merge_sort key_le (map_to_list h)) = h.
Proof.
  pose proof (merge_sort_Permutation key_le (map_to_list h)) as Hp.
  assert (NoDup (merge_sort key_le (map_to_list h)).*1) as Hd.
  { rewrite Hp. apply NoDup_fst_map_to_list. }
  rewrite insert_all, (right_id_L ∅ (∪)) by done.
  transitivity (list_to_map (M := gmap string string) (map_to_list h)); [|apply list_to_map_to_list].
  by apply list_to_map_proper.
Qed.

Lemma set_headers h put (j : JobData) :
  j.(Headers) = ∅ → set_map Headers put (headers_json h) j = Some (put h j).
Proof.
  intros He. unfold set_map, headers_json. rewrite add_entries_json, He. cbn.
  by rewrite insert_sorted.
Qed.

Lemma headers_wf h : wf (headers_json h) = true.
Proof.
  unfold headers_json. rewrite wf_obj. induction (merge_sort _ _) as [|p l IH]; [done|].
  cbn [fmap list_fmap forallb fst snd]. by rewrite IH, wf_jstring, (quote_ok p.1 : forallb jchar_ok (key p.1) = true).
Qed.

Lemma decode_retry r :
  in_int64 r.(MaxRetries) → in_int64 r.(RetryDelay) →
  set_fields retry_fields [(key "maxRetries", jint r.(MaxRetries)); (key "retryDelay", jint r.(RetryDelay))]
    {| MaxRetries := 0; RetryDelay := 0 |} = Some r.
Proof. intros. decode_fields. by destruct r. Qed.

(** The optional fields of a job, one at a time. *)
Section chunks.
Context (a b c : string) (h : gmap string string) (p : raw) (r : option JobRetryPolicy) (e v : string) (i : Z).
Abbreviation job := (Build_JobData a b c).

Lemma chunk_headers :
  set_fields job_fields (omit (bool_decide (h = ∅)) "headers" (headers_json h)) (job ∅ p r e v i) =
  Some (job h p r e v i).
Proof.
  unfold omit. case_bool_decide; [by subst|].
  erewrite set_fields_found by reflexivity. by rewrite set_headers.
Qed.

Lemma chunk_payload fs :
  (if raw_empty p then Some [] else d ← raw_value p; Some [(key "payload", d)]) = Some fs →
  set_fields job_fields fs (job h RawNil r e v i) = Some (job h (payload_stored p) r e v i).
Proof.
  destruct p as [|j|t]; cbn; intros Hf.
  - by simplify_eq.
  - simplify_eq. by erewrite set_fields_found by reflexivity.
  - case_bool_decide; simplify_eq/=. done.
Qed.

Lemma chunk_retry :
  (∀ r', r = Some r' → in_int64 r'.(MaxRetries) ∧ in_int64 r'.(RetryDelay)) →
  set_fields job_fields match r with Some r => [(key "retryPolicy", retry_json r)] | None => [] end
    (job h p None e v i) = Some (job h p r e v i).
Proof.
  intros Hr. destruct r as [r'|]; [|done]. destruct (Hr r' eq_refl).
  erewrite set_fields_found by reflexivity. unfold set_ptr, retry_json. cbn [default from_option].
  by rewrite decode_retry.
Qed.

Lemma chunk_valid :
  set_fields job_fields (omit (bool_decide (v = "")) "validUntil" (jstring v)) (job h p r e "" i) =
  Some (job h p r e v i).
Proof. unfold omit. case_bool_decide; [by subst|]. by decode_fields. Qed.

Lemma chunk_interval :
  in_int64 i →
  set_fields job_fields (omit (bool_decide (i = 0)) "interval" (jint i)) (job h p r e v 0) =
  Some (job h p r e v i).
Proof. intros. unfold omit. case_bool_decide; [by subst|]. by decode_fields. Qed.
End chunks.

Lemma decode_job j d :
  job_wf j → job_json j = Some d →
  ∃ fs, d = JObj fs ∧ set_fields job_fields fs no_job = Some (job_stored j).
Proof.
  intros [Hp Hi Hr] Hj. unfold job_json in Hj.
  destruct j as [jid ep m h p r ex vu iv].
  cbn [JobID APIEndpoint Method Headers Payload RetryPolicy ExecuteAt ValidUntil Interval] in *.
  destruct (if raw_empty p then _ else _) as [fs|] eqn:Hfs; [|done]. apply (inj Some) in Hj as <-.
  eexists. split; [done|]. rewrite !set_fields_app.
  assert (set_fields job_fields [(key "jobId", jstring jid); (key "apiEndpoint", jstring ep); (key "method", jstring m)]
    no_job = Some (Build_JobData jid ep m ∅ RawNil None "" "" 0)) as -> by (by decode_fields).
  cbn [mbind option_bind]. rewrite !set_fields_app, chunk_headers. cbn [mbind option_bind].
  rewrite !set_fields_app, (chunk_payload _ _ _ _ p _ _ _ _ fs) by done. cbn [mbind option_bind].
  rewrite !set_fields_app, chunk_retry by done. cbn [mbind option_bind].
  rewrite !set_fields_app. 
  assert (set_fields job_fields [(key "executeAt", jstring ex)]
    (Build_JobData jid ep m h (payload_stored p) r "" "" 0) =
    Some (Build_JobData jid ep m h (payload_stored p) r ex "" 0)) as -> by (by decode_fields).
  cbn [mbind option_bind]. rewrite !set_fields_app, chunk_valid. cbn [mbind option_bind].
  by rewrite chunk_interval.
Qed.

Lemma fields_wf_app (a b : list (list jchar * json)) :
  forallb (λ f, forallb jchar_ok f.1 && wf f.2) (a ++ b) =
  forallb (λ f, forallb jchar_ok f.1 && wf f.2) a && forallb (λ f, forallb jchar_ok f.1 && wf f.2) b.
Proof. apply forallb_app. Qed.

Lemma key_ok n : forallb jchar_ok (key n) = true.
Proof. apply quote_ok. Qed.

Lemma jint_wf n : wf (jint n) = true.
Proof. apply FormatInt_num_wf. Qed.

Lemma omit_wf b n v : wf v = true → forallb (λ f, forallb jchar_ok f.1 && wf f.2) (omit b n v) = true.
Proof. intros Hv. unfold omit. destruct b; cbn; [done|]. by rewrite key_ok, Hv. Qed.

Lemma job_json_wf j d : job_wf j → job_json j = Some d → wf d = true.
Proof.
  intros [Hp _ _] Hj. unfold job_json in Hj.
  destruct (if raw_empty _ then _ else _) as [fs|] eqn:Hfs; [|done]. apply (inj Some) in Hj as <-.
  rewrite wf_obj, !fields_wf_app, !omit_wf by (apply headers_wf || apply wf_jstring || apply jint_wf).
  assert (forallb (λ f, forallb jchar_ok f.1 && wf f.2) fs = true) as ->.
  { destruct (Payload j) as [|v|t]; cbn in Hfs, Hp; [by simplify_eq| |].
    - simplify_eq. cbn. by rewrite key_ok, html_wf.
    - case_bool_decide; [by simplify_eq|done]. }
  destruct (RetryPolicy j); cbn; by rewrite ?key_ok, ?wf_jstring, ?jint_wf.
Qed.

Definition stored_wf (s : StoredJob) : Prop := ∀ j, s.(s_JobData) = Some j → job_wf j.

Lemma unmarshal_marshal s text :
  stored_wf s → marshal_stored s = Some text →
  unmarshal_stored text = Some {| s_JobID := s.(s_JobID); s_JobData := job_stored <$> s.(s_JobData) |}.
Proof.
  intros Hw Hm. unfold marshal_stored in Hm. destruct s as [id [j|]]; cbn [s_JobID s_JobData] in *.
  - destruct (job_json j) as [d|] eqn:Hd; [|done]. apply (inj Some) in Hm as <-.
    specialize (Hw j eq_refl). destruct (decode_job j d Hw Hd) as (fs & -> & Hfs).
    unfold unmarshal_stored. rewrite parse_print.
    2: { rewrite wf_obj. cbn [forallb fst snd]. by rewrite !key_ok, wf_jstring, (job_json_wf j). }
    cbn [mbind option_bind unmarshal_struct].
    erewrite set_fields_found by reflexivity. rewrite set_string_jstring. cbn [mbind option_bind].
    erewrite set_fields_found by reflexivity. unfold set_ptr. cbn [s_JobData default from_option].
    by rewrite Hfs.
  - apply (inj Some) in Hm as <-. unfold unmarshal_stored. rewrite parse_print.
    { cbn [mbind option_bind unmarshal_struct]. by decode_fields. }
    rewrite wf_obj. cbn. by rewrite !key_ok, wf_jstring.
Qed.
