(* ===== verification/Logger.v ===== *)
(** * Redaction in logs (internal/logger/logger.go, protocol.JobData.LogValue)

    Attributes of package slog as trees; a [LogValuer] is what it resolves
    to.  The output handler is an argument. *)

From S2P Require Import Prelude GoStrings Json Utf8 Time StreamID Jobs.
Local Open Scope Z_scope.

(** A value, and an attribute as key and value. *)
Inductive Value : Type :=
| VString (s : string)
| VInt64 (n : Z)
| VAny (text : string)
| VGroup (l : list (string * Value))
| VLogValuer (v : Value).

Definition Attr : Type := string * Value.

(** [Value.Resolve]. *)
Fixpoint Resolve (v : Value) : Value := match v with VLogValuer v' => Resolve v' | _ => v end.

Definition RedactedValue : string := "[REDACTED]".

Section logger.
Context `{!Lower}.

Definition sensitive (key : string) : bool :=
  let k := ToLower key in
  HasSuffix k "password" || HasSuffix k "token" || HasSuffix k "authorization" || HasSuffix k "secret".

(** [redactAttr]; the recursion is on the value. *)
Fixpoint redact_value (key : string) (v : Value) : Value :=
  match v with
  | VLogValuer v' => redact_value key v'
  | VGroup group => VGroup ((λ g, (g.1, redact_value g.1 g.2)) <$> group)
  | v => if sensitive key then VString RedactedValue else v
  end.

Definition redactAttr (a : Attr) : Attr := (a.1, redact_value a.1 a.2).

(** The state of a handler: groups and attributes collected so far, outermost
    first.  A record is written with them. *)
Inductive context : Type := InGroup (name : string) | With (attrs : list Attr).

Definition WithAttrs (h : list context) (attrs : list Attr) : list context := h ++ [With (redactAttr <$> attrs)].
Definition WithGroup (h : list context) (name : string) : list context := h ++ [InGroup name].
Definition Handle (record : list Attr) : list Attr := redactAttr <$> record.

Inductive Level : Type := LevelDebug | LevelInfo | LevelWarn | LevelError.

(** [New]: the lowest level written, and the handler it starts with. *)
Definition New (level : string) : Level * list context :=
  let l := ToLower level in
  (if bool_decide (l = "debug") then LevelDebug
   else if bool_decide (l = "warn") then LevelWarn
   else if bool_decide (l = "error") then LevelError
   else LevelInfo,
   WithAttrs [] [("service", VString "websocket-server")]).

(** [attrSliceToAny] is the identity on attributes; Go ranges over the header
    map in some order. *)
Definition job_attrs (order : list (string * string)) (j : JobData) : list Attr :=
  [("jobId", VString j.(JobID)); ("apiEndpoint", VString j.(APIEndpoint)); ("method", VString j.(Method));
   ("executeAt", VString j.(ExecuteAt)); ("headers", VGroup ((λ kv, (kv.1, VString kv.2)) <$> order))]
  ++ (if bool_decide (j.(ValidUntil) = "") then [] else [("validUntil", VString j.(ValidUntil))])
  ++ (if bool_decide (j.(Interval) = 0) then [] else [("interval", VInt64 j.(Interval))]).

Definition LogValue (order : list (string * string)) (j : JobData) : Value := VGroup (job_attrs order j).

(** ** What reaches the output *)

(** [leaf v k x]: under an attribute [k] of value [v] the output has a value
    [x] with the innermost key given. *)
Inductive leaf : string → Value → list string → Value → Prop :=
| leaf_here k v : match v with VGroup _ | VLogValuer _ => False | _ => True end → leaf k v [k] v
| leaf_valuer k v p x : leaf k v p x → leaf k (VLogValuer v) p x
| leaf_group k l a p x : a ∈ l → leaf a.1 a.2 p x → leaf k (VGroup l) (k :: p) x.

Lemma Value_rose (P : Value → Prop) :
  (∀ s, P (VString s)) → (∀ n, P (VInt64 n)) → (∀ t, P (VAny t)) →
  (∀ l, Forall (λ a, P a.2) l → P (VGroup l)) → (∀ v, P v → P (VLogValuer v)) → ∀ v, P v.
Proof.
  intros Hs Hn Ha Hg Hl. fix IH 1. intros [s|n|t|l|v]; [apply Hs|apply Hn|apply Ha| |apply Hl, IH].
  apply Hg. induction l as [|a l IHl]; constructor; [apply IH|exact IHl].
Qed.

Lemma leaf_last k v p x k' : leaf k v p x → last (k' :: p) = last p.
Proof. intros L. assert (p ≠ []) by (by induction L). by destruct p. Qed.

Lemma leaf_redact k v p y :
  leaf k (redact_value k v) p y ↔
  ∃ x, leaf k v p x ∧ y = if sensitive (default "" (last p)) then VString RedactedValue else x.
Proof.
  revert k p y. induction v as [s|n|t|l IH|v IH] using Value_rose; intros k p y; cbn [redact_value].
  1-3: split;
    [intros Hy; assert (p = [k]) as -> by (by destruct (sensitive k); inversion Hy);
     eexists; split; [by constructor|]; cbn; by destruct (sensitive k); inversion Hy
    |intros (x & Hx & ->); inversion Hx; subst; cbn; destruct (sensitive k); by constructor].
  - rewrite Forall_forall in IH. split.
    + intros Hy. inversion Hy as [| |? ? a q ? Ha Hq]; subst; [done|].
      apply list_elem_of_fmap in Ha as (b & -> & Hb). cbn in Hq. apply (IH b Hb) in Hq as (x & Hx & ->).
      exists x. split; [by eapply leaf_group|]. by rewrite (leaf_last _ _ _ _ k Hx).
    + intros (x & Hx & ->). inversion Hx as [| |? ? a q ? Ha Hq]; subst; [done|].
      rewrite (leaf_last _ _ _ _ k Hq).
      eapply (leaf_group _ _ (a.1, redact_value a.1 a.2)); [by apply list_elem_of_fmap; exists a|].
      apply (IH a Ha). by exists x.
  - rewrite IH. split; intros (x & Hx & ->); exists x; (split; [|done]); [by constructor|]. by inversion Hx.
Qed.

(** No group stands under a sensitive key: the walk goes into a group before it
    looks at the key ([group_key_leaks]). *)
Fixpoint open_groups (key : string) (v : Value) : bool :=
  match v with
  | VLogValuer v' => open_groups key v'
  | VGroup group => negb (sensitive key) && forallb (λ g, open_groups g.1 g.2) group
  | _ => true
  end.

Lemma open_path k v p x : leaf k v p x → open_groups k v = true → existsb sensitive p = sensitive (default "" (last p)).
Proof.
  induction 1 as [k v _|k v p x _ IH|k l a p x Ha Hq IH]; intros Ho; [by apply orb_false_r|by apply IH|].
  cbn [open_groups] in Ho. apply andb_true_iff in Ho as [Hk%negb_true_iff Hl].
  rewrite (leaf_last _ _ _ _ k Hq). cbn [existsb]. rewrite Hk. apply IH.
  rewrite forallb_forall in Hl. by apply Hl, list_elem_of_In.
Qed.

(** [C37] Redaction is exact for attributes with no group under a sensitive key: the output has the values of the input
    at the same paths, each as it was unless a key on its path is sensitive, when it is replaced by the marker; groups
    and log-valuers are walked to any depth. *)
Theorem redaction_exact (a : Attr) p y : open_groups a.1 a.2 = true →
  leaf (redactAttr a).1 (redactAttr a).2 p y ↔
  ∃ x, leaf a.1 a.2 p x ∧ y = if existsb sensitive p then VString RedactedValue else x.
Proof.
  intros Ho. unfold redactAttr. cbn [fst snd]. rewrite leaf_redact.
  split; intros (x & Hx & ->); exists x; (split; [done|]); by rewrite (open_path _ _ _ _ Hx Ho).
Qed.

(** A job in a log line: no sensitive header shows, and nothing of the
    payload. *)
Lemma job_log_safe key order j p y :
  leaf key (redact_value key (VLogValuer (LogValue order j))) p y →
  (∃ k, p = [key; k] ∧ k ∈ ["jobId"; "apiEndpoint"; "method"; "executeAt"; "validUntil"; "interval"]) ∨
  (∃ k v, p = [key; "headers"; k] ∧ (k, v) ∈ order ∧ y = if sensitive k then VString RedactedValue else VString v).
Proof.
  rewrite leaf_redact. intros (x & Hx & ->). inversion Hx as [|? ? ? ? Hv|]; subst; [done|].
  unfold LogValue in Hv. inversion Hv as [| |? ? a q ? Ha Hq]; subst; [done|]. clear Hx Hv.
  assert (flat : match a.2 with VGroup _ | VLogValuer _ => False | _ => True end → q = [a.1]).
  { intros Hf. destruct a as [k' v]. cbn in *. destruct v; by inversion Hq. }
  unfold job_attrs in Ha. rewrite !elem_of_app in Ha. destruct Ha as [Ha|[Ha|Ha]].
  - rewrite !elem_of_cons in Ha. destruct Ha as [->|[->|[->|[->|[->|Ha]]]]].
    1-4: left; eexists; (split; [by rewrite (flat I)|set_solver]).
    2: by apply elem_of_nil in Ha.
    right. cbn in Hq. inversion Hq as [| |? ? b q' ? Hb Hq']; subst; [done|].
    apply list_elem_of_fmap in Hb as ([k v] & -> & Hb). cbn in Hq'. inversion Hq'; subst. by exists k, v.
  - case_bool_decide; [by apply elem_of_nil in Ha|]. apply list_elem_of_singleton in Ha as ->.
    left; eexists; split; [by rewrite (flat I)|set_solver].
  - case_bool_decide; [by apply elem_of_nil in Ha|]. apply list_elem_of_singleton in Ha as ->.
    left; eexists; split; [by rewrite (flat I)|set_solver].
Qed.

End logger.

#[local] Instance lower_ascii_only : Lower := {| ToLower := lower_ascii; ToLower_ascii _ _ := eq_refl |}.

(** A group under a sensitive key keeps its members, and so does what is
    logged after [WithGroup] with such a name. *)
Example group_key_leaks :
  redactAttr ("token", VGroup [("value", VString "s3cret")]) = ("token", VGroup [("value", VString "s3cret")]).
Proof. reflexivity. Qed.

Example suffix_keys : redactAttr ("X-Auth-Token", VLogValuer (VString "t")) = ("X-Auth-Token", VString "[REDACTED]").
Proof. reflexivity. Qed.

(** A nested group with a token in it and a number beside it. *)
Definition nested : Attr := ("req", VGroup [("auth", VLogValuer (VGroup [("X-Token", VString "t"); ("n", VInt64 3)]))]).

Lemma redaction_exact_witness :
  leaf (redactAttr nested).1 (redactAttr nested).2 ["req"; "auth"; "X-Token"] (VString "[REDACTED]") ∧
  leaf (redactAttr nested).1 (redactAttr nested).2 ["req"; "auth"; "n"] (VInt64 3).
Proof.
  split; apply (redaction_exact nested); [reflexivity|exists (VString "t")|reflexivity|exists (VInt64 3)]; (split; [|reflexivity]).
  - eapply leaf_group; [by left|]. apply leaf_valuer. eapply leaf_group; [by left|]. by constructor.
  - eapply leaf_group; [by left|]. apply leaf_valuer. eapply leaf_group; [right; by left|]. by constructor.
Defined.
