(* ===== verification/Inbound.v ===== *)
(** * Frames clients send (protocol/protocol.go)

    The envelope every inbound frame is decoded into, and its validation.
    [since] is kept as [option json]: decoding stores nothing but values. *)

From S2P Require Import Prelude GoStrings Prog Json Float Time StreamID Judge Jobs.
Local Open Scope Z_scope.

Definition Version : Z := 1.
Definition MinVersion : Z := 1.

Definition TypeSubscribe : string := "subscribe".
Definition TypeUnsubscribe : string := "unsubscribe".
Definition TypePublish : string := "publish".
Definition TypeLockTopic : string := "lockTopic".
Definition TypeUnlockTopic : string := "unlockTopic".
Definition TypeRenewLock : string := "renewLock".
Definition TypeScheduleJob : string := "scheduleJob".
Definition TypeRemoveJob : string := "removeJob".
Definition TypeBroadcast : string := "broadcast".
Definition TypePresence : string := "presence".
Definition TypeListSubs : string := "listSubscriptions".
Definition TypeAck : string := "ack".
Definition SinceAck : string := "ack".

Record Envelope : Type := {
  e_Type : string;
  e_Topic : string;
  e_Data : raw;
  e_JobData : option JobData;
  e_JobID : string;
  e_LockType : string;
  e_Since : option json;
  e_ReqID : string;
  e_Report : bool;
  e_StreamID : string;
  e_Version : option Z;
}.

Definition no_envelope : Envelope := {|
  e_Type := ""; e_Topic := ""; e_Data := RawNil; e_JobData := None; e_JobID := ""; e_LockType := "";
  e_Since := None; e_ReqID := ""; e_Report := false; e_StreamID := ""; e_Version := None;
|}.

(** A pointer to an [int]. *)
Definition set_int_ptr {A} (put : option Z → A → A) : setter A := λ j a,
  match j with
  | JNum lit => match ParseInt lit with (n, true) => Some (put (Some n) a) | _ => None end
  | JNull => Some (put None a)
  | _ => None
  end.

Definition envelope_fields : list (string * setter Envelope) :=
  let upd ty to da jd ji lt si ri re st ve := {| e_Type := ty; e_Topic := to; e_Data := da; e_JobData := jd;
    e_JobID := ji; e_LockType := lt; e_Since := si; e_ReqID := ri; e_Report := re; e_StreamID := st; e_Version := ve |} in
  let put f := λ (e : Envelope), f e.(e_Type) e.(e_Topic) e.(e_Data) e.(e_JobData) e.(e_JobID) e.(e_LockType)
    e.(e_Since) e.(e_ReqID) e.(e_Report) e.(e_StreamID) e.(e_Version) in
  [("type", set_string (λ v, put (λ ty to da jd ji lt si ri re st ve, upd v to da jd ji lt si ri re st ve)));
   ("topic", set_string (λ v, put (λ ty to da jd ji lt si ri re st ve, upd ty v da jd ji lt si ri re st ve)));
   ("data", set_raw (λ v, put (λ ty to da jd ji lt si ri re st ve, upd ty to v jd ji lt si ri re st ve)));
   ("jobData", set_ptr job_fields no_job e_JobData
      (λ v, put (λ ty to da jd ji lt si ri re st ve, upd ty to da v ji lt si ri re st ve)));
   ("jobId", set_string (λ v, put (λ ty to da jd ji lt si ri re st ve, upd ty to da jd v lt si ri re st ve)));
   ("lockType", set_string (λ v, put (λ ty to da jd ji lt si ri re st ve, upd ty to da jd ji v si ri re st ve)));
   ("since", λ j e, Some (put (λ ty to da jd ji lt si ri re st ve, upd ty to da jd ji lt (Some j) ri re st ve) e));
   ("reqID", set_string (λ v, put (λ ty to da jd ji lt si ri re st ve, upd ty to da jd ji lt si v re st ve)));
   ("report", set_bool (λ v, put (λ ty to da jd ji lt si ri re st ve, upd ty to da jd ji lt si ri v st ve)));
   ("streamId", set_string (λ v, put (λ ty to da jd ji lt si ri re st ve, upd ty to da jd ji lt si ri re v ve)));
   ("version", set_int_ptr (λ v, put (λ ty to da jd ji lt si ri re st ve, upd ty to da jd ji lt si ri re st v)))].

(** [json.Unmarshal(raw, &env)]. *)
Definition read_envelope (text : string) : option Envelope :=
  j ← parse text; unmarshal_struct envelope_fields no_envelope j.

(** ** Validation *)

Definition ValidateVersion (env : Envelope) : result () :=
  match env.(e_Version) with
  | Some v =>
      if (v <? MinVersion) || (Version <? v) then
        Err (errors_New ("Unsupported protocol version " +:+ FormatInt v +:+ ". This server supports "
          +:+ FormatInt MinVersion +:+ " to " +:+ FormatInt Version +:+ "."))
      else Ok ()
  | None => Ok ()
  end.

Definition validateSince (since : json) : result () :=
  let bad := Err (errors_New "subscribe.since must be an ISO timestamp, stream ID, or numeric ms.") in
  match since with
  | JStr r => if decide (unquote r = "") then bad else Ok ()
  | JBool _ | JNull | JObj _ | JArr _ => bad
  | JNum lit => if ParseFloat lit is Some _ then Ok () else bad
  end.

(** [SinceToString]: what the cursor parser gets. *)
Definition SinceToString (since : option json) : result string :=
  match since with
  | None => Ok ""
  | Some (JStr r) => Ok (unquote r)
  | Some JNull => Ok "0"
  | Some (JNum lit) =>
      match ParseInt lit with
      | (n, true) => Ok (FormatInt n)
      | _ =>
          match ParseFloat lit with
          | Some f => Ok (FormatInt (int64_of_float f))
          | None => Err (errors_New ("json: cannot unmarshal number " +:+ lit +:+ " into Go value of type int64"))
          end
      end
  | Some (JBool _) => Err (errors_New "json: cannot unmarshal bool into Go value of type int64")
  | Some (JArr _) => Err (errors_New "json: cannot unmarshal array into Go value of type int64")
  | Some (JObj _) => Err (errors_New "json: cannot unmarshal object into Go value of type int64")
  end.

(** Evaluate the comparisons of a known type with the types of the verbs. *)
Ltac eval_types :=
  repeat match goal with
  | |- context [bool_decide (?x ∈ ?l)] =>
      let b := eval vm_compute in (bool_decide (x ∈ l)) in change (bool_decide (x ∈ l)) with b
  | |- context [decide (?x = ?y)] =>
      first [rewrite (decide_False (P := x = y)) by discriminate | rewrite (decide_True (P := x = y)) by reflexivity]
  end.

Section validate.
Context `{!TimeErrors, !GoQuote}.

Definition must (env : Envelope) (what : string) : result () :=
  Err (errors_New ("Message of type " +:+ Quote env.(e_Type) +:+ " must contain " +:+ what)).

Definition validate_fields (env : Envelope) : result () :=
  let ty := env.(e_Type) in
  if bool_decide (ty ∈ [TypeLockTopic; TypeUnlockTopic; TypeRenewLock]) then
    if bool_decide (env.(e_Topic) = "" ∨ env.(e_LockType) ≠ "publish" ∧ env.(e_LockType) ≠ "subscribe")
    then must env "topic and a valid lockType." else Ok ()
  else if decide (ty = TypePresence) then
    if decide (env.(e_Topic) = "") then must env "topic." else Ok ()
  else if decide (ty = TypeAck) then
    if bool_decide (env.(e_Topic) = "" ∨ env.(e_StreamID) = "") then must env "topic and streamId." else Ok ()
  else if decide (ty = TypeListSubs) then Ok ()
  else if bool_decide (ty ∈ [TypeSubscribe; TypeUnsubscribe]) then
    if decide (env.(e_Topic) = "") then must env "topic."
    else if decide (ty = TypeSubscribe) then
      match env.(e_Since) with Some since => validateSince since | None => Ok () end
    else Ok ()
  else if decide (ty = TypePublish) then
    if bool_decide (env.(e_Topic) = "") || raw_empty env.(e_Data) then must env "both topic and data." else Ok ()
  else if decide (ty = TypeScheduleJob) then
    match env.(e_JobData) with
    | None => Err (errors_New ("Message of type " +:+ String dquote ("scheduleJob" +:+ String dquote
                " must contain valid jobData.")))
    | Some j => wrap_err ("Message of type " +:+ String dquote ("scheduleJob" +:+ String dquote
                " must contain valid jobData: ")) (validateJobData j)
    end
  else if decide (ty = TypeRemoveJob) then
    if decide (env.(e_JobID) = "") then must env "jobId to remove" else Ok ()
  else if decide (ty = TypeBroadcast) then
    if raw_empty env.(e_Data) then Err (errors_New "Messages must contain data field.") else Ok ()
  else Err (errors_New "Unsupported message type.").

Definition Validate (env : Envelope) : result () :=
  if decide (env.(e_Type) = "") then Err (errors_New "Message must have a type.")
  else match ValidateVersion env with
  | Err e => Err e
  | Ok () => validate_fields env
  end.

(** ** The commands clients have

    What an accepted frame asks for, each command with the fields its handler
    reads; the rest of the envelope is ignored. *)

Inductive lock_verb : Type := VLock | VUnlock | VRenew.

Inductive command : Type :=
| CSubscribe (topic : string) (since : option json)
| CUnsubscribe (topic : string)
| CPublish (topic : string) (data : json) (report : bool)
| CLocks (verb : lock_verb) (topic lockType : string)
| CSchedule (job : JobData)
| CRemoveJob (jobId : string)
| CBroadcast (data : json)
| CPresence (topic : string)
| CListSubs
| CAck (topic streamId : string).

Definition lock_verb_type (v : lock_verb) : string :=
  match v with VLock => TypeLockTopic | VUnlock => TypeUnlockTopic | VRenew => TypeRenewLock end.

(** A job that can be run: where, how and when. *)
Record job_valid (j : JobData) : Prop := {
  jv_id : j.(JobID) ≠ "";
  jv_endpoint : j.(APIEndpoint) ≠ "";
  jv_method : j.(Method) ∈ ["GET"; "POST"; "PUT"; "DELETE"];
  jv_execute : is_Some (Parse_RFC3339Nano j.(ExecuteAt));
  jv_until : j.(ValidUntil) = "" ∨ is_Some (Parse_RFC3339Nano j.(ValidUntil));
  jv_retry r : j.(RetryPolicy) = Some r → 0 <= r.(MaxRetries) ∧ 0 <= r.(RetryDelay);
}.

(** A position to resume from: text, or a number a [float64] can hold. *)
Inductive since_valid : json → Prop :=
| since_text r : unquote r ≠ "" → since_valid (JStr r)
| since_number lit f : ParseFloat lit = Some f → since_valid (JNum lit).

Inductive command_valid : command → Prop :=
| valid_subscribe topic since : topic ≠ "" → (∀ j, since = Some j → since_valid j) → command_valid (CSubscribe topic since)
| valid_unsubscribe topic : topic ≠ "" → command_valid (CUnsubscribe topic)
| valid_publish topic data report : topic ≠ "" → command_valid (CPublish topic data report)
| valid_lock verb topic kind : topic ≠ "" → kind = "publish" ∨ kind = "subscribe" → command_valid (CLocks verb topic kind)
| valid_schedule job : job_valid job → command_valid (CSchedule job)
| valid_remove jobId : jobId ≠ "" → command_valid (CRemoveJob jobId)
| valid_broadcast data : command_valid (CBroadcast data)
| valid_presence topic : topic ≠ "" → command_valid (CPresence topic)
| valid_list : command_valid CListSubs
| valid_ack topic streamId : topic ≠ "" → streamId ≠ "" → command_valid (CAck topic streamId).

Definition command_type (c : command) : string :=
  match c with
  | CSubscribe _ _ => TypeSubscribe | CUnsubscribe _ => TypeUnsubscribe | CPublish _ _ _ => TypePublish
  | CLocks verb _ _ => lock_verb_type verb | CSchedule _ => TypeScheduleJob | CRemoveJob _ => TypeRemoveJob
  | CBroadcast _ => TypeBroadcast | CPresence _ => TypePresence | CListSubs => TypeListSubs | CAck _ _ => TypeAck
  end.

(** The envelope carries the command. *)
Definition carries (env : Envelope) (c : command) : Prop :=
  match c with
  | CSubscribe topic since => env.(e_Type) = TypeSubscribe ∧ env.(e_Topic) = topic ∧ env.(e_Since) = since
  | CUnsubscribe topic => env.(e_Type) = TypeUnsubscribe ∧ env.(e_Topic) = topic
  | CPublish topic data report =>
      env.(e_Type) = TypePublish ∧ env.(e_Topic) = topic ∧ env.(e_Data) = Raw data ∧ env.(e_Report) = report
  | CLocks verb topic kind =>
      env.(e_Type) = lock_verb_type verb ∧ env.(e_Topic) = topic ∧ env.(e_LockType) = kind
  | CSchedule job => env.(e_Type) = TypeScheduleJob ∧ env.(e_JobData) = Some job
  | CRemoveJob jobId => env.(e_Type) = TypeRemoveJob ∧ env.(e_JobID) = jobId
  | CBroadcast data => env.(e_Type) = TypeBroadcast ∧ env.(e_Data) = Raw data
  | CPresence topic => env.(e_Type) = TypePresence ∧ env.(e_Topic) = topic
  | CListSubs => env.(e_Type) = TypeListSubs
  | CAck topic streamId => env.(e_Type) = TypeAck ∧ env.(e_Topic) = topic ∧ env.(e_StreamID) = streamId
  end.

Definition version_spoken (env : Envelope) : Prop :=
  ∀ v, env.(e_Version) = Some v → MinVersion <= v <= Version.

(** ** Validation accepts exactly the commands *)

Lemma retry_ok (r : option JobRetryPolicy) :
  match r with
  | Some r => if (r.(MaxRetries) <? 0) || (r.(RetryDelay) <? 0)
              then Err (errors_New "retryPolicy fields must be non-negative") else Ok ()
  | None => Ok ()
  end = Ok () ↔ ∀ r', r = Some r' → 0 <= r'.(MaxRetries) ∧ 0 <= r'.(RetryDelay).
Proof.
  destruct r as [r|]; [|done]. split.
  - intros Hr ? [= <-]. case_match; [done|]. lia.
  - intros Hr. destruct (Hr r eq_refl). case_match; [lia|done].
Qed.

Lemma ParseTime_ok s : is_ok (ParseTime s) = true ↔ is_Some (Parse_RFC3339Nano s).
Proof. unfold ParseTime. destruct (Parse_RFC3339Nano s); [done|]. split; [done|by intros [? ?]]. Qed.

Lemma validateJobData_ok j : validateJobData j = Ok () ↔ job_valid j.
Proof.
  unfold validateJobData, ParseExecuteAt, ParseValidUntil. split.
  - intros Hj. do 2 (destruct (decide _) in Hj; [done|]). case_bool_decide; cbn in Hj; [|done].
    destruct (decide _) in Hj; [done|].
    destruct (ParseTime j.(ExecuteAt)) eqn:Ht; [|done].
    destruct (decide (j.(ValidUntil) = "")); [|destruct (ParseTime j.(ValidUntil)) eqn:Hu; [|done]];
      (constructor; try done; [by rewrite <- ParseTime_ok, Ht| |by apply retry_ok]).
    + by left.
    + right. by rewrite <- ParseTime_ok, Hu.
  - intros [Hid Hep Hm Ht Hu Hr]. apply ParseTime_ok in Ht. apply retry_ok in Hr.
    do 2 (destruct (decide _); [done|]). rewrite bool_decide_true by done. cbn [negb].
    destruct (decide (j.(ExecuteAt) = "")) as [E|]; [by rewrite E in Ht|].
    destruct (ParseTime j.(ExecuteAt)); [|done].
    destruct (decide (j.(ValidUntil) = "")); [done|].
    destruct Hu as [|Hu]; [done|]. apply ParseTime_ok in Hu. by destruct (ParseTime j.(ValidUntil)).
Qed.

Lemma validateSince_ok j : validateSince j = Ok () ↔ since_valid j.
Proof.
  split.
  - destruct j as [|b|lit|r|l|fs]; cbn; try done; intros Hj.
    + destruct (ParseFloat lit) eqn:Hf; [by econstructor|done].
    + destruct (decide (unquote r = "")); [done|by constructor].
  - intros [r Hr|lit f Hf]; cbn; [by rewrite decide_False|by rewrite Hf].
Qed.

Lemma ValidateVersion_ok env : ValidateVersion env = Ok () ↔ version_spoken env.
Proof.
  unfold ValidateVersion, version_spoken, MinVersion, Version. destruct env.(e_Version) as [v|]; [|done]. split.
  - intros Hv ? [= <-]. case_match; [done|]. lia.
  - intros Hv. specialize (Hv v eq_refl). case_match; [lia|done].
Qed.

Lemma read_envelope_data text env : read_envelope text = Some env → ∀ s, env.(e_Data) ≠ RawBad s.
Proof.
  unfold read_envelope. intros (j&_&Hj)%bind_Some.
  refine (unmarshal_struct_keeps (λ e, ∀ s, e.(e_Data) ≠ RawBad s) _ _ _ _ _ _ Hj); [|done].
  unfold envelope_fields.
  repeat first [apply Forall_nil; exact I|apply Forall_cons; split]; cbn [snd]; intros v b b' Hb Hv;
    (unfold set_string, set_bool, set_raw, set_int_ptr, set_ptr in Hv;
     destruct v; repeat case_match; simplify_option_eq; done).
Qed.

Lemma carries_type env c : carries env c → env.(e_Type) = command_type c.
Proof. by destruct c; cbn; intros; destruct_and?. Qed.

Lemma carries_unique env c c' : carries env c → carries env c' → c = c'.
Proof.
  intros Hc Hc'. pose proof (carries_type _ _ Hc) as E. rewrite (carries_type _ _ Hc') in E.
  destruct c as [| | |v ? ?| | | | | |], c' as [| | |v' ? ?| | | | | |]; try discriminate E;
    try (destruct v; discriminate E); try (destruct v'; discriminate E); cbn in Hc, Hc'; destruct_and?;
    try congruence.
  f_equal; [|congruence..]. by destruct v, v'; try discriminate E.
Qed.

Lemma validate_fields_accepts env c :
  carries env c → command_valid c → validate_fields env = Ok ().
Proof.
  intros Hc Hok. pose proof (carries_type _ _ Hc) as E. unfold validate_fields. rewrite E.
  destruct Hok as [t s Ht Hs|t Ht|t d r Ht|v t k Ht Hk|j Hj|i Hi|d|t Ht| |t i Ht Hi]; cbn in Hc; destruct_and?;
    try destruct v; cbn [command_type lock_verb_type]; eval_types; simplify_eq; cbn iota;
    rewrite ?bool_decide_false by tauto; try (case_decide; [done|]); try done.
  - destruct env.(e_Since) as [j|]; [|done]. apply validateSince_ok. by apply Hs.
  - by match goal with HD : e_Data env = _ |- _ => rewrite HD end.
  - match goal with HD : e_JobData env = _ |- _ => rewrite HD end.
    apply validateJobData_ok in Hj. by rewrite Hj.
  - by match goal with HD : e_Data env = _ |- _ => rewrite HD end.
Qed.

Lemma raw_present d : (∀ s, d ≠ RawBad s) → raw_empty d = false → ∃ j, d = Raw j.
Proof. destruct d as [|j|s]; [done|by eexists|]. intros Hd. by destruct (Hd s). Qed.

Lemma validate_fields_carries env :
  (∀ s, env.(e_Data) ≠ RawBad s) → validate_fields env = Ok () → ∃ c, carries env c ∧ command_valid c.
Proof.
  intros Hd. unfold validate_fields, must. intros Hv.
  destruct (bool_decide (e_Type env ∈ _)) eqn:Hl in Hv; [apply bool_decide_eq_true in Hl|clear Hl].
  { assert (∃ v, env.(e_Type) = lock_verb_type v) as [v E].
    { apply list_elem_of_In in Hl as [<-|[<-|[<-|[]]]]; [by exists VLock|by exists VUnlock|by exists VRenew]. }
    exists (CLocks v env.(e_Topic) env.(e_LockType)). case_bool_decide; [done|]. split; [done|]. constructor; [tauto|].
    destruct (decide (env.(e_LockType) = "publish")); [by left|]. right.
    destruct (decide (env.(e_LockType) = "subscribe")); tauto. }
  destruct (decide (e_Type env = TypePresence)).
  { destruct (decide _) in Hv; [done|]. exists (CPresence env.(e_Topic)). by split; [|constructor]. }
  destruct (decide (e_Type env = TypeAck)).
  { case_bool_decide; [done|]. exists (CAck env.(e_Topic) env.(e_StreamID)). split; [done|]. constructor; tauto. }
  destruct (decide (e_Type env = TypeListSubs)).
  { exists CListSubs. by split; [|constructor]. }
  destruct (bool_decide (e_Type env ∈ _)) eqn:Hl in Hv; [apply bool_decide_eq_true in Hl|clear Hl].
  { destruct (decide (e_Topic env = "")); [done|]. destruct (decide (e_Type env = TypeSubscribe)).
    - exists (CSubscribe env.(e_Topic) env.(e_Since)). split; [done|]. constructor; [done|].
      intros j Hj. rewrite Hj in Hv. by apply validateSince_ok.
    - apply list_elem_of_In in Hl as [E|[E|[]]]; [done|]. exists (CUnsubscribe env.(e_Topic)). by split; [|constructor]. }
  destruct (decide (e_Type env = TypePublish)).
  { destruct (bool_decide _) eqn:Ht in Hv; [done|]. apply bool_decide_eq_false in Ht.
    destruct (raw_empty _) eqn:Hr in Hv; [done|]. apply raw_present in Hr as [d Hr]; [|done].
    exists (CPublish env.(e_Topic) d env.(e_Report)). by split; [|constructor]. }
  destruct (decide (e_Type env = TypeScheduleJob)).
  { destruct env.(e_JobData) as [j|] eqn:Hj; [|done]. destruct (validateJobData j) as [[]|] eqn:Hok; [|done].
    exists (CSchedule j). split; [done|]. constructor. by apply validateJobData_ok. }
  destruct (decide (e_Type env = TypeRemoveJob)).
  { destruct (decide _) in Hv; [done|]. exists (CRemoveJob env.(e_JobID)). by split; [|constructor]. }
  destruct (decide (e_Type env = TypeBroadcast)); [|done].
  destruct (raw_empty _) eqn:Hr in Hv; [done|]. apply raw_present in Hr as [d Hr]; [|done].
  exists (CBroadcast d). by split; [|constructor].
Qed.

Lemma Validate_carries text env :
  read_envelope text = Some env → Validate env = Ok () →
  ValidateVersion env = Ok () ∧ ∃ c, carries env c ∧ command_valid c.
Proof.
  intros Hd. pose proof (read_envelope_data _ _ Hd). unfold Validate.
  destruct (decide _); [done|]. destruct (ValidateVersion env) as [[]|]; [|done].
  intros Hv. split; [done|]. by apply validate_fields_carries.
Qed.

(** [C30] [Validate] accepts exactly the frames that carry a command with
    every field it needs, in a protocol version the server speaks; the
    command a frame carries is unique. *)
Theorem Validate_exact text env :
  read_envelope text = Some env →
  Validate env = Ok () ↔ version_spoken env ∧ ∃ c, unique (λ c, carries env c ∧ command_valid c) c.
Proof.
  intros Hd. pose proof (read_envelope_data _ _ Hd). unfold Validate. rewrite <- ValidateVersion_ok.
  assert (∀ c, carries env c → env.(e_Type) ≠ "") as Hne.
  { intros c ->%carries_type. by destruct c as [| | |[]| | | | | |]. }
  split.
  - intros Hv. destruct (Validate_carries _ _ Hd Hv) as (Hver&c&Hc&Hok). split; [done|]. exists c. split; [done|].
    intros c' [Hc' _]. by eapply carries_unique.
  - intros [-> (c&[Hc Hok]&_)]. rewrite decide_False by eauto. by eapply validate_fields_accepts.
Qed.

(** ** Resuming *)

(** The [since] of an accepted subscribe always becomes a cursor: text
    as it stands and never empty, a number its [int64] value in decimal. *)
Theorem since_becomes_cursor text env since :
  read_envelope text = Some env → Validate env = Ok () → env.(e_Type) = TypeSubscribe →
  env.(e_Since) = Some since →
  ∃ s, SinceToString (Some since) = Ok s ∧ s ≠ "" ∧
    match since with
    | JStr r => s = unquote r
    | _ => ∃ n, s = FormatInt n ∧ in_int64 n
    end.
Proof.
  intros Hd Hv Ht Hs. assert (since_valid since) as Hok.
  { destruct (Validate_carries _ _ Hd Hv) as (_&c&Hc&Hok).
    pose proof (carries_type _ _ Hc) as E. rewrite Ht in E.
    destruct Hok as [t s Hne Hsince| | |v| | | | | |]; try discriminate E; [|by destruct v].
    apply Hsince. cbn in Hc. by destruct Hc as (_&_&<-). }
  destruct Hok as [r Hr|lit f Hf]; [by exists (unquote r)|]. cbn [SinceToString].
  destruct (ParseInt lit) as [n [|]] eqn:Hp.
  - exists (FormatInt n). split_and!; [done|apply FormatInt_nonempty|]. exists n. split; [done|].
    pose proof (ParseInt_range lit) as Hn. by rewrite Hp in Hn.
  - rewrite Hf. eexists. split_and!; [done|apply FormatInt_nonempty|]. eexists. split; [done|].
    apply int64_of_float_range.
Qed.

End validate.

(** ** On concrete frames *)

#[local] Instance quote_id : GoQuote := {| Quote := id |}.
#[local] Instance time_errors : TimeErrors := id.

Definition subscribe_text : string :=
  let q := String dquote EmptyString in
  "{" +:+ q +:+ "type" +:+ q +:+ ":" +:+ q +:+ "subscribe" +:+ q +:+ "," +:+ q +:+ "topic" +:+ q +:+ ":" +:+ q +:+ "a" +:+ q
  +:+ "," +:+ q +:+ "Since" +:+ q +:+ ":1e19," +:+ q +:+ "version" +:+ q +:+ ":1}".

Definition subscribe_env : Envelope := {|
  e_Type := "subscribe"; e_Topic := "a"; e_Data := RawNil; e_JobData := None; e_JobID := ""; e_LockType := "";
  e_Since := Some (JNum "1e19"); e_ReqID := ""; e_Report := false; e_StreamID := ""; e_Version := Some 1;
|}.

(** A frame that validates, and so carries a command. *)
Lemma Validate_exact_witness :
  read_envelope subscribe_text = Some subscribe_env ∧ Validate subscribe_env = Ok () ∧
  ∃ c, unique (λ c, carries subscribe_env c ∧ command_valid c) c.
Proof.
  assert (read_envelope subscribe_text = Some subscribe_env) as Hr by (vm_compute; reflexivity).
  assert (Validate subscribe_env = Ok ()) as Hv by (vm_compute; reflexivity).
  split; [exact Hr|split; [exact Hv|]]. exact (proj2 (proj1 (Validate_exact _ _ Hr) Hv)).
Defined.

(** A number no [int64] holds still becomes a cursor: the least one. *)
Lemma since_becomes_cursor_witness :
  SinceToString (Some (JNum "1e19")) = Ok "-9223372036854775808" ∧
  ∃ s, SinceToString (Some (JNum "1e19")) = Ok s ∧ s ≠ "" ∧ ∃ n, s = FormatInt n ∧ in_int64 n.
Proof.
  assert (read_envelope subscribe_text = Some subscribe_env) as Hr by (vm_compute; reflexivity).
  split; [vm_compute; reflexivity|].
  exact (since_becomes_cursor _ _ _ Hr ltac:(vm_compute; reflexivity) eq_refl eq_refl).
Defined.
