(* ===== verification/Handler.v ===== *)
(** * Extension points for inbound frames (handler/handler.go)

    Handlers and middleware are supplied by the embedder, so they are
    arguments; their composition and the registry are the package's own. *)

From S2P Require Import Prelude GoStrings Prog Json Inbound.
Local Open Scope Z_scope.

Section handler.
(** The connection a handler writes to, the state of the process, and the
    claims of a credential. *)
Context {Rw L Claims : Type}.

(** [handler.Conn]. *)
Record ConnInfo : Type := { ci_ConnID : string; ci_UserKey : string; ci_Claims : option Claims }.

Definition LifecycleFunc : Type := ConnInfo → prog L ().

Record HRequest : Type := {
  hr_UserKey : string;
  hr_ConnID : string;
  hr_Claims : option Claims;
  (** A pointer. *)
  hr_Envelope : option Envelope;
}.

Definition ReqID (r : HRequest) : string := from_option e_ReqID "" r.(hr_Envelope).
Definition RequestTopic (r : HRequest) : string := from_option e_Topic "" r.(hr_Envelope).
Definition RequestType (r : HRequest) : string := from_option e_Type "" r.(hr_Envelope).

(** What a call of a handler comes to: its two results, or a panic. *)
Inductive handled : Type :=
| Reply (reply : string) (err : option error)
| Panic.

Definition Handler : Type := HRequest → Rw → prog L handled.
Definition Middleware : Type := Handler → Handler.

(** The loop of [Chain], from the last element down; nil elements are skipped. *)
Fixpoint chain_loop (i : nat) (mw : list (option Middleware)) (h : Handler) : Handler :=
  match i with
  | O => h
  | S i' => chain_loop i' mw (match mw !! i' with Some (Some m) => m h | _ => h end)
  end.

Definition Chain (h : Handler) (mw : list (option Middleware)) : Handler := chain_loop (length mw) mw h.

(** ** The registry *)

Record Registry : Type := { handlers : gmap string Handler }.

Definition NewRegistry : Registry := {| handlers := ∅ |}.

(** Methods of a nil [*Registry] do nothing. *)
Definition Register (r : option Registry) (verb : string) (h : option Handler) : option Registry :=
  match r, h with
  | Some r, Some h => if decide (verb = "") then Some r else Some {| handlers := <[verb := h]> r.(handlers) |}
  | _, _ => r
  end.

Definition Use (r : option Registry) (h : option Handler) (verbs : list string) : option Registry :=
  foldl (λ r v, Register r v h) r verbs.

Definition Lookup (r : option Registry) (verb : string) : option Handler :=
  match r with Some r => r.(handlers) !! verb | None => None end.

Definition Verbs (r : option Registry) : list string :=
  match r with Some r => (map_to_list r.(handlers)).*1 | None => [] end.

(** ** Composition *)

Definition apply_mw (m : option Middleware) (h : Handler) : Handler := match m with Some m => m h | None => h end.

Lemma chain_loop_app i pre suf h :
  length pre = i → chain_loop i (pre ++ suf) h = foldr apply_mw h pre.
Proof.
  revert suf i h. induction pre as [|m pre IH] using rev_ind; intros suf i h Hi; [by subst|].
  rewrite length_app, Nat.add_comm in Hi. subst i. cbn [length plus chain_loop].
  rewrite <- app_assoc. rewrite foldr_app. cbn [foldr app].
  rewrite (list_lookup_middle pre suf m) by done. rewrite (IH (m :: suf)) by done. by destruct m.
Qed.

(** The first middleware of the list is the outermost: the loop builds
    the nesting written from left to right. *)
Theorem Chain_nests h mw : Chain h mw = foldr apply_mw h mw.
Proof. unfold Chain. rewrite <- (app_nil_r mw) at 2. by apply chain_loop_app. Qed.

Lemma Lookup_Register r verb verb' h :
  Lookup (Register (Some r) verb (Some h)) verb' =
  if decide (verb = verb' ∧ verb ≠ "") then Some h else Lookup (Some r) verb'.
Proof.
  unfold Register, Lookup. destruct (decide (verb = "")) as [->|Hne].
  { rewrite decide_False; [done|]. by intros [_ ?]. }
  cbn. destruct (decide (verb = verb')) as [->|Hv].
  - by rewrite lookup_insert_eq, decide_True.
  - rewrite lookup_insert_ne, decide_False; [done|by intros [? _]|done].
Qed.

End handler.
Arguments ConnInfo Claims : clear implicits.
Arguments HRequest Claims : clear implicits.
Arguments Handler Rw L Claims : clear implicits.
Arguments Middleware Rw L Claims : clear implicits.
Arguments Registry Rw L Claims : clear implicits.
Arguments LifecycleFunc L Claims : clear implicits.
