(* ===== verification/SchedStore.v ===== *)
(** * The job store (internal/redisx/scheduler_store.go)

    Jobs wait in one sorted set shared by all instances. *)

From S2P Require Import Prelude GoStrings Redis RedisModel Prog Time Json Judge Jobs.
Local Open Scope Z_scope.
Local Open Scope prog_scope.

Definition SchedulerSetKey : string := "jobScheduler".
Definition claimKeyPrefix : string := "job:claim:".

(** The text of [json.Marshal]'s error on a bad [RawMessage]. *)
Definition marshal_error : error := errors_New "marshal stored job: json: error calling MarshalJSON for type json.RawMessage".

Section store.
Context {L : Type} `{!TimeErrors}.

(** The loop of [jobExists] and [RemoveJob]: the first member that is a job
    with this ID. *)
Fixpoint find_job (jobID : string) (members : list string) : option string :=
  match members with
  | [] => None
  | m :: members =>
      match unmarshal_stored m with
      | Some s => if decide (s.(s_JobID) = jobID) then Some m else find_job jobID members
      | None => find_job jobID members
      end
  end.

Definition jobExists (jobID : string) : prog L (result bool) :=
  members ←? wrapped "zrange scheduler: " (call (ZRANGE_ALL SchedulerSetKey));
  Ret (Ok (bool_decide (is_Some (find_job jobID members)))).

Definition AddJob (j : option JobData) : prog L (result ()) :=
  match j with
  | None => Ret (Err (errors_New "job must have a jobId"))
  | Some j =>
      if decide (j.(JobID) = "") then Ret (Err (errors_New "job must have a jobId"))
      else
        match ParseExecuteAt j.(ExecuteAt) with
        | Err e => Ret (Err (Errorf_w "executeAt: " e))
        | Ok executeAt =>
            exists_ ←? jobExists j.(JobID);
            if (exists_ : bool)
            then Ret (Err (errors_New ("Job with ID " +:+ j.(JobID) +:+ " already exists in the scheduler.")))
            else
              match marshal_stored {| s_JobID := j.(JobID); s_JobData := Some j |} with
              | None => Ret (Err marshal_error)
              | Some payload =>
                  _ ←? call (ZADD SchedulerSetKey (float64 (UnixMilli executeAt)) payload);
                  Ret (Ok ())
              end
        end
  end.

Definition RemoveJob (jobID : string) : prog L (result ()) :=
  members ←? wrapped "zrange scheduler: " (call (ZRANGE_ALL SchedulerSetKey));
  match find_job jobID members with
  | Some m =>
      _ ←? wrapped "zrem job: " (call (ZREM SchedulerSetKey m));
      Ret (Ok ())
  | None => Ret (Err (errors_New ("Job with ID " +:+ jobID +:+ " does not exist in the scheduler.")))
  end.

Record DueJobsResult : Type := { RawMember : string; Job : StoredJob }.

Definition due_jobs (raws : list string) : list DueJobsResult :=
  omap (λ raw, s ← unmarshal_stored raw; Some {| RawMember := raw; Job := s |}) raws.

Definition ListDueJobs (nowMs : Z) : prog L (result (list DueJobsResult)) :=
  raws ←? wrapped "zrangebyscore scheduler: " (call (ZRANGEBYSCORE SchedulerSetKey 0 nowMs));
  Ret (Ok (due_jobs raws)).

Definition RemoveJobMember (member : string) : prog L (result bool) :=
  n ←? wrapped "zrem job member: " (call (ZREM SchedulerSetKey member));
  Ret (Ok (0 <? n)).

Definition AddRescheduledJob (stored : StoredJob) (atMs : Z) : prog L (result ()) :=
  match marshal_stored stored with
  | None => Ret (Err marshal_error)
  | Some payload =>
      _ ←? call (ZADD SchedulerSetKey (float64 atMs) payload);
      Ret (Ok ())
  end.

(** [None]: no job waits. *)
Definition NextDueAt : prog L (result (option Z)) :=
  z ←? wrapped "zrange scheduler: " (call (ZRANGE_FIRST SchedulerSetKey));
  Ret (Ok (match z with Some (_, score) => Some (int64_of_float score) | None => None end)).

Definition ClaimJob (jobID instanceID : string) (ttl : Z) : prog L (result bool) :=
  let ttl := if ttl <=? 0 then 30000 else ttl in
  wrapped "setnx job claim: " (call (SETNX (claimKeyPrefix +:+ jobID) instanceID ttl)).

Definition JobCount : prog L (result Z) := call (ZCARD SchedulerSetKey).
End store.

(** ** The store refines a map from job IDs to jobs *)

Definition member (j : JobData) : option string :=
  marshal_stored {| s_JobID := j.(JobID); s_JobData := Some j |}.

(** The set holds exactly one member per pending job, under its due time. *)
Record pending (z : gmap string Z) (M : gmap string (JobData * Z)) : Prop := {
  pend_iff m sc : z !! m = Some sc ↔ ∃ j, M !! j.(JobID) = Some (j, sc) ∧ member j = Some m;
  pend_job id j sc : M !! id = Some (j, sc) → j.(JobID) = id ∧ job_wf j ∧ is_Some (member j);
}.

Lemma member_decodes j m :
  job_wf j → member j = Some m →
  unmarshal_stored m = Some {| s_JobID := j.(JobID); s_JobData := Some (job_stored j) |}.
Proof. intros Hj Hm. apply (unmarshal_marshal {| s_JobID := _; s_JobData := Some j |} m); [|done]. by intros ? [= <-]. Qed.

Lemma job_member_inj j j' m : job_wf j → job_wf j' → member j = Some m → member j' = Some m → j.(JobID) = j'.(JobID).
Proof.
  intros Hj Hj' Hm Hm'. apply member_decodes in Hm; [|done]. apply member_decodes in Hm'; [|done].
  congruence.
Qed.

Lemma pending_members z M l m :
  pending z M → l ≡ₚ (map_to_list z).*1 → m ∈ l ↔ ∃ j sc, M !! j.(JobID) = Some (j, sc) ∧ member j = Some m.
Proof.
  intros Hp Hl. rewrite Hl, list_elem_of_fmap. split.
  - intros ([m' sc] & -> & Hin). apply elem_of_map_to_list, (pend_iff _ _ Hp) in Hin as (j & ? & ?). eauto.
  - intros (j & sc & Hj & Hm). exists (m, sc). split; [done|]. apply elem_of_map_to_list, (pend_iff _ _ Hp). eauto.
Qed.

Lemma find_job_spec (M : gmap string (JobData * Z)) id l :
  (∀ m, m ∈ l → ∃ j sc, M !! j.(JobID) = Some (j, sc) ∧ job_wf j ∧ member j = Some m) →
  match find_job id l with
  | Some m => m ∈ l ∧ ∃ j sc, M !! id = Some (j, sc) ∧ member j = Some m
  | None => ∀ j sc m, M !! id = Some (j, sc) → j.(JobID) = id → job_wf j → member j = Some m → m ∉ l
  end.
Proof.
  induction l as [|m l IH]; intros Hl; cbn [find_job]; [by intros; apply not_elem_of_nil|].
  destruct (Hl m) as (j & sc & Hj & Hw & Hm); [by left|]. rewrite (member_decodes j m) by done. cbn [s_JobID].
  specialize (IH ltac:(intros; apply Hl; by right)).
  destruct (decide (JobID j = id)) as [<-|Hne].
  - split; [by left|]. by exists j, sc.
  - destruct (find_job id l) as [m'|].
    + destruct IH as [? ?]. split; [by right|done].
    + intros j' sc' m' HM' Hid Hw' Hm' [->|Hin]%elem_of_cons; [|by eapply IH].
      apply Hne. by rewrite <- Hid, (job_member_inj j j' m).
Qed.

Lemma find_job_pending z M id l :
  pending z M → l ≡ₚ (map_to_list z).*1 →
  match find_job id l with
  | Some m => ∃ j sc, M !! id = Some (j, sc) ∧ member j = Some m
  | None => M !! id = None
  end.
Proof.
  intros Hp Hl. pose proof (find_job_spec M id l) as Hf.
  assert (∀ m, m ∈ l → ∃ j sc, M !! j.(JobID) = Some (j, sc) ∧ job_wf j ∧ member j = Some m) as Hall.
  { intros m Hin. apply (pending_members _ _ _ _ Hp Hl) in Hin as (j & sc & HM & Hm).
    destruct (pend_job _ _ Hp _ _ _ HM) as (_ & ? & _). eauto. }
  specialize (Hf Hall). destruct (find_job id l) as [m|]; [by destruct Hf|].
  destruct (M !! id) as [[j sc]|] eqn:HM; [|done].
  destruct (pend_job _ _ Hp _ _ _ HM) as (Hid & Hw & [m Hm]).
  destruct (Hf j sc m eq_refl Hid Hw Hm). apply (pending_members _ _ _ _ Hp Hl). exists j, sc. by subst.
Qed.

Lemma pending_insert z M j m sc :
  pending z M → M !! j.(JobID) = None → job_wf j → member j = Some m →
  pending (<[m := sc]> z) (<[j.(JobID) := (j, sc)]> M).
Proof.
  intros Hp Hn Hw Hm. split.
  - intros m' sc'. destruct (decide (m' = m)) as [->|Hne].
    + rewrite lookup_insert_eq. split.
      * intros [= <-]. exists j. by rewrite lookup_insert_eq.
      * intros (j' & Hj' & Hm'). apply lookup_insert_Some in Hj' as [[_ [= <- <-]]|[Hne Hj']]; [done|].
        destruct (pend_job _ _ Hp _ _ _ Hj') as (_ & Hw' & _). by destruct Hne; eapply job_member_inj.
    + rewrite lookup_insert_ne by done. rewrite (pend_iff _ _ Hp). split; intros (j' & Hj' & Hm'); exists j'; split; try done.
      * apply lookup_insert_Some. right. split; [|done]. intros E. rewrite E in Hn. congruence.
      * apply lookup_insert_Some in Hj' as [[_ [= <- <-]]|[_ ?]]; [congruence|done].
  - intros id j' sc' [[<- [= <- <-]]|[_ Hj']]%lookup_insert_Some; [by eauto|by eapply pend_job].
Qed.

Lemma pending_delete z M j m sc :
  pending z M → M !! j.(JobID) = Some (j, sc) → member j = Some m →
  pending (delete m z) (delete j.(JobID) M).
Proof.
  intros Hp Hj Hm. destruct (pend_job _ _ Hp _ _ _ Hj) as (_ & Hw & _). split.
  - intros m' sc'. rewrite lookup_delete_Some, (pend_iff _ _ Hp). split.
    + intros (Hne & j' & Hj' & Hm'). exists j'. split; [|done]. apply lookup_delete_Some. split; [|done].
      intros E. rewrite <- E in Hj'. congruence.
    + intros (j' & [Hne Hj']%lookup_delete_Some & Hm'). split; [|eauto]. intros <-.
      destruct (pend_job _ _ Hp _ _ _ Hj') as (_ & Hw' & _). by destruct Hne; eapply job_member_inj.
  - intros id j' sc' [_ Hj']%lookup_delete_Some. by eapply pend_job.
Qed.

Section store_spec.
Context `{RedisServer Srv} `{!RedisLaws Srv} {L : Type} `{!TimeErrors}.
Implicit Types (m : mem Srv L) (M : gmap string (JobData * Z)).

(** The keyspace holds the pending jobs [M]. *)
Definition jobs_are m M : Prop :=
  ∃ z, as_zset (keys m.(srv)) SchedulerSetKey = Some z ∧ pending z M.

Lemma wp0_jobExists id m M :
  jobs_are m M →
  wp0 (jobExists id) (λ r m', r = Ok (bool_decide (is_Some (M !! id))) ∧ m'.(loc) = m.(loc) ∧ keys m'.(srv) = keys m.(srv)) m.
Proof.
  intros (z & Hz & Hp). unfold jobExists. wp0_next H1. rewrite Hz in H1. destruct H1 as (l & -> & [Hl _] & Hk & _).
  cbn. split; [|done]. f_equal. pose proof (find_job_pending z M id l Hp Hl) as Hf.
  destruct (find_job id l) as [x|]; [destruct Hf as (j & sc & -> & _)|rewrite Hf]; done.
Qed.

(** [C31] [AddJob] adds a job under the time of its [executeAt] when its ID is
    free; a taken ID, a missing ID and an unreadable time are refused and
    change nothing. *)
Theorem AddJob_refines j m M :
  jobs_are m M → job_wf j → is_Some (member j) →
  wp0 (AddJob (Some j)) (λ r m',
    match Parse_RFC3339Nano j.(ExecuteAt) with
    | Some t =>
        if decide (j.(JobID) = "") then is_ok r = false ∧ jobs_are m' M
        else if decide (is_Some (M !! j.(JobID)))
        then r = Err (errors_New ("Job with ID " +:+ j.(JobID) +:+ " already exists in the scheduler.")) ∧ jobs_are m' M
        else r = Ok () ∧ jobs_are m' (<[j.(JobID) := (j, float64 (UnixMilli t))]> M)
    | None => is_ok r = false ∧ jobs_are m' M
    end) m.
Proof.
  intros HM Hw [text Ht]. unfold AddJob. destruct (decide (JobID j = "")) as [|Hid].
  { cbn. by destruct (Parse_RFC3339Nano (ExecuteAt j)). }
  unfold ParseExecuteAt, ParseTime.
  destruct (decide (ExecuteAt j = "")) as [->|]; [done|].
  destruct (Parse_RFC3339Nano (ExecuteAt j)) as [t|]; [|done].
  apply wp0_rbind. eapply wp0_mono; [by apply wp0_jobExists|]. intros r m' (-> & Hloc & Hk).
  destruct HM as (z & Hz & Hp). rewrite <- Hk in Hz.
  destruct (decide (is_Some (M !! JobID j))) as [Hin|Hin].
  { rewrite bool_decide_true by done. cbn. split; [done|]. by exists z. }
  rewrite bool_decide_false by done. fold (member j). rewrite Ht.
  wp0_next H1. rewrite Hz in H1. destruct H1 as (-> & Hk1 & _). cbn. split; [done|].
  exists (<[text := float64 (UnixMilli t)]> z). cbn. rewrite Hk1, as_zset_put. split; [done|].
  apply pending_insert; try done. by apply eq_None_not_Some.
Qed.

(** [RemoveJob] removes exactly the job with the ID, or reports that there is
    none. *)
Theorem RemoveJob_refines id m M :
  jobs_are m M →
  wp0 (RemoveJob id) (λ r m',
    jobs_are m' (delete id M) ∧
    r = match M !! id with
        | Some _ => Ok ()
        | None => Err (errors_New ("Job with ID " +:+ id +:+ " does not exist in the scheduler."))
        end) m.
Proof.
  intros (z & Hz & Hp). unfold RemoveJob. wp0_next H1. rewrite Hz in H1. destruct H1 as (l & -> & [Hl _] & Hk & _).
  cbn [wrap_err]. pose proof (find_job_pending z M id l Hp Hl) as Hf.
  destruct (find_job id l) as [x|].
  - destruct Hf as (j & sc & HMj & Hx). rewrite HMj. destruct (pend_job _ _ Hp _ _ _ HMj) as (<- & _ & _).
    wp0_next H2. cbn [srv] in *. rewrite Hk, Hz in H2. destruct H2 as (-> & Hk2 & _). cbn. split; [|done].
    exists (delete x z). cbn. rewrite Hk2, as_zset_put. split; [done|]. by eapply pending_delete.
  - cbn. rewrite Hf. split; [|done]. rewrite delete_id by done. exists z. cbn. by rewrite Hk.
Qed.

(** What [ListDueJobs] returns at [now]: the pending jobs due from the epoch
    on and not after [now], each once, the earliest first. *)
Theorem ListDueJobs_exact now m M :
  jobs_are m M →
  wp0 (ListDueJobs now) (λ r m', keys m'.(srv) = keys m.(srv) ∧ ∃ due,
    r = Ok due ∧
    (∀ d, d ∈ due ↔ ∃ j sc, M !! j.(JobID) = Some (j, sc) ∧ 0 ≤ sc ≤ now ∧ member j = Some d.(RawMember) ∧
       d.(Job) = {| s_JobID := j.(JobID); s_JobData := Some (job_stored j) |}) ∧
    NoDup (RawMember <$> due)) m.
Proof.
  intros (z & Hz & Hp). unfold ListDueJobs. wp0_next H1. rewrite Hz in H1. destruct H1 as (l & -> & [Hl _] & Hk & _).
  cbn. split; [done|]. exists (due_jobs l). split; [done|].
  assert (∀ x, x ∈ l ↔ ∃ j sc, M !! j.(JobID) = Some (j, sc) ∧ member j = Some x ∧ 0 ≤ sc ≤ now) as Hin.
  { intros x. rewrite Hl, list_elem_of_fmap. split.
    - intros ([x' sc] & -> & Hx). apply elem_of_map_to_list, map_lookup_filter_Some in Hx as [Hx Hsc].
      apply (pend_iff _ _ Hp) in Hx as (j & ? & ?). eauto 6.
    - intros (j & sc & HMj & Hx & Hsc). exists (x, sc). split; [done|].
      apply elem_of_map_to_list, map_lookup_filter_Some. split; [|done]. apply (pend_iff _ _ Hp). eauto. }
  assert (NoDup l) as Hnd by (rewrite Hl; apply NoDup_fst_map_to_list).
  clear Hl Hk. split.
  - intros d. unfold due_jobs. rewrite list_elem_of_omap. split.
    + intros (x & Hx & Hd). apply Hin in Hx as (j & sc & HMj & Hm & Hsc).
      destruct (pend_job _ _ Hp _ _ _ HMj) as (_ & Hw & _). rewrite (member_decodes j x) in Hd by done.
      simplify_eq/=. eauto 6.
    + intros (j & sc & HMj & Hsc & Hm & Hd). exists d.(RawMember). split; [apply Hin; eauto 6|].
      destruct (pend_job _ _ Hp _ _ _ HMj) as (_ & Hw & _). rewrite (member_decodes j) by done.
      cbn. rewrite <- Hd. by destruct d.
  - assert (∀ x, x ∈ l → is_Some (unmarshal_stored x)) as Hdec.
    { intros x (j & sc & HMj & Hm & _)%Hin. destruct (pend_job _ _ Hp _ _ _ HMj) as (_ & Hw & _).
      rewrite (member_decodes j x) by done. eauto. }
    clear Hin. enough (RawMember <$> due_jobs l = l) as -> by done.
    clear Hnd. induction l as [|x l IH]; [done|]. unfold due_jobs. cbn.
    destruct (Hdec x ltac:(by left)) as [sj ->]. cbn. f_equal. apply IH. intros; apply Hdec; by right.
Qed.
End store_spec.
