(* ===== verification/Keys.v ===== *)
(** * The keyspace the components share

    Every component builds its Redis keys from names that clients choose
    (user keys, topics, job IDs).  The components are verified one by one as
    if their keys were their own; here is when that is so, and what happens
    when it is not. *)

From S2P Require Import Prelude GoStrings Redis RedisModel Prog Time StreamID Json Protocol Judge RateLimit Bus.
From S2P Require Import Locks Store Jobs SchedStore.
Local Open Scope Z_scope.

(** One constructor per kind of key in the code. *)
Inductive redis_key : Type :=
| KCount (userKey : string)
| KActive
| KTopic (topic : string)
| KSubscribed (userKey : string)
| KLocked (holder : string)
| KAck (userKey topic : string)
| KLock (topic kind : string)
| KLimit (bucket userKey : string)
| KStream (topic : string)
| KScheduler
| KClaim (jobID : string).

Definition key_text (k : redis_key) : string :=
  match k with
  | KCount u => countKey u
  | KActive => activeKey
  | KTopic t => topicKey t
  | KSubscribed u => subscribedTopicsKey u
  | KLocked h => lockedTopicsKey h
  | KAck u t => ackCursorKey u t
  | KLock t k => lockKey t k
  | KLimit b u => limit_key b u
  | KStream t => streamKeyPrefix +:+ t
  | KScheduler => SchedulerSetKey
  | KClaim i => claimKeyPrefix +:+ i
  end.

(** User keys without a colon, and not the word [topic]; topics that do not
    start with [stream:]; the lock kinds and buckets the handlers use. *)
Definition plain_user (u : string) : Prop := CutByte u ":" = None ∧ u ≠ "topic".
Definition plain_topic (t : string) : Prop := CutPrefix t "stream:" = None.

Definition key_ok (k : redis_key) : Prop :=
  match k with
  | KCount u | KSubscribed u | KLocked u => plain_user u
  | KAck u _ => plain_user u
  | KTopic t => plain_topic t
  | KLock _ k => k = LockPublish ∨ k = LockSubscribe
  | KLimit b u => (b = "msg" ∨ b = "job") ∧ plain_user u
  | KActive | KStream _ | KScheduler | KClaim _ => True
  end.

(** Up to the first colon and after it. *)
Definition segments (k : redis_key) : option (string * string) :=
  match k with
  | KCount u => Some ("conn", "count:" +:+ u)
  | KActive | KScheduler => None
  | KTopic t => Some ("topic", t)
  | KSubscribed u => Some (u, "subscribedTopics")
  | KLocked u => Some (u, "lockedTopics")
  | KAck u t => Some ("ack", u +:+ ":" +:+ t)
  | KLock t k => Some (k, "lock:" +:+ t)
  | KLimit b u => Some ("rl", b +:+ ":" +:+ u)
  | KStream t => Some ("topic", "stream:" +:+ t)
  | KClaim i => Some ("job", "claim:" +:+ i)
  end.

Lemma CutByte_text c a b : CutByte a c = None → CutByte (a +:+ String c b) c = Some (a, b).
Proof.
  induction a as [|x a IH]; [intros _; change (CutByte (String c b) c = Some ("", b)); cbn; by rewrite decide_True|]. cbn [CutByte].
  change (String x a +:+ String c b) with (String x (a +:+ String c b)). cbn [CutByte].
  destruct (decide (x = c)); [done|]. destruct (CutByte a c) as [[]|]; [done|]. intros _. by rewrite IH.
Qed.

Lemma segments_text k : key_ok k → CutByte (key_text k) ":" = segments k.
Proof.
  destruct k as [u| |t|u|u|u t|t k|b u|t| |i]; cbn [key_ok key_text segments]; intros Hk; try reflexivity.
  - apply (CutByte_text ":" u "subscribedTopics"), Hk.
  - apply (CutByte_text ":" u "lockedTopics"), Hk.
  - by destruct Hk as [-> | ->].
Qed.

Lemma colon_inj (a b c d : string) : CutByte a ":" = None → CutByte c ":" = None → a +:+ ":" +:+ b = c +:+ ":" +:+ d → a = c ∧ b = d.
Proof.
  intros Ha Hc E. apply (f_equal (λ s, CutByte s ":")) in E.
  change (":" +:+ b) with (String ":" b) in E. change (":" +:+ d) with (String ":" d) in E.
  rewrite !CutByte_text in E by done. by injection E as -> ->.
Qed.

Lemma colon_apart (a b c : string) : CutByte a ":" = None → CutByte b ":" = None → a ≠ b +:+ ":" +:+ c.
Proof. intros Ha Hb ->. change (":" +:+ c) with (String ":" c) in Ha. by rewrite CutByte_text in Ha. Qed.

Lemma bucket_plain b : b = "msg" ∨ b = "job" → CutByte b ":" = None.
Proof. by intros [-> | ->]. Qed.

Lemma kind_plain k : k = LockPublish ∨ k = LockSubscribe → k ≠ "topic" ∧ k ≠ "ack" ∧ k ≠ "rl".
Proof. by intros [-> | ->]. Qed.

(** [C13] The components' keys are their own.  As long as user keys hold no colon and are not the word topic, and topics
    do not start with stream:, two keys of the program are the same string only if they are the same key: no
    component can read, overwrite or delete what another one, another user, topic or job keeps. *)
Theorem keys_apart k k' : key_ok k → key_ok k' → key_text k = key_text k' → k = k'.
Proof.
  intros Hk Hk' E. pose proof (f_equal (λ s, CutByte s ":") E) as Es. cbv beta in Es. rewrite !segments_text in Es by done.
  destruct k as [u| |t|u|u|u t|t k|b u|t| |i], k' as [u'| |t'|u'|u'|u' t'|t' k'|b' u'|t'| |i'];
    cbn [segments key_ok] in *; try discriminate Es; try done; injection Es; intros; subst.
  all: try match goal with
  | H : plain_user "topic" |- _ => by destruct H
  | H : plain_topic ("stream:" +:+ _) |- _ => by unfold plain_topic in H; rewrite CutPrefix_app in H
  | H : _ = LockPublish ∨ _ |- _ => exfalso; apply kind_plain in H; tauto
  end.
  all: try match goal with H : _ +:+ _ = _ +:+ _ |- _ => f_equal; by apply string_app_inj in H end.
  all: try reflexivity.
  all: repeat match goal with
    | H : plain_user _ |- _ => destruct H
    | H : (_ ∨ _) ∧ _ |- _ => destruct H as [H ?]; apply bucket_plain in H
    end.
  all: try match goal with
    | H : ?a = ?b +:+ ":" +:+ ?c |- _ => by destruct (colon_apart a b c)
    | H : ?b +:+ ":" +:+ ?c = ?a |- _ => by destruct (colon_apart a b c)
    end.
  all: match goal with H : _ +:+ ":" +:+ _ = _ |- _ => by apply colon_inj in H as [-> ->] end.
Qed.

(** ** Two topics, one key *)

Section squatting.
Context `{RedisServer Srv} `{!RedisLaws Srv} {Sub : Type} `{Countable Sub} {Hub : Type} `{!Target Sub Hub} `{!GoQuote}.
Abbreviation process := (proc (Sub := Sub) (Hub := Hub)).
Implicit Types (m : mem Srv process).

(** The subscribers of the topic stream:T are recorded under the key of the
    stream of T: whoever may subscribe to the one keeps everybody from
    publishing to the other, if nothing has been published to it yet. *)
Theorem subscription_blocks_stream cfg u topic data rep m y :
  keys m.(srv) !! (streamKeyPrefix +:+ topic) = None →
  as_set (keys m.(srv)) (subscribedTopicsKey u) = Some y → subscribedTopicsKey u ≠ streamKeyPrefix +:+ topic →
  wp0 (AddTopicSubscription u ("stream:" +:+ topic)) (λ r m1, r = Ok () ∧
    wp0 (PublishTopic cfg topic data rep) (λ r' m2, is_ok r' = false ∧ pubs m2.(srv) = pubs m1.(srv) ∧
      keys m2.(srv) = keys m1.(srv)) m1) m.
Proof.
  intros Hfree Hy Hne. unfold AddTopicSubscription. change (topicKey ("stream:" +:+ topic)) with (streamKeyPrefix +:+ topic).
  unfold PublishTopic. set (sk := streamKeyPrefix +:+ topic) in *. wp0_next Ha.
  assert (as_set (keys m.(srv)) sk = Some ∅) as E by (unfold as_set; by rewrite Hfree). rewrite E in Ha. destruct Ha as (->&Hk1&_). cbn [wrap_err].
  wp0_next Hb. cbn [srv] in Hb.
  assert (as_set (keys s) (subscribedTopicsKey u) = Some y) as Hy'.
  { rewrite Hk1, <- Hy. apply as_set_ext. by rewrite lookup_put_set_ne. }
  rewrite Hy' in Hb. destruct Hb as (->&Hk2&_). cbn [wrap_err wp0]. split; [done|].
  wp0_next Hc. cbn [srv] in Hc.
  assert (as_stream (keys s0) sk = None) as Hs.
  { unfold as_stream. rewrite Hk2, lookup_put_set_ne, Hk1 by done. unfold put_set. rewrite decide_False by set_solver. by rewrite lookup_insert_eq. }
  rewrite Hs in Hc. destruct Hc as (->&Hk3&Hp). by cbn.
Qed.
End squatting.

(** ** Concrete runs *)

Lemma keys_apart_witness : key_text (KTopic "news") ≠ key_text (KStream "news") ∧ KStream "a" = KStream "a".
Proof.
  split; [|by apply (keys_apart (KStream "a") (KStream "a"))].
  intros E. pose proof (keys_apart (KTopic "news") (KStream "news") eq_refl I E). discriminate.
Defined.

(** What the two conditions are for. *)
Lemma colliding_keys :
  key_text (KTopic "stream:news") = key_text (KStream "news") ∧
  key_text (KLocked "topic:stream:news") = key_text (KStream "news:lockedTopics") ∧
  key_text (KSubscribed "conn:count:bob") = key_text (KCount "bob:subscribedTopics") ∧
  key_text (KAck "a:b" "c") = key_text (KAck "a" "b:c").
Proof. by split_and!. Qed.
