(* ===== verification/Dispatch.v ===== *)
(** * Dispatching inbound frames (internal/connection/handler.go)

    One frame from decoding to its answer, presence events, and the cleanup
    of a closed connection.  The process state is the bus's [proc]; [SendNow]
    is taken at the moment it returns.  Logging and counters are left out. *)

From S2P Require Import Prelude GoStrings Redis RedisModel Prog Time StreamID Json Protocol Judge RateLimit Bus.
From S2P Require Import Locks Store Jobs SchedStore Inbound Authz Handler.
Local Open Scope Z_scope.
Local Open Scope prog_scope.

(** What a handler sees of a connection; [Reply.hub_session] is what the hub
    and its connections make of it. *)
Class Session (Sub Hub Claims : Type) : Type := {
  UserKey : Sub → string;
  ConnID : Sub → string;
  ConnClaims : Sub → option Claims;
  SendNow : Sub → string → Hub → Hub;
}.

Definition PresenceConnected : string := "connected".
Definition PresenceDisconnected : string := "disconnected".

Definition knownFrameTypes : gset string :=
  {[ TypeSubscribe; TypeUnsubscribe; TypePublish; TypeLockTopic; TypeUnlockTopic; TypeRenewLock; TypeScheduleJob;
     TypeRemoveJob; TypeBroadcast; TypePresence; TypeListSubs; TypeAck ]}.

Section dispatch.
Context {Sub : Type} `{Countable Sub} {Hub Claims : Type} `{!Target Sub Hub, !Session Sub Hub Claims}.
Context `{!GoQuote, !TimeErrors}.

Abbreviation proc := (@Bus.proc Sub _ _ Hub).

Record Deps : Type := {
  BusConfig : Bus.Config;
  MessageRateLimit : RateLimit.Config;
  JobRateLimit : RateLimit.Config;
  OnSchedulerWake : option (prog proc ());
  d_Authorizer : option (Request Claims → prog proc (result ()));
  d_Registry : option (Registry Sub proc Claims);
  d_Middleware : list (option (Middleware Sub proc Claims));
  (** In ms. *)
  AckCursorTTL : Z;
  OnConnect : option (LifecycleFunc proc Claims);
  OnDisconnect : option (LifecycleFunc proc Claims);
  PresenceTopic : string;
}.

Context (d : Deps).

Definition frameTypeLabel (t : string) : string :=
  if bool_decide (t ∈ knownFrameTypes) then t
  else if Lookup d.(d_Registry) t is Some _ then t
  else "unknown".

Definition send_now (c : Sub) (frame : string) : prog proc () := with_hub (SendNow c frame).

(** ** Authorization *)

Definition authorize (c : Sub) (action : Action) (topic : string) : prog proc (result ()) :=
  match d.(d_Authorizer) with
  | None => Ret (Ok ())
  | Some az =>
      bind (az {| q_UserKey := UserKey c; q_Action := action; q_Topic := topic; q_Claims := ConnClaims c |}) (λ r,
        match r with
        | Ok _ => Ret (Ok ())
        | Err e =>
            if Denied e
            then Ret (Err (errors_New ("Not authorized to " +:+ action_string action +:+ " topic " +:+ topic +:+ ".")))
            else Ret (Err (errors_New "Internal error"))
        end)
  end.

(** ** Handlers *)

Definition handleSubscribe (c : Sub) (env : Envelope) : prog proc (result string) :=
  let topic := env.(e_Topic) in
  let done : result string := Ok ("Successfully subscribed to topic " +:+ topic) in
  authorize c ActionSubscribe topic ;?
  locked ←? wrapped "check subscribe lock: " (IsTopicLockedByOther topic LockSubscribe (UserKey c));
  if (locked : bool) then
    Ret (Err (errors_New ("Topic " +:+ topic +:+ " is locked for subscribing by another instance.")))
  else
    AddTopicSubscription (UserKey c) topic ;?
    let replay since :=
      r ←? SubscribeWithReplay c topic since;
      let '(truncated, oldest) := r in
      if truncated then bind (send_now c (EncodeReplayTruncated topic oldest)) (λ _, Ret done) else Ret done in
    match env.(e_Since) with
    | Some _ =>
        match SinceToString env.(e_Since) with
        | Err e => Ret (Err e)
        | Ok since =>
            if decide (since = SinceAck) then
              cursor ←? AckCursor (UserKey c) topic;
              if decide (cursor = "") then bind (AddLocalSubscription topic c) (λ _, Ret done)
              else replay cursor
            else replay since
        end
    | None => bind (AddLocalSubscription topic c) (λ _, Ret done)
    end.

Definition handleUnsubscribe (c : Sub) (env : Envelope) : prog proc (result string) :=
  RemoveTopicSubscription (UserKey c) env.(e_Topic) ;?
  bind (RemoveLocalSubscription env.(e_Topic) c) (λ _,
  Ret (Ok ("Successfully unsubscribed from topic " +:+ env.(e_Topic)))).

Definition handlePublish (c : Sub) (env : Envelope) : prog proc (result string) :=
  authorize c ActionPublish env.(e_Topic) ;?
  locked ←? wrapped "check publish lock: " (IsTopicLockedByOther env.(e_Topic) LockPublish (UserKey c));
  if (locked : bool) then
    Ret (Err (errors_New ("Topic " +:+ env.(e_Topic) +:+ " is locked for publishing by another instance.")))
  else
    let reportTo := if env.(e_Report) then ConnID c else "" in
    PublishTopic d.(BusConfig) env.(e_Topic) env.(e_Data) reportTo ;?
    Ret (Ok ("Successfully published to topic " +:+ env.(e_Topic))).

Definition handleLockTopic (c : Sub) (env : Envelope) : prog proc (result string) :=
  authorize c ActionLock env.(e_Topic) ;?
  bind (LockTopic env.(e_Topic) env.(e_LockType) (UserKey c) DefaultLockTTL) (λ r,
    match r with
    | Err e =>
        if errors_Is e ErrLockHeldByOther
        then Ret (Err (errors_New ("Cannot lock topic " +:+ env.(e_Topic) +:+ " for " +:+ env.(e_LockType)
                         +:+ ". It is already locked.")))
        else Ret (Err e)
    | Ok _ => Ret (Ok ("Successfully locked topic " +:+ env.(e_Topic) +:+ " for " +:+ env.(e_LockType)
                         +:+ ". You must renew the lock within 5 minutes."))
    end).

Definition handleUnlockTopic (c : Sub) (env : Envelope) : prog proc (result string) :=
  authorize c ActionLock env.(e_Topic) ;?
  UnlockTopic env.(e_Topic) env.(e_LockType) (UserKey c) ;?
  Ret (Ok ("Successfully unlocked topic " +:+ env.(e_Topic) +:+ " for " +:+ env.(e_LockType) +:+ ".")).

Definition handleRenewLock (c : Sub) (env : Envelope) : prog proc (result string) :=
  authorize c ActionLock env.(e_Topic) ;?
  bind (RenewLock env.(e_Topic) env.(e_LockType) (UserKey c) DefaultLockTTL) (λ r,
    match r with
    | Err e =>
        if errors_Is e ErrLockNotHeld
        then Ret (Err (errors_New ("Cannot renew lock on topic " +:+ env.(e_Topic)
                         +:+ ". It is either not locked or locked by another user.")))
        else Ret (Err e)
    | Ok _ => Ret (Ok ("Successfully renewed lock on topic " +:+ env.(e_Topic) +:+ " for " +:+ env.(e_LockType)))
    end).

Definition handleScheduleJob (c : Sub) (env : Envelope) : prog proc (result string) :=
  allowed ←? wrapped "rate-limit check: " (Allow "job" (UserKey c) d.(JobRateLimit));
  if (allowed : bool) then
    AddJob env.(e_JobData) ;?
    bind (match d.(OnSchedulerWake) with Some wake => wake | None => Ret () end) (λ _,
    Ret (Ok ("Successfully scheduled job " +:+ from_option JobID "" env.(e_JobData))))
  else Ret (Err (errors_New "Rate limit exceeded for scheduleJob")).

Definition handleRemoveJob (c : Sub) (env : Envelope) : prog proc (result string) :=
  RemoveJob env.(e_JobID) ;?
  Ret (Ok ("Successfully removed job " +:+ env.(e_JobID))).

Definition handleAck (c : Sub) (env : Envelope) : prog proc (result string) :=
  authorize c ActionSubscribe env.(e_Topic) ;?
  SetAckCursor (UserKey c) env.(e_Topic) env.(e_StreamID) d.(AckCursorTTL) ;?
  Ret (Ok ("Acknowledged " +:+ env.(e_StreamID) +:+ " on topic " +:+ env.(e_Topic))).

Definition handlePresence (c : Sub) (env : Envelope) : prog proc (result string) :=
  authorize c ActionSubscribe env.(e_Topic) ;?
  subs ←? TopicSubscribers env.(e_Topic);
  bind (send_now c (EncodePresence env.(e_ReqID) env.(e_Topic) subs)) (λ _, Ret (Ok "")).

Definition handleListSubscriptions (c : Sub) (env : Envelope) : prog proc (result string) :=
  topics ←? SubscribedTopics (UserKey c);
  bind (send_now c (EncodeSubscriptions env.(e_ReqID) topics)) (λ _, Ret (Ok "")).

Definition handleBroadcast (c : Sub) (env : Envelope) : prog proc (result string) :=
  PublishBroadcast (UserKey c) env.(e_Data) ;? Ret (Ok "").

(** ** Routing *)

Definition h_result (p : prog proc (result string)) : prog proc handled :=
  bind p (λ r, Ret (match r with Ok s => Reply s None | Err e => Reply "" (Some e) end)).

Definition builtin (c : Sub) (env : Envelope) : prog proc (result string) :=
  let ty := env.(e_Type) in
  if decide (ty = TypeSubscribe) then handleSubscribe c env
  else if decide (ty = TypeUnsubscribe) then handleUnsubscribe c env
  else if decide (ty = TypePublish) then handlePublish c env
  else if decide (ty = TypeLockTopic) then handleLockTopic c env
  else if decide (ty = TypeUnlockTopic) then handleUnlockTopic c env
  else if decide (ty = TypeRenewLock) then handleRenewLock c env
  else if decide (ty = TypeScheduleJob) then handleScheduleJob c env
  else if decide (ty = TypeRemoveJob) then handleRemoveJob c env
  else if decide (ty = TypeAck) then handleAck c env
  else if decide (ty = TypePresence) then handlePresence c env
  else if decide (ty = TypeListSubs) then handleListSubscriptions c env
  else if decide (ty = TypeBroadcast) then handleBroadcast c env
  else Ret (Ok "").

Definition request (c : Sub) (env : Envelope) : HRequest Claims :=
  {| hr_UserKey := UserKey c; hr_ConnID := ConnID c; hr_Claims := ConnClaims c; hr_Envelope := Some env |}.

(** A nil envelope is dereferenced. *)
Definition route (c : Sub) (env : option Envelope) : prog proc handled :=
  match env with
  | None => Ret Panic
  | Some env =>
      match Lookup d.(d_Registry) env.(e_Type) with
      | Some h => h (request c env) c
      | None => h_result (builtin c env)
      end
  end.

(** What has to hold before a handler runs. *)
Definition admit_frame (env : Envelope) : result () :=
  match Lookup d.(d_Registry) env.(e_Type) with
  | None => Validate env
  | Some _ => ValidateVersion env
  end.

(** [false]: the goroutine panics. *)
Definition Dispatch (c : Sub) (text : string) : prog proc bool :=
  match read_envelope text with
  | None => bind (send_now c (EncodeError "" "Invalid JSON")) (λ _, Ret true)
  | Some env =>
      let reqID := env.(e_ReqID) in
      let fail msg := bind (send_now c (EncodeError reqID msg)) (λ _, Ret true) in
      bind (Allow "msg" (UserKey c) d.(MessageRateLimit)) (λ r,
        match r with
        | Err _ => fail "Internal error"
        | Ok false => fail "Rate limit exceeded"
        | Ok true =>
            match admit_frame env with
            | Err e => fail e.(err_msg)
            | Ok _ =>
                let h := Chain (λ req _, route c req.(hr_Envelope)) d.(d_Middleware) in
                bind (h (request c env) c) (λ r,
                  match r with
                  | Panic => Ret false
                  | Reply _ (Some e) => fail e.(err_msg)
                  | Reply msg None =>
                      if decide (msg = "") then Ret true
                      else bind (send_now c (EncodeSuccess reqID msg)) (λ _, Ret true)
                  end)
            end
        end)
  end.

(** ** Presence and cleanup *)

Definition presenceEvent (event userKey at_ : string) : json :=
  JObj [(key "event", jstring event); (key "userKey", jstring userKey); (key "at", jstring at_)].

(** A failed publish is logged and forgotten. *)
Definition PublishPresence (userKey event : string) : prog proc () :=
  if decide (d.(PresenceTopic) = "") then Ret ()
  else
    bind now (λ t,
    let at_ := Format_RFC3339Nano (of_UnixMilli t / second * second) in
    bind (PublishTopic d.(BusConfig) d.(PresenceTopic) (Raw (presenceEvent event userKey at_)) "") (λ _, Ret ())).

Definition or_nil (r : result (list string)) : list string := match r with Ok l => l | Err _ => [] end.

(** The two loops over what the user still has; errors are logged. *)
Definition unlock_all (u : string) : prog proc () :=
  bind (LockedTopics u) (λ r,
  for_each (or_nil r) (λ t, bind (UnlockTopic t LockPublish u) (λ _, bind (UnlockTopic t LockSubscribe u) (λ _, Ret ())))).

Definition unsubscribe_all (u : string) : prog proc () :=
  bind (SubscribedTopics u) (λ r,
  for_each (or_nil r) (λ t, bind (RemoveTopicSubscription u t) (λ _, Ret ()))).

Definition Cleanup (c : Sub) (isLast : bool) : prog proc () :=
  let u := UserKey c in
  bind (RemoveSubscriberAll c) (λ _,
  bind (match d.(OnDisconnect) with
        | Some f => f {| ci_ConnID := ConnID c; ci_UserKey := u; ci_Claims := ConnClaims c |}
        | None => Ret () end) (λ _,
  bind (if isLast then PublishPresence u PresenceDisconnected else Ret ()) (λ _,
  bind (if isLast then bind (unlock_all u) (λ _, unsubscribe_all u) else Ret ()) (λ _,
  bind (RemoveConnection u) (λ _, Ret ()))))).

End dispatch.
