(* ===== verification/Resume.v ===== *)
(** * Acknowledging and resuming (internal/connection/handler.go)

    A client that acknowledged a message and subscribes with [since] "ack" is
    sent what came after it: the cursor of [Store], the replay of [Bus] and
    the notice of [handleSubscribe] put together.  And when that is not
    enough: announcements of two publishers that overtake each other. *)

From S2P Require Import Prelude GoStrings Redis RedisModel Prog Time StreamID Json Protocol Judge RateLimit Bus BusInv Replay Trim Fanout Order.
From S2P Require Import Locks Store Jobs SchedStore Inbound Authz Handler Dispatch BusWitness.
Local Open Scope Z_scope.
Local Open Scope prog_scope.

Section resume.
Context `{RedisServer Srv} `{!RedisLaws Srv} {Sub Claims : Type} `{Countable Sub} `{!Identify Sub}.
Context `{!Session Sub (outbox Sub) Claims} `{!GoQuote, !TimeErrors}.
Abbreviation process := (proc (Sub := Sub) (Hub := outbox Sub)).
Context (d : @Deps Sub _ _ (outbox Sub) Claims).
(** A reply is recorded with the other frames. *)
Context (HSend : ∀ c f (h : outbox Sub), SendNow c f h = h ++ [(c, f)]).
Implicit Types (m : mem Srv process) (topic : string) (c : Sub) (es A B : list (sid * string)).

(** ** The two halves of [handleSubscribe] with a cursor *)

Definition subscribed topic : result string := Ok ("Successfully subscribed to topic " +:+ topic).

Definition replay_from c topic (since : string) : prog process (result string) :=
  r ←? SubscribeWithReplay c topic since;
  let '(truncated, oldest) := r in
  if truncated then bind (send_now c (EncodeReplayTruncated topic oldest)) (λ _, Ret (subscribed topic)) else Ret (subscribed topic).

Definition resume_from_ack c topic : prog process (result string) :=
  cursor ←? AckCursor (UserKey c) topic;
  if decide (cursor = "") then bind (AddLocalSubscription topic c) (λ _, Ret (subscribed topic))
  else replay_from c topic cursor.

Lemma handleSubscribe_ack c env j : e_Since env = Some j → SinceToString (e_Since env) = Ok SinceAck →
  handleSubscribe d c env =
    (authorize d c ActionSubscribe (e_Topic env) ;?
     locked ←? wrapped "check subscribe lock: " (IsTopicLockedByOther (e_Topic env) LockSubscribe (UserKey c));
     if (locked : bool) then
       Ret (Err (errors_New ("Topic " +:+ e_Topic env +:+ " is locked for subscribing by another instance.")))
     else AddTopicSubscription (UserKey c) (e_Topic env) ;? resume_from_ack c (e_Topic env)).
Proof. intros E1 E2. unfold handleSubscribe, resume_from_ack, replay_from, subscribed. by rewrite E2, E1. Qed.

(** ** The replay on its own *)

(** The notice that something before what is left may be missing. *)
Definition gap_of (cur : sid) es : option sid :=
  match es with e :: _ => if decide (sid_lt cur e.1) then Some e.1 else None | [] => None end.

Definition after_cursor (cur : sid) es : list (sid * string) := filter (λ e, sid_lt cur e.1) es.

Lemma replayMessages_quiet topic cur m last es :
  sid_ok cur → 0 < cur.1 → Forall (λ e, sid_ok e.1) es →
  as_stream (keys m.(srv)) (streamKeyPrefix +:+ topic) = Some (last, es) →
  wp0 (replayMessages topic (format_sid cur)) (λ r m',
    r = Ok (entry_msg <$> after_cursor cur es,
            bool_decide (is_Some (gap_of cur es)), default "" (format_sid <$> gap_of cur es)) ∧
    m'.(loc) = m.(loc) ∧ keys m'.(srv) = keys m.(srv)) m.
Proof.
  intros Hc Hpos Hok HS. unfold replayMessages. rewrite sinceMs_format_sid.
  wp0_next Hx. rewrite HS, ParseUint_FormatUint in Hx by (destruct Hc; unfold max_int64, max_uint64 in *; lia).
  destruct Hx as (-> & Hk & _). cbn [wrap_err]. rewrite newer_entries by done.
  rewrite ParseInt_FormatUint by (destruct Hc; lia). cbn [fst]. rewrite (proj2 (Z.ltb_lt _ _)) by done.
  wp0_next Hy. cbn [srv] in Hy. rewrite Hk, HS in Hy. destruct Hy as (-> & Hk2 & _).
  destruct es as [|[i text] es]; [by cbn; rewrite Hk2|]. cbn [head fmap option_fmap option_map fst]. inversion Hok as [|?? Hi _]; subst.
  assert ((compareStreamIDs (format_sid cur) (format_sid i) <? 0) = bool_decide (sid_lt cur i)) as -> by (by apply compare_format_lt).
  unfold gap_of. cbn [fst]. destruct (decide (sid_lt cur i)) as [Hlt|Hge];
    [rewrite (bool_decide_eq_true_2 (sid_lt cur i)) by done|rewrite (bool_decide_eq_false_2 (sid_lt cur i)) by done]; by cbn; rewrite Hk2.
Qed.

(** The sending loop of a replay that nothing disturbs. *)
Lemma replay_loop_quiet c topic (msgs : list bufferedMsg) m st :
  replay_of c topic m = Some st →
  wp0 (for_each msgs (λ x, bind (mark_seen c topic x.(bm_streamID)) (λ _,
        with_hub (Send c (EncodePublish topic x.(bm_data) x.(bm_streamID) true))))) (λ _ m',
    (∃ sn, replay_of c topic m' = Some {| buffering := st.(buffering); seen := sn; buf := st.(buf) |}) ∧
    m'.(loc).(p_bus).(topicSubs) = m.(loc).(p_bus).(topicSubs) ∧
    m'.(loc).(p_hub) = m.(loc).(p_hub) ++ (replay_frame c topic <$> msgs)) m.
Proof.
  revert m st. induction msgs as [|x msgs IH]; intros m st Hst; cbn [for_each].
  { split; [exists st.(seen); by destruct st|]. split; [done|]. by rewrite app_nil_r. }
  apply wp0_bind, wp0_bind. unfold replay_of in Hst. cbn. rewrite Hst. cbn.
  set (st1 := {| buffering := buffering st; seen := _; buf := buf st |}).
  match goal with |- wp0 _ _ ?x => set (m1 := x) end.
  assert (replay_of c topic m1 = Some st1) as Hst1 by (unfold replay_of, m1; cbn; by rewrite lookup_insert_eq).
  eapply wp0_mono; [by apply (IH m1 st1)|].
  intros _ m2 ([sn Hr] & Hs & Hh). split; [by exists sn|]. split; [done|]. rewrite Hh. cbn. by rewrite <- (assoc_L (++)).
Qed.

Lemma SubscribeWithReplay_quiet c topic cur m last es :
  sid_ok cur → 0 < cur.1 → Forall (λ e, sid_ok e.1) es →
  as_stream (keys m.(srv)) (streamKeyPrefix +:+ topic) = Some (last, es) →
  wp0 (SubscribeWithReplay c topic (format_sid cur)) (λ r m',
    r = Ok (bool_decide (is_Some (gap_of cur es)), default "" (format_sid <$> gap_of cur es)) ∧
    c ∈ subscribers m'.(loc).(p_bus) topic ∧ replay_of c topic m' = None ∧
    m'.(loc).(p_hub) = m.(loc).(p_hub) ++ (replay_frame c topic <$> (entry_msg <$> after_cursor cur es))) m.
Proof.
  intros Hc Hpos Hok HS. unfold SubscribeWithReplay. rewrite parseSinceCursor_format_sid.
  apply wp0_bind. cbn [register with_bus local_ act wp0 event_step]. apply wp0_bind.
  match goal with |- wp0 _ _ ?x => set (m1 := x) end.
  assert (c ∈ subscribers (p_bus (loc m1)) topic) as Hin.
  { unfold m1, addLocalSubLocked, subscribers; cbn. case_bool_decide as Hb; cbn; rewrite lookup_insert_eq; cbn; [exact Hb|set_solver]. }
  assert (replay_of c topic m1 = Some {| buffering := true; seen := ∅; buf := [] |}) as Hst
    by (unfold replay_of, m1; cbn; by rewrite lookup_insert_eq).
  eapply wp0_mono; [by apply (replayMessages_quiet topic cur m1 last es)|]. intros r m2 (-> & Hl & _).
  apply wp0_bind. eapply wp0_mono; [eapply (replay_loop_quiet c topic); unfold replay_of; rewrite Hl; exact Hst|].
  intros _ m3 ([sn Hr] & Hs & Hh). cbn [bind stop_buffering local_ act wp0 event_step].
  unfold replay_of in Hr. rewrite Hr. cbn [buf filter list_filter for_each bind wp0]. split; [done|].
  split; [unfold subscribers in *; cbn; by rewrite Hs, Hl|]. split; [unfold replay_of; cbn; by rewrite lookup_delete_eq|].
  cbn. by rewrite Hh, Hl.
Qed.

(** ** At least once *)

Lemma around_acked cur e A B : StronglySorted sid_lt (A ++ (cur, e) :: B).*1 →
  Forall (λ x, ¬ sid_lt cur x.1) (A ++ [(cur, e)]) ∧ Forall (λ x, sid_lt cur x.1) B.
Proof.
  intros Hs. rewrite fmap_app, fmap_cons in Hs. split; apply Forall_forall; intros x Hx.
  - apply elem_of_app in Hx as [Hx|Hx]; [|apply list_elem_of_singleton in Hx as ->; apply sid_lt_irrefl].
    intros Hlt. apply (sid_lt_irrefl cur). eapply sid_lt_trans; [exact Hlt|].
    eapply (StronglySorted_app_1_elem_of _ _ _ _ _ Hs); [by apply list_elem_of_fmap_2|by left].
  - apply StronglySorted_app_1_r in Hs. inversion Hs as [|?? _ Hall]; subst.
    rewrite Forall_forall in Hall. by apply Hall, list_elem_of_fmap_2.
Qed.

Lemma drop_acked (x : sid * string) A B n : drop n (A ++ x :: B) = drop n (A ++ [x]) ++ drop (n - S (length A)) B.
Proof.
  change (x :: B) with ([x] ++ B). rewrite (assoc_L (++)), drop_app, length_app. cbn [length]. do 2 f_equal. lia.
Qed.

Lemma after_acked cur e A B n :
  StronglySorted sid_lt (A ++ (cur, e) :: B).*1 → after_cursor cur (drop n (A ++ (cur, e) :: B)) = drop (n - S (length A)) B.
Proof.
  intros [HA HB]%around_acked. unfold after_cursor.
  by rewrite drop_acked, filter_app, filter_none, filter_all by by apply Forall_drop.
Qed.

(** The notice appears when the acknowledged message itself is gone. *)
Lemma gap_acked cur e A B n :
  StronglySorted sid_lt (A ++ (cur, e) :: B).*1 →
  gap_of cur (drop n (A ++ (cur, e) :: B)) =
    match drop n (A ++ (cur, e) :: B) with x :: _ => if decide (length A < n)%nat then Some x.1 else None | [] => None end.
Proof.
  intros [HA HB]%around_acked. rewrite drop_acked. unfold gap_of. destruct (decide (length A < n)%nat) as [Hn|Hn].
  - rewrite drop_ge by (rewrite length_app; cbn; lia). cbn [app].
    apply (Forall_drop _ (n - S (length A))) in HB. destruct (drop _ B); [done|]. inversion HB; subst. by rewrite decide_True.
  - destruct (drop n (A ++ [(cur, e)])) as [|x l] eqn:E.
    { apply (f_equal length) in E. rewrite length_drop, length_app in E. cbn in E. lia. }
    apply (Forall_drop _ n) in HA. rewrite E in HA. inversion HA; subst. cbn [app]. by rewrite decide_False.
Qed.

Lemma SetAckCursor_remote {L} u t id ttl : all_events (λ R (e : event L R), is_remote e = true) (SetAckCursor u t id ttl).
Proof. unfold SetAckCursor. cbv zeta. constructor; [done|]. intros r. cbn. repeat case_match; repeat constructor; intros; cbn; repeat case_match; repeat constructor. Qed.

Lemma AckCursor_remote {L} u t : all_events (λ R (e : event L R), is_remote e = true) (AckCursor u t).
Proof. unfold AckCursor. constructor; [done|]. intros r. cbn. repeat case_match; repeat constructor. Qed.

Lemma AckCursor_reads u t id ttl m : keys m.(srv) !! ackCursorKey u t = Some (Entry (RStr id) ttl) →
  wp0 (AckCursor u t) (λ r m', r = Ok id ∧ keys m'.(srv) = keys m.(srv)) m.
Proof.
  intros Hk. unfold AckCursor. wp0_next Hx. unfold as_str in Hx. rewrite Hk in Hx. cbn in Hx. destruct Hx as (-> & Hk' & _). by cbn; rewrite Hk'.
Qed.

(** [C4] Resuming where one left off.  On a faultless network, with nobody in between: a client that acknowledges an entry
    of the stream's history (with a time above zero, and above what it has acknowledged so far) and at once resumes
    from its acknowledgements is subscribed again and handed every later message that the stream still holds, in order
    and marked as replayed; and if the trim has gone past the acknowledged message and anything is left, it is told so
    with the oldest ID left. *)
Theorem ack_then_resume c topic cur e A B n ttl m last before :
  sid_ok cur → 0 < cur.1 → Forall (λ e, sid_ok e.1) B → StronglySorted sid_lt (A ++ (cur, e) :: B).*1 → Forall (λ e, sid_ok e.1) A →
  as_stream (keys m.(srv)) (streamKeyPrefix +:+ topic) = Some (last, drop n (A ++ (cur, e) :: B)) →
  cursor (keys m.(srv)) (ackCursorKey (UserKey c) topic) = Some before → (before = "" ∨ sid_lt (position before) cur) →
  wp0 (SetAckCursor (UserKey c) topic (format_sid cur) ttl ;? resume_from_ack c topic) (λ r m',
    r = subscribed topic ∧ c ∈ subscribers m'.(loc).(p_bus) topic ∧ replay_of c topic m' = None ∧
    m'.(loc).(p_hub) = m.(loc).(p_hub) ++ (replay_frame c topic <$> (entry_msg <$> drop (n - S (length A)) B)) ++
      match drop n (A ++ (cur, e) :: B) with
      | x :: _ => if decide (length A < n)%nat then [(c, EncodeReplayTruncated topic (format_sid x.1))] else []
      | [] => []
      end) m.
Proof.
  intros Hc Hpos HB Hs HA HS Hcur Hfresh. set (es := drop n (A ++ (cur, e) :: B)) in *.
  assert (Forall (λ e, sid_ok e.1) es) as Hok by (apply Forall_drop, Forall_app; split; [done|by constructor]).
  apply wp0_rbind. eapply wp0_mono; [apply wp0_and; [apply SetAckCursor_spec|apply wp0_remote, SetAckCursor_remote]|].
  intros r m1 [Hset Hl1]. cbv zeta in Hset. rewrite Hcur in Hset. destruct Hset as [-> Hk1].
  rewrite bool_decide_true in Hk1 by (by rewrite position_format_sid).
  unfold resume_from_ack. apply wp0_rbind. eapply wp0_mono; [apply wp0_and; [eapply AckCursor_reads; rewrite Hk1; apply lookup_insert_eq|apply wp0_remote, AckCursor_remote]|].
  intros r m2 [[-> Hk2] Hl2]. rewrite decide_False by apply format_sid_nonempty.
  unfold replay_from. apply wp0_rbind. eapply wp0_mono.
  { apply (SubscribeWithReplay_quiet c topic cur m2 last es); [done..|]. rewrite Hk2, Hk1. unfold as_stream.
    rewrite lookup_insert_ne by discriminate. exact HS. }
  intros r m3 (-> & Hin & Hrep & Hh). rewrite Hl2, Hl1 in Hh. unfold es in Hh at 1. rewrite (after_acked cur e A B n Hs) in Hh.
  pose proof (gap_acked cur e A B n Hs) as Hg. fold es in Hg. rewrite Hg. destruct es as [|x es'].
  { cbn. by rewrite app_nil_r. }
  destruct (decide _); cbn; [|by rewrite app_nil_r]. rewrite HSend, Hh. by rewrite <- (assoc_L (++)).
Qed.
End resume.

(** ** Concrete runs *)

#[local] Instance string_session : Session string (outbox string) () := {|
  UserKey := id; ConnID := id; ConnClaims := λ _, None; SendNow := λ c f h, h ++ [(c, f)];
|}.

Lemma string_replies (c f : string) (h : outbox string) : SendNow (Claims := ()) c f h = h ++ [(c, f)].
Proof. reflexivity. Qed.

Lemma ack_then_resume_witness :
  wp0 (SetAckCursor "bob" "news" "6-0" 0 ;? resume_from_ack "bob" "news") (λ _ m',
    m'.(loc).(p_hub) = [("bob", EncodePublish "news" (Raw (JNum "3")) "9-0" true)])
    (with_stream [((5, 0), "1"); ((6, 0), "2"); ((9, 0), "3")]).
Proof.
  eapply wp0_mono.
  - apply (ack_then_resume (Sub := string) (Claims := ()) string_replies "bob" "news" (6, 0) "2" [((5, 0), "1")] [((9, 0), "3")] 0 0
      (with_stream [((5, 0), "1"); ((6, 0), "2"); ((9, 0), "3")]) (9, 0) "").
    + split; cbn; unfold max_int64; lia.
    + done.
    + repeat constructor; cbn; unfold max_int64; lia.
    + repeat constructor; cbn; unfold sid_lt; cbn; lia.
    + repeat constructor; cbn; unfold max_int64; lia.
    + reflexivity.
    + reflexivity.
    + by left.
  - intros r m' (_ & _ & _ & ->). vm_compute. reflexivity.
Defined.

(** What the instance has not heard yet. *)
Definition unheard (n : nat) (m : mem server (proc (Sub := string) (Hub := outbox string))) : list heard :=
  uncurry Message <$> drop n (pubs m.(srv)).

(** Two goroutines publish to a topic bob is subscribed to; the append of the
    first is followed by the append and the announcement of the second.  Bob
    acknowledges what he got and his connection ends; the first announcement
    finds nobody.  When he resumes from his acknowledgement he is sent nothing
    and told nothing: the message is in the stream, below his cursor. *)
Definition overtaken :=
  let m0 := (outcome (AddLocalSubscription "news" "bob") [] (Mem (Server ∅ [] 7) empty_proc 7)).2 in
  let '(ps, m1) := srun [Step 0 Fine; Step 1 Fine; Step 1 Fine]
    ([PublishTopic open_house "news" (Raw (JNum "1")) ""; PublishTopic open_house "news" (Raw (JNum "2")) ""], m0) in
  let m2 := (outcome (listen open_house (unheard 0 m1)) [] m1).2 in
  let m3 := (outcome (SetAckCursor "bob" "news" "7-1" 0) [] m2).2 in
  let m4 := (outcome (RemoveSubscriberAll "bob") [] m3).2 in
  let '(ps, m5) := srun [Step 0 Fine] (ps, m4) in
  let m6 := (outcome (listen open_house (unheard 1 m5)) [] m5).2 in
  let '(r, m7) := outcome (resume_from_ack "bob" "news") [] m6 in
  (ps, r, m7.(loc).(p_hub), as_stream (keys m7.(srv)) "topic:stream:news" ≫= λ p, Some p.2).

Lemma overtaken_message_lost :
  overtaken =
    ([Ret (Ok "7-0"); Ret (Ok "7-1")], Ok "Successfully subscribed to topic news",
     [("bob", EncodePublish "news" (Raw (JNum "2")) "7-1" false)],
     Some [((7, 0), "1"); ((7, 1), "2")]).
Proof. vm_compute. reflexivity. Qed.
