(* ===== verification/Reply.v ===== *)
(** * Replies to the sender (internal/connection/hub.go, [SendNow])

    A handler answers through [SendNow], which waits for room in the queue of
    the connection until it is shut or its context ends.  Here the call is
    composed from [Conn.SendNow] and what other goroutines do to the same
    connection meanwhile, and makes the hub of [Hub] a [Session].  [replies]
    adds a record of what was handed to [SendNow] and what became of it. *)

From S2P Require Import Prelude GoStrings Redis RedisModel Prog Time StreamID Json Protocol Judge RateLimit Bus Conn Hub.
From S2P Require Import Locks Store Jobs SchedStore Inbound Authz Handler Dispatch.
Local Open Scope Z_scope.

(** What a call meets: the actions of other goroutines while it waits, which
    case the select takes when the frame could be queued although the
    connection is shut, and whether the context of the connection is over.
    When it still waits after these actions the context ends. *)
Record wait : Type := { others : list action; sel : bool; gone : bool }.

(** What becomes of the frame. *)
Inductive fate : Type := Sent | ConnClosed | CtxDone.

#[export] Instance fate_eq_dec : EqDecision fate.
Proof. solve_decision. Defined.

(** The case of the select that [Conn.SendNow] takes. *)
Definition fate_of (sel gone : bool) (c : Conn) : fate :=
  if has_room c && (negb (c.(closed) || gone) || sel) then Sent else if c.(closed) then ConnClosed else CtxDone.

Fixpoint await (others : list action) (sel gone : bool) (msg : string) (c : Conn) : fate * Conn :=
  match Conn.SendNow sel gone msg c with
  | Some c' => (fate_of sel gone c, c')
  | None =>
      match others with
      | a :: others' => await others' sel gone msg (step a c)
      | [] => (CtxDone, c)
      end
  end.

(** The claims of each connection, and what each call meets. *)
Class World (Claims : Type) : Type := {
  claims_of : handle → option Claims;
  meets : handle → string → Hub → wait;
}.

Section reply.
Context `{!MapRange} {Claims : Type} `{!World Claims}.

Definition reply (c : handle) (frame : string) (h : Hub) : fate * Hub :=
  match h.(heap) !! c with
  | None => (ConnClosed, h)
  | Some x =>
      let w := meets c frame h in
      let '(f, x') := await w.(others) w.(sel) w.(gone) frame x in
      (f, {| users := h.(users); heap := <[c := x']> h.(heap) |})
  end.

#[export] Instance hub_session : Session handle Hub Claims := {|
  UserKey := conn_user; ConnID := conn_id; ConnClaims := claims_of;
  Dispatch.SendNow := λ c frame h, (reply c frame h).2;
|}.

(** ** The record of replies *)

Record replies : Type := { the_hub : Hub; handed : list (handle * string * fate) }.

Definition on_hub (f : Hub → Hub) (h : replies) : replies := {| the_hub := f h.(the_hub); handed := h.(handed) |}.

#[export] Instance replies_target : Target handle replies := {|
  Bus.Send := λ c frame, on_hub (Bus.Send c frame);
  Bus.SendReporting := λ c, (λ send frame h,
    let '(ok, h') := send frame h.(the_hub) in (ok, {| the_hub := h'; handed := h.(handed) |})) <$> Bus.SendReporting c;
  Bus.SubscriberID := Bus.SubscriberID (Hub := Hub);
  Bus.SendToUser := λ u frame, on_hub (Bus.SendToUser u frame);
  Bus.SendToConn := λ i frame, on_hub (Bus.SendToConn i frame);
|}.

#[export] Instance replies_session : Session handle replies Claims := {|
  UserKey := conn_user; ConnID := conn_id; ConnClaims := claims_of;
  Dispatch.SendNow := λ c frame h,
    let '(f, h') := reply c frame h.(the_hub) in {| the_hub := h'; handed := h.(handed) ++ [(c, frame, f)] |};
|}.

(** The record changes nothing for the hub. *)
Lemma SendNow_the_hub c frame (h : replies) :
  (Dispatch.SendNow c frame h).(the_hub) = Dispatch.SendNow c frame h.(the_hub).
Proof. cbn. by destruct (reply c frame (the_hub h)). Qed.

(** ** What became of them *)

Definition shut (h : Hub) (c : handle) : Prop := ∀ x, h.(heap) !! c = Some x → x.(closed) = true.

(** A frame is lost for a closed connection only if the connection is still
    closed. *)
Definition honest (h : replies) : Prop := ∀ c frame, (c, frame, ConnClosed) ∈ h.(handed) → shut h.(the_hub) c.

(** A frame is sent when, after some of these actions, it is queued behind
    what was there. *)
Lemma await_sent l sel gone msg x : (await l sel gone msg x).1 = Sent →
  ∃ k, let x0 := steps (take k l) x in
    (await l sel gone msg x).2 = count_sent (len msg) false (push (frameText msg) x0) ∧
    (x0.(closed) = false ∨ sel = true).
Proof.
  revert x. induction l as [|a l IH]; intros x; cbn [await]; unfold Conn.SendNow, fate_of.
  all: destruct (has_room x && _) eqn:R; [intros _; exists O; split; [done|]; apply andb_true_iff in R as [_ R]; cbn; destruct (closed x), sel; auto|].
  all: destruct (closed x || gone); [cbn; by destruct (closed x)|].
  { done. }
  intros (k & E & Hk)%IH. by exists (S k).
Qed.

Lemma step_shut a c : c.(closed) = true → (step a c).(closed) = true.
Proof.
  intros Hc. destruct a; cbn [step]; unfold check_send, select_send, count_drop, close_begin, close_end, writer_recv, writer_write;
    rewrite ?Hc; repeat case_match; simplify_eq; cbn in *; done.
Qed.

Lemma await_shut l sel gone msg x : x.(closed) = true → (await l sel gone msg x).2.(closed) = true.
Proof. intros Hx. destruct l; cbn [await]; unfold Conn.SendNow; rewrite Hx; by destruct (has_room x && _). Qed.

Lemma await_closed l sel gone msg x : (await l sel gone msg x).1 = ConnClosed → (await l sel gone msg x).2.(closed) = true.
Proof.
  revert x. induction l as [|a l IH]; intros x; cbn [await]; unfold Conn.SendNow, fate_of.
  all: destruct (has_room x && _); [done|]; destruct (closed x) eqn:C; [done|]; destruct gone; try done. apply IH.
Qed.

Lemma SendReporting_shut sel msg c : c.(closed) = true → (Conn.SendReporting sel msg c).2.(closed) = true.
Proof. intros Hc. unfold Conn.SendReporting, check_send. by rewrite Hc. Qed.

Lemma send_shut c frame h c' : shut h c' → shut (Bus.Send c frame h) c'.
Proof.
  intros Hs x. cbn. unfold send_conn. destruct (heap h !! c) as [y|] eqn:Hy; [|apply Hs].
  pose proof (SendReporting_shut true frame y) as Hr. destruct (Conn.SendReporting true frame y) as [ok y']. cbn.
  intros [[-> ->]|[_ Hx]]%lookup_insert_Some; [by apply Hr, Hs|by apply Hs].
Qed.

Lemma reply_shut c frame h c' : shut h c' → shut (reply c frame h).2 c'.
Proof.
  intros Hs x. unfold reply. destruct (heap h !! c) as [y|] eqn:Hy; [|apply Hs]. cbv zeta. set (w := meets c frame h).
  pose proof (await_shut w.(others) w.(sel) w.(gone) frame y) as Hr.
  destruct (await _ _ _ _ y) as [f y']. cbn. intros [[-> ->]|[_ Hx]]%lookup_insert_Some; [by apply Hr, Hs|by apply Hs].
Qed.

Lemma reply_closed c frame h : (reply c frame h).1 = ConnClosed → shut (reply c frame h).2 c.
Proof.
  unfold reply. destruct (heap h !! c) as [y|] eqn:Hy; [|intros _ x Hx; cbn in Hx; congruence]. cbv zeta. set (w := meets c frame h).
  pose proof (await_closed w.(others) w.(sel) w.(gone) frame y) as Hr.
  destruct (await _ _ _ _ y) as [f y']. cbn in *. intros Hf x. cbn [heap]. rewrite lookup_insert_eq. intros [= <-]. auto.
Qed.

Lemma honest_send c frame (h : replies) : honest h → honest (Bus.Send c frame h).
Proof. intros Hh c' f Hin. by apply send_shut, (Hh c' f). Qed.

Lemma honest_SendNow c frame (h : replies) : honest h → honest (Dispatch.SendNow c frame h).
Proof.
  intros Hh c' f. cbn. pose proof (reply_shut c frame (the_hub h) c') as Hs. pose proof (reply_closed c frame (the_hub h)) as Hc.
  destruct (reply c frame (the_hub h)) as [fa h']. cbn in *.
  intros [Hin|Hin]%elem_of_app; [by apply Hs, (Hh c' f)|]. apply list_elem_of_singleton in Hin as [= -> -> <-]. by apply Hc.
Qed.
End reply.
