(* ===== verification/Answers.v ===== *)
(** * What a client is told (internal/connection/handler.go)

    The frames a program hands to [SendNow] for one connection and what becomes
    of them, over every run: any replies of Redis, any delays and faults, and
    whatever other goroutines do to the connection while a reply waits. *)

From S2P Require Import Prelude GoStrings Redis RedisModel Prog Time StreamID Json Protocol Judge RateLimit Bus Conn Hub.
From S2P Require Import Locks Store Jobs SchedStore Inbound Authz Handler Dispatch Reply.
Local Open Scope Z_scope.

(** Built-in verbs only. *)
Record plain_server {Sub : Type} `{Countable Sub} {Hub Claims : Type} (d : @Deps Sub _ _ Hub Claims) : Prop := {
  ps_registry : d.(d_Registry) = None;
  ps_middleware : d.(d_Middleware) = [];
}.

Section answers.
Context `{!MapRange} {Claims : Type} `{!World Claims}.
Abbreviation proc := (@Bus.proc handle _ _ replies).

Context (c : handle).

(** The replies of [l] are those of [l'] and then [w], all for [c]. *)
Definition told (l l' : proc) (w : list (string * fate)) : Prop :=
  l'.(p_hub).(handed) = l.(p_hub).(handed) ++ ((λ x, (c, x.1, x.2)) <$> w) ∧ (honest l.(p_hub) → honest l'.(p_hub)).

Lemma told_nil l : told l l [].
Proof. split; [by rewrite app_nil_r|done]. Qed.

Lemma told_app l l' l'' w w' : told l l' w → told l' l'' w' → told l l'' (w ++ w').
Proof. intros [E1 H1] [E2 H2]. split; [|auto]. by rewrite E2, E1, fmap_app, app_assoc. Qed.

(** On every run [p] ends with a result and new replies, the frames [w], in
    [Q]. *)
Inductive emits {A} : prog proc A → (A → list string → Prop) → Prop :=
| emits_ret a (Q : A → list string → Prop) : Q a [] → emits (Ret a) Q
| emits_redis R (cmd : rcmd R) k Q : (∀ r, emits (k r) Q) → emits (Do (Redis cmd) k) Q
| emits_eval R (s : script R) k Q : (∀ r, emits (k r) Q) → emits (Do (Eval s) k) Q
| emits_now k Q : (∀ t, emits (k t) Q) → emits (Do Now k) Q
| emits_local R (f : proc → R * proc) (w : proc → list (string * fate)) k (Q : A → list string → Prop) :
    (∀ l, told l (f l).2 (w l)) →
    (∀ l, emits (k (f l).1) (λ a w', Q a ((w l).*1 ++ w'))) → emits (Do (Local f) k) Q.

Lemma emits_mono {A} (p : prog proc A) (Q Q' : A → list string → Prop) :
  emits p Q → (∀ a w, Q a w → Q' a w) → emits p Q'.
Proof.
  intros Hp. revert Q'. induction Hp as [a Q HQ|R cmd k Q _ IH|R s k Q _ IH|k Q _ IH|R f w k Q Hf _ IH]; intros Q' HQ'.
  - constructor; auto.
  - constructor; auto.
  - constructor; auto.
  - constructor; auto.
  - eapply emits_local; [done|]. intros l. apply IH. auto.
Qed.

Lemma emits_bind {A B} (p : prog proc A) (k : A → prog proc B) (Q : B → list string → Prop) :
  emits p (λ a w, emits (k a) (λ b w', Q b (w ++ w'))) → emits (bind p k) Q.
Proof.
  intros Hp. remember (λ a w, emits (k a) (λ b w', Q b (w ++ w'))) as P eqn:E.
  assert (∀ a w, P a w → emits (k a) (λ b w', Q b (w ++ w'))) as HP by by subst P.
  clear E. revert Q HP.
  induction Hp as [a P HP0|R cmd k' P _ IH|R s k' P _ IH|k' P _ IH|R f w k' P Hf _ IH]; intros Q HP; cbn [bind].
  - by apply HP in HP0.
  - constructor; auto.
  - constructor; auto.
  - constructor; auto.
  - eapply emits_local; [done|]. intros l. apply IH. intros a w' HPw. apply HP in HPw.
    eapply emits_mono; [done|]. intros b w''. by rewrite app_assoc.
Qed.

Context `{RedisServer Srv}.

(** Soundness: what [emits] says of a program holds of every run. *)
Lemma emits_run {A} (p : prog proc A) (Q : A → list string → Prop) (m : mem Srv proc) orc :
  emits p Q → ∃ w, told m.(loc) (outcome p orc m).2.(loc) w ∧ Q (outcome p orc m).1 w.*1.
Proof.
  intros Hp. revert m orc. unfold outcome.
  induction Hp as [a Q HQ|R cmd k Q _ IH|R s k Q _ IH|k Q _ IH|R f w k Q Hf _ IH]; intros m orc; cbn [run is_remote].
  - exists []. split; [apply told_nil|done].
  - pose proof (attempts_loc (Redis cmd) orc m eq_refl) as Hl. destruct (attempts _ orc m) as [r [m' orc']]. cbn in Hl. rewrite <- Hl. apply IH.
  - pose proof (attempts_loc (Eval s) orc m eq_refl) as Hl. destruct (attempts _ orc m) as [r [m' orc']]. cbn in Hl. rewrite <- Hl. apply IH.
  - apply IH.
  - cbn [event_step]. specialize (Hf m.(loc)). specialize (IH m.(loc)). destruct (f m.(loc)) as [r l]. cbn in *.
    destruct (IH (Mem m.(srv) l m.(clock)) orc) as (w'&E&HQ). exists (w m.(loc) ++ w').
    split; [by eapply told_app|]. by rewrite fmap_app.
Qed.

(** ** Silent programs *)

Definition silent {A} (p : prog proc A) : Prop := emits p (λ _ w, w = []).

Lemma emits_silent {A B} (p : prog proc A) (k : A → prog proc B) Q :
  silent p → (∀ a, emits (k a) Q) → emits (bind p k) Q.
Proof. intros Hp Hk. apply emits_bind. eapply emits_mono; [exact Hp|]. intros a w ->. apply Hk. Qed.

Lemma silent_ret {A} (a : A) : silent (Ret a).
Proof. by constructor. Qed.

Lemma silent_call {R} (cmd : rcmd R) : silent (call cmd).
Proof. constructor. intros. apply silent_ret. Qed.

Lemma silent_eval {R} (s : script R) : silent (eval s).
Proof. constructor. intros. apply silent_ret. Qed.

Lemma silent_now : silent (now (L := proc)).
Proof. constructor. intros. apply silent_ret. Qed.

Lemma silent_local {R} (f : proc → R * proc) : (∀ l, told l (f l).2 []) → silent (local_ f).
Proof. intros Hf. apply (emits_local _ f (λ _, [])); [done|]. intros. by constructor. Qed.

Lemma silent_bind {A B} (p : prog proc A) (k : A → prog proc B) : silent p → (∀ a, silent (k a)) → silent (bind p k).
Proof. apply emits_silent. Qed.

Lemma silent_rbind {A B} (p : prog proc (result A)) (k : A → prog proc (result B)) :
  silent p → (∀ a, silent (k a)) → silent (rbind p k).
Proof. intros Hp Hk. apply silent_bind; [done|]. intros [a|e]; [apply Hk|apply silent_ret]. Qed.

Lemma silent_wrapped {A} pfx (p : prog proc (result A)) : silent p → silent (wrapped pfx p).
Proof. intros Hp. apply silent_bind; [done|]. intros. apply silent_ret. Qed.

Lemma silent_for_each {A} (l : list A) (f : A → prog proc ()) : (∀ x, silent (f x)) → silent (for_each l f).
Proof. intros Hf. induction l as [|x l IH]; cbn; [apply silent_ret|]. by apply silent_bind. Qed.

Lemma silent_with_bus f : silent (with_bus f).
Proof. apply silent_local. intros l. apply (told_nil l). Qed.

Lemma silent_seq : silent (seq_Add (L := proc)).
Proof. apply silent_local. intros l. apply (told_nil l). Qed.

Lemma silent_send sub frame : silent (with_hub (Bus.Send sub frame)).
Proof. apply silent_local. intros l. split; [symmetry; apply app_nil_r|apply honest_send]. Qed.

End answers.

Create HintDb silent.
#[export] Hint Resolve silent_ret silent_call silent_eval silent_now silent_with_bus silent_seq silent_send : silent.

(** Walk a program that says nothing. *)
Ltac silence :=
  repeat first
    [ solve [eauto with silent]
    | apply silent_rbind; [|intros]
    | apply silent_wrapped
    | apply silent_bind; [|intros]
    | apply silent_for_each; intros
    | match goal with |- silent _ (match ?x with _ => _ end) => destruct x end
    | match goal with |- silent _ (if ?x then _ else _) => destruct x end ].

Section handlers.
Context `{!MapRange} {Claims : Type} `{!World Claims} `{!GoQuote, !TimeErrors}.
Abbreviation proc := (@Bus.proc handle _ _ replies).
Context (d : @Deps handle _ _ replies Claims) (c : handle).

Lemma emits_rbind {A B} (p : prog proc (result A)) (k : A → prog proc (result B)) (Q : result B → list string → Prop) :
  silent c p → (∀ e, Q (Err e) []) → (∀ a, emits c (k a) Q) → emits c (rbind p k) Q.
Proof. intros Hp HQ Hk. apply emits_silent; [done|]. intros [a|e]; [apply Hk|by constructor]. Qed.

Lemma emits_send frame {A} (k : prog proc A) Q :
  emits c k (λ a w, Q a (frame :: w)) → emits c (bind (send_now c frame) (λ _, k)) Q.
Proof.
  intros Hk. cbn [send_now with_hub local_ act bind].
  apply emits_local with (w := λ l, [(frame, (reply c frame l.(p_hub).(the_hub)).1)]); [|intros l; exact Hk].
  intros l. split; [|apply honest_SendNow]. cbn. by destruct (reply c frame _).
Qed.

(** The policy and the scheduler say nothing to the client. *)
Definition policy_silent : Prop := ∀ az, d.(d_Authorizer) = Some az → ∀ req, silent c (az req).
Definition wake_silent : Prop := ∀ wake, d.(OnSchedulerWake) = Some wake → silent c wake.

Hypothesis (Hpolicy : policy_silent) (Hwake : wake_silent).

Lemma silent_authorize a topic : silent c (authorize d c a topic).
Proof.
  unfold authorize. destruct (d_Authorizer d) as [az|] eqn:E; [|apply silent_ret].
  apply silent_bind; [by apply Hpolicy|]. intros [[]|e]; [apply silent_ret|]. destruct (Denied e); apply silent_ret.
Qed.

Lemma silent_get key : silent c (get key).
Proof. unfold get. silence. Qed.
Hint Resolve silent_get silent_authorize : silent.

Lemma silent_IsTopicLockedByOther t k u : silent c (IsTopicLockedByOther t k u).
Proof. unfold IsTopicLockedByOther. silence. Qed.
Lemma silent_LockTopic t k u ttl : silent c (LockTopic t k u ttl).
Proof. unfold LockTopic. silence. Qed.
Lemma silent_UnlockTopic t k u : silent c (UnlockTopic t k u).
Proof. unfold UnlockTopic. silence. Qed.
Lemma silent_RenewLock t k u ttl : silent c (RenewLock t k u ttl).
Proof. unfold RenewLock. silence. Qed.
Lemma silent_AddTopicSubscription u t : silent c (AddTopicSubscription u t).
Proof. unfold AddTopicSubscription. silence. Qed.
Lemma silent_RemoveTopicSubscription u t : silent c (RemoveTopicSubscription u t).
Proof. unfold RemoveTopicSubscription. silence. Qed.
Lemma silent_SetAckCursor u t id ttl : silent c (SetAckCursor u t id ttl).
Proof. unfold SetAckCursor. silence. Qed.
Lemma silent_AckCursor u t : silent c (AckCursor u t).
Proof. unfold AckCursor. silence. Qed.
Lemma silent_TopicSubscribers t : silent c (TopicSubscribers t).
Proof. apply silent_call. Qed.
Lemma silent_SubscribedTopics u : silent c (SubscribedTopics u).
Proof. apply silent_call. Qed.
Lemma silent_Allow b u cfg : silent c (Allow b u cfg).
Proof. unfold Allow. silence. Qed.
Lemma silent_AddJob j : silent c (AddJob j).
Proof. unfold AddJob, jobExists. silence. Qed.
Lemma silent_RemoveJob id : silent c (RemoveJob id).
Proof. unfold RemoveJob. silence. Qed.
Lemma silent_PublishTopic cfg t r to : silent c (PublishTopic cfg t r to).
Proof. unfold PublishTopic. silence. Qed.
Lemma silent_PublishBroadcast u r : silent c (PublishBroadcast u r).
Proof. unfold PublishBroadcast. silence. Qed.
Lemma silent_replayMessages t s : silent c (replayMessages t s).
Proof. unfold replayMessages. silence. Qed.
Lemma silent_stop_buffering sub t : silent c (stop_buffering sub t).
Proof. apply silent_local. intros l. apply (told_nil c l). Qed.
Hint Resolve silent_replayMessages silent_stop_buffering : silent.

(** The frames of a replay are deliveries. *)
Lemma silent_SubscribeWithReplay sub t s : silent c (SubscribeWithReplay sub t s).
Proof. unfold SubscribeWithReplay, register, mark_seen. silence. Qed.

Hint Resolve silent_IsTopicLockedByOther silent_LockTopic silent_UnlockTopic silent_RenewLock silent_AddTopicSubscription
  silent_RemoveTopicSubscription silent_SetAckCursor silent_AckCursor silent_TopicSubscribers silent_SubscribedTopics silent_Allow silent_AddJob silent_RemoveJob
  silent_PublishTopic silent_PublishBroadcast silent_SubscribeWithReplay : silent.

(** ** What each handler says *)

Inductive handler_says (env : Envelope) : result string → list string → Prop :=
| says_error e : handler_says env (Err e) []
| says_done msg : msg ≠ "" → handler_says env (Ok msg) []
| says_truncated msg oldest :
    env.(e_Type) = TypeSubscribe → env.(e_Since) ≠ None → msg ≠ "" →
    handler_says env (Ok msg) [EncodeReplayTruncated env.(e_Topic) oldest]
| says_presence subs :
    env.(e_Type) = TypePresence → handler_says env (Ok "") [EncodePresence env.(e_ReqID) env.(e_Topic) subs]
| says_subscriptions topics :
    env.(e_Type) = TypeListSubs → handler_says env (Ok "") [EncodeSubscriptions env.(e_ReqID) topics]
| says_nothing : env.(e_Type) = TypeBroadcast → handler_says env (Ok "") [].

#[local] Opaque EncodeReplayTruncated EncodePresence EncodeSubscriptions.

Ltac handler :=
  repeat first
    [ apply emits_ret; solve [constructor; (done || congruence)]
    | apply emits_rbind; [solve [silence]|constructor|intros]
    | apply emits_send
    | apply emits_silent; [solve [silence]|intros]
    | match goal with |- emits _ (match ?x with _ => _ end) _ => destruct x eqn:? end
    | match goal with |- emits _ (if ?x then _ else _) _ => destruct x eqn:? end ].

Lemma handleSubscribe_says env : env.(e_Type) = TypeSubscribe → emits c (handleSubscribe d c env) (handler_says env).
Proof. intros Ht. unfold handleSubscribe, AddLocalSubscription. cbv zeta. handler. Qed.

Lemma silent_wake : silent c (match d.(OnSchedulerWake) with Some wake => wake | None => Ret () end).
Proof. destruct (OnSchedulerWake d) as [wake|] eqn:E; [by apply Hwake|apply silent_ret]. Qed.
Hint Resolve silent_wake : silent.

Lemma builtin_says text env :
  read_envelope text = Some env → Validate env = Ok () → emits c (builtin d c env) (handler_says env).
Proof.
  intros Hr Hv. unfold builtin.
  repeat match goal with |- context [decide (e_Type env = ?t)] => destruct (decide (e_Type env = t)) end.
  - by apply handleSubscribe_says.
  - unfold handleUnsubscribe, RemoveLocalSubscription. handler.
  - unfold handlePublish. handler.
  - unfold handleLockTopic. handler.
  - unfold handleUnlockTopic. handler.
  - unfold handleRenewLock. handler.
  - unfold handleScheduleJob. handler.
  - unfold handleRemoveJob. handler.
  - unfold handleAck. handler.
  - unfold handlePresence. handler.
  - unfold handleListSubscriptions. handler.
  - unfold handleBroadcast. handler.
  - exfalso. destruct (Validate_carries _ _ Hr Hv) as (_&cmd&E%carries_type&_).
    by destruct cmd as [| | |[]| | | | | |].
Qed.
(** ** The answer to a frame *)

Inductive answer (env : Envelope) : list string → Prop :=
| answer_error msg : answer env [EncodeError env.(e_ReqID) msg]
| answer_success msg : Validate env = Ok () → msg ≠ "" → answer env [EncodeSuccess env.(e_ReqID) msg]
| answer_truncated oldest msg :
    Validate env = Ok () → env.(e_Type) = TypeSubscribe → env.(e_Since) ≠ None → msg ≠ "" →
    answer env [EncodeReplayTruncated env.(e_Topic) oldest; EncodeSuccess env.(e_ReqID) msg]
| answer_presence subs :
    Validate env = Ok () → env.(e_Type) = TypePresence →
    answer env [EncodePresence env.(e_ReqID) env.(e_Topic) subs]
| answer_subscriptions topics :
    Validate env = Ok () → env.(e_Type) = TypeListSubs → answer env [EncodeSubscriptions env.(e_ReqID) topics]
| answer_none : Validate env = Ok () → env.(e_Type) = TypeBroadcast → answer env [].

#[local] Opaque EncodeError EncodeSuccess.

Lemma Dispatch_emits text env :
  plain_server d → read_envelope text = Some env →
  emits c (Dispatch d c text) (λ ok w, ok = true ∧ answer env w).
Proof.
  intros [Hreg Hmw] Hr. unfold Dispatch. rewrite Hr. cbv zeta.
  assert (∀ msg, emits c (bind (send_now c (EncodeError env.(e_ReqID) msg)) (λ _, Ret true))
    (λ (ok : bool) w, ok = true ∧ answer env w)) as Hfail.
  { intros msg. apply emits_send. apply emits_ret. split; [done|constructor]. }
  apply emits_silent; [apply silent_Allow|]. intros [[]|]; [|apply Hfail..].
  unfold admit_frame. rewrite Hreg. cbn [Lookup].
  destruct (Validate env) as [[]|e] eqn:Hv; [|apply Hfail].
  rewrite Hmw. unfold Chain. cbn [length chain_loop request hr_Envelope route]. rewrite Hreg. cbn [Lookup].
  apply emits_bind. unfold h_result. apply emits_bind.
  eapply emits_mono; [by eapply builtin_says|]. intros r w Hw. apply emits_ret.
  destruct Hw as [e|msg Hne|msg oldest Ht Hs Hne|subs Ht|topics Ht|Ht]; rewrite ?app_nil_r.
  - apply Hfail.
  - rewrite decide_False by done. apply emits_send, emits_ret. split; [done|by constructor].
  - rewrite decide_False by done. apply emits_send, emits_ret. split; [done|by apply answer_truncated].
  - rewrite decide_True by done. apply emits_ret. split; [done|by apply answer_presence].
  - rewrite decide_True by done. apply emits_ret. split; [done|by apply answer_subscriptions].
  - rewrite decide_True by done. apply emits_ret. split; [done|by apply answer_none].
Qed.

Context `{RedisServer Srv}.

(** What answers a frame. *)
Definition answered (text : string) (w : list string) : Prop :=
  match read_envelope text with
  | Some env => answer env w
  | None => w = [EncodeError "" "Invalid JSON"]
  end.

(** [C14] On a server with the built-in verbs only, whatever Redis replies and however round trips fail, [Dispatch]
    returns and hands to [SendNow] of the sender's connection, and of no other, the frames of one answer: one error,
    or for an accepted frame the one reply of its verb, preceded on a truncated replay by the notice of it; an
    accepted broadcast has no answer.  Every answer carries the frame's [reqID].  A frame of the answer can be lost:
    to a context that ended, or to a connection that has closed, and then the connection is closed. *)
Theorem Dispatch_answers text (m : mem Srv proc) orc :
  plain_server d → honest m.(loc).(p_hub) →
  let '(ok, m') := outcome (Dispatch d c text) orc m in
  ok = true ∧ ∃ w : list (string * fate), answered text w.*1 ∧
    m'.(loc).(p_hub).(handed) = m.(loc).(p_hub).(handed) ++ ((λ x, (c, x.1, x.2)) <$> w) ∧
    ∀ frame, (frame, ConnClosed) ∈ w → shut m'.(loc).(p_hub).(the_hub) c.
Proof.
  intros Hp Hh. assert (emits c (Dispatch d c text) (λ ok w, ok = true ∧ answered text w)) as He.
  { unfold answered. destruct (read_envelope text) as [env|] eqn:Hr; [by apply Dispatch_emits|].
    unfold Dispatch. rewrite Hr. by apply emits_send, emits_ret. }
  destruct (emits_run c _ _ m orc He) as (w & [Hw Hk] & Hok & Ha). destruct (outcome _ orc m) as [ok m']. cbn in *.
  split; [done|]. exists w. split_and!; [done..|]. intros frame Hin. apply (Hk Hh c frame). rewrite Hw.
  apply elem_of_app. right. by apply (list_elem_of_fmap_2 (λ x : string * fate, (c, x.1, x.2)) w (frame, ConnClosed)).
Qed.
End handlers.
