(* ===== verification/Gate.v ===== *)
(** * Frames that are refused (internal/connection/handler.go)

    What a refused frame may do: be counted by the rate limiter and be
    answered.  And what a topic lock keeps others from. *)

From S2P Require Import Prelude GoStrings Redis RedisModel Prog Time StreamID Json Protocol Judge RateLimit Bus.
From S2P Require Import Locks Store Jobs SchedStore Inbound Authz Handler Dispatch.
Local Open Scope Z_scope.

(** The permission a verb needs on its topic. *)
Definition gate (ty : string) : option Action :=
  if bool_decide (ty ∈ [TypeSubscribe; TypeAck; TypePresence]) then Some ActionSubscribe
  else if bool_decide (ty = TypePublish) then Some ActionPublish
  else if bool_decide (ty ∈ [TypeLockTopic; TypeUnlockTopic; TypeRenewLock]) then Some ActionLock
  else None.

Section gate.
Context {Sub : Type} `{Countable Sub} {Hub Claims : Type} `{!Target Sub Hub, !Session Sub Hub Claims}.
Context `{!GoQuote, !TimeErrors}.
Abbreviation proc := (@Bus.proc Sub _ _ Hub).
Context (d : @Deps Sub _ _ Hub Claims) (c : Sub).

(** What the client is told of a refusal: only a denial is named. *)
Definition refusal (a : Action) (topic : string) (e : error) : string :=
  if Denied e then "Not authorized to " +:+ action_string a +:+ " topic " +:+ topic +:+ "." else "Internal error".

(** The policy answers without touching anything. *)
Definition policy_says (a : Action) (topic : string) (r : result ()) : Prop :=
  ∃ az, d.(d_Authorizer) = Some az ∧
    az {| q_UserKey := UserKey c; q_Action := a; q_Topic := topic; q_Claims := ConnClaims c |} = Ret r.

Lemma authorize_refuses a topic e :
  policy_says a topic (Err e) → authorize d c a topic = Ret (Err (errors_New (refusal a topic e))).
Proof.
  intros (az&Haz&Hr). unfold authorize. rewrite Haz, Hr. cbn [bind]. unfold refusal. by destruct (Denied e).
Qed.

(** Every gated handler asks first. *)
Lemma builtin_refuses env a e :
  gate env.(e_Type) = Some a → policy_says a env.(e_Topic) (Err e) →
  builtin d c env = Ret (Err (errors_New (refusal a env.(e_Topic) e))).
Proof.
  intros Hg Hp. pose proof (authorize_refuses _ _ _ Hp) as Ha. unfold gate in Hg. unfold builtin.
  destruct (bool_decide _) eqn:Hs in Hg.
  { injection Hg as <-. apply bool_decide_eq_true, list_elem_of_In in Hs as [<-|[<-|[<-|[]]]]; eval_types;
      [unfold handleSubscribe|unfold handleAck|unfold handlePresence]; cbv zeta; by rewrite Ha. }
  destruct (bool_decide _) eqn:Hpub in Hg.
  { injection Hg as <-. apply bool_decide_eq_true in Hpub as ->. eval_types. unfold handlePublish. by rewrite Ha. }
  destruct (bool_decide _) eqn:Hl in Hg; [|done]. injection Hg as <-.
  apply bool_decide_eq_true, list_elem_of_In in Hl as [<-|[<-|[<-|[]]]]; eval_types;
    [unfold handleLockTopic|unfold handleUnlockTopic|unfold handleRenewLock]; by rewrite Ha.
Qed.

Context `{RedisServer Srv}.

Definition say (frame : string) (m : mem Srv proc) : mem Srv proc :=
  Mem m.(srv) (Proc m.(loc).(p_bus) (SendNow c frame m.(loc).(p_hub)) m.(loc).(p_seq)) m.(clock).

(** Why a frame is refused, and the text the client gets. *)
Inductive refused (env : Envelope) : string → Prop :=
| refused_invalid e : Validate env = Err e → refused env e.(err_msg)
| refused_denied a e :
    Validate env = Ok () → gate env.(e_Type) = Some a → policy_says a env.(e_Topic) (Err e) →
    refused env (refusal a env.(e_Topic) e).

(** [C15] A frame that is malformed or not authorized changes nothing but the
    sender's rate limit: Redis, subscriptions and every other connection are
    as the limiter's check leaves them, and the sender gets one error frame. *)
Theorem refused_no_effect text env msg (m : mem Srv proc) orc :
  d.(d_Registry) = None → d.(d_Middleware) = [] →
  read_envelope text = Some env → refused env msg →
  let '(r, m1) := outcome (Allow "msg" (UserKey c) d.(MessageRateLimit)) orc m in
  outcome (Dispatch d c text) orc m =
    (true, say (EncodeError env.(e_ReqID)
      match r with Ok true => msg | Ok false => "Rate limit exceeded" | Err _ => "Internal error" end) m1).
Proof.
  intros Hreg Hmw Hr Href. unfold outcome, Dispatch. rewrite Hr. cbv zeta. rewrite run_bind.
  destruct (run (Allow _ _ _) orc m) as [r [m1 orc1]]. cbn [fst snd].
  destruct r as [[]|e]; [|done|done]. unfold admit_frame. rewrite Hreg. cbn [Lookup].
  destruct Href as [e Hv|a e Hv Hg Hp]; rewrite Hv; [done|].
  rewrite Hmw. unfold Chain. cbn [length chain_loop request hr_Envelope route]. rewrite Hreg. cbn [Lookup].
  rewrite (builtin_refuses _ _ _ Hg Hp). done.
Qed.

Context `{!RedisLaws Srv}.

Lemma get_pubs key s : pubs (exec (GET key) s).2 = pubs s.
Proof.
  pose proof (law_get key s) as Hl. unfold after in Hl. destruct (exec (GET key) s) as [r s']. cbn [fst snd] in *.
  by destruct (as_str _ _); destruct Hl as (_ & _ & ->).
Qed.

Lemma later_pubs key (m m1 : mem Srv proc) : later (Redis (GET key)) m m1 → pubs m1.(srv) = pubs m.(srv).
Proof.
  intros Hl. apply (later_preserves (λ m1, pubs m1.(srv) = pubs m.(srv)) (Redis (GET key)) m m1); [| |done|done].
  - intros t m' <-. cbn. apply law_elapse_pubs.
  - intros m' <-. cbn. apply get_pubs.
Qed.

(** The lock check of the two handlers: while another holds the lock, it
    never lets them on. *)
Lemma wp_lock_check D topic kind h pfx {A} (k : bool → prog proc (result A)) (m : mem Srv proc) e :
  h ≠ UserKey c → held_until D topic kind h m → k true = Ret (Err e) →
  wp (rbind (wrapped pfx (IsTopicLockedByOther topic kind (UserKey c))) k)
    (λ r m', D ≤ m'.(clock) ∨ (is_ok r = false ∧ pubs m'.(srv) = pubs m.(srv))) m.
Proof.
  intros Hh Hheld Hk. apply wp_rbind, wp_wrapped. unfold IsTopicLockedByOther, get.
  apply wp_bind, wp_rbind, wp_call1. intros m1 Hl. pose proof (later_pubs _ _ _ Hl) as Hp.
  assert (held_until D topic kind h m1) as Hm1.
  { eapply held_until_later; [|done..]. intros f m0. apply held_until_spared, spares_get. }
  unfold answers. pose proof (law_get (lockKey topic kind) m1.(srv)) as Hlaw. unfold after in Hlaw.
  destruct (exec _ _) as [r s]. cbn [fst snd] in Hlaw.
  assert (pubs s = pubs m.(srv)) as Hps by (rewrite <- Hp; by destruct (as_str _ _); destruct Hlaw as (_&_&->)).
  split.
  - destruct (Z.lt_ge_cases m1.(clock) D) as [Hlt|Hge].
    + assert (as_str (keys (srv m1)) (lockKey topic kind) = Some (Some h)) as Hs by (unfold as_str; by rewrite (Hm1 Hlt)).
      rewrite Hs in Hlaw. destruct Hlaw as (->&_). cbn [wp]. rewrite bool_decide_true by done. cbn [wp wrap_err].
      rewrite Hk. cbn [wp]. by right.
    + assert (∀ b, wp (k b) (λ _ m', D ≤ m'.(clock)) (Mem s m1.(loc) m1.(clock))) as Hc by (intros; by apply wp_clock).
      destruct r as [[v|]|e']; cbn [wp];
        repeat match goal with |- context [if ?x then _ else _] => destruct x end; cbn [wp wrap_err]; try (by left);
        (eapply wp_mono; [apply Hc|]; intros; by left).
  - intros e' Hne. unfold errors_Is. rewrite bool_decide_false by done. cbn [wp wrap_err is_ok].
    split; right; (split; [done|]); cbn; by rewrite ?Hps, ?Hp.
Qed.

(** While another user holds the publish lock of a topic, a publish that
    completes before the lock's TTL ends is refused and announces nothing,
    whatever the network does. *)
Theorem locked_publish_refused D h env (m : mem Srv proc) orc :
  h ≠ UserKey c → held_until D env.(e_Topic) LockPublish h m →
  authorize d c ActionPublish env.(e_Topic) = Ret (Ok ()) →
  let '(r, m') := outcome (handlePublish d c env) orc m in
  m'.(clock) < D → is_ok r = false ∧ pubs m'.(srv) = pubs m.(srv).
Proof.
  intros Hh Hheld Ha.
  assert (wp (handlePublish d c env)
    (λ r m', D ≤ m'.(clock) ∨ (is_ok r = false ∧ pubs m'.(srv) = pubs m.(srv))) m) as Hwp.
  { unfold handlePublish. rewrite Ha. by eapply wp_lock_check. }
  apply (wp_outcome _ _ _) with (orc := orc) in Hwp. destruct (outcome _ orc m) as [r m']. cbn in Hwp. intros. destruct Hwp; [lia|done].
Qed.

End gate.
