(* ===== verification/Cleanup.v ===== *)
(** * Disconnecting (internal/connection/handler.go, [Cleanup])

    What the last socket of a user leaves behind on a faultless network:
    nothing of the user's.  And that "last" is judged by one instance. *)

From S2P Require Import Prelude GoStrings Redis RedisModel Prog Time StreamID Json Protocol Judge RateLimit Bus BusInv.
From S2P Require Import Locks Store Jobs SchedStore Inbound Authz Handler Dispatch.
Local Open Scope Z_scope.

Lemma app_suffix_ne (u a b : string) : a ≠ b → u +:+ a ≠ u +:+ b.
Proof. intros Hne E. by apply string_app_inj in E. Qed.

Lemma app_length_ne (a b : string) : String.length a ≠ String.length b → a ≠ b.
Proof. by intros Hl ->. Qed.

Lemma subscribed_not_locked u : subscribedTopicsKey u ≠ lockedTopicsKey u.
Proof. by apply app_suffix_ne. Qed.

Lemma subscribed_not_count u : subscribedTopicsKey u ≠ countKey u.
Proof.
  apply app_length_ne. unfold subscribedTopicsKey, countKey. rewrite !length_app_str. cbn. lia.
Qed.

Lemma subscribed_not_active u : subscribedTopicsKey u ≠ activeKey.
Proof.
  intros E. unfold subscribedTopicsKey, activeKey in E. destruct u as [|a u]; [done|].
  apply (f_equal String.length) in E. rewrite length_app_str in E. cbn in E. lia.
Qed.

(** Sets lose members, nobody gains a string. *)
Definition shrinks (ks ks' : keyspace) : Prop :=
  (∀ key x, as_set ks key = Some x → ∃ x', as_set ks' key = Some x' ∧ x' ⊆ x) ∧
  (∀ key v, as_str ks' key = Some (Some v) → as_str ks key = Some (Some v)).

#[export] Instance shrinks_preorder : PreOrder shrinks.
Proof.
  split.
  - intros ks. split; [|done]. intros key x Hx. by exists x.
  - intros ks1 ks2 ks3 [H1 H1'] [H2 H2']. split; [|auto]. intros key x Hx.
    destruct (H1 key x Hx) as (x'&Hx'&?). destruct (H2 key x' Hx') as (x''&Hx''&?). exists x''. split; [done|set_solver].
Qed.

Lemma shrinks_srem ks key x m : as_set ks key = Some x → shrinks ks (put_set ks key (x ∖ {[ m ]})).
Proof.
  intros Hx. split.
  - intros key' y Hy. destruct (decide (key' = key)) as [->|Hne].
    + exists (x ∖ {[ m ]}). rewrite as_set_put. split; [done|]. simplify_eq. set_solver.
    + exists y. split; [|done]. rewrite <- Hy. apply as_set_ext. by rewrite lookup_put_set_ne.
  - intros key' v. destruct (decide (key' = key)) as [->|Hne].
    + unfold as_str, put_set. case_decide; [by rewrite lookup_delete_eq|by rewrite lookup_insert_eq].
    + intros Hv. rewrite <- Hv. symmetry. apply as_str_ext. by rewrite lookup_put_set_ne.
Qed.

Section cleanup.
Context `{RedisServer Srv} `{!RedisLaws Srv} {L : Type}.
Implicit Types (m : mem Srv L) (ks : keyspace).

Lemma RemoveTopicSubscription_wp0 u t m x y :
  as_set (keys m.(srv)) (topicKey t) = Some x → as_set (keys m.(srv)) (subscribedTopicsKey u) = Some y →
  wp0 (RemoveTopicSubscription u t) (λ r m',
    r = Ok () ∧ m'.(loc) = m.(loc) ∧ shrinks (keys m.(srv)) (keys m'.(srv)) ∧
    (∃ x', as_set (keys m'.(srv)) (topicKey t) = Some x' ∧ u ∉ x') ∧
    (∃ y', as_set (keys m'.(srv)) (subscribedTopicsKey u) = Some y' ∧ y' ⊆ y ∖ {[ t ]})) m.
Proof.
  intros Hx Hy. unfold RemoveTopicSubscription. wp0_next H1. rewrite Hx in H1. destruct H1 as (->&Hk1&_). cbn [wrap_err].
  pose proof (shrinks_srem _ _ _ u Hx) as Hs1. rewrite <- Hk1 in Hs1.
  destruct (proj1 Hs1 _ _ Hy) as (y1&Hy1&Hsub).
  wp0_next H2. cbn [srv] in H2. rewrite Hy1 in H2. destruct H2 as (->&Hk2&_). cbn.
  pose proof (shrinks_srem _ _ _ t Hy1) as Hs2. rewrite <- Hk2 in Hs2.
  split_and!; [done|done|by etrans| |].
  - assert (as_set (keys s) (topicKey t) = Some (x ∖ {[ u ]})) as Hx1 by by rewrite Hk1, as_set_put.
    destruct (proj1 Hs2 _ _ Hx1) as (x'&Hx'&?). exists x'. split; [done|set_solver].
  - exists (y1 ∖ {[ t ]}). rewrite Hk2, as_set_put. split; [done|set_solver].
Qed.

Lemma UnlockTopic_remote t k u : all_events (λ R (e : event L R), is_remote e = true) (UnlockTopic t k u).
Proof.
  constructor; [done|]. intros [n|e]; cbn; [|constructor]. destruct (n =? 1); [|constructor].
  constructor; [done|]. intros [?|?]; constructor.
Qed.

(** The second loop: every subscription goes. *)
Lemma unsubscribe_loop u l m y :
  (∀ t, t ∈ l → is_Some (as_set (keys m.(srv)) (topicKey t))) →
  as_set (keys m.(srv)) (subscribedTopicsKey u) = Some y →
  wp0 (for_each l (λ t, bind (RemoveTopicSubscription u t) (λ _, Ret ()))) (λ _ m',
    m'.(loc) = m.(loc) ∧ shrinks (keys m.(srv)) (keys m'.(srv)) ∧
    (∀ t, t ∈ l → ∃ x', as_set (keys m'.(srv)) (topicKey t) = Some x' ∧ u ∉ x') ∧
    ∃ y', as_set (keys m'.(srv)) (subscribedTopicsKey u) = Some y' ∧ y' ⊆ y ∖ list_to_set l) m.
Proof.
  revert m y. induction l as [|t l IH]; intros m y Hl Hy; cbn [for_each].
  { split_and!; [done|done|by intros ? ?%not_elem_of_nil|]. exists y. split; [done|]. set_solver. }
  destruct (Hl t) as [x Hx]; [by left|].
  apply wp0_bind, wp0_bind. eapply wp0_mono; [by eapply RemoveTopicSubscription_wp0|].
  intros r m1 (_&Hloc&Hs&(x1&Hx1&Hu)&(y1&Hy1&Hsub)). cbn [wp0].
  eapply wp0_mono; [eapply IH; [|done]|].
  { intros t' Ht'. destruct (Hl t') as [x' Hx']; [by right|]. by destruct (proj1 Hs _ _ Hx') as (?&?&_). }
  intros [] m' (Hloc'&Hs'&Hall&(y'&Hy'&Hsub')). split_and!; [by rewrite Hloc'|by etrans| |].
  - intros t' [->|Ht']%elem_of_cons; [|by apply Hall].
    destruct (proj1 Hs' _ _ Hx1) as (x'&Hx'&?). exists x'. split; [done|set_solver].
  - exists y'. split; [done|]. set_solver.
Qed.

(** The first loop: every indexed lock of both kinds goes. *)
Lemma unlock_loop u l ks0 m x :
  as_set ks0 (lockedTopicsKey u) = Some x → x ≠ ∅ →
  (∀ t, t ∈ l → as_str ks0 (lockKey t LockPublish) ≠ None ∧ as_str ks0 (lockKey t LockSubscribe) ≠ None) →
  only_released u ks0 (keys m.(srv)) →
  wp0 (for_each l (λ t, bind (UnlockTopic t LockPublish u) (λ _, bind (UnlockTopic t LockSubscribe u) (λ _, Ret ()))))
    (λ _ m', only_released u ks0 (keys m'.(srv)) ∧
       ∀ key, (∃ t, t ∈ l ∧ (key = lockKey t LockPublish ∨ key = lockKey t LockSubscribe)) ∨
              as_str (keys m.(srv)) key ≠ Some (Some u) → as_str (keys m'.(srv)) key ≠ Some (Some u)) m.
Proof.
  intros Hx Hne. revert m. induction l as [|t l IH]; intros m Hl Hrel; cbn [for_each].
  { split; [done|]. intros key [(t&?%not_elem_of_nil&_)|?]; done. }
  destruct (Hl t) as [Hp Hs]; [by left|]. assert (∃ x, as_set ks0 (lockedTopicsKey u) = Some x ∧ x ≠ ∅) as Hidx by eauto.
  do 2 apply wp0_bind. eapply wp0_mono; [by apply UnlockTopic_released with (ks0 := ks0)|].
  intros r1 m1 (_&Hr1&Hg1&Hst1). apply wp0_bind.
  eapply wp0_mono; [by apply UnlockTopic_released with (ks0 := ks0)|].
  intros r2 m2 (_&Hr2&Hg2&Hst2). cbn [wp0].
  eapply wp0_mono; [apply IH; [intros; apply Hl; by right|done]|].
  intros [] m' [Hr' Hst']. split; [done|]. intros key Hkey. apply Hst'.
  destruct Hkey as [(t'&[->|Ht]%elem_of_cons&Hk)|Hk]; [right|left; by exists t'|right; by apply Hst2, Hst1].
  destruct Hk as [->| ->]; [by apply Hst2|done].
Qed.

(** [RemoveConnection] touches its two keys only. *)
Lemma wp0_frames u m :
  wp0 (RemoveConnection u) (λ _ m', m'.(loc) = m.(loc) ∧
    ∀ key, key ≠ countKey u → key ≠ activeKey → keys m'.(srv) !! key = keys m.(srv) !! key) m.
Proof.
  unfold RemoveConnection. wp0_next H1.
  assert (∀ key, key ≠ countKey u → keys s !! key = keys m.(srv) !! key) as Hk.
  { intros key Hc. repeat case_match; destruct H1 as (_&->&_); try done; by rewrite lookup_insert_ne. }
  clear H1. destruct r as [n|e]; cbn [wrap_err]; [|cbn; auto]. destruct (n <=? 0); [|cbn; auto].
  wp0_next H2. assert (∀ key, key ≠ countKey u → keys s0 !! key = keys s !! key) as Hk0.
  { intros key Hc. destruct H2 as (_&->&_). by rewrite lookup_delete_ne. }
  clear H2. destruct r as [r|e]; cbn [wrap_err]; [|cbn; split; [done|]; intros; by rewrite Hk0, Hk].
  wp0_next H3. assert (∀ key, key ≠ activeKey → keys s1 !! key = keys s0 !! key) as Hk1.
  { intros key Ha. cbn [srv] in H3. case_match; destruct H3 as (_&->&_); [by rewrite lookup_put_set_ne|done]. }
  destruct r0; cbn; (split; [done|]; intros; by rewrite Hk1, Hk0, Hk).
Qed.
End cleanup.

Section complete.
Context {Sub : Type} `{Countable Sub} {Hub Claims : Type} `{!Target Sub Hub, !Session Sub Hub Claims}.
Context `{!GoQuote, !TimeErrors} `{RedisServer Srv} `{!RedisLaws Srv}.
Abbreviation proc := (@Bus.proc Sub _ _ Hub).
Context (d : @Deps Sub _ _ Hub Claims) (c : Sub).

(** Nothing else runs on a disconnect. *)
Record bare : Prop := { bare_hook : d.(OnDisconnect) = None; bare_feed : d.(PresenceTopic) = "" }.

(** What the keyspace holds of the user: locks of the topics [x],
    subscriptions to the topics [y]. *)
Record holdings (u : string) (x y : gset string) (ks : keyspace) : Prop := {
  hold_locks : as_set ks (lockedTopicsKey u) = Some x;
  hold_subs : as_set ks (subscribedTopicsKey u) = Some y;
  hold_strings t : t ∈ x → as_str ks (lockKey t LockPublish) ≠ None ∧ as_str ks (lockKey t LockSubscribe) ≠ None;
  hold_topics t : t ∈ y → is_Some (as_set ks (topicKey t));
}.

Lemma unlock_all_wp0 u x y (m : mem Srv proc) :
  holdings u x y (keys m.(srv)) →
  wp0 (unlock_all u) (λ _ m', m'.(loc) = m.(loc) ∧
    (∀ t, t ∈ x → ¬ holds (keys m'.(srv)) t LockPublish u ∧ ¬ holds (keys m'.(srv)) t LockSubscribe u) ∧
    ∀ key, is_Some (as_set (keys m.(srv)) key) → is_Some (as_set (keys m'.(srv)) key) ∧
      (key ≠ lockedTopicsKey u → as_set (keys m'.(srv)) key = as_set (keys m.(srv)) key)) m.
Proof.
  intros [Hx Hy Hstr Htop].
  assert (wp0 (unlock_all u) (λ _ m', m'.(loc) = m.(loc)) m) as Hloc.
  { apply wp0_remote. unfold unlock_all, LockedTopics, UnlockTopic.
    apply all_events_bind; [by repeat constructor|]. intros r. generalize (or_nil r). intros l.
    induction l as [|t l IH]; cbn [for_each]; [constructor|]. apply all_events_bind; [|done].
    do 2 (apply all_events_bind; [apply UnlockTopic_remote|intros]). constructor. }
  apply wp0_and; [exact Hloc|]. clear Hloc.
  unfold unlock_all, LockedTopics. wp0_next Hlaw. rewrite Hx in Hlaw. destruct Hlaw as (l&->&Hl&Hk&_). cbn [or_nil].
  destruct (decide (x = ∅)) as [->|Hne].
  { apply Permutation_nil_r in Hl as ->. cbn. rewrite Hk. split; [by intros ? ?%not_elem_of_empty|done]. }
  assert (∀ t, t ∈ l ↔ t ∈ x) as Hin by (intros t; by rewrite Hl, elem_of_elements).
  eapply wp0_mono; [eapply (unlock_loop u l (keys m.(srv))); [done..| |]|].
  - intros t Ht. by apply Hstr, Hin.
  - cbn. rewrite Hk. split; [by eexists|]. by left.
  - intros [] m' [[Hidx Hrel] Hst]. split.
    + intros t Ht. apply Hin in Ht. split; apply Hst; left; exists t; auto.
    + intros key [s' Hs]. destruct (decide (key = lockedTopicsKey u)) as [->|Hkey]; [by split|].
      assert (as_set (keys m'.(srv)) key = as_set (keys m.(srv)) key) as E; [|by rewrite E, Hs; eauto].
      destruct (Hrel key Hkey) as [E|[Hu _]]; [by apply as_set_ext|].
      unfold as_set in Hs. unfold as_str in Hu. by repeat case_match.
Qed.

(** [C35] When the last socket of a user goes, on a faultless network and a server without disconnect hook and presence
    feed, what the user's two records name is let go: every topic in the user's index of locks is free of locks of
    the user of either kind, every topic in the set of subscriptions has lost the user, that set is empty, and the
    process delivers nothing to the connection any more.  A lock that is not in the index stays
    ([shared_index_leak]). *)
Theorem Cleanup_complete x y (m : mem Srv proc) :
  bare → bus_ok m.(loc).(p_bus) → holdings (UserKey c) x y (keys m.(srv)) →
  wp0 (Cleanup d c true) (λ _ m',
    (∀ t, t ∈ x → ¬ holds (keys m'.(srv)) t LockPublish (UserKey c) ∧ ¬ holds (keys m'.(srv)) t LockSubscribe (UserKey c)) ∧
    (∀ t, t ∈ y → ∃ s, as_set (keys m'.(srv)) (topicKey t) = Some s ∧ UserKey c ∉ s) ∧
    as_set (keys m'.(srv)) (subscribedTopicsKey (UserKey c)) = Some ∅ ∧
    (∀ t, c ∉ subscribers m'.(loc).(p_bus) t)) m.
Proof.
  intros [Hhook Hfeed] Hbus Hh. unfold Cleanup, PublishPresence. rewrite Hhook, Hfeed. cbv zeta.
  set (u := UserKey c) in *. apply wp0_bind. cbn [wp0 RemoveSubscriberAll with_bus local_ act event_step].
  set (l1 := Proc _ _ _). set (m1 := Mem _ l1 _).
  assert (∀ t, c ∉ subscribers m1.(loc).(p_bus) t) as Hc1.
  { intros t Ht. apply subscribers_remove_all in Ht as [_ ?]; [done|]. by destruct Hbus. }
  cbn [bind]. rewrite decide_True by done. cbn [bind].
  apply wp0_bind, wp0_bind. eapply wp0_mono; [apply (unlock_all_wp0 u x y m1 Hh)|].
  intros [] m2 (Hl2&Hg2&Hk2). destruct Hh as [Hx Hy Hstr Htop].
  assert (as_set (keys m2.(srv)) (subscribedTopicsKey u) = Some y) as Hy2.
  { rewrite <- Hy. apply Hk2; [by exists y|apply subscribed_not_locked]. }
  unfold unsubscribe_all, SubscribedTopics. wp0_next Hlaw. rewrite Hy2 in Hlaw. destruct Hlaw as (l&->&Hl&Hk3&_). cbn [or_nil].
  assert (∀ t, t ∈ l ↔ t ∈ y) as Hin by (intros t; by rewrite Hl, elem_of_elements).
  eapply wp0_mono; [eapply (unsubscribe_loop u l _ y)|]; cbn [srv]; rewrite ?Hk3; try done.
  { intros t Ht. by apply Hk2, Htop, Hin. }
  intros [] m4 (Hl4&[_ Hs4]&Htop4&(y'&Hy'&Hsub)). apply wp0_bind.
  eapply wp0_mono; [apply (wp0_frames u)|]. intros r m5 [Hl5 Hk5]. cbn [wp0].
  assert (y' = ∅) as -> by set_solver.
  split_and!.
  - intros t Ht. destruct (Hg2 t Ht) as [Hp Hsu]. unfold holds in *.
    assert (∀ kind, kind = LockPublish ∨ kind = LockSubscribe →
      as_str (keys m5.(srv)) (lockKey t kind) = as_str (keys m4.(srv)) (lockKey t kind)) as Hlock.
    { intros kind Hkind. apply as_str_ext, Hk5; by destruct Hkind as [->| ->]. }
    split; intros Hh; (rewrite Hlock in Hh by auto); by apply Hs4 in Hh.
  - intros t Ht. apply Hin in Ht. destruct (Htop4 t Ht) as (x'&Hx'&Hu). exists x'. split; [|done].
    rewrite <- Hx'. apply as_set_ext. by apply Hk5.
  - rewrite <- Hy'. apply as_set_ext, Hk5; [apply subscribed_not_count|apply subscribed_not_active].
  - rewrite Hl5, Hl4. cbn [loc]. rewrite Hl2. done.
Qed.
End complete.
