(* ===== verification/App.v ===== *)
(** * Putting the server together (internal/app/app.go)

    What [New] chooses, the two HTTP checks, and [serveWS]: the life of one
    connection from the upgrade request to the clean-up.  The upgrade itself,
    the listener and the key pair are libraries and enter as their outcomes;
    the hub is seen through [HubOps].  [Run] and [shutdown] are in
    [Lifecycle], the goroutines inside [Conn.Run] in [Watch]: here its reader
    is the messages it gets before the read fails. *)

From S2P Require Import Prelude GoStrings Redis RedisModel Prog Time StreamID Json Protocol Judge RateLimit Bus BusInv Conn Hub.
From S2P Require Import Locks Store Jobs SchedStore Inbound Utf8 Net Authz Auth Config Handler Dispatch Cleanup.
Local Open Scope Z_scope.
Local Open Scope prog_scope.

(** ** HTTP checks *)

Section http.
Context `{!Lower}.

(** [None] keeps gorilla's own check. *)
Definition originChecker (allowed : list string) : option (HTTPRequest → bool) :=
  match allowed with
  | [] => None
  | _ =>
      let set : gset string := list_to_set (ToLower <$> allowed) in
      let wildcard := bool_decide ("*" ∈ allowed) in
      Some (λ r, let origin := r.(header) "Origin" in
                 bool_decide (origin = "") || wildcard || bool_decide (ToLower origin ∈ set))
  end.

(** The status code; [ping] is the answer of Redis within the timeout. *)
Definition readyHandler (ping : option string) : Z := match ping with Some _ => 503 | None => 200 end.

(** With an allow-list an upgrade passes exactly without an Origin, under a
    star, or with a listed Origin in any case. *)
Lemma originChecker_exact allowed check r : originChecker allowed = Some check →
  check r = true ↔ r.(header) "Origin" = "" ∨ "*" ∈ allowed ∨ ∃ o, o ∈ allowed ∧ ToLower o = ToLower (r.(header) "Origin").
Proof.
  destruct allowed as [|a l]; [done|]. unfold originChecker. generalize (a :: l). intros L [= <-].
  rewrite !orb_true_iff, !bool_decide_eq_true, (elem_of_list_to_set (C := gset string)), list_elem_of_fmap. naive_solver.
Qed.
End http.

(** ** Choices of [New] *)

Section choices.
Context {Sub : Type} `{Countable Sub} {Hub : Type} `{!Target Sub Hub, !Session Sub Hub Auth.Claims}.
Context `{!Lower, !GoQuote, !JsonErrors, !TimeErrors}.
Abbreviation proc := (@Bus.proc Sub _ _ Hub).
Variable ParseWithClaims : parser_opts → string → string → option Auth.Claims.
Variable GetExpirationTime : Auth.Claims → option (option Z).

(** What an embedder supplies in code; [None] and [[]] where it does not.  Its
    policy decides at once. *)
Record Ext : Type := {
  x_Verifier : option Verifier;
  x_Authorizer : option (@Authorizer Auth.Claims);
  x_Registry : option (Registry Sub proc Auth.Claims);
  x_Middleware : list (option (Middleware Sub proc Auth.Claims));
  x_OnConnect : option (LifecycleFunc proc Auth.Claims);
  x_OnDisconnect : option (LifecycleFunc proc Auth.Claims);
  x_Judge : option Judge;
  x_Candidates : option CandidateSource;
  x_JudgeFailurePolicy : FailurePolicy;
}.

Definition choose_verifier (cfg : Config) (ext : option Verifier) : Verifier :=
  match ext with
  | Some v => v
  | None =>
      if bool_decide (cfg.(AuthJWTSecret) = "") then NewInsecure
      else NewJWT ParseWithClaims GetExpirationTime
             {| Secret := cfg.(AuthJWTSecret); Audience := cfg.(AuthJWTAudience); Issuer := cfg.(AuthJWTIssuer) |}
  end.

Definition choose_authorizer (rules : option Rules) (ext : option (@Authorizer Auth.Claims)) : @Authorizer Auth.Claims :=
  match ext, rules with
  | Some az, _ => az
  | None, None => AllowAll
  | None, Some r => Authorize r
  end.

Definition bus_config (cfg : Config) (ext : Ext) : Bus.Config := {|
  Bus.StreamMaxLength := cfg.(StreamMaxLength); Bus.StreamTTL := cfg.(StreamTTL); Bus.InstanceID := cfg.(InstanceID);
  cfg_Judge := ext.(x_Judge); cfg_Candidates := ext.(x_Candidates); JudgeFailurePolicy := ext.(x_JudgeFailurePolicy);
|}.

(** What the handlers are given; [wake] is [sched.Wake]. *)
Definition wire (cfg : Config) (ext : Ext) (authorizer : @Authorizer Auth.Claims) (wake : prog proc ()) : @Deps Sub _ _ Hub Auth.Claims := {|
  BusConfig := bus_config cfg ext;
  MessageRateLimit := DefaultMessageConfig cfg.(RateLimitMessagesPerSec);
  JobRateLimit := DefaultJobConfig cfg.(RateLimitJobsPerMin);
  OnSchedulerWake := Some wake;
  d_Authorizer := Some (λ q, Ret (authorizer q));
  d_Registry := ext.(x_Registry);
  d_Middleware := ext.(x_Middleware);
  Dispatch.AckCursorTTL := Milliseconds cfg.(Config.AckCursorTTL);
  OnConnect := ext.(x_OnConnect);
  OnDisconnect := ext.(x_OnDisconnect);
  Dispatch.PresenceTopic := cfg.(Config.PresenceTopic);
|}.

Inductive new_error : Type := BadRules (e : error) | BadKeyPair | ListenFailed.

(** The three Redis clients and the listener. *)
Record resources : Type := { clients : nat; listening : bool }.

(** [New]: its error or the server, and what it leaves open.
    [LoadX509KeyPair] and [Listen] say whether they succeed. *)
Definition New (LoadX509KeyPair : string → string → bool) (Listen : Z → bool) (wake : prog proc ()) (cfg : Config) (ext : Ext)
    : (new_error + Verifier * @Deps Sub _ _ Hub Auth.Claims) * resources :=
  let closed := {| clients := 0; listening := false |} in
  let verifier := choose_verifier cfg ext.(x_Verifier) in
  match ParseRules cfg.(AuthzRules) with
  | Err e => (inl (BadRules e), closed)
  | Ok rules =>
      let deps := wire cfg ext (choose_authorizer rules ext.(x_Authorizer)) wake in
      if TLSEnabled cfg && negb (LoadX509KeyPair cfg.(TLSCertPath) cfg.(TLSKeyPath)) then (inl BadKeyPair, closed)
      else if negb (Listen cfg.(WebSocketPort)) then (inl ListenFailed, closed)
      else (inr (verifier, deps), {| clients := 3; listening := true |})
  end.

(** What [wsserver.New] passes on for options read from the environment. *)
Definition env_ext {E} (o : Options Auth.Claims E) : Ext := {|
  x_Verifier := None; x_Authorizer := o.(o_Authorizer); x_Registry := None; x_Middleware := []; x_OnConnect := None;
  x_OnDisconnect := None; x_Judge := None; x_Candidates := None; x_JudgeFailurePolicy := DeliverAll |}.

(** [C26] The policy in AUTHZ_RULES is the policy that runs: whatever else the environment says, a command that comes
    up has every request decided by the rules parsed from it, allows everything only if it is blank, and lets clients
    claim an identity unchecked only without a JWT secret; with rules that do not parse it does not come up, and
    whatever fails on the way nothing is left open. *)
Theorem policy_from_env {E} (no_ext : E) LoadX509KeyPair Listen wake e fresh fresh' o c r res :
  OptionsFromEnv (Claims := Auth.Claims) no_ext e fresh = inr o → toConfig o fresh' = inr c →
  New LoadX509KeyPair Listen wake c (env_ext o) = (r, res) →
  (∃ rules, ParseRules (e "AUTHZ_RULES") = Ok rules ∧
     match r with
     | inl _ => res = {| clients := 0; listening := false |}
     | inr (verifier, d) =>
         d.(d_Authorizer) = Some (λ q, Ret (match rules with Some rs => Authorize rs q | None => AllowAll q end)) ∧
         verifier = (if bool_decide (e "AUTH_JWT_SECRET" = "") then NewInsecure
                     else NewJWT ParseWithClaims GetExpirationTime
                            {| Secret := e "AUTH_JWT_SECRET"; Audience := e "AUTH_JWT_AUDIENCE"; Issuer := e "AUTH_JWT_ISSUER" |})
     end).
Proof.
  unfold OptionsFromEnv. destruct (Load e fresh) as [|cfg] eqn:L; [done|].
  destruct (ParseRules (AuthzRules cfg)) as [rules|] eqn:P; [|done]. intros [= <-] T N.
  apply Load_texts in L as (Ea & Es & Eu & Ei).
  assert (c.(AuthzRules) = "" ∧ c.(AuthJWTSecret) = e "AUTH_JWT_SECRET" ∧ c.(AuthJWTAudience) = e "AUTH_JWT_AUDIENCE"
          ∧ c.(AuthJWTIssuer) = e "AUTH_JWT_ISSUER") as (Ra & Rs & Ru & Ri).
  { unfold toConfig in T. destruct (listen_port _); [done|]. injection T as <-. cbn. by rewrite Es, Eu, Ei. }
  exists rules. rewrite <- Ea. split; [done|]. unfold New in N. rewrite Ra in N.
  change (ParseRules "") with (Ok (None : option Rules)) in N. cbv zeta in N.
  destruct (TLSEnabled c && _); [by injection N as <- <-|]. destruct (negb (Listen _)); [by injection N as <- <-|].
  injection N as <- <-. split; [by destruct rules|]. unfold choose_verifier. cbn [x_Verifier env_ext]. by rewrite Rs, Ru, Ri.
Qed.
End choices.

(** ** One connection *)

(** What [serveWS] asks of the hub. *)
Class HubOps (Sub Hub : Type) : Type := {
  hub_Add : Sub → Hub → bool * Hub;
  hub_Remove : Sub → Hub → bool * Hub;
  in_hub : Hub → Sub → bool;
  in_hub_Remove c h : in_hub (hub_Remove c h).2 c = false;
}.

#[export] Instance hub_ops : HubOps handle Hub.
Proof.
  refine {| hub_Add := Add; hub_Remove := Remove; in_hub h c := bool_decide (registered h c) |}.
  intros c h. apply bool_decide_eq_false_2. unfold registered. rewrite conns_of_Remove, decide_True by done.
  intros [? _]%list_elem_of_filter. done.
Defined.

Inductive served : Type := Unauthorized | NotUpgraded | Served | Panicked.

Section serve.
Context {Sub : Type} `{Countable Sub} {Hub : Type} `{!Target Sub Hub, !Session Sub Hub Auth.Claims, !HubOps Sub Hub}.
Context `{!GoQuote, !TimeErrors}.
Abbreviation proc := (@Bus.proc Sub _ _ Hub).
Context (d : @Deps Sub _ _ Hub Auth.Claims).

Definition hub_op {R} (f : Hub → R * Hub) : prog proc R :=
  local_ (λ p : proc, let '(r, h) := f p.(p_hub) in (r, Proc p.(p_bus) h p.(p_seq))).

(** From the new [Conn] to [conn.Run]. *)
Definition connect (c : Sub) : prog proc () :=
  let u := UserKey c in
  bind (match d.(OnConnect) with
        | Some f => f {| ci_ConnID := ConnID c; ci_UserKey := u; ci_Claims := ConnClaims c |}
        | None => Ret () end) (λ _,
  bind (hub_op (hub_Add c)) (λ first,
  bind (if (first : bool) then PublishPresence d u PresenceConnected else Ret ()) (λ _,
  bind (AddConnection u) (λ _, Ret ())))).

(** [onDone]. *)
Definition disconnect (c : Sub) : prog proc () :=
  bind (hub_op (hub_Remove c)) (λ isLast, Cleanup d c isLast).

(** The loop of [runReader] over what it reads; [false] when a dispatch
    panicked, after which [Run] does not go on. *)
Fixpoint read_loop (c : Sub) (msgs : list string) : prog proc bool :=
  match msgs with
  | [] => Ret true
  | msg :: msgs' => bind (Dispatch d c msg) (λ alive, if (alive : bool) then read_loop c msgs' else Ret false)
  end.

(** [newConn] is [NewConn] on the upgraded socket, [msgs] what the client
    sends before it leaves. *)
Definition serveWS (verifier : Verifier) (upgraded : bool) (newConn : Result → Sub) (r : HTTPRequest) (msgs : list string)
    : prog proc served :=
  match verifier r with
  | inl _ | inr None => Ret Unauthorized
  | inr (Some res) =>
      if upgraded then
        let c := newConn res in
        bind (connect c) (λ _,
        bind (read_loop c msgs) (λ alive,
        if (alive : bool) then bind (disconnect c) (λ _, Ret Served) else Ret Panicked))
      else Ret NotUpgraded
  end.

(** ** What a connection leaves behind in the process *)

(** Round trips and looks at the clock. *)
Definition neutral {R} (e : event proc R) : bool := is_remote e || match e with Now => true | _ => false end.

Context `{RedisServer Srv} `{!RedisLaws Srv}.
Implicit Types (m : mem Srv proc).

Lemma neutral_loc {R} f (e : event proc R) m : neutral e = true → loc (event_step f e m).2 = loc m.
Proof. unfold neutral. intros He. destruct (is_remote e) eqn:E; [by apply remote_loc|]. by destruct e. Qed.

Lemma neutral_run {A} (p : prog proc A) orc m : all_events (λ R e, neutral e = true) p → (outcome p orc m).2.(loc) = m.(loc).
Proof.
  intros Hp. unfold outcome. revert orc m. induction Hp as [a|R e k He _ IH]; intros orc m; cbn [run]; [done|].
  destruct (is_remote e) eqn:Hr.
  - pose proof (attempts_loc e orc m Hr) as E. destruct (attempts e orc m) as [r [m' orc']]. cbn in E. rewrite <- E. apply IH.
  - pose proof (neutral_loc Fine e m He) as E. destruct (event_step Fine e m) as [r m']. cbn in E. rewrite <- E. apply IH.
Qed.

Lemma neutral_remote {A} (p : prog proc A) : all_events (λ R e, is_remote e = true) p → all_events (λ R e, neutral e = true) p.
Proof. intros Hp. induction Hp as [a|R e k He _ IH]; [apply all_ret|apply all_do]; [unfold neutral; by rewrite He|done]. Qed.

Lemma PublishPresence_neutral u e : all_events (λ R e, neutral e = true) (PublishPresence d u e).
Proof.
  unfold PublishPresence. case_decide; [constructor|]. constructor; [done|]. intros t.
  apply all_events_bind; [|intros; constructor]. apply neutral_remote. unfold PublishTopic, rbind, wrapped.
  repeat (apply all_events_bind; [|intros [?|?]]); repeat constructor.
Qed.
End serve.
