(* ===== verification/Leaves.v ===== *)
(** * What a connection leaves in the process (internal/app/app.go, [serveWS])

    Programs that change the registry of the bus only through one connection:
    every handler, the reader loop, the clean-up.  So what is true of the
    registry and closed under that connection's operations holds through all
    of [serveWS], whatever Redis answers. *)

From S2P Require Import Prelude GoStrings Redis RedisModel Prog Time StreamID Json Protocol Judge RateLimit Bus BusInv Conn Hub.
From S2P Require Import Locks Store Jobs SchedStore Inbound Utf8 Net Authz Auth Config Handler Dispatch Answers Cleanup App.
Local Open Scope Z_scope.

Section leaves.
Context {Sub : Type} `{Countable Sub} {Hub : Type} `{!Target Sub Hub, !Session Sub Hub Auth.Claims, !HubOps Sub Hub}.
Context `{!GoQuote, !TimeErrors} `{RedisServer Srv} `{!RedisLaws Srv}.
Abbreviation proc := (@Bus.proc Sub _ _ Hub).
Abbreviation bus := (@Bus.bus Sub _ _).
Implicit Types (m : mem Srv proc) (b : bus).

(** Closed under what connection [c] does to the registry. *)
Record closed_under (c : Sub) (I : bus → Prop) : Prop := {
  cl_add t b : I b → I (addLocalSubLocked t c b);
  cl_drop t b : I b → I (let b := drop_sub t c b in Bus b.(topicSubs) (delete (c, t) b.(replay)) b.(gauge));
  cl_all b : I b → I (remove_all c b);
  cl_put t st b : I b → c ∈ subscribers b t → I (put_replay c t st b);
  cl_sub t b : I b → is_Some (b.(replay) !! (c, t)) → c ∈ subscribers b t;
  cl_del t b : I b → I (del_replay c t b);
}.

Definition registry (I : bus → Prop) m : Prop := I m.(loc).(p_bus).

(** Every event of the program keeps [I] true of the registry. *)
Definition keeping (I : bus → Prop) {A} (p : prog proc A) : Prop := all_events (λ R e, event_preserves (registry I) e) p.

(** It does not touch the registry at all. *)
Definition aloof {A} (p : prog proc A) : Prop := ∀ I, keeping I p.

Lemma keeping_ret I {A} (a : A) : keeping I (Ret a).
Proof. apply all_ret. Qed.

Lemma keeping_bind I {A B} (p : prog proc A) (k : A → prog proc B) :
  keeping I p → (∀ a, keeping I (k a)) → keeping I (bind p k).
Proof. apply all_events_bind. Qed.

Lemma keeping_remote I {R} (e : event proc R) {A} (k : R → prog proc A) :
  is_remote e = true → (∀ r, keeping I (k r)) → keeping I (Do e k).
Proof. intros He Hk. apply all_do; [|done]. intros f m Hm. unfold registry in *. by rewrite remote_loc. Qed.

Lemma keeping_call I {R} (c : rcmd R) : keeping I (call c).
Proof. apply keeping_remote; [done|]. intros. apply keeping_ret. Qed.
Lemma keeping_eval I {R} (s : script R) : keeping I (eval s).
Proof. apply keeping_remote; [done|]. intros. apply keeping_ret. Qed.
Lemma keeping_now I : keeping I (now (L := proc)).
Proof. apply all_do; [by intros f m Hm|]. intros. apply keeping_ret. Qed.

Lemma keeping_local I {R} (g : proc → R * proc) :
  (∀ p, I p.(p_bus) → I (g p).2.(p_bus)) → keeping I (local_ g).
Proof.
  intros Hg. apply all_do; [|intros; apply keeping_ret]. intros f m Hm. unfold registry in *. cbn.
  specialize (Hg _ Hm). by destruct (g (loc m)).
Qed.

Lemma keeping_with_bus I f : (∀ b, I b → I (f b)) → keeping I (with_bus f).
Proof. intros Hf. apply keeping_local. intros p. apply Hf. Qed.
Lemma keeping_with_hub I f : keeping I (with_hub f).
Proof. by apply keeping_local. Qed.
Lemma keeping_hub_op I {R} (f : Hub → R * Hub) : keeping I (hub_op f).
Proof. apply keeping_local. intros p Hp. by destruct (f (p_hub p)). Qed.
Lemma keeping_seq I : keeping I (seq_Add (L := proc)).
Proof. by apply keeping_local. Qed.

Lemma keeping_rbind I {A B} (p : prog proc (result A)) (k : A → prog proc (result B)) :
  keeping I p → (∀ a, keeping I (k a)) → keeping I (rbind p k).
Proof. intros Hp Hk. apply keeping_bind; [done|]. intros [a|e]; [apply Hk|apply keeping_ret]. Qed.
Lemma keeping_wrapped I {A} pfx (p : prog proc (result A)) : keeping I p → keeping I (wrapped pfx p).
Proof. intros Hp. apply keeping_bind; [done|]. intros. apply keeping_ret. Qed.
Lemma keeping_for_each I {A} (l : list A) (f : A → prog proc ()) : (∀ x, keeping I (f x)) → keeping I (for_each l f).
Proof. intros Hf. induction l as [|x l IH]; cbn; [apply keeping_ret|]. by apply keeping_bind. Qed.

Lemma keeping_aloof I {A} (p : prog proc A) : aloof p → keeping I p.
Proof. by intros Hp. Qed.
End leaves.

Create HintDb keeping.
#[export] Hint Resolve keeping_ret keeping_call keeping_eval keeping_now keeping_with_hub keeping_hub_op keeping_seq keeping_aloof : keeping.

(** Walk a program, case by case. *)
Ltac keep :=
  repeat first
    [ solve [eauto with keeping]
    | apply keeping_rbind; [|intros]
    | apply keeping_wrapped
    | apply keeping_bind; [|intros]
    | apply keeping_for_each; intros
    | progress cbv zeta
    | match goal with |- keeping _ (match ?x with _ => _ end) => destruct x end
    | match goal with |- keeping _ (if ?x then _ else _) => destruct x end ].

Section handlers.
Context {Sub : Type} `{Countable Sub} {Hub : Type} `{!Target Sub Hub, !Session Sub Hub Auth.Claims, !HubOps Sub Hub}.
Context `{!GoQuote, !TimeErrors} `{RedisServer Srv} `{!RedisLaws Srv}.
Abbreviation proc := (@Bus.proc Sub _ _ Hub).
Abbreviation bus := (@Bus.bus Sub _ _).
Abbreviation keeping := (keeping (Sub := Sub) (Hub := Hub) (Srv := Srv)).
Implicit Types (m : mem Srv proc) (b : bus).

Lemma keeping_neutral I {A} (p : prog proc A) : all_events (λ R e, neutral e = true) p → keeping I p.
Proof.
  intros Hp. induction Hp as [a|R e k He _ IH]; [apply all_ret|apply all_do]; [|done].
  intros f m Hm. unfold registry in *. by rewrite neutral_loc.
Qed.

Lemma keeping_Allow I scope subject cfg : keeping I (Allow scope subject cfg).
Proof. unfold Allow. keep. Qed.
Lemma keeping_IsTopicLockedByOther I t k u : keeping I (IsTopicLockedByOther t k u).
Proof. unfold IsTopicLockedByOther. keep. Qed.
Lemma keeping_LockTopic I t k u ttl : keeping I (LockTopic t k u ttl).
Proof. unfold LockTopic. keep. Qed.
Lemma keeping_UnlockTopic I t k u : keeping I (UnlockTopic t k u).
Proof. unfold UnlockTopic. keep. Qed.
Lemma keeping_RenewLock I t k u ttl : keeping I (RenewLock t k u ttl).
Proof. unfold RenewLock. keep. Qed.
Lemma keeping_AddTopicSubscription I u t : keeping I (AddTopicSubscription u t).
Proof. unfold AddTopicSubscription. keep. Qed.
Lemma keeping_RemoveTopicSubscription I u t : keeping I (RemoveTopicSubscription u t).
Proof. unfold RemoveTopicSubscription. keep. Qed.
Lemma keeping_SetAckCursor I u t id ttl : keeping I (SetAckCursor u t id ttl).
Proof. unfold SetAckCursor. keep. Qed.
Lemma keeping_AckCursor I u t : keeping I (AckCursor u t).
Proof. unfold AckCursor. keep. Qed.
Lemma keeping_AddConnection I u : keeping I (AddConnection u).
Proof. unfold AddConnection. keep. Qed.
Lemma keeping_RemoveConnection I u : keeping I (RemoveConnection u).
Proof. unfold RemoveConnection. keep. Qed.
Lemma keeping_TopicSubscribers I t : keeping I (TopicSubscribers t).
Proof. unfold TopicSubscribers. keep. Qed.
Lemma keeping_SubscribedTopics I u : keeping I (SubscribedTopics u).
Proof. unfold SubscribedTopics. keep. Qed.
Lemma keeping_AddJob I j : keeping I (AddJob j).
Proof. unfold AddJob. keep. Qed.
Lemma keeping_RemoveJob I i : keeping I (RemoveJob i).
Proof. unfold RemoveJob. keep. Qed.
Lemma keeping_PublishTopic I cfg t dt r : keeping I (PublishTopic cfg t dt r).
Proof. unfold PublishTopic. keep. Qed.
Lemma keeping_PublishBroadcast I u dt : keeping I (PublishBroadcast u dt).
Proof. unfold PublishBroadcast. keep. Qed.
Lemma keeping_replayMessages I t since : keeping I (replayMessages t since).
Proof. unfold replayMessages. keep. Qed.
End handlers.

#[export] Hint Resolve keeping_Allow keeping_IsTopicLockedByOther keeping_LockTopic keeping_UnlockTopic keeping_RenewLock
  keeping_AddTopicSubscription keeping_RemoveTopicSubscription keeping_SetAckCursor keeping_AckCursor keeping_AddConnection
  keeping_RemoveConnection keeping_TopicSubscribers keeping_SubscribedTopics keeping_AddJob keeping_RemoveJob
  keeping_PublishTopic keeping_PublishBroadcast keeping_replayMessages : keeping.

Section connection.
Context {Sub : Type} `{Countable Sub} {Hub : Type} `{!Target Sub Hub, !Session Sub Hub Auth.Claims, !HubOps Sub Hub}.
Context `{!GoQuote, !TimeErrors} `{RedisServer Srv} `{!RedisLaws Srv}.
Abbreviation proc := (@Bus.proc Sub _ _ Hub).
Abbreviation bus := (@Bus.bus Sub _ _).
Abbreviation keeping := (keeping (Sub := Sub) (Hub := Hub) (Srv := Srv)).
Abbreviation neutral_prog p := (all_events (λ R (e : event proc R), neutral e = true) p).
Implicit Types (m : mem Srv proc) (b : bus).
Context (d : @Deps Sub _ _ Hub Auth.Claims).

(** The embedder's code reaches Redis and the clock, not the maps of the bus
    and the hub, which are private to their packages. *)
Record embedder_outside : Prop := {
  out_plain : plain_server d;
  out_authorizer az q : d.(d_Authorizer) = Some az → neutral_prog (az q);
  out_wake wake : d.(OnSchedulerWake) = Some wake → neutral_prog wake;
  out_connect f i : d.(OnConnect) = Some f → neutral_prog (f i);
  out_disconnect f i : d.(OnDisconnect) = Some f → neutral_prog (f i);
}.

Context (Hout : embedder_outside) (c : Sub) (I : bus → Prop) (Hc : closed_under c I).

Lemma keeping_subscribe topic since : keeping I (SubscribeWithReplay c topic since).
Proof.
  unfold SubscribeWithReplay. keep.
  - apply keeping_with_bus. intros bs Hb. apply (cl_put c I Hc); [by apply (cl_add c I Hc)|]. apply subscribers_add. by left.
  - apply keeping_with_bus. intros bs Hb. destruct (replay bs !! (c, topic)) as [st|] eqn:E; [|done].
    apply (cl_put c I Hc); [done|]. apply (cl_sub c I Hc); [done|]. by rewrite E.
  - apply keeping_local. intros p Hp. by apply (cl_del c I Hc).
  - apply keeping_with_bus. intros bs Hb. by apply (cl_del c I Hc).
Qed.

Lemma keeping_add topic : keeping I (AddLocalSubscription topic c).
Proof. apply keeping_with_bus. intros bs. by apply (cl_add c I Hc). Qed.
Lemma keeping_drop topic : keeping I (RemoveLocalSubscription topic c).
Proof. apply keeping_with_bus. intros bs. by apply (cl_drop c I Hc). Qed.
Lemma keeping_drop_all : keeping I (RemoveSubscriberAll c).
Proof. apply keeping_with_bus. intros bs. by apply (cl_all c I Hc). Qed.

Lemma keeping_authorize action topic : keeping I (authorize d c action topic).
Proof.
  unfold authorize. destruct (d_Authorizer d) as [az|] eqn:E; [|keep].
  apply keeping_bind; [|intros; keep]. apply keeping_neutral. by eapply out_authorizer.
Qed.

Hint Resolve keeping_subscribe keeping_add keeping_drop keeping_drop_all keeping_authorize : keeping.

Lemma keeping_wake : keeping I (match d.(OnSchedulerWake) with Some wake => wake | None => Ret () end).
Proof. destruct (OnSchedulerWake d) as [w|] eqn:E; [|keep]. apply keeping_neutral. by eapply out_wake. Qed.
Hint Resolve keeping_wake : keeping.

Lemma keeping_builtin env : keeping I (builtin d c env).
Proof.
  unfold builtin, handleSubscribe, handleUnsubscribe, handlePublish, handleLockTopic, handleUnlockTopic, handleRenewLock,
    handleScheduleJob, handleRemoveJob, handleAck, handlePresence, handleListSubscriptions, handleBroadcast, send_now. keep.
Qed.

Lemma keeping_Dispatch text : keeping I (Dispatch d c text).
Proof.
  destruct (out_plain Hout) as [Hreg Hmw]. unfold Dispatch, admit_frame. rewrite Hreg, Hmw. unfold Chain, chain_loop, route, request, h_result, send_now.
  cbn [length hr_Envelope]. rewrite Hreg. cbn [Lookup]. keep. apply keeping_builtin.
Qed.

Lemma keeping_presence u e : keeping I (PublishPresence d u e).
Proof. unfold PublishPresence. keep. Qed.
Hint Resolve keeping_presence : keeping.

Lemma keeping_Cleanup l : keeping I (Cleanup d c l).
Proof.
  unfold Cleanup, unlock_all, unsubscribe_all. destruct (OnDisconnect d) as [f|] eqn:E; keep.
  apply keeping_neutral. by eapply out_disconnect.
Qed.

Lemma keeping_connect : keeping I (connect d c).
Proof. unfold connect. destruct (OnConnect d) as [f|] eqn:E; keep. apply keeping_neutral. by eapply out_connect. Qed.

Lemma keeping_read_loop msgs : keeping I (read_loop d c msgs).
Proof. induction msgs as [|msg msgs IH]; cbn [read_loop]; [keep|]. apply keeping_bind; [apply keeping_Dispatch|]. intros []; [done|keep]. Qed.
End connection.

(** ** After the connection *)

Section gone.
Context {Sub : Type} `{Countable Sub} {Hub : Type} `{!Target Sub Hub, !Session Sub Hub Auth.Claims, !HubOps Sub Hub}.
Context `{!GoQuote, !TimeErrors} `{RedisServer Srv} `{!RedisLaws Srv}.
Abbreviation proc := (@Bus.proc Sub _ _ Hub).
Abbreviation bus := (@Bus.bus Sub _ _).
Abbreviation keeping := (keeping (Sub := Sub) (Hub := Hub) (Srv := Srv)).
Abbreviation neutral_prog p := (all_events (λ R (e : event proc R), neutral e = true) p).
Implicit Types (m : mem Srv proc) (bs : bus) (c : Sub).

(** The registry is consistent and nothing reaches [c] from it. *)
Definition gone c bs : Prop := bus_ok bs ∧ ∀ t, c ∉ subscribers bs t.

Lemma closed_bus_ok c : closed_under c (bus_ok (Sub := Sub)).
Proof.
  split.
  - intros t bs. apply add_ok.
  - intros t bs. apply remove_ok.
  - apply remove_all_ok.
  - intros t st bs. apply put_replay_ok.
  - intros t bs Hb. apply (ok_replay _ Hb).
  - intros t bs. apply del_replay_ok.
Qed.

Lemma closed_gone c c' : c' ≠ c → closed_under c' (gone c).
Proof.
  intros Hne. pose proof (closed_bus_ok c') as [Ha Hd Hr Hp Hs Hx]. split.
  - intros t bs [Hb Hg]. split; [by apply Ha|]. intros t'. rewrite subscribers_add. naive_solver.
  - intros t bs [Hb Hg]. split; [by apply Hd|]. intros t'.
    change (c ∉ subscribers (drop_sub t c' bs) t'). rewrite subscribers_drop. naive_solver.
  - intros bs [Hb Hg]. split; [by apply Hr|]. intros t. rewrite subscribers_remove_all; [naive_solver|by destruct Hb].
  - intros t st bs [Hb Hg] Hin. split; [by apply Hp|done].
  - intros t bs [Hb _]. by apply Hs.
  - intros t bs [Hb Hg]. split; [by apply Hx|done].
Qed.

Lemma fanout_topicSubs topic p allowed subs bs : (fanout_locked topic p allowed subs bs).2.(topicSubs) = bs.(topicSubs).
Proof.
  revert bs. induction subs as [|s subs IH]; intros bs; cbn [fanout_locked]; [done|].
  assert ((let '(deliver, filtered, b') := fanout_locked topic p allowed subs bs in
    if allowedSubscriber allowed s then (s :: deliver, filtered, b') else (deliver, filtered + 1, b')).2.(topicSubs) = bs.(topicSubs)) as E.
  { specialize (IH bs). destruct (fanout_locked _ _ _ _ _) as [[??]?]. by destruct (allowedSubscriber _ _). }
  destruct (replay bs !! (s, topic)) as [st|]; [|done]. destruct (buffering st); [|done]. by rewrite IH.
Qed.

Lemma gone_fanout c topic p allowed subs bs : gone c bs → gone c (fanout_locked topic p allowed subs bs).2.
Proof. intros [Hb Hg]. split; [by apply fanout_ok|]. intros t. unfold subscribers. rewrite fanout_topicSubs. apply Hg. Qed.

Lemma keeping_deliver_frames I reporting frame subs i j : keeping I (deliver_frames reporting frame subs i j).
Proof.
  revert i j. induction subs as [|s subs IH]; intros i j; cbn [deliver_frames]; keep.
Qed.

Lemma keeping_dispatch c cfg channel payload : keeping (gone c) (Bus.dispatch cfg channel payload).
Proof.
  unfold Bus.dispatch, handleTopic, Bus.handleBroadcast, handleReport, sendReport. keep.
  all: try apply keeping_deliver_frames.
  apply keeping_local. intros p Hp. pose proof (gone_fanout c s) as Hf.
  match goal with |- context [fanout_locked ?t ?w ?a ?l ?b] => specialize (Hf w a l b Hp); destruct (fanout_locked t w a l b) as [[??]?] end.
  done.
Qed.

Context (d : @Deps Sub _ _ Hub Auth.Claims) (Hout : embedder_outside d).

(** One connection run to its end by another client, or a message of the bus. *)
Inductive elsewhere c : prog proc () → Prop :=
| else_serve verifier upgraded newConn r msgs :
    (∀ res, newConn res ≠ c) → elsewhere c (bind (serveWS d verifier upgraded newConn r msgs) (λ _, Ret ()))
| else_dispatch channel payload : elsewhere c (Bus.dispatch d.(BusConfig) channel payload).

Lemma keeping_serveWS I verifier upgraded newConn r msgs :
  (∀ res, closed_under (newConn res) I) → keeping I (serveWS d verifier upgraded newConn r msgs).
Proof.
  intros Hc. unfold serveWS, disconnect. destruct (verifier r) as [|[res|]]; [keep| |keep]. destruct upgraded; [|keep].
  apply keeping_bind; [by apply keeping_connect|]. intros _.
  apply keeping_bind; [by apply keeping_read_loop|]. intros [|]; [|keep].
  apply keeping_bind; [|keep]. apply keeping_bind; [auto with keeping|]. intros l. by apply keeping_Cleanup.
Qed.

Lemma elsewhere_keeps c p : elsewhere c p → keeping (gone c) p.
Proof.
  intros [verifier upgraded newConn r msgs Hne|channel payload]; [|apply keeping_dispatch].
  apply keeping_bind; [|keep]. apply keeping_serveWS. intros res. by apply closed_gone.
Qed.

Lemma neutral_bind {A B} (p : prog proc A) (k : A → prog proc B) : neutral_prog p → (∀ a, neutral_prog (k a)) → neutral_prog (bind p k).
Proof. apply all_events_bind. Qed.

Lemma neutral_for_each {A} (l : list A) (f : A → prog proc ()) : (∀ x, neutral_prog (f x)) → neutral_prog (for_each l f).
Proof. intros Hf. induction l as [|x l IH]; cbn [for_each]; [apply all_ret|]. by apply neutral_bind. Qed.

(** The rest of [Cleanup] after the bus has let go of the connection. *)
Lemma neutral_release u : neutral_prog (bind (unlock_all u) (λ _, unsubscribe_all u)).
Proof.
  apply neutral_bind; [|intros _]; (apply neutral_bind; [by repeat constructor|intros l; apply neutral_for_each; intros t]).
  - do 2 (apply neutral_bind; [apply neutral_remote, UnlockTopic_remote|intros _]). apply all_ret.
  - apply neutral_bind; [|intros; apply all_ret]. unfold RemoveTopicSubscription, rbind, wrapped.
    repeat (apply all_events_bind; [|intros [?|?]]); repeat constructor.
Qed.

Lemma neutral_RemoveConnection u : neutral_prog (RemoveConnection u).
Proof.
  apply all_do; [done|]. intros [n|e]; cbn; [|apply all_ret]. destruct (n <=? 0); [|apply all_ret].
  do 2 (apply all_do; [done|]; intros [?|?]; cbn; [|apply all_ret]). apply all_ret.
Qed.

Lemma Cleanup_gone c l orc m :
  bus_ok m.(loc).(p_bus) → let m' := (outcome (Cleanup d c l) orc m).2 in
  gone c m'.(loc).(p_bus) ∧ m'.(loc).(p_hub) = m.(loc).(p_hub) ∧ ∀ t, m'.(loc).(p_bus).(replay) !! (c, t) = None.
Proof.
  intros Hb. unfold Cleanup, outcome. cbv zeta. rewrite run_bind. cbn [run RemoveSubscriberAll with_bus local_ act is_remote event_step].
  set (l1 := Proc _ _ _). set (m1 := Mem _ l1 _).
  assert (gone c (p_bus m1.(loc)) ∧ p_hub m1.(loc) = p_hub m.(loc) ∧ ∀ t, replay (p_bus m1.(loc)) !! (c, t) = None) as Hg.
  { split_and!; [|done|].
    - split; [by apply (remove_all_ok c)|]. intros t Ht. apply (subscribers_remove_all c) in Ht as [_ ?]; [done|]. by destruct Hb.
    - intros t. apply map_lookup_filter_None. right. by intros st _ Hk. }
  match goal with |- context [run ?p orc m1] => pose proof (neutral_run p orc m1) as Hn end.
  unfold outcome in Hn. rewrite Hn; [done|]. apply neutral_bind.
  { destruct (OnDisconnect d) as [f|] eqn:E; [by eapply out_disconnect|apply all_ret]. }
  intros _. apply neutral_bind; [destruct l; [apply PublishPresence_neutral|apply all_ret]|].
  intros _. apply neutral_bind; [destruct l; [apply neutral_release|apply all_ret]|].
  intros _. apply neutral_bind; [apply neutral_RemoveConnection|intros; apply all_ret].
Qed.

(** No frame takes the goroutine down when no foreign handler is installed. *)
Lemma Dispatch_alive c text orc m : (run (Dispatch d c text) orc m).1 = true.
Proof.
  destruct (out_plain d Hout) as [Hreg Hmw]. unfold Dispatch.
  destruct (read_envelope text) as [env|]; [|done]. cbv zeta. rewrite run_bind.
  destruct (run (Allow _ _ _) orc m) as [[[|]|e] [m1 orc1]]; try done.
  destruct (admit_frame d env) as [|e]; [|done]. rewrite Hmw. unfold Chain, chain_loop, request, route. cbn [length hr_Envelope].
  rewrite Hreg. cbn [Lookup]. unfold h_result. rewrite !run_bind.
  destruct (run (builtin _ _ _) orc1 m1) as [[msg|e] [m2 orc2]]; cbn [run]; [|done]. by destruct (decide _).
Qed.

Lemma read_loop_alive c msgs orc m : (run (read_loop d c msgs) orc m).1 = true.
Proof.
  revert orc m. induction msgs as [|msg msgs IH]; intros orc m; cbn [read_loop]; [done|]. rewrite run_bind.
  pose proof (Dispatch_alive c msg orc m) as E. destruct (run (Dispatch _ _ _) orc m) as [ok [m1 orc1]]. cbn in E. subst ok. apply IH.
Qed.

(** [C12] A connection that was accepted always ends with its clean-up, and leaves nothing in the process: whatever the
    client sends and whatever Redis does, the hub no longer holds it, no topic set and no replay buffer names it, and no
    later run, however connections of other clients and messages of the bus interleave and fail, brings it back. *)
Theorem connection_leaves_nothing verifier newConn r msgs res orc m :
  verifier r = inr (Some res) → bus_ok m.(loc).(p_bus) →
  let '(end_, m') := outcome (serveWS d verifier true newConn r msgs) orc m in
  let c := newConn res in
  end_ = Served ∧ in_hub m'.(loc).(p_hub) c = false ∧ (∀ t, m'.(loc).(p_bus).(replay) !! (c, t) = None) ∧
  ∀ ps s, Forall (elsewhere c) ps → gone c (srun s (ps, m')).2.(loc).(p_bus).
Proof.
  intros Hv Hb. unfold serveWS, disconnect, outcome. rewrite Hv. cbv zeta. set (c := newConn res).
  assert (∀ dl m, registry (bus_ok (Sub := Sub)) m → registry bus_ok (pass dl m : mem Srv proc)) as Hpass by done.
  rewrite run_bind. pose proof (run_preserves _ _ Hpass (keeping_connect d Hout c _) orc m Hb) as H1'.
  unfold outcome in H1'. destruct (run (connect d c) orc m) as [[] [m1 orc1]]. cbn in H1'.
  rewrite run_bind. pose proof (run_preserves _ _ Hpass (keeping_read_loop d Hout c _ (closed_bus_ok c) msgs) orc1 m1 H1') as H2'.
  pose proof (read_loop_alive c msgs orc1 m1) as Ha.
  unfold outcome in H2'. destruct (run (read_loop d c msgs) orc1 m1) as [ok [m2 orc2]]. cbn in H2', Ha. subst ok.
  rewrite !run_bind. pose proof (in_hub_Remove c (p_hub (loc m2))) as Hh. unfold hub_op.
  cbn [run local_ act is_remote event_step]. destruct (hub_Remove c _) as [l h]. cbn in Hh.
  set (m3 := Mem _ _ _). destruct (Cleanup_gone c l orc2 m3 H2') as (Hg&Hh'&Hr). unfold outcome in Hg, Hh', Hr.
  destruct (run (Cleanup d c l) orc2 m3) as [[] [m' orc']]. cbn [fst snd run] in *. rewrite Hh'.
  split_and!; [done..|]. intros ps s Hps. apply (srun_preserves (registry (gone c))); [done| |done].
  eapply Forall_impl; [exact Hps|]. apply elsewhere_keeps.
Qed.
End gone.
