(* ===== verification/Labels.v ===== *)
(** * What the labels of the counters can be

    The values the code passes to [WithLabelValues], place by place: in
    [Dispatch] and [authorize] of handler.go, in hub.go, in [serveWS] of
    app.go, in [judge] of bus.go, in [executeJob]'s caller of scheduler.go and
    in the hook of redishook.go.  A client chooses none of them. *)

From S2P Require Import Prelude GoStrings Redis RedisModel Prog Metrics Time StreamID Json Protocol Judge RateLimit Bus Conn Watch.
From S2P Require Import Locks Store Jobs SchedStore Inbound Authz Handler Dispatch App.
Local Open Scope Z_scope.

Definition DropBufferThreshold : string := "buffer_threshold".
Definition DropChannelFull : string := "channel_full".
Definition UpgradeAccepted : string := "accepted".
Definition UpgradeRejectedAuth : string := "rejected_auth".
Definition UpgradeRejectedOther : string := "rejected_other".

(** A collector of [Metrics] and the values of its labels. *)
Abbreviation update := ((Metrics → collector) * list string)%type.

Definition decisionLabel (allowed : bool) : string := if allowed then "allowed" else "denied".

(** [SendReporting] and [recordDrop]. *)
Definition send_labels (sel : bool) (msg : string) (c : Conn) : list update :=
  match check_send msg c with
  | Refused => []
  | TooBig => [(FramesDropped, [DropBufferThreshold])]
  | Passed =>
      match select_send sel (frameText msg) c with
      | Queued _ => [(FramesSent, [])]
      | Gone => []
      | Full => [(FramesDropped, [DropChannelFull])]
      end
  end.

(** The end of [Run]; a reason that was never set is the empty string. *)
Definition closed_label (c : Conn) : update := (ConnectionsClosed, [default "" c.(closeReason)]).

(** [serveWS], by how the request ends. *)
Definition upgrade_label (s : served) : update :=
  (ConnectionsTotal,
   [match s with
    | Unauthorized => UpgradeRejectedAuth
    | NotUpgraded => UpgradeRejectedOther
    | Served | Panicked => UpgradeAccepted
    end]).

(** [judge], by what [judgeOnce] returned. *)
Definition judge_label {A} (r : result A) : update :=
  (JudgeDecisions,
   [match r with
    | Ok _ => "ok"
    | Err e => if errors_Is e DeadlineExceeded then "timeout" else "error"
    end]).

(** By what [executeJob] returned. *)
Definition executed_label (r : result ()) : update :=
  (SchedulerExecuted, [if r is Err _ then "failure" else "success"]).

(** [authorize], by what the policy returned; [None] without a policy. *)
Definition authorize_label (action : Action) (verdict : option (result ())) : update :=
  (AuthzDecisions,
   [action_string action;
    match verdict with
    | None | Some (Ok _) => "allowed"
    | Some (Err e) => if Denied e then "denied" else "error"
    end]).

(** [observe] of the Redis hook, for a command of that name. *)
Definition hook_labels (name : string) (err : option error) : list update :=
  (RedisDuration, [name]) ::
  match err with
  | Some e => if errors_Is e RedisNil then [] else [(RedisErrors, [name])]
  | None => []
  end.

(** [handleScheduleJob]. *)
Definition job_labels (allowed : result bool) : list update :=
  match allowed with Ok b => [(RateLimitDecisions, ["job"; decisionLabel b])] | Err _ => [] end.

Section labels.
Context {Sub : Type} `{Countable Sub} {Hub Claims : Type} `{!Target Sub Hub, !Session Sub Hub Claims}.
Context `{!GoQuote, !TimeErrors, !CommandNames}.
Context (d : @Deps Sub _ _ Hub Claims).

(** The head of [Dispatch], with what the rate limiter returned. *)
Definition frame_labels (text : string) (allowed : result bool) : list update :=
  match read_envelope text with
  | None => [(FramesReceived, ["invalid_json"])]
  | Some env =>
      (FramesReceived, [frameTypeLabel d env.(e_Type)]) ::
      match allowed with Ok b => [(RateLimitDecisions, ["msg"; decisionLabel b])] | Err _ => [] end
  end.

(** Every labelled update of the server. *)
Inductive emitted : update → Prop :=
| em_frame text allowed u : u ∈ frame_labels text allowed → emitted u
| em_job allowed u : u ∈ job_labels allowed → emitted u
| em_authorize action verdict : emitted (authorize_label action verdict)
| em_send sel msg c u : u ∈ send_labels sel msg c → emitted u
| em_upgrade s : emitted (upgrade_label s)
| em_judge {A} (r : result A) : emitted (judge_label r)
| em_executed r : emitted (executed_label r)
| em_command {R} (cmd : rcmd R) err u : u ∈ hook_labels (CmdName cmd) err → emitted u
| em_script err u : u ∈ hook_labels ScriptName err → emitted u
| em_closed s l cfg uuid t :
    let g := gsteps s l (start s (NewConn cfg uuid) t) in
    Forall ordinary l → g.(reader) = RunDone → emitted (closed_label g.(conn)).

(** ** The closed sets *)

Definition close_reasons : list string :=
  [CloseIdleTimeout; ClosePeer; CloseServer; CloseReadError; CloseTokenExpired; CloseSlowConsumer].

Definition decisions : list string := ["allowed"; "denied"; "error"].

(** What a command can be called. *)
Definition command_names : list (list string) := (λ n, [n]) <$> ScriptName :: (VerbName <$> verbs).

Definition label_sets : list (string * list (list string)) :=
  [("ws_connections_total", [[UpgradeAccepted]; [UpgradeRejectedAuth]; [UpgradeRejectedOther]]);
   ("ws_connections_closed_total", (λ r, [r]) <$> close_reasons);
   ("ws_frames_received_total",
     (λ t, [t]) <$> ["invalid_json"; "unknown"] ++ elements knownFrameTypes ++ Verbs d.(d_Registry));
   ("ws_frames_sent_total", [[]]);
   ("ws_frames_dropped_total", [[DropBufferThreshold]; [DropChannelFull]]);
   ("bus_judge_calls_total", [["ok"]; ["error"]; ["timeout"]]);
   ("ratelimit_decisions_total", [["msg"; "allowed"]; ["msg"; "denied"]; ["job"; "allowed"]; ["job"; "denied"]]);
   ("authz_decisions_total",
     a ← action_string <$> [ActionSubscribe; ActionPublish; ActionLock]; (λ x, [a; x]) <$> decisions);
   ("scheduler_jobs_executed_total", [["failure"]; ["success"]]);
   ("redis_command_duration_seconds", command_names);
   ("redis_command_errors_total", command_names)].

Lemma CmdName_known {R} (c : rcmd R) : [CmdName c] ∈ command_names.
Proof. apply (list_elem_of_fmap_2 (λ n, [n])). right. apply (list_elem_of_fmap_2 VerbName verbs), verb_of_known. Qed.

Lemma ScriptName_known : [ScriptName] ∈ command_names.
Proof. by left. Qed.

Lemma frameTypeLabel_known t :
  frameTypeLabel d t ∈ ["invalid_json"; "unknown"] ++ elements knownFrameTypes ++ Verbs d.(d_Registry).
Proof.
  unfold frameTypeLabel. case_bool_decide as Hk.
  { apply elem_of_app. right. apply elem_of_app. left. by apply elem_of_elements. }
  destruct (Lookup d.(d_Registry) t) as [h|] eqn:E; [|by right; left].
  apply elem_of_app. right. apply elem_of_app. right. unfold Lookup, Verbs in *. destruct (d_Registry d) as [r|]; [|done].
  apply list_elem_of_fmap. exists (t, h). split; [done|]. by apply elem_of_map_to_list.
Qed.

Definition reasoned (c : Conn) : Prop := ∀ r, c.(closeReason) = Some r → r ∈ close_reasons.

Lemma closeWith_reasoned code r cat c : conn_ok c → cat ∈ close_reasons → reasoned c → reasoned (closeWith code r cat c).
Proof.
  intros Hc Hcat Hr q. rewrite closeWith_reason by done. intros [= <-].
  destruct (closeReason c) eqn:E; [by apply Hr|done].
Qed.

Lemma step_reasoned a c : conn_ok c → foreign a → reasoned c → reasoned (step a c).
Proof.
  intros Hc Ha Hr q. destruct (step_reason a c Hc Ha) as [-> | [-> | ->]]; [apply Hr|..]; intros [= <-]; unfold close_reasons; set_solver.
Qed.

Lemma gstep_reasoned s e g : ordinary e → sound s g → reasoned g.(conn) → reasoned (gstep s e g).(conn).
Proof.
  intros He Hg Hr. pose proof (s_conn _ _ Hg) as Hc.
  destruct e; cbn [gstep]; try (repeat case_match; exact Hr).
  - destruct (reader g) as [|err|]; try exact Hr. apply closeWith_reasoned; [done| |done].
    unfold close_reasons. destruct err; set_solver.
  - destruct (idle g) as [| |dl [t|]|]; try exact Hr. case_match; [|exact Hr]. cbn.
    destruct (Ping_cases sel (conn g)) as [-> | ->]; [done|by apply step_reasoned].
  - destruct (idle g) as [| |dl k|]; try exact Hr. case_match; [|exact Hr].
    apply closeWith_reasoned; [done| |done]. unfold close_reasons. set_solver.
  - destruct (expiry g) as [t|]; [|exact Hr]. case_match; [|exact Hr].
    apply closeWith_reasoned; [done| |done]. unfold close_reasons. set_solver.
  - by apply step_reasoned.
Qed.

Lemma gsteps_reasoned s l g : Forall ordinary l → sound s g → reasoned g.(conn) → reasoned (gsteps s l g).(conn).
Proof.
  intros Hl. revert g. induction Hl as [|e l He _ IH]; intros g Hg Hr; [done|]. cbn. apply IH; [by apply gstep_sound|].
  by apply gstep_reasoned.
Qed.

Lemma closed_known s l cfg uuid t :
  let g := gsteps s l (start s (NewConn cfg uuid) t) in
  Forall ordinary l → g.(reader) = RunDone → default "" g.(conn).(closeReason) ∈ close_reasons.
Proof.
  intros g Hl Hd. assert (sound s g) as Hg by (by apply gsteps_sound, start_sound).
  pose proof (s_run _ _ Hg Hd) as Hclosed. pose proof (ok_closed _ (s_conn _ _ Hg) Hclosed) as Hb.
  pose proof (ok_reason _ (s_conn _ _ Hg)) as Hr. rewrite Hb in Hr. symmetry in Hr. apply bool_decide_eq_true in Hr as [r Hr].
  rewrite Hr. cbn. revert Hr. apply gsteps_reasoned; [done|apply start_sound|done].
Qed.
End labels.

Lemma New_labels `{Metrics.Registry R} runtime (reg reg' : R) m : Metrics.New runtime reg = Some (m, reg') →
  (λ c, (c.(Name), length c.(Labels))) <$>
    [m.(ConnectionsTotal); m.(ConnectionsClosed); m.(FramesReceived); m.(FramesSent); m.(FramesDropped);
     m.(JudgeDecisions); m.(RateLimitDecisions); m.(AuthzDecisions); m.(SchedulerExecuted); m.(RedisDuration);
     m.(RedisErrors)] =
  [("ws_connections_total", 1%nat); ("ws_connections_closed_total", 1%nat); ("ws_frames_received_total", 1%nat);
   ("ws_frames_sent_total", 0%nat); ("ws_frames_dropped_total", 1%nat); ("bus_judge_calls_total", 1%nat);
   ("ratelimit_decisions_total", 2%nat); ("authz_decisions_total", 2%nat); ("scheduler_jobs_executed_total", 1%nat);
   ("redis_command_duration_seconds", 1%nat); ("redis_command_errors_total", 1%nat)].
Proof. by open_New. Qed.

(** A value in its set, under a collector with as many labels. *)
Lemma bounded (sets : list (string * list (list string))) (c : collector) name vals vs :
  c.(Name) = name → length c.(Labels) = length vals → (name, vs) ∈ sets → vals ∈ vs →
  ∃ name vs, WithLabelValues c vals = Some (name, vals) ∧ (name, vs) ∈ sets ∧ vals ∈ vs.
Proof. intros <- Hl Hs Hv. exists c.(Name), vs. unfold WithLabelValues. by rewrite decide_True. Qed.

Ltac in_list := repeat (first [by apply list_elem_of_here | apply list_elem_of_further]).

(** [C29] What is counted is bounded: every labelled update of the server, those of the Redis hook included, names a
    collector with as many labels, so it does not panic, and a combination of values from a list that is fixed by the
    server's configuration and the commands the code sends, whatever the clients send, in whatever way the connection
    ends. *)
Theorem labels_bounded {Sub : Type} `{Countable Sub} {Hub Claims : Type} `{!Target Sub Hub, !Session Sub Hub Claims}
    `{!GoQuote, !TimeErrors, !CommandNames} `{Metrics.Registry R} (d : @Deps Sub _ _ Hub Claims) runtime (reg reg' : R) m u :
  Metrics.New runtime reg = Some (m, reg') → emitted d u →
  ∃ name vs, WithLabelValues (u.1 m) u.2 = Some (name, u.2) ∧ (name, vs) ∈ label_sets d ∧ u.2 ∈ vs.
Proof.
  intros Hm%New_labels Hu. cbn in Hm. injection Hm as N1 L1 N2 L2 N3 L3 N4 L4 N5 L5 N6 L6 N7 L7 N8 L8 N9 L9 N10 L10 N11 L11.
  assert (∀ name err, [name] ∈ command_names → u ∈ hook_labels name err →
    ∃ name' vs, WithLabelValues (u.1 m) u.2 = Some (name', u.2) ∧ (name', vs) ∈ label_sets d ∧ u.2 ∈ vs) as Hhook.
  { intros name err Hn [->|Hu']%elem_of_cons; [eapply bounded; [exact N10|exact L10|unfold label_sets; in_list|done]|].
    destruct err as [e|]; [|by apply elem_of_nil in Hu']. destruct (errors_Is e RedisNil); [by apply elem_of_nil in Hu'|].
    apply list_elem_of_singleton in Hu' as ->. eapply bounded; [exact N11|exact L11|unfold label_sets; in_list|done]. }
  destruct Hu as [text allowed u Hu|allowed u Hu|action verdict|sel msg c u Hu|sv|A r|r|R' cmd err u Hu|err u Hu|s l cfg uuid t g Hl Hd]; cbn [fst snd].
  - unfold frame_labels in Hu. destruct (read_envelope text) as [env|].
    2: { apply list_elem_of_singleton in Hu as ->. eapply bounded; [exact N3|exact L3|unfold label_sets; in_list|].
         apply (list_elem_of_fmap_2 (λ t, [t])). by left. }
    apply elem_of_cons in Hu as [->|Hu].
    + eapply bounded; [exact N3|exact L3|unfold label_sets; in_list|]. apply (list_elem_of_fmap_2 (λ t, [t])), frameTypeLabel_known.
    + destruct allowed as [b|]; [|by apply elem_of_nil in Hu]. apply list_elem_of_singleton in Hu as ->.
      eapply bounded; [exact N7|exact L7|unfold label_sets; in_list|]. destruct b; in_list.
  - destruct allowed as [b|]; [|by apply elem_of_nil in Hu]. apply list_elem_of_singleton in Hu as ->.
    eapply bounded; [exact N7|exact L7|unfold label_sets; in_list|]. destruct b; in_list.
  - eapply bounded; [exact N8|exact L8|unfold label_sets; in_list|].
    destruct action, verdict as [[|e]|]; cbn; try destruct (Denied e); in_list.
  - unfold send_labels in Hu. repeat case_match; first [by apply elem_of_nil in Hu|apply list_elem_of_singleton in Hu as ->].
    + eapply bounded; [exact N5|exact L5|unfold label_sets; in_list|]. in_list.
    + eapply bounded; [exact N4|exact L4|unfold label_sets; in_list|]. in_list.
    + eapply bounded; [exact N5|exact L5|unfold label_sets; in_list|]. in_list.
  - eapply bounded; [exact N1|exact L1|unfold label_sets; in_list|]. destruct sv; in_list.
  - eapply bounded; [exact N6|exact L6|unfold label_sets; in_list|]. destruct r as [|e]; [in_list|]. cbn. destruct (errors_Is e _); in_list.
  - eapply bounded; [exact N9|exact L9|unfold label_sets; in_list|]. destruct r as [[]|e]; in_list.
  - by apply (Hhook (CmdName cmd) err), Hu; apply CmdName_known.
  - by apply (Hhook ScriptName err), Hu; apply ScriptName_known.
  - eapply bounded; [exact N2|exact L2|unfold label_sets; in_list|]. apply (list_elem_of_fmap_2 (λ t, [t])). by apply closed_known.
Qed.
