(* ===== verification/AppWitness.v ===== *)
(** * Concrete runs of the application

    The policy of an environment, one connection from upgrade to clean-up over
    the real hub, and two instances that share a Redis. *)

From S2P Require Import Prelude Metrics Watch Labels.
From S2P Require Import GoStrings Redis RedisModel Prog Time StreamID Json Protocol Judge RateLimit Bus BusInv Conn Hub.
From S2P Require Import Locks Store Jobs SchedStore Inbound Utf8 Net Authz Auth Config Handler Dispatch Reply Answers Cleanup App Leaves.
Local Open Scope Z_scope.

#[local] Instance lower_ascii_only : Lower := {| ToLower := lower_ascii; ToLower_ascii _ _ := eq_refl |}.
#[local] Instance quote_plain : GoQuote := {| Quote := λ s, s |}.
#[local] Instance json_plain : JsonErrors := λ s, s.
#[local] Instance time_plain : TimeErrors := λ s, "parsing time " +:+ s.
#[local] Instance map_order : MapRange := {| range_users := map_to_list; range_users_perm m := reflexivity _ |}.

(** A reply waits for a place in the queue; here there always is one. *)
#[local] Instance no_waiting : World Auth.Claims := {|
  claims_of := λ _, None; meets := λ _ _ _, {| Reply.others := []; Reply.sel := true; Reply.gone := false |} |}.

(** ** The policy *)

(** Tokens are user names, none expires. *)
Definition accept_names (o : parser_opts) (secret tok : string) : option Auth.Claims :=
  if decide (secret = "s3cret") then Some {[ "sub" := JStr (quote tok) ]} else None.
Definition never (c : Auth.Claims) : option (option Z) := Some None.

Definition q : string := String dquote EmptyString.
Definition chat_rules : string := "{" +:+ q +:+ "subscribe" +:+ q +:+ ":[" +:+ q +:+ "chat.*" +:+ q +:+ "]}".

Definition server_env : env := λ k,
  if bool_decide (k = "REDIS_HOST") then "redis" else
  if bool_decide (k = "AUTHZ_RULES") then chat_rules else
  if bool_decide (k = "AUTH_JWT_SECRET") then "s3cret" else "".

Lemma policy_from_env_witness : ∃ o c r res,
  OptionsFromEnv (Claims := Auth.Claims) () server_env "i-1" = inr o ∧ toConfig o "i-1" = inr c ∧
  New (Sub := handle) (Hub := Hub) accept_names never (λ _ _, true) (λ _, true) (Ret ()) c (env_ext o) = (r, res) ∧
  ∃ rules, ParseRules (server_env "AUTHZ_RULES") = Ok rules ∧
    match r with
    | inl _ => res = {| clients := 0; listening := false |}
    | inr (verifier, d) =>
        d.(d_Authorizer) = Some (λ q, Ret (match rules with Some rs => Authorize rs q | None => AllowAll q end)) ∧
        verifier = (if bool_decide (server_env "AUTH_JWT_SECRET" = "") then NewInsecure
                    else NewJWT accept_names never
                           {| Secret := server_env "AUTH_JWT_SECRET"; Audience := server_env "AUTH_JWT_AUDIENCE";
                              Issuer := server_env "AUTH_JWT_ISSUER" |})
    end.
Proof.
  eexists _, _, _, _. split; [reflexivity|]. split; [reflexivity|]. split; [reflexivity|].
  by apply (policy_from_env accept_names never () (λ _ _, true) (λ _, true) (Ret ()) server_env "i-1" "i-1" _ _ _ _ eq_refl eq_refl eq_refl).
Defined.

(** ** One connection *)

Definition quiet : Bus.Config := {|
  Bus.StreamMaxLength := 100; Bus.StreamTTL := 0; Bus.InstanceID := "i1"; cfg_Judge := None; cfg_Candidates := None;
  JudgeFailurePolicy := DeliverAll;
|}.

Definition a_server (feed : string) : @Deps handle _ _ Hub Auth.Claims := {|
  BusConfig := quiet; MessageRateLimit := DefaultMessageConfig 50; JobRateLimit := DefaultJobConfig 30;
  OnSchedulerWake := None; d_Authorizer := None; d_Registry := None; d_Middleware := []; AckCursorTTL := 0;
  OnConnect := None; OnDisconnect := None; Dispatch.PresenceTopic := feed;
|}.

Lemma a_server_outside feed : embedder_outside (a_server feed).
Proof. by repeat split. Qed.

Abbreviation proc := (@Bus.proc handle _ _ Hub).

Definition socket (i : positive) (res : Result) : handle := {| ptr := i; conn_id := FormatInt (Zpos i); conn_user := res.(r_UserKey) |}.
Definition opened (h : handle) : Conn :=
  NewConn {| cfg_UserKey := conn_user h; Conn.MaxBufferedBytes := 0; SendChanCapacity := 128; cfg_ID := conn_id h;
     Conn.MaxConsecutiveDrops := 100 |} "".

Definition alice : Result := {| r_UserKey := "alice"; r_ExpiresAt := None; r_Claims := None |}.

(** An instance with the objects of the sockets it is going to serve. *)
Definition instance (cs : list handle) : proc :=
  Proc (Bus ∅ ∅ 0) {| users := ∅; heap := list_to_map ((λ c, (c, opened c)) <$> cs) |} 0.

Definition at_start (ks : keyspace) (p : proc) : mem RedisModel.server proc := Mem (Server ks [] 0) p 1000.

Lemma instance_ok cs : bus_ok (instance cs).(p_bus).
Proof. split; [done|done|]. by intros s t [? ?]. Qed.

Definition upgrade : HTTPRequest := {| header := λ _, ""; query := λ k, if decide (k = "userKey") then "alice" else "" |}.

(** [{"type":"subscribe","topic":"news","reqID":"7"}] *)
Definition subscribe : string :=
  "{" +:+ q +:+ "type" +:+ q +:+ ":" +:+ q +:+ "subscribe" +:+ q +:+ "," +:+ q +:+ "topic" +:+ q +:+ ":" +:+ q +:+ "news" +:+ q
  +:+ "," +:+ q +:+ "reqID" +:+ q +:+ ":" +:+ q +:+ "7" +:+ q +:+ "}".

(** Redis stops answering in the middle of the subscription. *)
Definition flaky : list (N * fault) := replicate 4 (0%N, Fine) ++ replicate 20 (5%N, LostReply "i/o timeout" true).

Lemma connection_leaves_nothing_witness :
  let m := at_start ∅ (instance [socket 1 alice]) in
  let '(end_, m') := outcome (serveWS (a_server "") NewInsecure true (socket 1) upgrade [subscribe; "oops"]) flaky m in
  let c := socket 1 alice in
  end_ = Served ∧ in_hub m'.(loc).(p_hub) c = false ∧ (∀ t, m'.(loc).(p_bus).(replay) !! (c, t) = None) ∧
  ∀ ps s, Forall (elsewhere (a_server "") c) ps → gone c (srun s (ps, m')).2.(loc).(p_bus).
Proof.
  apply (connection_leaves_nothing (a_server "") (a_server_outside "") NewInsecure (socket 1) upgrade [subscribe; "oops"] alice).
  - reflexivity.
  - apply instance_ok.
Defined.

(** ** Two instances *)

(** Alice has a socket on another instance. *)
Definition elsewhere_online : keyspace :=
  <["conn:count:alice" := Entry (RStr "1") None]> {[ "activeConnections" := Entry (RSet {[ "alice" ]}) None ]}.

(** The count is decremented whether or not it was incremented: when the
    increment of a connection is lost, its end takes the user off
    [activeConnections] although the other socket is still open. *)
Example add_failure_unbalances :
  let '(end_, m') := outcome (serveWS (a_server "") NewInsecure true (socket 1) upgrade [])
                       [(0%N, LostRequest "i/o timeout" true)] (at_start elsewhere_online (instance [socket 1 alice])) in
  end_ = Served ∧ as_str (keys m'.(srv)) (countKey "alice") = Some None ∧ as_set (keys m'.(srv)) activeKey = Some ∅.
Proof. vm_compute. done. Qed.

(** What one instance publishes for a connection that stays, and for one that
    comes and goes while the first is open on another instance. *)
Example presence_per_instance :
  let '(_, m1) := outcome (connect (a_server "presence") (socket 1 alice)) [] (at_start ∅ (instance [socket 1 alice])) in
  let '(_, m2) := outcome (serveWS (a_server "presence") NewInsecure true (socket 2) upgrade []) []
                    (Mem m1.(srv) (instance [socket 2 alice]) m1.(Prog.clock)) in
  length (pubs m1.(srv)) = 1%nat ∧ length (pubs m2.(srv)) = 3%nat ∧
  as_str (keys m2.(srv)) (countKey "alice") = Some (Some "1").
Proof. vm_compute. done. Qed.

(** ** Labels *)

Definition odd_frame : string := "{" +:+ q +:+ "type" +:+ q +:+ ":" +:+ q +:+ "0123456789" +:+ q +:+ "}".

#[local] Instance short_names : CommandNames := {|
  VerbName := λ v, match v with VGet => "get" | VSet => "set" | _ => "other" end; ScriptName := "evalsha" |}.

(** A type the client made up is counted as unknown. *)
Lemma labels_bounded_witness :
  ∃ m (reg : list collector), Metrics.New [] Metrics.NewRegistry = Some (m, reg) ∧
    frame_labels (a_server "") odd_frame (Ok true) =
      [(FramesReceived, ["unknown"]); (RateLimitDecisions, ["msg"; "allowed"])] ∧
    ∃ name vs, WithLabelValues (FramesReceived m) ["unknown"] = Some (name, ["unknown"]) ∧
      (name, vs) ∈ label_sets (a_server "") ∧ ["unknown"] ∈ vs.
Proof.
  destruct (Metrics.New [] (Metrics.NewRegistry : list collector)) as [[m reg]|] eqn:E; [|vm_compute in E; discriminate E].
  exists m, reg. split; [done|]. split; [vm_compute; reflexivity|].
  apply (labels_bounded (a_server "") [] Metrics.NewRegistry reg m (FramesReceived, ["unknown"]) E).
  apply (em_frame (a_server "") odd_frame (Ok true)). vm_compute. by left.
Defined.
