(* ===== verification/Command.v ===== *)
(** * The command (main.go) and building a server (wsserver/wsserver.go, [New])

    The environment becomes options, the options a logger, a configuration
    and what [app.New] is handed; the server that comes up runs as in
    [Lifecycle] until it returns, and the process exits with what [Run]
    returned.  [signal.NotifyContext] is the move [Cancel].  The two instance
    ids that may be drawn, the key pair and the listener are arguments. *)

From S2P Require Import Prelude GoStrings Redis RedisModel Prog Time StreamID Json Protocol Judge RateLimit Bus BusInv Conn Hub.
From S2P Require Import Utf8 Locks Store Jobs SchedStore Lifecycle Logger Inbound Net Authz Auth Config Handler Dispatch Reply App AppWitness.
Local Open Scope Z_scope.

Section command.
Context {Sub : Type} `{Countable Sub} {Hub : Type} `{!Target Sub Hub, !Session Sub Hub Auth.Claims}.
Context `{!Lower, !GoQuote, !JsonErrors, !TimeErrors, !MapRange}.
Abbreviation proc := (@Bus.proc Sub _ _ Hub).
Variable ParseWithClaims : parser_opts → string → string → option Auth.Claims.
Variable GetExpirationTime : Auth.Claims → option (option Z).
Variable LoadX509KeyPair : string → string → bool.
Variable Listen : Z → bool.
Variable wake : prog proc ().

(** The fields of [Options] that can only be set in code, save the
    authorizer, which [OptionsFromEnv] sets too; a judge decides at once, so
    its timeout is left out, and so are the collectors. *)
Record Supplied : Type := {
  s_Logger : option (Level * list context);
  s_Verifier : option Verifier;
  s_Registry : option (Registry Sub proc Auth.Claims);
  s_Middleware : list (option (Middleware Sub proc Auth.Claims));
  s_OnConnect : option (LifecycleFunc proc Auth.Claims);
  s_OnDisconnect : option (LifecycleFunc proc Auth.Claims);
  s_Judge : option Judge;
  s_Candidates : option CandidateSource;
  s_JudgeFailurePolicy : FailurePolicy;
}.

Definition nothing : Supplied := {|
  s_Logger := None; s_Verifier := None; s_Registry := None; s_Middleware := []; s_OnConnect := None;
  s_OnDisconnect := None; s_Judge := None; s_Candidates := None; s_JudgeFailurePolicy := DeliverAll |}.

(** The [app.Ext] that [wsserver.New] passes on. *)
Definition ext_of (o : Options Auth.Claims Supplied) : Ext :=
  let s := o.(o_Ext) in {|
  x_Verifier := s.(s_Verifier); x_Authorizer := o.(o_Authorizer); x_Registry := s.(s_Registry);
  x_Middleware := s.(s_Middleware); x_OnConnect := s.(s_OnConnect); x_OnDisconnect := s.(s_OnDisconnect);
  x_Judge := s.(s_Judge); x_Candidates := s.(s_Candidates); x_JudgeFailurePolicy := s.(s_JudgeFailurePolicy) |}.

Definition choose_logger (o : Options Auth.Claims Supplied) : Level * list context :=
  match o.(o_Ext).(s_Logger) with
  | Some log => log
  | None =>
      let level := if bool_decide (o.(o_LogLevel) = "") then "info" else o.(o_LogLevel) in
      Logger.New level
  end.

Record Server : Type := {
  cfg : Config;
  log : Level * list context;
  verifier : Verifier;
  deps : @Deps Sub _ _ Hub Auth.Claims;
}.

(** What [main] prints as fatal. *)
Inductive fatal : Type :=
| LoadConfig (e : opt_error)
| BadOptions (e : opt_error)
| NotBuilt (e : new_error).

(** [wsserver.New]; [fresh] is the instance id drawn when none is set. *)
Definition wsserver_New (o : Options Auth.Claims Supplied) (fresh : string) : (fatal + Server) * resources :=
  let log := choose_logger o in
  match toConfig o fresh with
  | inl err => (inl (BadOptions err), {| clients := 0; listening := false |})
  | inr cfg =>
      match App.New ParseWithClaims GetExpirationTime LoadX509KeyPair Listen wake cfg (ext_of o) with
      | (inl err, res) => (inl (NotBuilt err), res)
      | (inr (verifier, deps), res) => (inr {| cfg := cfg; log := log; verifier := verifier; deps := deps |}, res)
      end
  end.

(** [opts.Logger = log]. *)
Definition with_logger (log : Level * list context) (o : Options Auth.Claims Supplied) : Options Auth.Claims Supplied :=
  let s := o.(o_Ext) in {|
  ListenAddr := o.(ListenAddr); o_MetricsAddr := o.(o_MetricsAddr); o_RedisAddrs := o.(o_RedisAddrs);
  o_RedisPassword := o.(o_RedisPassword); o_RedisMasterName := o.(o_RedisMasterName);
  o_Ext := {| s_Logger := Some log; s_Verifier := s.(s_Verifier); s_Registry := s.(s_Registry);
    s_Middleware := s.(s_Middleware); s_OnConnect := s.(s_OnConnect); s_OnDisconnect := s.(s_OnDisconnect);
    s_Judge := s.(s_Judge); s_Candidates := s.(s_Candidates); s_JudgeFailurePolicy := s.(s_JudgeFailurePolicy) |};
  JWTSecret := o.(JWTSecret); JWTAudience := o.(JWTAudience); JWTIssuer := o.(JWTIssuer);
  o_PresenceTopic := o.(o_PresenceTopic); o_Authorizer := o.(o_Authorizer); o_LogLevel := o.(o_LogLevel);
  o_EnableCompression := o.(o_EnableCompression); o_AllowedOrigins := o.(o_AllowedOrigins);
  o_TLSCertPath := o.(o_TLSCertPath); o_TLSKeyPath := o.(o_TLSKeyPath); IdleTimeout := o.(IdleTimeout);
  o_MaxPayloadBytes := o.(o_MaxPayloadBytes); o_MaxBufferedBytes := o.(o_MaxBufferedBytes);
  o_MaxConsecutiveDrops := o.(o_MaxConsecutiveDrops); o_StreamMaxLength := o.(o_StreamMaxLength);
  o_StreamTTL := o.(o_StreamTTL); o_AckCursorTTL := o.(o_AckCursorTTL); MessagesPerSec := o.(MessagesPerSec);
  JobsPerMin := o.(JobsPerMin); o_SchedulerAllowedHosts := o.(o_SchedulerAllowedHosts);
  o_ReadinessTimeout := o.(o_ReadinessTimeout); o_ShutdownTimeout := o.(o_ShutdownTimeout);
  o_InstanceID := o.(o_InstanceID) |}.

(** The process: it never came up, or [srv.Run] is where the moves so far
    have brought it. *)
Inductive command : Type :=
| Failed (err : fatal) (left_open : resources)
| Serving (srv : Server) (run : app).

(** [mainErr]; [None] when the moves are not possible. *)
Definition mainErr (e : env) (fresh fresh' : string) (l : list move) : option command :=
  match OptionsFromEnv (Claims := Auth.Claims) nothing e fresh with
  | inl err => Some (Failed (LoadConfig err) {| clients := 0; listening := false |})
  | inr o =>
      match wsserver_New (with_logger (Logger.New o.(o_LogLevel)) o) fresh' with
      | (inl err, res) => Some (Failed err res)
      | (inr srv, _) => Serving srv <$> moves l (App (negb (bool_decide (srv.(cfg).(MetricsAddr) = ""))))
      end
  end.

(** [main]: the status the process exits with, [None] while it runs. *)
Definition exit_status (s : command) : option Z :=
  match s with
  | Failed _ _ => Some 1
  | Serving _ a =>
      match a.(main) with Done None => Some 0 | Done (Some _) => Some 1 | _ => None end
  end.

(** ** What a start takes *)

(** The default of the level is one the logger has anyway. *)
Lemma choose_logger_plain o : o.(o_Ext).(s_Logger) = None → o.(o_LogLevel) = "" → choose_logger o = Logger.New "".
Proof.
  intros E1 E2. unfold choose_logger. rewrite E1, E2, bool_decide_eq_true_2 by done. unfold Logger.New.
  rewrite !ToLower_ascii by (by repeat constructor). by vm_compute.
Qed.

Lemma toConfig_with_logger log o fresh : toConfig (with_logger log o) fresh = toConfig o fresh.
Proof. done. Qed.

(** Options read from the environment always make a configuration, with the
    port, the key pair and the metrics address that were loaded. *)
Lemma toConfig_env (e : env) fresh fresh' c rules : Load e fresh = inr c →
  ∃ c', toConfig (options_of (Claims := Auth.Claims) nothing c rules) fresh' = inr c' ∧
    c'.(WebSocketPort) = c.(WebSocketPort) ∧ c'.(TLSCertPath) = c.(TLSCertPath) ∧ c'.(TLSKeyPath) = c.(TLSKeyPath) ∧
    c'.(AuthzRules) = "" ∧ c'.(MetricsAddr) = c.(MetricsAddr).
Proof.
  intros [[_ _ Sp _ _] _]%Load_servable. unfold toConfig, options_of, listen_port.
  cbn -[SplitHostPort FormatInt String.append Z.mul]. rewrite bool_decide_eq_false_2 by done.
  rewrite SplitHostPort_port by lia. rewrite ParseInt_FormatInt by (unfold in_int64, min_int64, max_int64; lia).
  eexists. split; [reflexivity|]. by repeat split.
Qed.

(** The command comes up exactly when the environment loads, its rules parse,
    its key pair (if any) can be read and its port can be bound; otherwise it
    exits with status 1 and leaves nothing open. *)
Theorem comes_up_exact e fresh fresh' :
  let ready := ∃ c rules, Load e fresh = inr c ∧ ParseRules c.(AuthzRules) = Ok rules ∧
    (TLSEnabled c = true → LoadX509KeyPair c.(TLSCertPath) c.(TLSKeyPath) = true) ∧ Listen c.(WebSocketPort) = true in
  (ready → ∃ srv, mainErr e fresh fresh' [] = Some (Serving srv (App (negb (bool_decide (srv.(cfg).(MetricsAddr) = "")))))) ∧
  (¬ ready → ∃ err, ∀ l, mainErr e fresh fresh' l = Some (Failed err {| clients := 0; listening := false |})).
Proof.
  intros ready. unfold mainErr, OptionsFromEnv. destruct (Load e fresh) as [err|c] eqn:L.
  { split; [by intros (? & ? & ? & _)|]. by eexists. }
  destruct (ParseRules (AuthzRules c)) as [rules|err] eqn:P.
  2: { split; [intros (c1 & rules & [= <-] & P' & _); congruence|]. by eexists. }
  unfold wsserver_New. rewrite toConfig_with_logger.
  destruct (toConfig_env e fresh fresh' c rules L) as (c' & -> & Ep & Ec & Ek & Ea & Em).
  unfold App.New. rewrite Ea. change (ParseRules "") with (Ok (None : option Rules)). cbv zeta.
  assert (TLSEnabled c' = TLSEnabled c) as -> by (unfold TLSEnabled; by rewrite Ec, Ek). rewrite Ep, Ec, Ek.
  destruct (TLSEnabled c && negb (LoadX509KeyPair _ _)) eqn:T.
  { apply andb_true_iff in T as [T1 T2%negb_true_iff]. split; [|by eexists].
    intros (c1 & r & [= <-] & _ & K & _). rewrite K in T2; done. }
  destruct (Listen (WebSocketPort c)) eqn:B; cbn [negb].
  - split; [intros _; eexists; reflexivity|]. intros Hn. exfalso. apply Hn. exists c, rules.
    split_and!; [done..| |done]. intros T1. rewrite T1 in T. by apply negb_false_iff in T.
  - split; [|by eexists]. intros (c1 & r & [= <-] & _ & _ & B'). congruence.
Qed.

(** ** How it ends *)

(** Once up, the process exits only after a signal and with every goroutine
    of the server returned; the status is 0 exactly when [Run] reported no
    failed subsystem. *)
Theorem command_exits e fresh fresh' l s x : mainErr e fresh fresh' l = Some s → exit_status s = Some x →
  (∃ err res, s = Failed err res ∧ x = 1) ∨
  (∃ srv a, s = Serving srv a ∧ Cancel ∈ l ∧ joined a ∧
     (x = 0 ∧ a.(main) = Done None ∨ x = 1 ∧ ∃ msg, a.(main) = Done (Some msg) ∧ reported msg)).
Proof.
  unfold mainErr. destruct (OptionsFromEnv _ e fresh) as [err|o]; [intros [= <-] [= <-]; eauto 6|].
  destruct (wsserver_New _ fresh') as [[err|srv] res]; [intros [= <-] [= <-]; eauto 6|].
  set (m := negb _). destruct (moves l (App m)) as [a|] eqn:M; [|done]. intros [= <-] X. right. exists srv, a.
  cbn [exit_status] in X. destruct (a.(main)) as [| | |r] eqn:D; try done.
  pose proof (returned_joined m l a r M D) as [J R].
  pose proof (moves_ok l _ a (App_ok m) M) as Ok. destruct (ok_done _ Ok r D) as (_ & Hs & _).
  split; [done|]. split; [apply (cancelled_by_signal l (App m) a M eq_refl), (ok_sched _ Ok), Hs|]. split; [done|]. destruct r as [msg|]; injection X as <-; eauto 6.
Qed.
End command.

(** ** A run of the command *)

#[local] Instance lower_ascii_only : Lower := {| ToLower := lower_ascii; ToLower_ascii _ _ := eq_refl |}.
#[local] Instance quote_plain : GoQuote := {| Quote := λ s, s |}.
#[local] Instance json_plain : JsonErrors := λ s, s.
#[local] Instance time_plain : TimeErrors := λ s, "parsing time " +:+ s.
#[local] Instance map_order : MapRange := {| range_users := map_to_list; range_users_perm m := reflexivity _ |}.
#[local] Existing Instance no_waiting.

Definition up (l : list move) :=
  mainErr (Sub := handle) (Hub := Hub) accept_names never (λ _ _, true) (λ port, bool_decide (port = 8080)) (Ret ()) server_env "i-1" "i-2" l.

(** No metrics address is set, so no metrics server has to stop. *)
Definition stopped : list move := serving ++ [Cancel; SeesCancel; Shutdown; HttpStops; BusStops; SchedStops; WaitEnds].
Definition failing : list move := [BusSubscribes; BusPings (Some "connection refused"); SeesError; Shutdown; HttpStops].

(** It serves, gets the signal, stops and exits with status 0; a bus that
    cannot subscribe does not end it. *)
Example command_stops_cleanly : (up stopped ≫= exit_status) = Some 0.
Proof. vm_compute. reflexivity. Qed.

Example broken_command_stays : (up failing ≫= exit_status) = None ∧ bool_decide (is_Some (up failing)) = true.
Proof. split; vm_compute; reflexivity. Qed.

Lemma command_exits_witness : ∃ s, up stopped = Some s ∧
  ((∃ err res, s = Failed err res ∧ 0 = 1) ∨
   (∃ srv a, s = Serving srv a ∧ Cancel ∈ stopped ∧ joined a ∧
     (0 = 0 ∧ a.(main) = Done None ∨ 0 = 1 ∧ ∃ msg, a.(main) = Done (Some msg) ∧ reported msg))).
Proof.
  destruct (proj1 (bind_Some exit_status (up stopped) 0) command_stops_cleanly) as (s & E & X).
  exists s. split; [exact E|]. eapply command_exits; [exact E|exact X].
Defined.
