(* ===== verification/Deliver.v ===== *)
(** * From a publish to the sockets of its subscribers

    The bus, the hub and the connections put together: the announcement of a
    publish is dispatched on an instance whose subscribers are the connections
    of its hub, each takes the frame into its queue or counts a drop, and the
    writers put the queues on the wire. *)

From S2P Require Import Prelude GoStrings Redis RedisModel Prog Time StreamID Json Protocol Judge RateLimit Bus BusInv Replay Fanout.
From S2P Require Import Conn Hub.
Local Open Scope Z_scope.
Local Open Scope prog_scope.

(** ** From the queue to the wire *)

(** The frames [pre] are ahead: on the wire, with the writer or queued. *)
Definition ahead (pre : list outFrame) (c : Conn) : Prop :=
  conn_ok c ∧ (∃ post, norm <$> line c = pre ++ post) ∧ (c.(drained) = true → (length pre ≤ length c.(wire))%nat).

(** What a close frame could cut off lies behind it. *)
Lemma close_behind pre c f :
  conn_ok c → closes pre = 0%nat → (∃ post, norm <$> line c = pre ++ post) → is_close f → f ∈ norm <$> c.(wire) →
  (length pre ≤ length c.(wire))%nat.
Proof.
  intros Hc Hp [post E] Hf Hin. apply list_elem_of_lookup in Hin as [i Hi].
  pose proof (lookup_lt_Some _ _ _ Hi) as Hlt. rewrite length_fmap in Hlt.
  destruct (decide (length pre ≤ i)%nat); [lia|]. exfalso.
  assert (pre !! i = Some f) as Hpi.
  { rewrite <- (lookup_app_l pre post) by lia. rewrite <- E. unfold line. rewrite fmap_app.
    by rewrite lookup_app_l by (rewrite length_fmap; lia). }
  assert (f ∈ filter is_close pre) as Hin.
  { apply list_elem_of_filter. split; [done|]. by eapply list_elem_of_lookup_2. }
  unfold closes in Hp. by destruct (filter is_close pre); [apply elem_of_nil in Hin|].
Qed.

Lemma ahead_step pre a c :
  write_ok a → closes pre = 0%nat → ahead pre c → ahead pre (step a c) ∧ (length c.(wire) ≤ length (step a c).(wire))%nat.
Proof.
  intros Ha Hpre (Hc & [post Hp] & Hd).
  assert (∃ post, norm <$> line (step a c) = pre ++ post) as Hp'.
  { exists (post ++ (norm <$> queued a c)). by rewrite step_line, fmap_app, Hp, <- app_assoc. }
  assert (length c.(wire) ≤ length (step a c).(wire))%nat as Hw.
  { destruct (step_effect a c) as [-> _ _ _|f q _ _ _ _ -> _ _ _|ok f _ _ -> _ _ _]; rewrite ?length_app; lia. }
  split; [|done]. split; [by apply step_ok|]. split; [done|]. intros Hd'.
  destruct (drained c) eqn:E; [specialize (Hd eq_refl); lia|].
  pose proof (step_ok a c Hc) as Hok. revert Hd' Hok Hp'.
  destruct (step_effect a c) as [_ _ -> _|f q _ _ _ _ _ _ -> _|[] f -> Hwr Hwire _ -> _]; [by rewrite E|done| |by destruct Ha].
  case_bool_decide as Hf; [|done]. intros _ Hok Hp'. apply (close_behind pre _ (norm f)); [done..|by apply is_close_norm|].
  rewrite Hwire, fmap_app. apply elem_of_app. right. cbn. rewrite norm_idem. by left.
Qed.

(** A writer that is not done finds the next of the frames ahead. *)
Lemma ahead_recv pre c :
  ahead pre c → c.(drained) = false → (length c.(wire) < length pre)%nat → (step ARecv c).(writing) ≠ None.
Proof.
  intros (Hc & [post Hp] & _) Hd Hl. cbn [step]. unfold writer_recv. rewrite Hd.
  destruct (writing c) as [f|] eqn:Hw; [by rewrite Hw|]. destruct (sendCh c) as [|f q] eqn:Hq; [|done].
  unfold line, held in Hp. rewrite Hw, Hq in Hp. cbn in Hp. rewrite app_nil_r in Hp. apply (f_equal length) in Hp.
  rewrite length_app, length_fmap in Hp. lia.
Qed.

Lemma ahead_written pre c : ahead pre c → (length pre ≤ length c.(wire))%nat → ∃ post, norm <$> c.(wire) = pre ++ post.
Proof.
  intros (_ & [post Hp] & _) Hl. exists (drop (length pre) (norm <$> c.(wire))).
  rewrite <- (take_drop (length pre) (norm <$> wire c)) at 1. f_equal.
  transitivity (take (length pre) (norm <$> line c)); [|by rewrite Hp, take_app_length].
  unfold line. by rewrite fmap_app, take_app_le by (rewrite length_fmap; lia).
Qed.

(** With as many turns of the writer as frames are waiting, whatever else goes
    on around them, they are on the wire. *)
Lemma ahead_flushed pre l h c :
  Forall write_ok l → closes pre = 0%nat → ahead pre c → (h = true → c.(drained) = false → c.(writing) ≠ None) →
  (length pre ≤ length c.(wire) + turns l h)%nat → ∃ post, norm <$> (steps l c).(wire) = pre ++ post.
Proof.
  intros Hl Hpre. revert c h. induction l as [|a l IH]; intros c h Hf Hh Ht.
  { change (steps [] c) with c. apply ahead_written; [exact Hf|]. cbn [turns] in Ht. lia. }
  inversion Hl as [|?? Ha Hl']; subst.
  destruct (ahead_step pre a c Ha Hpre Hf) as [Hf' Hw]. rewrite steps_cons.
  destruct (decide (length pre ≤ length c.(wire))%nat) as [?|Hmore]; [apply (IH Hl' _ false Hf'); [done|lia]|].
  assert (c.(drained) = false) as Hd by (destruct Hf as (_ & _ & Hd); destruct (drained c); [|done]; specialize (Hd eq_refl); lia).
  destruct (decide (a = ARecv)) as [->|Hr].
  { apply (IH Hl' _ true Hf'); [|cbn [turns] in Ht; lia]. intros _ _. apply (ahead_recv pre); [done|done|lia]. }
  destruct (step_effect a c) as [_ Hwr Hdr _|f q ? _ _ _ _ _ _ _|[] f -> Hwr Hwire _ _ _]; [|done| |by destruct Ha].
  - destruct a as [| | | | | | | |[]]; try done; try (apply (IH Hl' _ h Hf'); [by rewrite Hwr, Hdr|cbn [turns] in Ht; lia]).
    apply (IH Hl' _ false Hf'); [done|]. destruct h; cbn [turns] in Ht; [|lia].
    specialize (Hh eq_refl Hd). cbn in Hwr. unfold writer_write in Hwr. destruct (writing c) as [f|]; [by destruct f|done].
  - apply (IH Hl' _ false Hf'); [done|]. rewrite Hwire, length_app. cbn. destruct h; cbn [turns] in Ht; lia.
Qed.

(** ** From an announcement to the queues *)

(** What the fan-out theorems call a subscriber's name. *)
#[local] Instance handle_named : Identify handle := λ c, Some (conn_id c).

Section deliver.
Context `{RedisServer Srv} `{!RedisLaws Srv} `{!GoQuote} `{!MapRange}.
Abbreviation process := (proc (Sub := handle) (Hub := Hub)).
Implicit Types (m : mem Srv process) (h : Hub) (subs : list handle) (x : Conn).

(** One frame for each of the connections, in order. *)
Definition queue_all (frame : string) subs h : Hub := foldl (λ h c, (send_conn c frame h).2) h subs.

(** Whether a connection takes the frame. *)
Definition accepts (frame : string) h (c : handle) : bool :=
  match h.(heap) !! c with Some x => (Conn.SendReporting true frame x).1 | None => false end.

Definition taken (frame : string) h subs : list handle := filter (λ c, accepts frame h c = true) subs.

Lemma fanout_same topic p allowed subs (b : bus (Sub := handle)) :
  fanout_locked (Hub := Hub) topic p allowed subs b = fanout_locked (Hub := outbox handle) topic p allowed subs b.
Proof. reflexivity. Qed.

Lemma send_conn_accepts c frame h : (send_conn c frame h).1 = accepts frame h c.
Proof. unfold send_conn, accepts. destruct (heap h !! c) as [x|]; [|done]. by destruct (SendReporting _ _ _). Qed.

Lemma taken_after c frame h subs : c ∉ subs → taken frame (send_conn c frame h).2 subs = taken frame h subs.
Proof.
  intros Hc. unfold taken. apply filter_ext_in. intros d Hd. unfold accepts. rewrite send_conn_heap.
  by rewrite decide_False by (intros ->; done).
Qed.

(** The delivery loop over the hub, with its counts. *)
Lemma deliver_frames_hub reporting frame subs i j m :
  NoDup subs →
  wp0 (deliver_frames reporting frame subs i j) (λ r m',
    (reporting = true → r = (i + Z.of_nat (length (taken frame m.(loc).(p_hub) subs)),
                             j + Z.of_nat (length subs) - Z.of_nat (length (taken frame m.(loc).(p_hub) subs)))) ∧
    m' = Mem m.(srv) (Proc m.(loc).(p_bus) (queue_all frame subs m.(loc).(p_hub)) m.(loc).(p_seq)) m.(Prog.clock)) m.
Proof.
  intros Hnd. revert i j m. induction Hnd as [|c subs Hc Hnd IH]; intros i j m.
  { cbn. split; [intros _; f_equal; lia|]. by destruct m as [? [] ?]. }
  pose proof (taken_after c frame m.(loc).(p_hub) subs Hc) as Ht. pose proof (send_conn_accepts c frame m.(loc).(p_hub)) as Ha.
  cbn [deliver_frames]. destruct reporting; cbn [Bus.SendReporting hub_target].
  - apply wp0_bind. cbn. destruct (send_conn c frame (p_hub (loc m))) as [ok h] eqn:E. cbn in *.
    assert (length (taken frame (p_hub (loc m)) (c :: subs)) = (if ok then 1 else 0) + length (taken frame (p_hub (loc m)) subs))%nat as Hl.
    { unfold taken. rewrite filter_cons, <- Ha. by destruct ok. }
    destruct ok; (eapply wp0_mono; [apply IH|]); intros r m' [Hr ->]; cbn in *; rewrite Ht in Hr;
      (split; [|done]); intros _; rewrite (Hr eq_refl); rewrite Hl; f_equal; lia.
  - apply wp0_bind. cbn. eapply wp0_mono; [apply IH|]. intros r m' [_ ->]. cbn. by split.
Qed.

Lemma queue_all_spec frame subs h :
  NoDup subs →
  (queue_all frame subs h).(users) = h.(users) ∧
  ∀ c, (queue_all frame subs h).(heap) !! c = if decide (c ∈ subs) then Conn.Send true frame <$> h.(heap) !! c else h.(heap) !! c.
Proof. apply send_all. Qed.

(** *** One announcement on one instance *)

Section announcement.
Context (cfg : Bus.Config) (topic : string) (p : wireTopicPayload) (d : json).

Definition live_frame : string := EncodePublish topic (Raw d) p.(w_StreamID) false.

Definition reached m : list handle :=
  live_to m.(loc).(p_bus) topic p.(w_Recipients) (elements (subscribers m.(loc).(p_bus) topic)).

(** The report to the publisher counts what the queues took. *)
Definition counted m : list (string * string) :=
  if bool_decide (reached m ≠ [] ∧ p.(w_ReportTo) ≠ "") then
    [(reportChannelPrefix +:+ p.(w_ReportTo),
      marshal_report {| r_Topic := topic; r_StreamID := p.(w_StreamID);
        r_Delivered := Z.of_nat (length (taken live_frame m.(loc).(p_hub) (reached m)));
        r_Dropped := Z.of_nat (length (reached m)) - Z.of_nat (length (taken live_frame m.(loc).(p_hub) (reached m)));
        r_Filtered := Z.of_nat (length (left_out m.(loc).(p_bus) topic p.(w_Recipients) (elements (subscribers m.(loc).(p_bus) topic))));
        r_Instance := cfg.(Bus.InstanceID) |})]
  else [].

Record arrived m m' : Prop := {
  arr_users : m'.(loc).(p_hub).(users) = m.(loc).(p_hub).(users);
  arr_heap c : m'.(loc).(p_hub).(heap) !! c =
    if decide (c ∈ reached m) then Conn.Send true live_frame <$> m.(loc).(p_hub).(heap) !! c else m.(loc).(p_hub).(heap) !! c;
  arr_pubs : pubs m'.(srv) = pubs m.(srv) ++ counted m;
}.

Lemma reached_nodup m : NoDup (reached m).
Proof. unfold reached, live_to. apply NoDup_filter, NoDup_elements. Qed.

Lemma handleTopic_hub m :
  raw_wf p.(w_Data) = true → raw_value p.(w_Data) = Some d →
  wp0 (handleTopic cfg topic (marshal_topic p)) (λ _ m', arrived m m') m.
Proof.
  intros Hw Hd. unfold handleTopic. rewrite (unmarshal_marshal_topic p d) by done.
  apply wp0_bind. cbn [local_ act wp0 event_step]. rewrite fanout_same.
  pose proof (fanout_locked_spec topic (received p d) (elements (subscribers m.(loc).(p_bus) topic)) m.(loc).(p_bus)
    (NoDup_elements _)) as Hf.
  destruct (fanout_locked _ _ _ _ _) as [[deliver filtered] b']. destruct Hf as (->&->&_&_&_).
  cbn [w_Recipients received]. fold (reached m).
  assert (∀ (sv : Srv) pb sq ck, pubs sv = pubs m.(srv) ++ counted m →
    arrived m (Mem sv (Proc pb (queue_all live_frame (reached m) m.(loc).(p_hub)) sq) ck)) as Harr.
  { intros sv pb sq ck Hp. destruct (queue_all_spec live_frame (reached m) m.(loc).(p_hub) (reached_nodup m)). by split. }
  case_bool_decide as Hnil; cbn [wp0].
  - replace (p_hub (loc m)) with (queue_all live_frame (reached m) (p_hub (loc m))) at 1 by by rewrite Hnil.
    apply Harr. unfold counted. rewrite bool_decide_false, app_nil_r by tauto. done.
  - apply wp0_bind. eapply wp0_mono; [by apply deliver_frames_hub, reached_nodup|]. intros [i j] m1 [Hr ->].
    cbn [srv loc Prog.clock p_bus p_hub p_seq w_Data w_StreamID w_ReportTo received] in *. fold live_frame in *.
    case_bool_decide as Hrep.
    + specialize (Hr eq_refl). injection Hr as -> ->. unfold sendReport. cbv zeta. apply wp0_bind, wp0_call. cbn [srv loc Prog.clock].
      match goal with |- context [exec (PUBLISH ?ch ?t) ?s] =>
        pose proof (law_publish ch t s) as Hl; unfold after in Hl; destruct (exec (PUBLISH ch t) s) as [r s'] end.
      cbn [fst snd] in Hl. destruct Hl as (_ & _ & Hp). cbn [wp0]. apply Harr. rewrite Hp. f_equal.
      unfold counted. by rewrite bool_decide_true.
    + cbn [wp0]. apply Harr. unfold counted. rewrite bool_decide_false, app_nil_r by tauto. done.
Qed.
End announcement.

(** ** A connection that takes a frame *)

(** Open, nothing on its way out but frames, and room for the message. *)
Record takes (msg : string) x : Prop := {
  tk_ok : conn_ok x;
  tk_open : x.(closeBegun) = false;
  tk_alive : x.(drained) = false;
  tk_room : has_room x = true;
  tk_fits : x.(bufBytes) + len msg ≤ x.(maxBuf);
}.

Lemma takes_closed msg x : takes msg x → x.(closed) = false.
Proof. intros [Hc Hb _ _ _]. destruct (closed x) eqn:E; [|done]. by rewrite (ok_closed _ Hc E) in Hb. Qed.

Lemma takes_send msg x : takes msg x →
  Conn.SendReporting true msg x = (true, count_sent (len msg) true (push (frameText msg) x)).
Proof.
  intros Ht. pose proof (takes_closed _ _ Ht) as Hcl. destruct Ht as [Hc Hb Hd Hr Hf].
  unfold Conn.SendReporting, check_send, select_send. rewrite Hcl, Hr. cbn.
  by rewrite (proj2 (Z.ltb_ge _ _)) by lia.
Qed.

Lemma takes_ahead msg x : takes msg x → ahead (norm <$> (line x ++ [frameText msg])) (Conn.Send true msg x).
Proof.
  intros Ht. pose proof (Send_ok true msg x (tk_ok _ _ Ht)) as Hok. unfold Conn.Send in *. rewrite (takes_send _ _ Ht) in *. cbn [snd] in *.
  split; [done|]. split; [|cbn; by rewrite (tk_alive _ _ Ht)].
  exists []. rewrite app_nil_r. unfold line, held. cbn. by rewrite <- !app_assoc.
Qed.

Lemma takes_no_close msg x : takes msg x → closes (norm <$> (line x ++ [frameText msg])) = 0%nat.
Proof.
  intros Ht. rewrite closes_norm, closes_app. pose proof (ok_once _ (tk_ok _ _ Ht)) as Ho. rewrite (tk_open _ _ Ht) in Ho. rewrite closes_text, closes_nil. lia.
Qed.

(** Its writer puts the frame on the wire behind everything queued before. *)
Lemma takes_written msg x l : takes msg x → Forall write_ok l → (length (held x ++ x.(sendCh)) < turns l false)%nat →
  ∃ post, norm <$> (steps l (Conn.Send true msg x)).(wire) = (norm <$> (line x ++ [frameText msg])) ++ post.
Proof.
  intros Ht Hl Hn. apply (ahead_flushed _ l false); [done|by apply takes_no_close|by apply takes_ahead|done|].
  unfold Conn.Send. rewrite (takes_send _ _ Ht). cbn. rewrite length_fmap. unfold line. rewrite !length_app in *. cbn. lia.
Qed.

(** What is published is escaped once and for all. *)
Lemma raw_value_html r d : raw_value r = Some d → html d = d.
Proof. destruct r; intros ?; simplify_eq/=; [done|apply html_idemp]. Qed.

(** [C2] A publish reaches the sockets.  On a faultless network it appends one announcement to the channel, and on
    whatever instance dispatches it, every connection of the hub that the fan-out selects and that takes the frame
    (open, its writer running, room for one more in the queue and for the bytes under its limit) gets one frame, which
    a client decodes to the topic, the stored stream ID and the published value; and as long as no write to the socket
    fails, enough turns of its writer put the frame on the wire right behind what was queued before, whatever other
    senders, pings and closers do meanwhile.  Every connection the fan-out does not select is left exactly as it
    was. *)
Theorem published_reaches_sockets cfg cfg' topic data rep m last S d :
  raw_wf data = true → raw_value data = Some d →
  as_stream (keys m.(srv)) (streamKey topic) = Some (last, S) →
  wp0 (PublishTopic cfg topic data rep) (λ r m', ∃ i payload frame,
    r = Ok (format_sid i) ∧ sid_lt last i ∧
    pubs m'.(srv) = pubs m.(srv) ++ [(topicChannelPrefix +:+ topic, payload)] ∧
    read_delivery frame = Some {| d_type := "publish"; d_topic := topic; d_data := Raw d; d_streamId := format_sid i; d_replay := false |} ∧
    ∀ m2, wp0 (dispatch cfg' (topicChannelPrefix +:+ topic) payload) (λ _ m3,
      let live := live_to m2.(loc).(p_bus) topic (judge cfg.(cfg_Judge) cfg.(cfg_Candidates) cfg.(JudgeFailurePolicy) topic data)
                    (elements (subscribers m2.(loc).(p_bus) topic)) in
      m3.(loc).(p_hub).(users) = m2.(loc).(p_hub).(users) ∧
      ∀ c x, m2.(loc).(p_hub).(heap) !! c = Some x → ∃ x', m3.(loc).(p_hub).(heap) !! c = Some x' ∧
        (c ∉ live → x' = x) ∧
        (c ∈ live → takes frame x → ∀ l, Forall write_ok l → (length (held x ++ x.(sendCh)) < turns l false)%nat →
           ∃ post, norm <$> (steps l x').(wire) = (norm <$> (line x ++ [frameText frame])) ++ post)) m2) m.
Proof.
  intros Hw Hd HS. eapply wp0_mono; [by eapply PublishTopic_wp|].
  intros r m' (i&n&->&Hlt&_&_&_&_&Hp&_). eexists i, _, (EncodePublish topic (Raw d) (format_sid i) false).
  split_and!; [done|done|exact Hp|apply read_EncodePublish; [by apply (raw_value_wf data)|cbn; by rewrite (raw_value_html data)]|].
  intros m2. unfold dispatch. rewrite CutPrefix_app.
  eapply wp0_mono; [by apply handleTopic_hub|]. intros ? m3 [Hu Hh _]. cbv zeta. split; [done|]. intros c x Hx.
  specialize (Hh c). unfold reached in Hh. cbn [w_Recipients] in Hh. rewrite Hx in Hh.
  match type of Hh with context [decide ?P] => destruct (decide P) as [Hin|Hout] end; eexists; (split; [exact Hh|]); (split; [done|]).
  - intros _ Ht l. by apply takes_written.
  - done.
Qed.
End deliver.

(** ** A concrete run: one open tab subscribes to the topic *)

#[local] Instance plain_quotes : GoQuote := {| Quote := λ s, s |}.
#[local] Instance map_order : MapRange := {| range_users := map_to_list; range_users_perm m := reflexivity _ |}.

Definition everyone : Bus.Config := {|
  Bus.StreamMaxLength := 100; Bus.StreamTTL := 0; Bus.InstanceID := "i1";
  cfg_Judge := None; cfg_Candidates := None; JudgeFailurePolicy := DeliverAll;
|}.

Definition tab : handle := {| ptr := 1; conn_id := "c1"; conn_user := "ann" |}.
Definition fresh : Conn := NewConn {| cfg_UserKey := "ann"; MaxBufferedBytes := 0; SendChanCapacity := 0; cfg_ID := "c1"; MaxConsecutiveDrops := 0 |} "".

Definition publisher : mem server (proc (Sub := handle) (Hub := Hub)) :=
  Mem (Server {[ "topic:stream:news" := Entry (RStream (9, 0) []) None ]} [] 0) (Proc (Bus ∅ ∅ 0) NewHub 0) 0.

Definition listening : mem server (proc (Sub := handle) (Hub := Hub)) :=
  Mem fresh_server (Proc (Bus {[ "news" := {[ tab ]} ]} ∅ 0) {| users := {[ "ann" := [tab] ]}; heap := {[ tab := fresh ]} |} 0) 0.

Lemma published_reaches_sockets_witness :
  takes (EncodePublish "news" (Raw (JBool true)) "9-1" false) fresh ∧
  wp0 (PublishTopic everyone "news" (Raw (JBool true)) "") (λ r m', ∃ i payload frame,
    r = Ok (format_sid i) ∧ pubs m'.(srv) = [("ws:topic:news", payload)] ∧
    wp0 (dispatch everyone "ws:topic:news" payload) (λ _ m3, ∃ x', m3.(loc).(p_hub).(heap) !! tab = Some x' ∧
      (takes frame fresh → ∃ post, norm <$> (steps [ARecv; AWrite true] x').(wire) = frameText frame :: post)) listening) publisher.
Proof.
  split; [split; [apply NewConn_ok|done|done|done|vm_compute; discriminate]|].
  eapply wp0_mono; [eapply (published_reaches_sockets everyone everyone "news" (Raw (JBool true)) "" publisher (9, 0) [] (JBool true)); done|].
  intros r m' (i&payload&frame&->&_&Hp&_&Hd). exists i, payload, frame. split_and!; [done|exact Hp|].
  eapply wp0_mono; [exact (Hd listening)|]. intros u m3 [_ Hh].
  destruct (Hh tab fresh eq_refl) as (x'&Hx'&_&Ht). exists x'. split; [exact Hx'|]. intros Htk.
  apply (Ht ltac:(vm_compute; left) Htk [ARecv; AWrite true]); [repeat constructor; discriminate|cbn; lia].
Defined.
