(* ===== verification/Gaps.v ===== *)
(** * One user, several sockets (internal/connection/handler.go)

    The connection and subscription records in Redis are kept per user, the
    subscriptions of the bus per socket, and "last socket" is judged by one
    instance.  Where the three disagree. *)

From S2P Require Import Prelude GoStrings Redis RedisModel Prog Time StreamID Json Protocol Judge RateLimit Bus BusInv.
From S2P Require Import Locks Store Jobs SchedStore Inbound Authz Handler Dispatch Cleanup.
Local Open Scope Z_scope.

Section gaps.
Context {Sub : Type} `{Countable Sub} {Hub Claims : Type} `{!Target Sub Hub, !Session Sub Hub Claims}.
Context `{!GoQuote, !TimeErrors} `{RedisServer Srv} `{!RedisLaws Srv}.
Abbreviation proc := (@Bus.proc Sub _ _ Hub).
Context (d : @Deps Sub _ _ Hub Claims).
Implicit Types (m : mem Srv proc) (c : Sub).

Lemma AddTopicSubscription_wp0 u t m x y :
  as_set (keys m.(srv)) (topicKey t) = Some x → as_set (keys m.(srv)) (subscribedTopicsKey u) = Some y →
  wp0 (AddTopicSubscription u t) (λ r m', r = Ok () ∧ m'.(loc) = m.(loc) ∧
    ∃ x', as_set (keys m'.(srv)) (topicKey t) = Some x' ∧ u ∈ x') m.
Proof.
  intros Hx Hy. unfold AddTopicSubscription. wp0_next Ha. rewrite Hx in Ha. destruct Ha as (->&Hk1&_). cbn [wrap_err].
  assert (∃ y1, as_set (keys s) (subscribedTopicsKey u) = Some y1) as [y1 Hy1].
  { rewrite Hk1. destruct (decide (topicKey t = subscribedTopicsKey u)) as [<-|Hne]; [by rewrite as_set_put; eauto|].
    exists y. rewrite <- Hy. apply as_set_ext. by rewrite lookup_put_set_ne. }
  wp0_next Hb. cbn [srv] in Hb. rewrite Hy1 in Hb. destruct Hb as (->&Hk2&_). cbn. split_and!; [done|done|].
  rewrite Hk2. destruct (decide (topicKey t = subscribedTopicsKey u)) as [E|Hne].
  - rewrite E, as_set_put. exists ({[ t ]} ∪ y1). split; [done|].
    rewrite Hk1, <- E, as_set_put in Hy1. set_solver.
  - exists ({[ u ]} ∪ x). split; [|set_solver]. rewrite <- (as_set_put (keys m.(srv)) (topicKey t) ({[ u ]} ∪ x)), <- Hk1.
    apply as_set_ext. by rewrite lookup_put_set_ne.
Qed.

(** Two sockets of one user on a topic: when one unsubscribes, the
    record of subscribers loses the user while the other socket still gets
    every message. *)
Theorem unsubscribe_other_socket c1 c2 env m x y :
  c1 ≠ c2 → UserKey c1 = UserKey c2 → c2 ∈ subscribers m.(loc).(p_bus) env.(e_Topic) →
  as_set (keys m.(srv)) (topicKey env.(e_Topic)) = Some x →
  as_set (keys m.(srv)) (subscribedTopicsKey (UserKey c1)) = Some y →
  wp0 (handleUnsubscribe c1 env) (λ r m',
    is_ok r = true ∧ c2 ∈ subscribers m'.(loc).(p_bus) env.(e_Topic) ∧
    ∃ x', as_set (keys m'.(srv)) (topicKey env.(e_Topic)) = Some x' ∧ UserKey c2 ∉ x') m.
Proof.
  intros Hne Hu Hin Hx Hy. unfold handleUnsubscribe. apply wp0_rbind.
  eapply wp0_mono; [by eapply RemoveTopicSubscription_wp0|]. intros r m1 (->&Hl&_&Hx1&_).
  cbn [RemoveLocalSubscription with_bus local_ act bind wp0 event_step loc srv]. split; [done|]. split; [|by rewrite <- Hu].
  rewrite Hl. cbn [p_bus topicSubs].
  change (c2 ∈ subscribers (drop_sub env.(e_Topic) c1 m.(loc).(p_bus)) env.(e_Topic)).
  rewrite subscribers_drop. naive_solver.
Qed.

(** A subscribe whose [since] is no position is refused with an error,
    but only after the user was recorded as a subscriber of the topic, which
    the connection is not. *)
Theorem failed_subscribe_recorded c env r e m x y :
  d.(d_Authorizer) = None → env.(e_Since) = Some (JStr r) → unquote r ≠ SinceAck →
  parseSinceCursor (unquote r) = Err e →
  as_str (keys m.(srv)) (lockKey env.(e_Topic) LockSubscribe) = Some None →
  as_set (keys m.(srv)) (topicKey env.(e_Topic)) = Some x →
  as_set (keys m.(srv)) (subscribedTopicsKey (UserKey c)) = Some y →
  wp0 (handleSubscribe d c env) (λ r m',
    r = Err e ∧ m'.(loc) = m.(loc) ∧
    ∃ x', as_set (keys m'.(srv)) (topicKey env.(e_Topic)) = Some x' ∧ UserKey c ∈ x') m.
Proof.
  intros Ha Hs Hack Hc Hlock Hx Hy. unfold handleSubscribe, authorize. rewrite Ha, Hs. cbv zeta. cbn [rbind bind].
  unfold IsTopicLockedByOther, get. do 2 (apply wp0_rbind || apply wp0_wrapped). apply wp0_bind. wp0_next Hg.
  rewrite Hlock in Hg. destruct Hg as (->&Hk&_). cbn [wp0]. change (errors_Is redis_nil RedisNil) with true. cbn [wp0 wrap_err].
  apply wp0_rbind. eapply wp0_mono; [eapply AddTopicSubscription_wp0|]; cbn [srv]; rewrite ?Hk; [done|done|].
  intros r' m1 (->&Hl&Hx1). cbn [SinceToString]. rewrite decide_False by done.
  unfold SubscribeWithReplay. rewrite Hc. cbn [rbind bind wp0]. by rewrite Hl.
Qed.

End gaps.
