(* ===== verification/DispatchWitness.v ===== *)
(** * Concrete runs of the dispatcher

    Sockets are pairs of an identifier and a user, and a hub is the list of
    frames handed to them, replies marked; the answers to a frame are run on
    the hub itself. *)

From S2P Require Import Prelude GoStrings Redis RedisModel Prog Time StreamID Json Protocol Judge RateLimit Bus BusInv.
From S2P Require Import Conn Hub Locks Store Jobs SchedStore Inbound Authz Handler Dispatch Reply Answers Gate Cleanup Gaps.
Local Open Scope Z_scope.

Abbreviation sock := (string * string)%type.
Abbreviation outbox := (list (sock * string * bool)).

#[local] Instance quote_id : GoQuote := {| Quote := λ s, s |}.
#[local] Instance time_errors : TimeErrors := λ s, "parsing time " +:+ s.

#[local] Instance out_target : Target sock outbox := {|
  Bus.Send := λ c f h, h ++ [(c, f, false)];
  Bus.SendReporting := λ c, None;
  Bus.SubscriberID := λ c, Some c.1;
  Bus.SendToUser := λ u f h, h;
  Bus.SendToConn := λ i f h, h;
|}.

#[local] Instance out_session : Session sock outbox () := {|
  UserKey := snd; ConnID := fst; ConnClaims := λ _, None;
  SendNow := λ c f h, h ++ [(c, f, true)];
|}.

Abbreviation proc := (@Bus.proc sock _ _ outbox).

Definition quiet_bus : Bus.Config := {|
  StreamMaxLength := 100; StreamTTL := 0; InstanceID := "i1"; cfg_Judge := None; cfg_Candidates := None;
  JudgeFailurePolicy := DeliverAll;
|}.

(** A server with the given policy and nothing else configured. *)
Definition deps (az : option (Request () → prog proc (result ()))) : @Deps sock _ _ outbox () := {|
  BusConfig := quiet_bus; MessageRateLimit := DefaultMessageConfig 50; JobRateLimit := DefaultJobConfig 30;
  OnSchedulerWake := None; d_Authorizer := az; d_Registry := None; d_Middleware := []; AckCursorTTL := 0;
  OnConnect := None; OnDisconnect := None; PresenceTopic := "";
|}.

Definition rules_policy (r : Rules) : option (Request () → prog proc (result ())) := Some (λ req, Ret (Authorize r req)).

Definition alice : sock := ("c1", "alice").
Definition alice2 : sock := ("c2", "alice").

Definition empty_proc : proc := Proc (Bus ∅ ∅ 0) [] 0.

Definition start (ks : keyspace) : mem server proc := Mem (Server ks [] 0) empty_proc 1000.

Definition q : string := String dquote EmptyString.

(** [{"type":<ty>,"topic":<t>,"reqID":"7"}] *)
Definition frame (ty t : string) : string :=
  "{" +:+ q +:+ "type" +:+ q +:+ ":" +:+ q +:+ ty +:+ q +:+ "," +:+ q +:+ "topic" +:+ q +:+ ":" +:+ q +:+ t +:+ q
  +:+ "," +:+ q +:+ "reqID" +:+ q +:+ ":" +:+ q +:+ "7" +:+ q +:+ "}".

Definition env (ty t : string) : Envelope := {|
  e_Type := ty; e_Topic := t; e_Data := RawNil; e_JobData := None; e_JobID := ""; e_LockType := "";
  e_Since := None; e_ReqID := "7"; e_Report := false; e_StreamID := ""; e_Version := None;
|}.

(** A subscribe over a network that loses the reply of the lock check. *)
Definition lossy : list (N * fault) := [(0%N, Fine); (5%N, LostReply "i/o timeout" true)].

(** *** Answers on the hub *)

#[local] Instance map_order : MapRange := {| range_users := map_to_list; range_users_perm m := reflexivity _ |}.

(** No reply has to wait, and a closed connection is seen as closed. *)
#[local] Instance calm : World () := {|
  claims_of := λ _, None; meets := λ _ _ _, {| others := []; sel := false; gone := false |} |}.

Definition bare_server : @Deps handle _ _ replies () := {|
  BusConfig := quiet_bus; MessageRateLimit := DefaultMessageConfig 50; JobRateLimit := DefaultJobConfig 30;
  OnSchedulerWake := None; d_Authorizer := None; d_Registry := None; d_Middleware := []; AckCursorTTL := 0;
  OnConnect := None; OnDisconnect := None; PresenceTopic := "";
|}.

Definition tab : handle := {| ptr := 1; conn_id := "c1"; conn_user := "alice" |}.
Definition tab_conn : Conn :=
  NewConn {| cfg_UserKey := "alice"; MaxBufferedBytes := 0; SendChanCapacity := 0; cfg_ID := "c1"; MaxConsecutiveDrops := 100 |} "".

Definition one_tab (x : Conn) : mem server (@Bus.proc handle _ _ replies) :=
  Mem (Server ∅ [] 0) (Proc (Bus ∅ ∅ 0) {| the_hub := {| users := {[ "alice" := [tab] ]}; heap := {[ tab := x ]} |}; handed := [] |} 0) 1000.

Lemma Dispatch_answers_witness :
  let m := one_tab tab_conn in
  let '(ok, m') := outcome (Dispatch bare_server tab (frame "subscribe" "news")) lossy m in
  ok = true ∧ ∃ w : list (string * fate), answered (frame "subscribe" "news") w.*1 ∧
    m'.(loc).(p_hub).(handed) = m.(loc).(p_hub).(handed) ++ ((λ x, (tab, x.1, x.2)) <$> w) ∧
    ∀ f, (f, ConnClosed) ∈ w → shut m'.(loc).(p_hub).(the_hub) tab.
Proof.
  apply (Dispatch_answers bare_server tab).
  - intros az [=].
  - intros wake [=].
  - by split.
  - intros c f Hin. by apply elem_of_nil in Hin.
Defined.

Definition answer_of (x : Conn) : list (string * fate) :=
  (λ y, (y.1.2, y.2)) <$> (outcome (Dispatch bare_server tab (frame "subscribe" "news")) lossy (one_tab x)).2.(loc).(p_hub).(handed).

Example answered_with_error :
  answer_of tab_conn = [(EncodeError "7" "check subscribe lock: get lock owner: i/o timeout", Sent)].
Proof. vm_compute. reflexivity. Qed.

(** The socket closed while the frame was handled. *)
Example answer_lost :
  answer_of (Close CloseGoingAway "server shutting down" tab_conn) =
  [(EncodeError "7" "check subscribe lock: get lock owner: i/o timeout", ConnClosed)].
Proof. vm_compute. reflexivity. Qed.

Definition tenants : Rules := {[ "publish" := ["tenant.{userKey}.*"] ]}.

Lemma refused_no_effect_witness :
  let m := start ∅ in
  let '(r, m1) := outcome (Allow "msg" "alice" (DefaultMessageConfig 50)) [] m in
  outcome (Dispatch (deps (rules_policy tenants)) alice (frame "subscribe" "tenant.bob.in")) [] m =
    (true, say alice (EncodeError "7"
      match r with
      | Ok true => "Not authorized to subscribe topic tenant.bob.in."
      | Ok false => "Rate limit exceeded" | Err _ => "Internal error" end) m1).
Proof.
  assert (read_envelope (frame "subscribe" "tenant.bob.in") = Some (env "subscribe" "tenant.bob.in")) as Hr
    by (vm_compute; reflexivity).
  assert (policy_says (deps (rules_policy tenants)) alice ActionSubscribe "tenant.bob.in"
    (Err (denial ActionSubscribe "tenant.bob.in"))) as Hp.
  { eexists. split; [reflexivity|]. vm_compute. reflexivity. }
  exact (refused_no_effect (deps (rules_policy tenants)) alice _ _ _ (start ∅) [] eq_refl eq_refl Hr
    (refused_denied _ _ (env "subscribe" "tenant.bob.in") ActionSubscribe _ eq_refl eq_refl Hp)).
Defined.

Lemma locked_publish_refused_witness :
  let m := start {[ "publish:lock:news" := Entry (RStr "bob") (Some 300000) ]} in
  let '(r, m') := outcome (handlePublish (deps None) alice (env "publish" "news")) [] m in
  m'.(clock) < 301000 → is_ok r = false ∧ pubs m'.(srv) = pubs m.(srv).
Proof.
  apply (locked_publish_refused (deps None) alice 301000 "bob" (env "publish" "news")).
  - discriminate.
  - intros _. vm_compute. reflexivity.
  - reflexivity.
Defined.

(** ** Disconnecting *)

(** Alice is connected twice, here and through another instance, holds a lock
    and is subscribed to a topic. *)
Definition twice : keyspace :=
  <["conn:count:alice" := Entry (RStr "2") None]>
  (<["activeConnections" := Entry (RSet {[ "alice" ]}) None]>
  (<["publish:lock:doc" := Entry (RStr "alice") (Some 300000)]>
  (<["alice:lockedTopics" := Entry (RSet {[ "doc" ]}) None]>
  (<["topic:news" := Entry (RSet {[ "alice" ]}) None]>
  {[ "alice:subscribedTopics" := Entry (RSet {[ "news" ]}) None ]})))).

Lemma idle_bus_ok : bus_ok (empty_proc.(p_bus)).
Proof. split; [done|done|]. by intros s t [? ?]. Qed.

Lemma twice_holdings : holdings "alice" {[ "doc" ]} {[ "news" ]} twice.
Proof.
  split; [reflexivity|reflexivity| |].
  - intros t Ht. apply elem_of_singleton in Ht as ->. split; vm_compute; discriminate.
  - intros t Ht. apply elem_of_singleton in Ht as ->. eexists. vm_compute. reflexivity.
Qed.

Lemma Cleanup_complete_witness :
  wp0 (Cleanup (deps None) alice true) (λ _ m',
    (∀ t, t ∈ ({[ "doc" ]} : gset string) → ¬ holds (keys m'.(srv)) t LockPublish (UserKey alice) ∧ ¬ holds (keys m'.(srv)) t LockSubscribe (UserKey alice)) ∧
    (∀ t, t ∈ ({[ "news" ]} : gset string) → ∃ s, as_set (keys m'.(srv)) (topicKey t) = Some s ∧ UserKey alice ∉ s) ∧
    as_set (keys m'.(srv)) (subscribedTopicsKey (UserKey alice)) = Some ∅ ∧
    (∀ t, alice ∉ subscribers m'.(loc).(p_bus) t)) (start twice).
Proof.
  apply (Cleanup_complete (deps None) alice {[ "doc" ]} {[ "news" ]} (start twice)).
  - split; reflexivity.
  - exact idle_bus_ok.
  - exact twice_holdings.
Defined.

(** An instance takes its own last socket of a user for the user's last
    one: when it closes, the user loses the locks and subscriptions although
    the connection count says that another socket is open elsewhere. *)
Theorem cleanup_elsewhere :
  let '(_, m') := outcome (Cleanup (deps None) alice true) [] (start twice) in
  as_str (keys m'.(srv)) (countKey "alice") = Some (Some "1") ∧
  as_str (keys m'.(srv)) (lockKey "doc" LockPublish) = Some None ∧
  as_set (keys m'.(srv)) (topicKey "news") = Some ∅ ∧
  as_set (keys m'.(srv)) activeKey = Some {[ "alice" ]}.
Proof. vm_compute. done. Qed.

(** ** Two sockets *)

Definition both_subscribed : mem server proc :=
  Mem (Server twice [] 0) (Proc (Bus {[ "news" := {[ alice; alice2 ]} ]} ∅ 2) [] 0) 1000.

Lemma unsubscribe_other_socket_witness :
  wp0 (handleUnsubscribe alice (env "unsubscribe" "news")) (λ r m',
    is_ok r = true ∧ alice2 ∈ subscribers m'.(loc).(p_bus) "news" ∧
    ∃ x', as_set (keys m'.(srv)) (topicKey "news") = Some x' ∧ UserKey alice2 ∉ x') both_subscribed.
Proof.
  apply (unsubscribe_other_socket alice alice2 (env "unsubscribe" "news") both_subscribed {[ "alice" ]} {[ "news" ]}).
  - discriminate.
  - reflexivity.
  - vm_compute. reflexivity.
  - reflexivity.
  - reflexivity.
Defined.

Definition env_since (s : string) : Envelope := {|
  e_Type := "subscribe"; e_Topic := "news"; e_Data := RawNil; e_JobData := None; e_JobID := ""; e_LockType := "";
  e_Since := Some (jstring s); e_ReqID := "7"; e_Report := false; e_StreamID := ""; e_Version := None;
|}.

Lemma failed_subscribe_recorded_witness :
  Validate (env_since "yesterday") = Ok () ∧
  wp0 (handleSubscribe (deps None) alice (env_since "yesterday")) (λ r m',
    r = Err (errors_New "Invalid `since`: must be ISO timestamp or stream ID (got yesterday)") ∧ m'.(loc) = (start ∅).(loc) ∧
    ∃ x', as_set (keys m'.(srv)) (topicKey "news") = Some x' ∧ UserKey alice ∈ x') (start ∅).
Proof.
  split; [vm_compute; reflexivity|].
  apply (failed_subscribe_recorded (deps None) alice (env_since "yesterday") (quote "yesterday") _ (start ∅) ∅ ∅).
  - reflexivity.
  - reflexivity.
  - rewrite unquote_quote. discriminate.
  - vm_compute. reflexivity.
  - reflexivity.
  - reflexivity.
  - reflexivity.
Defined.
