(* ===== verification/Scheduler.v ===== *)
(** * The job runner (internal/scheduler/scheduler.go)

    Every instance runs this loop over the shared job store.  The HTTP client
    and the clock of the loop's sleeps belong to the world outside. *)

From S2P Require Import Prelude GoStrings Redis RedisModel Prog Time Json Judge Jobs SchedStore.
Local Open Scope Z_scope.
Local Open Scope prog_scope.

(** A request as it is handed to the HTTP client. *)
Record request : Type := { rq_method : string; rq_url : string; rq_header : gmap string string; rq_body : option string }.

Class HttpWorld (L : Type) : Type := {
  (** Why [http.NewRequest] refuses a method or a URL. *)
  new_request_error : string → string → option string;
  (** [client.Do]: the status code of the response. *)
  client_do : request → L → result Z * L;
  (** [sleepCtx]: false when the context ends first. *)
  sleepCtx : Z → L → bool * L;
  (** Map iteration order. *)
  range_headers : gmap string string → list (string * string);
  range_headers_perm h : range_headers h ≡ₚ map_to_list h;
}.

Record Config (L : Type) : Type := {
  InstanceID : string;
  (** [ssrf.Guard.Validate], which asks the resolver; [None] for a nil guard. *)
  Guard : option (string → L → result () * L);
}.
Arguments InstanceID {L} c.
Arguments Guard {L} c.

(** ** One request *)

(** [textproto.CanonicalMIMEHeaderKey]. *)
Definition is_token (c : ascii) : bool :=
  let n := Z.of_N (N_of_ascii c) in
  ((97 <=? n) && (n <=? 122)) || ((65 <=? n) && (n <=? 90)) || ((48 <=? n) && (n <=? 57))
  || bool_decide (c ∈ ["!"; "#"; "$"; "%"; "&"; "'"; "*"; "+"; "-"; "."; "^"; "_"; "`"; "|"; "~"]%char).

Definition to_upper (c : ascii) : ascii :=
  let n := Z.of_N (N_of_ascii c) in if (97 <=? n) && (n <=? 122) then ascii_of_N (Z.to_N (n - 32)) else c.
Definition to_lower (c : ascii) : ascii :=
  let n := Z.of_N (N_of_ascii c) in if (65 <=? n) && (n <=? 90) then ascii_of_N (Z.to_N (n + 32)) else c.

Fixpoint canonical_loop (upper : bool) (s : string) : string :=
  match s with
  | EmptyString => ""
  | String c s => String (if upper then to_upper c else to_lower c) (canonical_loop (bool_decide (c = "-"%char)) s)
  end.

Fixpoint all_tokens (s : string) : bool :=
  match s with EmptyString => true | String c s => is_token c && all_tokens s end.

Definition CanonicalHeaderKey (s : string) : string := if all_tokens s then canonical_loop true s else s.

Example canonical_ct : CanonicalHeaderKey "content-type" = "Content-Type".
Proof. reflexivity. Qed.

Section scheduler.
Context {L : Type} `{!TimeErrors} `{!HttpWorld L}.

Definition set_all (l : list (string * string)) : gmap string string :=
  foldl (λ h p, <[CanonicalHeaderKey p.1 := p.2]> h) ∅ l.

(** [None] is a panic: without a payload [readerOrNil] returns a nil
    [*bytes.Reader], which as an [io.Reader] is not nil, and
    [http.NewRequestWithContext] calls its [Len]. *)
Definition doRequest (jd : JobData) : prog L (option (result ())) :=
  let body := match jd.(Payload) with
              | RawNil => None
              | Raw j => Some (print j "")
              | RawBad t => if decide (t = "") then None else Some t
              end in
  match new_request_error jd.(Method) jd.(APIEndpoint) with
  | Some e => Ret (Some (Err (errors_New ("build request: " +:+ e))))
  | None =>
      match body with
      | None => Ret None
      | Some b =>
          let h := set_all (range_headers jd.(Headers)) in
          let h := if decide (default "" (h !! "Content-Type") = "")
                   then <["Content-Type" := "application/json"]> h else h in
          bind (local_ (client_do {| rq_method := jd.(Method); rq_url := jd.(APIEndpoint); rq_header := h; rq_body := Some b |}))
            (λ r, Ret (Some (match r with
              | Err e => Err (Errorf_w "http do: " e)
              | Ok status => if 400 <=? status then Err (errors_New ("non-success status " +:+ FormatInt status)) else Ok ()
              end)))
      end
  end.

(** The attempts left; the last failure is returned. *)
Fixpoint attempts (n : nat) (retryDelay : Z) (jd : JobData) : prog L (option (result ())) :=
  match n with
  | O => Ret (Some (Ok ()))
  | S n' =>
      bind (doRequest jd) (λ r,
      match r with
      | Some (Err e) =>
          match n' with
          | O => Ret (Some (Err e))
          | _ => bind (local_ (sleepCtx retryDelay)) (λ alive : bool,
                   if alive then attempts n' retryDelay jd
                   else Ret (Some (Err (errors_New "context canceled"))))
          end
      | _ => Ret r
      end)
  end.

Definition maxAttempts (jd : JobData) : Z :=
  match jd.(RetryPolicy) with Some r => if 0 <? r.(MaxRetries) then r.(MaxRetries) else 1 | None => 1 end.

(** In nanoseconds. *)
Definition retryDelay (jd : JobData) : Z :=
  match jd.(RetryPolicy) with
  | Some r => if 0 <? r.(RetryDelay) then wrap64 (r.(RetryDelay) * 1000000) else 1000000000
  | None => 1000000000
  end.

Context (cfg : Config L).

Definition executeJob (jd : JobData) : prog L (option (result ())) :=
  bind (match cfg.(Guard) with Some validate => local_ (validate jd.(APIEndpoint)) | None => Ret (Ok ()) end) (λ r,
  match r with
  | Err e => Ret (Some (Err e))
  | Ok _ => attempts (Z.to_nat (maxAttempts jd)) (retryDelay jd) jd
  end).

(** ** One due job *)

(** [validUntil] lies before an instant; a value that does not parse is
    ignored. *)
Definition valid_before (jd : JobData) (before : instant → bool) : bool :=
  if decide (jd.(ValidUntil) = "") then false
  else match ParseValidUntil jd.(ValidUntil) with Ok (Some vu) => before vu | _ => false end.

Definition with_executeAt (s : string) (jd : JobData) : JobData := {|
  JobID := jd.(JobID); APIEndpoint := jd.(APIEndpoint); Method := jd.(Method); Headers := jd.(Headers);
  Payload := jd.(Payload); RetryPolicy := jd.(RetryPolicy); ExecuteAt := s; ValidUntil := jd.(ValidUntil);
  Interval := jd.(Interval);
|}.

Definition reschedule (jd : JobData) (nowMs : Z) : prog L () :=
  if jd.(Interval) <=? 0 then Ret ()
  else
    let nextMs := wrap64 (nowMs + jd.(Interval)) in
    if valid_before jd (λ vu, UnixMilli vu <? nextMs) then Ret ()
    else
      let jd := with_executeAt (Format_RFC3339Nano (of_UnixMilli nextMs)) jd in
      bind (AddRescheduledJob {| s_JobID := jd.(JobID); s_JobData := Some jd |} nextMs) (λ _, Ret ()).

(** [false]: the process has panicked.  [now] is in ms. *)
Definition processDue (d : DueJobsResult) (now : Z) : prog L bool :=
  match d.(Job).(s_JobData) with
  | None => bind (RemoveJobMember d.(RawMember)) (λ _, Ret true)
  | Some jd =>
      if valid_before jd (λ vu, vu <? of_UnixMilli now)
      then bind (RemoveJobMember d.(RawMember)) (λ _, Ret true)
      else
        bind (ClaimJob jd.(JobID) cfg.(InstanceID) 30000) (λ claimed,
        match claimed with
        | Ok true =>
            bind (RemoveJobMember d.(RawMember)) (λ removed,
            match removed with
            | Ok true =>
                bind (executeJob jd) (λ r,
                match r with
                | None => Ret false
                | Some _ => bind (reschedule jd now) (λ _, Ret true)
                end)
            | _ => Ret true
            end)
        | _ => Ret true
        end)
  end.

Fixpoint process_all (due : list DueJobsResult) (now : Z) : prog L bool :=
  match due with
  | [] => Ret true
  | d :: due => bind (processDue d now) (λ alive : bool, if alive then process_all due now else Ret false)
  end.

Definition tick : prog L bool :=
  bind now (λ now,
  bind (ListDueJobs now) (λ due,
  match due with
  | Err _ => Ret true
  | Ok due => process_all due now
  end)).

(** One turn of the loop of [Run]: sleep so long (in ms) unless woken, sleep so
    long after a failure, go round at once, or the process is gone. *)
Inductive next : Type := Sleep (ms : Z) | Backoff (ms : Z) | Again | Crashed.

(** The longest [time.Duration], at which [time.Until] saturates, in ms. *)
Definition max_duration : Z := 9223372036854.

Definition Run_turn : prog L next :=
  bind NextDueAt (λ r,
  match r with
  | Err _ => Ret (Backoff 1000)
  | Ok None => Ret (Sleep 3600000)
  | Ok (Some nextMs) =>
      bind JobCount (λ _,
      bind Prog.now (λ now,
      if 0 <? nextMs - now then Ret (Sleep (Z.min (nextMs - now) max_duration))
      else bind tick (λ alive : bool, Ret (if alive then Again else Crashed))))
  end).

Definition ResumeOnStartup : prog L (result Z) := JobCount.
End scheduler.

(** [MarshalJobForLog]: the job without its headers. *)
Definition MarshalJobForLog (jd : option JobData) : result string :=
  match jd with
  | None => Err (errors_New "nil job")
  | Some jd =>
      match job_json {| JobID := jd.(JobID); APIEndpoint := jd.(APIEndpoint); Method := jd.(Method); Headers := ∅;
        Payload := jd.(Payload); RetryPolicy := jd.(RetryPolicy); ExecuteAt := jd.(ExecuteAt);
        ValidUntil := jd.(ValidUntil); Interval := jd.(Interval) |} with
      | Some j => Ok (print j "")
      | None => Err marshal_error
      end
  end.
