(* ===== verification/SchedOnce.v ===== *)
(** * A due job is executed by one instance only

    Any number of instances process the same due entry at once, each step of
    each interleaved at will and any round trip lost.  The atomic [ZREM] is
    the token: whoever removes the member may send the job's requests, nobody
    else sends any. *)

From S2P Require Import Prelude GoStrings Redis RedisModel Prog Time Json Judge Jobs SchedStore Scheduler.
Local Open Scope Z_scope.

(** How many requests a process state has seen go out. *)
Class HttpCount (L : Type) `{!HttpWorld L} : Type := {
  sent : L → nat;
  sent_do req l : sent (client_do req l).2 = S (sent l);
  sent_sleep d l : sent (sleepCtx d l).2 = sent l;
}.

Section once.
Context `{RedisServer Srv} `{!RedisLaws Srv} {L : Type} `{!HttpWorld L} `{!HttpCount L} `{!TimeErrors}.
Context (raw_member : string).
Implicit Types (m : mem Srv L).

Definition in_keys (ks : keyspace) : bool :=
  match as_zset ks SchedulerSetKey with
  | Some z => bool_decide (is_Some (z !! raw_member))
  | None => false
  end.

Definition in_set m : bool := in_keys (keys m.(srv)).

(** Sends nothing and does not bring the member back. *)
Definition quiet {R} (e : event L R) : Prop :=
  ∀ f m, sent (event_step f e m).2.(loc) = sent m.(loc) ∧
         (in_set (event_step f e m).2 = true → in_set m = true).

(** At most [n] requests. *)
Inductive sends {A} : nat → prog L A → Prop :=
| sends_ret n a : sends n (Ret a)
| sends_do n R (e : event L R) k : quiet e → (∀ r, sends n (k r)) → sends n (Do e k)
| sends_http n req k : (∀ r, sends n (k r)) → sends (S n) (Do (Local (client_do req)) k).

(** None before it takes the member out of the set, and then at most [n]. *)
Inductive waits {A} (n : nat) : prog L A → Prop :=
| waits_ret a : waits n (Ret a)
| waits_do R (e : event L R) k : quiet e → (∀ r, waits n (k r)) → waits n (Do e k)
| waits_zrem k :
    (∀ r, sends (if r is Ok c then if 0 <? c then n else 0%nat else 0%nat) (k r)) →
    waits n (Do (Redis (ZREM SchedulerSetKey raw_member)) k).

Lemma sends_mono {A} n n' (p : prog L A) : sends n p → (n ≤ n')%nat → sends n' p.
Proof.
  intros Hp. revert n'. induction Hp as [n r|n R e k He _ IH|n req k _ IH]; intros n' Hn.
  - constructor.
  - constructor; auto.
  - destruct n' as [|n']; [lia|]. apply sends_http. intros r. apply IH. lia.
Qed.

Lemma sends_bind {A B} a b (p : prog L A) (k : A → prog L B) :
  sends a p → (∀ r, sends b (k r)) → sends (a + b) (bind p k).
Proof.
  intros Hp Hk. induction Hp as [n r|n R e k' He _ IH|n req k' _ IH]; cbn.
  - apply (sends_mono b); [done|lia].
  - by apply sends_do.
  - by apply sends_http.
Qed.

Lemma quiet_redis {R} (c : rcmd R) :
  (∀ s : Srv, in_keys (keys (exec c s).2) = true → in_keys (keys s) = true) → quiet (Redis c).
Proof.
  intros Hc f m. cbn. unfold with_srv. destruct f; cbn; try done.
  1: by pose proof (Hc (srv m)) as Hs; destruct (exec c (srv m)).
  all: split; [done|]; apply Hc.
Qed.

Lemma quiet_setnx k v ttl : k ≠ SchedulerSetKey → quiet (Redis (SETNX k v ttl)).
Proof.
  intros Hk. apply quiet_redis. intros s. pose proof (law_setnx k v ttl s) as Hl.
  destruct (keys s !! k); destruct Hl as (_ & -> & _); [done|].
  unfold in_keys, as_zset. by rewrite lookup_insert_ne.
Qed.

Lemma quiet_zadd sc p : p ≠ raw_member → quiet (Redis (ZADD SchedulerSetKey sc p)).
Proof.
  intros Hp. apply quiet_redis. intros s. pose proof (law_zadd SchedulerSetKey sc p s) as Hl.
  unfold in_keys at 2. destruct (as_zset (keys s) _) as [z|] eqn:Hz; destruct Hl as (_ & -> & _).
  - unfold in_keys. rewrite as_zset_put, lookup_insert_ne by done. done.
  - unfold in_keys. by rewrite Hz.
Qed.

Lemma quiet_local {R} (g : L → R * L) : (∀ l, sent (g l).2 = sent l) → quiet (Local g).
Proof. intros Hg f m. cbn. specialize (Hg (loc m)). by destruct (g (loc m)). Qed.

(** *** The programs *)

Lemma sends_doRequest jd : sends 1 (doRequest jd).
Proof.
  unfold doRequest. destruct (new_request_error _ _); [constructor|].
  destruct (match Payload jd with RawNil => _ | _ => _ end) as [b|]; [|constructor].
  apply sends_http. intros r. constructor.
Qed.

Lemma sends_attempts n d jd : sends n (attempts n d jd).
Proof.
  induction n as [|n IH]; [constructor|]. cbn [attempts]. change (S n) with (1 + n)%nat.
  apply sends_bind; [apply sends_doRequest|]. intros [[u|e]|]; [constructor| |constructor].
  destruct n; [constructor|]. apply sends_do; [by apply quiet_local, sent_sleep|].
  intros []; [done|constructor].
Qed.

(** The guard asks the resolver and sends no request. *)
Definition guard_quiet (cfg : Config L) : Prop :=
  ∀ validate, cfg.(Guard) = Some validate → ∀ u l, sent (validate u l).2 = sent l.

Lemma sends_executeJob cfg jd : guard_quiet cfg → sends (Z.to_nat (maxAttempts jd)) (executeJob cfg jd).
Proof.
  intros Hg. unfold executeJob. change (Z.to_nat (maxAttempts jd)) with (0 + Z.to_nat (maxAttempts jd))%nat at 1.
  apply sends_bind.
  - destruct (Guard cfg) as [v|] eqn:E; [|constructor].
    apply sends_do; [by apply quiet_local, Hg|]. constructor.
  - intros [u|e]; [apply sends_attempts|constructor].
Qed.

(** Rescheduling does not write the same member again. *)
Definition moves_on (jd : JobData) (now : Z) : Prop :=
  0 < jd.(Interval) →
  let jd' := with_executeAt (Format_RFC3339Nano (of_UnixMilli (wrap64 (now + jd.(Interval))))) jd in
  marshal_stored {| s_JobID := jd'.(JobID); s_JobData := Some jd' |} ≠ Some raw_member.

Lemma sends_reschedule jd now : moves_on jd now → sends 0 (reschedule jd now).
Proof.
  intros Hm. unfold reschedule. destruct (Z.leb_spec (Interval jd) 0); [constructor|].
  destruct (valid_before _ _); [constructor|]. unfold AddRescheduledJob. specialize (Hm ltac:(lia)).
  destruct (marshal_stored _) as [p|] eqn:E; [|constructor].
  apply sends_do; [apply quiet_zadd; intros ->; by apply Hm|]. intros [|]; constructor.
Qed.

Lemma waits_processDue cfg d now jd :
  d.(RawMember) = raw_member → d.(Job).(s_JobData) = Some jd → guard_quiet cfg → moves_on jd now →
  waits (Z.to_nat (maxAttempts jd)) (processDue cfg d now).
Proof.
  intros Hr Hj Hg Hm. unfold processDue. rewrite Hj, Hr. destruct (valid_before _ _).
  { apply waits_zrem. intros [c|]; [|constructor]. cbn. case_match; constructor. }
  apply waits_do; [by apply quiet_setnx|]. intros [claimed|]; [|constructor].
  destruct claimed; [|constructor]. apply waits_zrem. intros [c|]; [|constructor]. cbn.
  destruct (0 <? c); [|constructor].
  rewrite <- (Nat.add_0_r (Z.to_nat _)).
  apply sends_bind; [by apply sends_executeJob|]. intros [r|]; [|constructor].
  change 0%nat with (0 + 0)%nat. apply sends_bind; [by apply sends_reschedule|]. constructor.
Qed.

(** *** Any interleaving *)

Definition owes (n : nat) {A} (p : prog L A) (b : nat) : Prop := sends b p ∨ (b = 0%nat ∧ waits n p).

Definition token (n : nat) m : nat := if in_set m then n else 0.

(** Whoever is told that the member was removed takes the token with it. *)
Lemma zrem_token n f m :
  let '(r, m') := event_step f (Redis (ZREM SchedulerSetKey raw_member)) m in
  sent m'.(loc) = sent m.(loc) ∧
  ((if r is Ok c then if (0 <? c)%Z then n else 0 else 0) + token n m' ≤ token n m)%nat.
Proof.
  cbn. unfold with_srv, token, in_set, in_keys. pose proof (law_zrem SchedulerSetKey raw_member m.(srv)) as Hl.
  destruct f as [|t tm|t tm|]; cbn; [|by split|..].
  all: destruct (as_zset (keys (srv m)) _) as [z|] eqn:Hz; destruct Hl as (H1 & H2 & _);
    destruct (exec _ (srv m)) as [r' s']; cbn in *; simplify_eq; cbn; split; try done; rewrite H2.
  all: rewrite ?as_zset_put, ?lookup_delete_eq, ?Hz; try done; destruct (z !! raw_member); cbn; lia.
Qed.

(** One step of one program: what was sent, what it may still send and what
    the token is worth never add up to more. *)
Lemma owes_step n {A} (p : prog L A) b f m :
  owes n p b →
  ∃ b', owes n (prog_step f p m).1 b' ∧
        (sent (prog_step f p m).2.(loc) + b' + token n (prog_step f p m).2 ≤ sent m.(loc) + b + token n m)%nat.
Proof.
  assert (∀ R (e : event L R), quiet e →
    (sent (event_step f e m).2.(loc) + token n (event_step f e m).2 ≤ sent m.(loc) + token n m)%nat) as Hq.
  { intros R e He. destruct (He f m) as [-> Hs]. unfold token.
    destruct (in_set (event_step f e m).2) eqn:E; [by rewrite (Hs eq_refl)|lia]. }
  intros [Hp|[-> Hp]].
  - destruct Hp as [b a|b R e k He Hk|b req k Hk]; cbn.
    + exists b. split; [left; constructor|lia].
    + specialize (Hq _ _ He). destruct (event_step f e m) as [r m'] eqn:E. exists b.
      split; [left; destruct (again f e); [by apply sends_do|apply Hk]|]. cbn in *. lia.
    + pose proof (sent_do req (loc m)) as Hs. destruct (client_do req (loc m)) as [r l]. exists b.
      split; [left; apply Hk|]. cbn in *. unfold token, in_set. cbn. lia.
  - destruct Hp as [a|R e k He Hk|k Hk]; cbn [prog_step].
    + exists 0%nat. split; [right; split; [done|constructor]|cbn; lia].
    + specialize (Hq _ _ He). destruct (event_step f e m) as [r m'] eqn:E. exists 0%nat.
      split; [right; split; [done|destruct (again f e); [by apply waits_do|apply Hk]]|]. cbn in *. lia.
    + pose proof (zrem_token n f m) as Ht. destruct (event_step f (Redis _) m) as [r m'] eqn:E. destruct Ht as [Hs Ht]. cbn [fst snd].
      match goal with |- context [again f ?e] => destruct (again f e) end.
      * exists 0%nat. split; [right; split; [done|by apply waits_zrem]|]. lia.
      * exists (if r is Ok c then if 0 <? c then n else 0%nat else 0%nat). split; [left; apply Hk|]. lia.
Qed.

Lemma token_pass n d m : (token n (pass d m) ≤ token n m)%nat.
Proof.
  unfold token, in_set, pass. cbn [srv]. rewrite law_elapse_keys.
  assert (in_keys (age (Z.of_N d) (keys m.(srv))) = true → in_keys (keys m.(srv)) = true) as Ha.
  { unfold in_keys, as_zset, age. rewrite lookup_omap.
    destruct (keys (srv m) !! SchedulerSetKey) as [[v ttl]|]; cbn; [|done].
    unfold age_entry; cbn. destruct ttl as [t|]; [destruct (t <=? Z.of_N d); cbn|].
    - by rewrite lookup_empty.
    - by destruct v.
    - by destruct v. }
  destruct (in_keys (age _ _)); [by rewrite Ha|lia].
Qed.

Lemma sum_list_insert (bs : list nat) i b b' :
  bs !! i = Some b → (sum_list (<[i := b']> bs) + b = sum_list bs + b')%nat.
Proof.
  revert i. induction bs as [|x bs IH]; intros [|i] Hi; simplify_eq/=; [lia|].
  specialize (IH i Hi). lia.
Qed.

Lemma owes_run n {A} (s : list sched_item) (ps : list (prog L A)) bs m :
  Forall2 (owes n) ps bs →
  ∃ bs', Forall2 (owes n) (srun s (ps, m)).1 bs' ∧
    (sent (srun s (ps, m)).2.(loc) + sum_list bs' + token n (srun s (ps, m)).2
     ≤ sent m.(loc) + sum_list bs + token n m)%nat.
Proof.
  revert ps bs m. induction s as [|it s IH]; intros ps bs m Hps; [by exists bs|].
  destruct it as [d|i f].
  - rewrite srun_tick. destruct (IH ps bs (pass d m) Hps) as (bs' & ? & ?). exists bs'. split; [done|].
    pose proof (token_pass n d m). cbn in *. lia.
  - rewrite srun_step. destruct (ps !! i) as [p|] eqn:Hi; [|by apply IH].
    destruct (Forall2_lookup_l _ _ _ _ _ Hps Hi) as (b & Hb & Hp).
    destruct (owes_step n p b f m Hp) as (b' & Hp' & Hle).
    destruct (prog_step f p m) as [p' m']. cbn [fst snd] in *.
    destruct (IH (<[i := p']> ps) (<[i := b']> bs) m') as (bs' & ? & Hle'); [by apply Forall2_insert|].
    exists bs'. split; [done|].
    pose proof (sum_list_insert bs i b b' Hb).
    lia.
Qed.

(** [C7] However many instances process a due entry at once, under any
    interleaving, delays and lost requests or replies, together they send at
    most the attempts one execution of the job may make. *)
Theorem at_most_once d jd (insts : list (Config L * Z)) (s : list sched_item) m :
  d.(RawMember) = raw_member → d.(Job).(s_JobData) = Some jd →
  Forall (λ p, guard_quiet p.1 ∧ moves_on jd p.2) insts →
  (sent (srun s ((λ p, processDue p.1 d p.2) <$> insts, m)).2.(loc)
   ≤ sent m.(loc) + Z.to_nat (maxAttempts jd))%nat.
Proof.
  intros Hr Hj Hi. set (n := Z.to_nat (maxAttempts jd)).
  destruct (owes_run n s ((λ p, processDue p.1 d p.2) <$> insts) ((λ _, 0%nat) <$> insts) m) as (bs' & _ & Hle).
  - apply Forall2_fmap. apply Forall_Forall2_diag. eapply Forall_impl; [exact Hi|].
    intros p [Hg Hm]. right. split; [done|]. by apply waits_processDue.
  - assert (sum_list ((λ _, 0%nat) <$> insts) = 0%nat) as Hz by (clear; by induction insts).
    assert (token n m ≤ n)%nat by (unfold token; case_match; lia). lia.
Qed.
End once.
