(* ===== verification/SchedRuns.v ===== *)
(** * Turns of the scheduler loop, and three ways it goes wrong

    When the loop sleeps and for how long; then what a job without a payload,
    a job due before 1970 and a job repeated within half a minute do to it. *)

From S2P Require Import Prelude GoStrings Redis RedisModel Prog Time Json Judge Jobs SchedStore Scheduler.
Local Open Scope Z_scope.

Section runs.
Context `{RedisServer Srv} `{!RedisLaws Srv} {L : Type} `{!HttpWorld L} `{!TimeErrors}.
Implicit Types (m : mem Srv L) (M : gmap string (JobData * Z)).

(** Programs that stay inside the process. *)
Lemma wp0_local_only {A} (p : prog L A) (Q : A → mem Srv L → Prop) m :
  all_events (λ R e, match e with Local _ => True | _ => False end) p →
  (∀ a m', m'.(srv) = m.(srv) → m'.(clock) = m.(clock) → Q a m') → wp0 p Q m.
Proof.
  intros Hp. revert m. induction Hp as [a|R e k He _ IH]; intros m HQ; cbn; [by apply HQ|].
  destruct e as [| |R g|]; try done. cbn. destruct (g (loc m)) as [r l]. apply IH.
  intros a m' Hs Hc. by apply HQ.
Qed.

Lemma local_attempts n dl jd : all_events (λ R e, match e : event L R with Local _ => True | _ => False end) (attempts n dl jd).
Proof.
  induction n as [|n IH]; [constructor|]. cbn [attempts]. apply all_events_bind.
  - unfold doRequest. destruct (new_request_error _ _); [constructor|].
    destruct (match Payload jd with RawNil => _ | _ => _ end); [|constructor].
    constructor; [done|]. constructor.
  - intros [[u|e]|]; [constructor| |constructor]. destruct n; [constructor|].
    constructor; [done|]. intros []; [done|constructor].
Qed.

Lemma local_executeJob cfg jd :
  all_events (λ R e, match e : event L R with Local _ => True | _ => False end) (executeJob cfg jd).
Proof.
  unfold executeJob. apply all_events_bind.
  - destruct (Guard cfg); [|constructor]. constructor; [done|constructor].
  - intros [u|e]; [apply local_attempts|constructor].
Qed.

(** ** Waiting *)

Lemma wp0_NextDueAt m M :
  jobs_are m M →
  wp0 NextDueAt (λ r m', m'.(loc) = m.(loc) ∧ m'.(clock) = m.(clock) ∧ keys m'.(srv) = keys m.(srv) ∧
    match r with
    | Ok None => M = ∅
    | Ok (Some ms) => ∃ id j sc, M !! id = Some (j, sc) ∧ ms = int64_of_float sc ∧
                        ∀ id' j' sc', M !! id' = Some (j', sc') → sc ≤ sc'
    | Err _ => False
    end) m.
Proof.
  intros (z & Hz & Hp). unfold NextDueAt. wp0_next H1. rewrite Hz in H1. destruct H1 as (Hk & _ & Hr).
  destruct r as [[[x sc]|]|e]; [| |done]; cbn; (split; [done|]); (split; [done|]); (split; [done|]).
  - destruct Hr as [Hx Hmin]. apply (pend_iff _ _ Hp) in Hx as (j & Hj & _).
    exists j.(JobID), j, sc. split; [done|]. split; [done|]. intros id' j' sc' Hj'.
    destruct (pend_job _ _ Hp _ _ _ Hj') as (<- & _ & [m' Hm']). apply (Hmin m').
    apply (pend_iff _ _ Hp). eauto.
  - subst z. apply map_empty. intros id. destruct (M !! id) as [[j sc]|] eqn:Hj; [|done].
    destruct (pend_job _ _ Hp _ _ _ Hj) as (<- & _ & [m' Hm']).
    assert ((∅ : gmap string Z) !! m' = Some sc) as He by (apply (pend_iff _ _ Hp); eauto).
    by rewrite lookup_empty in He.
Qed.

(** The turn up to the decision to sleep. *)
Lemma wp0_turn cfg m M Q :
  jobs_are m M →
  (∀ m', keys m'.(srv) = keys m.(srv) → m'.(loc) = m.(loc) → m'.(clock) = m.(clock) →
    (M = ∅ → Q (Sleep 3600000) m') ∧
    (∀ id j sc, M !! id = Some (j, sc) → (∀ id' j' sc', M !! id' = Some (j', sc') → sc ≤ sc') →
       if 0 <? int64_of_float sc - m.(clock) then Q (Sleep (Z.min (int64_of_float sc - m.(clock)) max_duration)) m'
       else wp0 (tick cfg) (λ alive, Q (if alive then Again else Crashed)) m')) →
  wp0 (Run_turn cfg) Q m.
Proof.
  intros HM HQ. unfold Run_turn. apply wp0_bind. eapply wp0_mono; [by eapply wp0_NextDueAt|].
  intros r m1 (Hl & Hc & Hk & Hr). destruct r as [[ms|]|e]; [| |done].
  - destruct Hr as (id & j & sc & Hj & -> & Hmin). destruct HM as (z & Hz & Hp). unfold JobCount.
    wp0_next H1. rewrite Hk, Hz in H1. destruct H1 as (-> & Hk2 & _). cbn [bind now act wp0 event_step clock].
    rewrite Hc. destruct (HQ (Mem s (loc m1) (clock m))) as [_ HQ']; cbn; [congruence|congruence|done|].
    specialize (HQ' id j sc Hj Hmin). destruct (0 <? _); [done|]. exact (wp0_bind (tick cfg) (λ alive : bool, Ret (if alive then Again else Crashed)) Q _ HQ').
  - cbn. by apply HQ.
Qed.

(** With nothing pending the loop sleeps an hour unless woken; otherwise it
    sleeps exactly until the earliest job is due, or as long as a duration can be.  Either way it has touched
    nothing. *)
Theorem Run_turn_waits cfg m M :
  jobs_are m M →
  (∀ id j sc, M !! id = Some (j, sc) → m.(clock) < sc ≤ max_int64) → 0 ≤ m.(clock) →
  wp0 (Run_turn cfg) (λ r m', keys m'.(srv) = keys m.(srv) ∧ m'.(loc) = m.(loc) ∧
    ((M = ∅ ∧ r = Sleep 3600000) ∨
     ∃ id j sc, M !! id = Some (j, sc) ∧ (∀ id' j' sc', M !! id' = Some (j', sc') → sc ≤ sc') ∧
       r = Sleep (Z.min (sc - m.(clock)) max_duration))) m.
Proof.
  intros HM Hlater Hclock. eapply wp0_turn; [done|]. intros m' Hk Hl Hc. split; [auto|].
  intros id j sc Hj Hmin. destruct (Hlater _ _ _ Hj) as [Hlo Hhi].
  assert (int64_of_float sc = sc) as ->.
  { unfold int64_of_float, min_int64, max_int64 in *. by rewrite !(proj2 (Z.leb_le _ _)) by lia. }
  rewrite (proj2 (Z.ltb_lt _ _)) by lia. eauto 10.
Qed.

(** ** Due before the epoch *)

(** A pending job due before 1970, which [executeAt] may spell and validation
    accepts, makes the loop spin: every turn finds the job due and goes round
    again without sleeping, and no turn ever lists it. *)
Theorem pre_epoch_spins cfg m M :
  jobs_are m M → M ≠ ∅ → (∀ id j sc, M !! id = Some (j, sc) → min_int64 ≤ sc < 0) → 0 ≤ m.(clock) →
  wp0 (Run_turn cfg) (λ r m', r = Again ∧ keys m'.(srv) = keys m.(srv) ∧ m'.(loc) = m.(loc)) m.
Proof.
  intros HM Hne Hneg Hclock. eapply wp0_turn; [done|]. intros m' Hk Hl Hc. split; [done|].
  intros id j sc Hj _. destruct (Hneg _ _ _ Hj) as [Hlo Hhi].
  assert (int64_of_float sc = sc) as ->.
  { unfold int64_of_float, min_int64, max_int64 in *. by rewrite !(proj2 (Z.leb_le _ _)) by lia. }
  rewrite (proj2 (Z.ltb_ge _ _)) by lia. unfold tick. apply wp0_bind. cbn [now act wp0 event_step].
  apply wp0_bind. unfold ListDueJobs. destruct HM as (z & Hz & Hp). wp0_next H1. rewrite Hk, Hz in H1.
  destruct H1 as (l & -> & [Hperm _] & Hk1 & _). cbn [wrap_err].
  assert (l = []) as ->.
  { assert (filter (λ p : string * Z, 0 ≤ p.2 ≤ clock m') z = ∅) as E.
    { apply map_empty. intros x. apply map_lookup_filter_None. right. intros sc' Hx ?.
      apply (pend_iff _ _ Hp) in Hx as (j' & Hj' & _). destruct (Hneg _ _ _ Hj'). cbn in *. lia. }
    rewrite E, map_to_list_empty in Hperm. by apply Permutation_nil_r in Hperm. }
  cbn. split; [done|]. split; [congruence|done].
Qed.

(** ** No payload *)

(** A job without a payload kills the process: the instance that wins the
    claim takes the job out of the set and panics building the request.  The
    job is lost, and so is everything else the process was doing. *)
Theorem no_payload_crashes cfg d jd now m z :
  d.(Job).(s_JobData) = Some jd → jd.(Payload) = RawNil →
  valid_before jd (λ vu, vu <? of_UnixMilli now) = false →
  (∀ v, cfg.(Guard) = Some v → (v jd.(APIEndpoint) m.(loc)).1 = Ok ()) →
  new_request_error jd.(Method) jd.(APIEndpoint) = None →
  keys m.(srv) !! (claimKeyPrefix +:+ jd.(JobID)) = None →
  as_zset (keys m.(srv)) SchedulerSetKey = Some z → is_Some (z !! d.(RawMember)) →
  wp0 (processDue cfg d now) (λ alive m', alive = false ∧
    as_zset (keys m'.(srv)) SchedulerSetKey = Some (delete d.(RawMember) z)) m.
Proof.
  intros Hj Hp Hv Hg Hn Hc Hz Hin. unfold processDue. rewrite Hj, Hv. unfold ClaimJob.
  wp0_next H1. rewrite Hc in H1. destruct H1 as (-> & Hk & _). cbn [wrap_err].
  assert (as_zset (keys s) SchedulerSetKey = Some z) as Hz'.
  { rewrite Hk, <- Hz. apply as_zset_ext. by rewrite lookup_insert_ne. }
  unfold RemoveJobMember. wp0_next H2. cbn [srv] in *. rewrite Hz' in H2. destruct H2 as (-> & Hk2 & _).
  cbn [wrap_err wp0]. rewrite bool_decide_true by done. change (0 <? Zcount true) with true. cbv iota.
  apply wp0_bind. unfold executeJob. apply wp0_bind.
  assert (∀ m', keys m'.(srv) = keys s0 →
    wp0 (attempts (Z.to_nat (maxAttempts jd)) (retryDelay jd) jd) (λ r,
      wp0 (match r with Some _ => bind (reschedule jd now) (λ _, Ret true) | None => Ret false end)
      (λ alive m', alive = false ∧ as_zset (keys m'.(srv)) SchedulerSetKey = Some (delete (RawMember d) z))) m') as Ha.
  { intros m' Hm'. destruct (Z.to_nat (maxAttempts jd)) as [|n] eqn:En.
    { unfold maxAttempts in En. destruct (RetryPolicy jd) as [r|]; [|done].
      destruct (Z.ltb_spec 0 (MaxRetries r)); lia. }
    cbn [attempts]. apply wp0_bind. unfold doRequest. rewrite Hn, Hp. cbn.
    split; [done|]. by rewrite Hm', Hk2, as_zset_put. }
  destruct (Guard cfg) as [v|]; cbn [wp0 local_ act event_step loc]; [|by apply Ha].
  specialize (Hg v eq_refl). destruct (v (APIEndpoint jd) (loc m)) as [r l]; cbn in Hg. subst r. by apply Ha.
Qed.

(** ** Claims *)

(** While a claim on a job lives, its due entries are passed over. *)
Lemma claimed_passed_over cfg d jd now m e :
  d.(Job).(s_JobData) = Some jd → valid_before jd (λ vu, vu <? of_UnixMilli now) = false →
  keys m.(srv) !! (claimKeyPrefix +:+ jd.(JobID)) = Some e →
  wp0 (processDue cfg d now) (λ alive m', alive = true ∧ keys m'.(srv) = keys m.(srv) ∧ m'.(loc) = m.(loc)) m.
Proof.
  intros Hj Hv Hc. unfold processDue. rewrite Hj, Hv. unfold ClaimJob.
  wp0_next H1. rewrite Hc in H1. destruct H1 as (-> & Hk & _). cbn. by rewrite Hk.
Qed.

Lemma reschedule_keeps jd now m k :
  k ≠ SchedulerSetKey →
  wp0 (reschedule jd now) (λ _ m', keys m'.(srv) !! k = keys m.(srv) !! k) m.
Proof.
  intros Hk. unfold reschedule. destruct (Interval jd <=? 0); [done|].
  destruct (valid_before _ _); [done|]. apply wp0_bind. unfold AddRescheduledJob.
  destruct (marshal_stored _) as [p|]; [|done]. wp0_next H1.
  destruct (as_zset _ _); destruct H1 as (-> & Hk1 & _); cbn; rewrite Hk1; [|done].
  by rewrite lookup_put_zset_ne.
Qed.

(** The claim an execution takes is never given back and lives for 30 s, so a
    job that repeats within that time is passed over by every instance, at
    every turn, until the claim has run out. *)
Theorem interval_blocked cfg d jd now m z :
  d.(Job).(s_JobData) = Some jd →
  valid_before jd (λ vu, vu <? of_UnixMilli now) = false →
  keys m.(srv) !! (claimKeyPrefix +:+ jd.(JobID)) = None →
  as_zset (keys m.(srv)) SchedulerSetKey = Some z → is_Some (z !! d.(RawMember)) →
  wp0 (processDue cfg d now) (λ _ m', ∀ (delay : N) cfg' d' jd' now',
    Z.of_N delay < 30000 → d'.(Job).(s_JobData) = Some jd' → jd'.(JobID) = jd.(JobID) →
    valid_before jd' (λ vu, vu <? of_UnixMilli now') = false →
    wp0 (processDue cfg' d' now') (λ alive m2, alive = true ∧
      keys m2.(srv) = keys (pass delay m').(srv) ∧ m2.(loc) = m'.(loc)) (pass delay m')) m.
Proof.
  intros Hj Hv Hc Hz Hin. unfold processDue at 1. rewrite Hj, Hv. unfold ClaimJob.
  set (ck := claimKeyPrefix +:+ jd.(JobID)) in *.
  assert (∀ m', keys m'.(srv) !! ck = Some (Entry (RStr cfg.(InstanceID)) (Some 30000)) →
    ∀ (delay : N) cfg' d' jd' now',
    Z.of_N delay < 30000 → d'.(Job).(s_JobData) = Some jd' → jd'.(JobID) = jd.(JobID) →
    valid_before jd' (λ vu, vu <? of_UnixMilli now') = false →
    wp0 (processDue cfg' d' now') (λ alive m2, alive = true ∧
      keys m2.(srv) = keys (pass delay m').(srv) ∧ m2.(loc) = m'.(loc)) (pass delay m')) as Hblocked.
  { intros m' Hm' delay cfg' d' jd' now' Hd Hj' Hid Hv'. unfold ck in Hm'. rewrite <- Hid in Hm'.
    refine (claimed_passed_over cfg' d' jd' now' (pass delay m')
      (Entry (RStr cfg.(InstanceID)) (Some (30000 - Z.of_N delay))) Hj' Hv' _).
    unfold pass. cbn [srv]. rewrite law_elapse_keys. unfold age. rewrite lookup_omap, Hm'. cbn.
    unfold age_entry. cbn. by rewrite (proj2 (Z.leb_gt _ _)) by lia. }
  wp0_next H1. rewrite Hc in H1. destruct H1 as (-> & Hk & _). cbn [wrap_err].
  assert (as_zset (keys s) SchedulerSetKey = Some z) as Hz'.
  { rewrite Hk, <- Hz. apply as_zset_ext. by rewrite lookup_insert_ne. }
  unfold RemoveJobMember. wp0_next H2. cbn [srv] in *. rewrite Hz' in H2. destruct H2 as (-> & Hk2 & _).
  assert (keys s0 !! ck = Some (Entry (RStr cfg.(InstanceID)) (Some 30000))) as Hck.
  { rewrite Hk2, lookup_put_zset_ne by done. rewrite Hk. by rewrite lookup_insert_eq. }
  cbn [wrap_err wp0]. rewrite bool_decide_true by done. change (0 <? Zcount true) with true. cbv iota.
  apply wp0_bind. apply wp0_local_only; [apply local_executeJob|].
  intros [r|] m' Hs _; cbn [wp0]; [|apply Hblocked; by rewrite Hs].
  apply wp0_bind. eapply wp0_mono; [by apply (reschedule_keeps _ _ _ ck)|].
  intros u m'' Hm''. cbn [wp0]. apply Hblocked. by rewrite Hm'', Hs.
Qed.
End runs.
