(* ===== verification/SchedLoop.v ===== *)
(** * The scheduler loop and its wake-up channel (internal/scheduler/scheduler.go, [Run])

    The loop of one instance as a state machine: its turns are the events of
    [Scheduler.Run_turn], each with whatever fault, and between any two of
    them other instances and the clients change the job store, time passes,
    [Wake] is called and the context ends. *)

From S2P Require Import Prelude GoStrings Redis RedisModel Prog Time Json Judge Jobs SchedStore Scheduler.
Local Open Scope Z_scope.

Section loop.
Context `{RedisServer Srv} `{!RedisLaws Srv} {L : Type} `{!HttpWorld L} `{!TimeErrors}.
Context (cfg : Config L).
Implicit Types (m : mem Srv L).

(** Where the goroutine is: in a turn; having computed how long to wait; in
    [waitForWakeOrTimer] or [sleepCtx], since an instant and for a time; back
    from [Run]; dead with its process. *)
Inductive phase : Type :=
| Turning (p : prog L next)
| Deciding (ms : Z)
| Waiting (since ms : Z)
| Backing (since ms : Z)
| Returned
| Dead.

(** [looked] is history: the clock as the loop last read it. *)
Record sched : Type := Sched {
  store : mem Srv L;
  ph : phase;
  wakeCh : bool;
  cancelled : bool;
  looked : Z;
}.

Definition at_phase (p : phase) (s : sched) : sched := Sched s.(store) p s.(wakeCh) s.(cancelled) s.(looked).

(** [Wake]: the channel holds one token; when it is full nothing is added. *)
Definition Wake (s : sched) : sched := Sched s.(store) s.(ph) true s.(cancelled) s.(looked).

Definition is_now {R} (e : event L R) : bool := match e with Now => true | _ => false end.

(** The next event of the turn, and what [Run] does with its outcome. *)
Definition turn_step (f : fault) (p : prog L next) (s : sched) : sched :=
  match p with
  | Ret (Sleep ms) => at_phase (Deciding ms) s
  | Ret (Backoff ms) => at_phase (Backing s.(store).(clock) ms) s
  | Ret Again => at_phase (Turning (Run_turn cfg)) s
  | Ret Crashed => at_phase Dead s
  | Do e _ =>
      let '(p', m') := prog_step f p s.(store) in
      Sched m' (Turning p') s.(wakeCh) s.(cancelled) (if is_now e then s.(store).(clock) else s.(looked))
  end.

Inductive sevent : Type :=
| ETurn (f : fault)
| EArm                             (** the timer is created *)
| EToken                           (** [case <-wake] *)
| ETimer                           (** [case <-t.C] *)
| EDone                            (** [case <-ctx.Done()] *)
| EWake
| ECancel
| EPass (d : N)
| EOthers (g : Srv → L → Srv * L).

Definition again_ (s : sched) : phase := Turning (Run_turn cfg).

Definition sched_step (e : sevent) (s : sched) : sched :=
  match e with
  | ETurn f => match s.(ph) with Turning p => turn_step f p s | _ => s end
  | EArm => match s.(ph) with Deciding ms => at_phase (Waiting s.(store).(clock) ms) s | _ => s end
  | EToken =>
      match s.(ph) with
      | Waiting _ _ => if s.(wakeCh) then Sched s.(store) (again_ s) false s.(cancelled) s.(looked) else s
      | _ => s
      end
  | ETimer =>
      match s.(ph) with
      | Waiting t ms | Backing t ms => if t + ms <=? s.(store).(clock) then at_phase (again_ s) s else s
      | _ => s
      end
  | EDone =>
      match s.(ph) with
      | Waiting _ _ | Backing _ _ => if s.(cancelled) then at_phase Returned s else s
      | _ => s
      end
  | EWake => Wake s
  | ECancel => Sched s.(store) s.(ph) s.(wakeCh) true s.(looked)
  | EPass d => Sched (pass d s.(store)) s.(ph) s.(wakeCh) s.(cancelled) s.(looked)
  | EOthers g =>
      let '(srv, l) := g s.(store).(srv) s.(store).(loc) in
      Sched (Mem srv l s.(store).(clock)) s.(ph) s.(wakeCh) s.(cancelled) s.(looked)
  end.

(** The states along a run, the first one included. *)
Fixpoint states (l : list sevent) (s : sched) : list sched :=
  s :: match l with [] => [] | e :: l => states l (sched_step e s) end.

Definition sched_run (l : list sevent) (s : sched) : sched := foldl (λ s e, sched_step e s) s l.

(** ** What a turn knows after it has looked at the store *)

Section entry.
Context (raw : string) (due : Z).

(** The entry is in the job set, due at [due]. *)
Definition pending_at m : Prop := ∃ z, as_zset (keys m.(srv)) SchedulerSetKey = Some z ∧ z !! raw = Some due.

Inductive leaves (P : next → Prop) : prog L next → Prop :=
| leaves_ret r : P r → leaves P (Ret r)
| leaves_do R (e : event L R) k : (∀ r, leaves P (k r)) → leaves P (Do e k).

Lemma leaves_bind {A} P (p : prog L A) k : (∀ a, leaves P (k a)) → leaves P (bind p k).
Proof. intros Hk. induction p as [a|R e k' IH]; cbn; [apply Hk|]. constructor. apply IH. Qed.

Definition comes_back (r : next) : Prop := match r with Sleep _ => False | _ => True end.

(** The rest of a turn that read the earliest due time. *)
Definition after_count (nextMs : Z) : Z → prog L next := λ now,
  if 0 <? nextMs - now then Ret (Sleep (Z.min (nextMs - now) max_duration))
  else bind (tick cfg) (λ alive : bool, Ret (if alive then Again else Crashed)).

(** A turn at its start, or one that will not sleep beyond [due], given when
    it last read the clock. *)
Inductive aware (t : Z) : prog L next → Prop :=
| aware_start : aware t (Run_turn cfg)
| aware_count nextMs : nextMs ≤ due → aware t (Do (Redis (ZCARD SchedulerSetKey)) (λ _, Do Now (after_count nextMs)))
| aware_now nextMs : nextMs ≤ due → aware t (Do Now (after_count nextMs))
| aware_sleep ms : t + ms ≤ due → aware t (Ret (Sleep ms))
| aware_back p : leaves comes_back p → aware t p.

Lemma int64_of_float_le sc sc' : min_int64 ≤ sc' → sc ≤ sc' → int64_of_float sc ≤ sc'.
Proof. unfold int64_of_float. intros. destruct (_ && _); lia. Qed.

Lemma aware_look nextMs t : nextMs ≤ due → aware t (after_count nextMs t).
Proof.
  intros Hn. unfold after_count. destruct (0 <? nextMs - t); [apply aware_sleep; lia|].
  apply aware_back, leaves_bind. by intros []; constructor.
Qed.

Definition looks (p : prog L next) : bool := match p with Do e _ => is_now e | Ret _ => false end.

(** What is read from the store while the entry is pending is no later. *)
Lemma first_le f m : min_int64 ≤ due → pending_at m →
  match (event_step f (Redis (L := L) (ZRANGE_FIRST SchedulerSetKey)) m).1 with
  | Ok None => False
  | Ok (Some (_, sc)) => int64_of_float sc ≤ due
  | Err _ => True
  end.
Proof.
  intros Hd (z & Hz & Hraw). cbn. unfold with_srv. pose proof (law_zrange_first SchedulerSetKey m.(srv)) as Hl.
  rewrite Hz in Hl. unfold after in Hl. destruct f; cbn; try done.
  destruct (exec _ (srv m)) as [[[[x sc]|]|e] s']; cbn in *; [|naive_solver|done].
  apply int64_of_float_le; [done|]. by eapply Hl.
Qed.

(** One event of a turn while the entry is pending. *)
Lemma aware_step f (p : prog L next) t m :
  min_int64 ≤ due → pending_at m → aware t p → aware (if looks p then m.(clock) else t) (prog_step f p m).1.
Proof.
  intros Hd Hp [|n Hn|n Hn|ms Hms|q Hq].
  - change (looks (Run_turn cfg)) with false. cbv iota. pose proof (first_le f m Hd Hp) as Hr. unfold Run_turn, NextDueAt, rbind, wrapped, call, act.
    cbn [bind prog_step].
    destruct (event_step f (Redis (ZRANGE_FIRST SchedulerSetKey)) m) as [r m']. cbn [fst] in *.
    destruct (again f _); [apply aware_start|].
    destruct r as [[[x sc]|]|e]; cbn [wrap_err bind]; [by apply aware_count|done|by apply aware_back; constructor].
  - cbn [looks is_now]. cbn [prog_step]. destruct (event_step _ _ _) as [r m']. destruct (again f _); [by apply aware_count|by apply aware_now].
  - cbn. by apply aware_look.
  - by apply aware_sleep.
  - destruct Hq as [r Hr|R e k Hk]; cbn [prog_step]; [by apply aware_back; constructor|].
    destruct (event_step f e m) as [r m']. cbn [fst]. apply aware_back. destruct (again f e); [by constructor|apply Hk].
Qed.

Lemma aware_sleeps t p : aware t p → match p with Ret (Sleep ms) => t + ms ≤ due | _ => True end.
Proof. intros [|n Hn|n Hn|ms Hms|q Hq]; [done..|]. by destruct Hq as [[]|]. Qed.

Definition knows (s : sched) : Prop :=
  match s.(ph) with
  | Turning p => aware s.(looked) p
  | Deciding ms | Waiting _ ms => s.(looked) + ms ≤ due
  | _ => True
  end.

(** The loop has not lost sight of the entry: it is to be woken, or it will
    not sleep beyond it. *)
Definition informed (s : sched) : Prop := s.(wakeCh) = true ∨ knows s.

Lemma wake_kept e s : s.(wakeCh) = true → informed (sched_step e s).
Proof.
  intros Hw. unfold informed, knows. destruct e; cbn [sched_step]; try (by left).
  - destruct (ph s) as [q| | | | |]; try (by left). destruct q as [[]|]; cbn; try (by left).
    destruct (event_step _ _ _). by left.
  - destruct (ph s); by left.
  - destruct (ph s); try (by left). rewrite Hw. right. apply aware_start.
  - destruct (ph s); try (by left); case_match; by left.
  - destruct (ph s); try (by left); case_match; by left.
  - destruct (g _ _). by left.
Qed.

Lemma knows_step e s : min_int64 ≤ due → pending_at s.(store) → knows s → informed (sched_step e s).
Proof.
  intros Hd Hp Hk. right. unfold knows in *. destruct e; cbn [sched_step].
  - destruct (ph s) as [q| | | | |] eqn:E; try by rewrite E. pose proof (aware_step f q _ _ Hd Hp Hk) as Ha.
    pose proof (aware_sleeps _ _ Hk) as Hs. destruct q as [[]|R e k]; cbn [turn_step]; try done; [apply aware_start|].
    cbn [looks] in Ha. by destruct (prog_step f (Do e k) (store s)).
  - by destruct (ph s) eqn:E; cbn; rewrite ?E.
  - destruct (ph s) eqn:E; cbn; rewrite ?E; try done. destruct (wakeCh s); cbn; [apply aware_start|by rewrite E].
  - destruct (ph s) eqn:E; cbn; rewrite ?E; try done; destruct (_ <=? _); cbn; rewrite ?E; try done; apply aware_start.
  - destruct (ph s) eqn:E; cbn; rewrite ?E; try done; destruct (cancelled s); cbn; rewrite ?E; done.
  - done.
  - done.
  - done.
  - by destruct (g _ _).
Qed.

Lemma informed_run l s :
  min_int64 ≤ due → Forall (λ s, pending_at s.(store)) (states l s) → informed s → informed (sched_run l s).
Proof.
  intros Hd. revert s. induction l as [|e l IH]; intros s Hp Hi; [done|]. cbn [states] in Hp. inversion Hp as [|?? Hp1 Hp2]; subst.
  apply IH; [done|]. destruct Hi; [by apply wake_kept|by apply knows_step].
Qed.
End entry.

(** [C9] No wake-up is lost.  Once [Wake] has been called after an entry went into the job set, and for as long as the
    entry stays there, whatever else happens: if the loop is found waiting then its token is there to take, which
    starts a new turn, or its timer starts one when the entry is due, plus the time from looking at the clock to
    arming the timer. *)
Theorem wake_not_lost raw due l s :
  min_int64 ≤ due → Forall (λ s, pending_at raw due s.(store)) (states l (Wake s)) →
  let s' := sched_run l (Wake s) in
  ∀ since ms, s'.(ph) = Waiting since ms →
    (sched_step EToken s').(ph) = Turning (Run_turn cfg) ∨
    ∀ d, due + (since - s'.(looked)) ≤ s'.(store).(clock) + Z.of_N d →
      (sched_step ETimer (sched_step (EPass d) s')).(ph) = Turning (Run_turn cfg).
Proof.
  intros Hd Hp s' since ms Hph. destruct (informed_run raw due l (Wake s) Hd Hp) as [Hw|Hk]; [by left|..].
  - left. cbn [sched_step]. fold s' in Hw. by rewrite Hph, Hw.
  - right. intros d Hlate. unfold knows in Hk. fold s' in Hk. rewrite Hph in Hk. cbn. rewrite Hph.
    by rewrite (proj2 (Z.leb_le _ _)) by lia.
Qed.

(** ** A turn that finds a job due *)

Section key.
Context (k : string) (Hk : k ≠ SchedulerSetKey).

Definition has_key m : Prop := is_Some (keys m.(srv) !! k).

Lemma wp0_keeps {A} (I : mem Srv L → Prop) (p : prog L A) m :
  all_events (λ R e, event_preserves I e) p → I m → wp0 p (λ _, I) m.
Proof.
  intros Hp. revert m. induction Hp as [a|R e k' He _ IH]; intros m HI; cbn; [done|].
  pose proof (He Fine m HI) as H1. destruct (event_step Fine e m). by apply IH.
Qed.

Lemma redis_keeps {R} (c : rcmd R) :
  (∀ s : Srv, is_Some (keys s !! k) → is_Some (keys (exec c s).2 !! k)) → event_preserves has_key (Redis c).
Proof.
  intros Hc f m Hm. unfold has_key in *. cbn. unfold with_srv. destruct f; cbn; try done.
  1: by specialize (Hc _ Hm); destruct (exec c (srv m)).
  all: by apply Hc.
Qed.

Lemma setnx_keeps k' v ttl : event_preserves has_key (Redis (SETNX k' v ttl)).
Proof.
  apply redis_keeps. intros s Hs. pose proof (law_setnx k' v ttl s) as Hl.
  destruct (keys s !! k'); destruct Hl as (_ & -> & _); [done|]. by apply lookup_insert_is_Some'; right.
Qed.

Lemma zrem_keeps x : event_preserves has_key (Redis (ZREM SchedulerSetKey x)).
Proof.
  apply redis_keeps. intros s Hs. pose proof (law_zrem SchedulerSetKey x s) as Hl.
  destruct (as_zset _ _); destruct Hl as (_ & -> & _); [|done]. by rewrite lookup_put_zset_ne.
Qed.

Lemma zadd_keeps sc x : event_preserves has_key (Redis (ZADD SchedulerSetKey sc x)).
Proof.
  apply redis_keeps. intros s Hs. pose proof (law_zadd SchedulerSetKey sc x s) as Hl.
  destruct (as_zset _ _); destruct Hl as (_ & -> & _); [|done]. by rewrite lookup_put_zset_ne.
Qed.

Lemma local_keeps {R} (g : L → R * L) : event_preserves has_key (Local g).
Proof. intros f m Hm. unfold has_key in *. cbn. by destruct (g (loc m)). Qed.

Lemma executeJob_keeps jd : all_events (λ R e, event_preserves has_key e) (executeJob cfg jd).
Proof.
  unfold executeJob. apply all_events_bind.
  - destruct (Guard cfg); [|constructor]. constructor; [apply local_keeps|constructor].
  - intros [u|e]; [|constructor]. generalize (Z.to_nat (maxAttempts jd)) as n. induction n as [|n IH]; [constructor|].
    cbn [attempts]. apply all_events_bind.
    + unfold doRequest. destruct (new_request_error _ _); [constructor|].
      destruct (match Payload jd with RawNil => _ | _ => _ end); [|constructor]. constructor; [apply local_keeps|constructor].
    + intros [[v|e]|]; [constructor| |constructor]. destruct n; [constructor|].
      constructor; [apply local_keeps|]. intros []; [done|constructor].
Qed.

(** What an instance does with the outcome of its claim. *)
Definition after_claim d (jd : JobData) now (claimed : result bool) : prog L bool :=
  match claimed with
  | Ok true => bind (RemoveJobMember d.(RawMember)) (λ removed,
      match removed with
      | Ok true => bind (executeJob cfg jd) (λ r,
          match r with None => Ret false | Some _ => bind (reschedule jd now) (λ _, Ret true) end)
      | _ => Ret true
      end)
  | _ => Ret true
  end.

Lemma after_claim_keeps d jd now r : all_events (λ R e, event_preserves has_key e) (after_claim d jd now r).
Proof.
  destruct r as [[]|]; cbn; try constructor; [apply zrem_keeps|].
  intros [n|]; cbn; [|constructor]. destruct (0 <? n); [|constructor].
  apply all_events_bind; [apply executeJob_keeps|]. intros [r|]; [|constructor].
  apply all_events_bind; [|constructor]. unfold reschedule. destruct (Interval jd <=? 0); [constructor|].
  destruct (valid_before _ _); [constructor|]. apply all_events_bind; [|constructor]. unfold AddRescheduledJob.
  destruct (marshal_stored _); [|constructor]. constructor; [apply zadd_keeps|]. intros []; constructor.
Qed.

Lemma processDue_keeps d now : all_events (λ R e, event_preserves has_key e) (processDue cfg d now).
Proof.
  unfold processDue. destruct (s_JobData (Job d)) as [jd|]; [|constructor; [apply zrem_keeps|intros []; constructor]].
  destruct (valid_before _ _); [constructor; [apply zrem_keeps|intros []; constructor]|].
  apply (all_events_bind _ _ (after_claim d jd now)); [|apply after_claim_keeps].
  constructor; [apply setnx_keeps|constructor].
Qed.

Lemma process_all_keeps due now m : has_key m → wp0 (process_all cfg due now) (λ _, has_key) m.
Proof.
  revert m. induction due as [|d due IH]; intros m Hm; cbn [process_all]; [done|]. apply wp0_bind.
  eapply wp0_mono; [apply wp0_keeps, Hm; apply processDue_keeps|]. intros [] m' Hm'; [by apply IH|done].
Qed.
End key.

Definition claimed (jd : JobData) m : Prop := has_key (claimKeyPrefix +:+ jd.(JobID)) m.

Lemma processDue_claims d jd now m :
  d.(Job).(s_JobData) = Some jd → valid_before jd (λ vu, vu <? of_UnixMilli now) = false →
  wp0 (processDue cfg d now) (λ _, claimed jd) m.
Proof.
  intros Hj Hv. unfold processDue. rewrite Hj, Hv. unfold ClaimJob. wp0_next H1.
  assert (claimed jd (Mem s (loc m) (clock m))) as Hc.
  { unfold claimed, has_key. cbn [srv]. destruct (keys (srv m) !! (claimKeyPrefix +:+ JobID jd)) eqn:E; destruct H1 as (_ & -> & _); [by rewrite E|].
    by rewrite lookup_insert_eq. }
  apply (wp0_keeps _ (after_claim d jd now (wrap_err "setnx job claim: " r))); [by apply after_claim_keeps|done].
Qed.

Lemma wp0_any {A} (p : prog L A) Q m : (∀ a m', Q a m') → wp0 p Q m.
Proof. intros HQ. revert m. induction p as [a|R e k IH]; intros m; cbn; [apply HQ|]. destruct (event_step Fine e m). apply IH. Qed.

Lemma process_all_claims d jd due now m :
  d ∈ due → d.(Job).(s_JobData) = Some jd → valid_before jd (λ vu, vu <? of_UnixMilli now) = false →
  wp0 (process_all cfg due now) (λ alive m', alive = true → claimed jd m') m.
Proof.
  intros Hin Hj Hv. revert m. induction due as [|x due IH]; [by apply elem_of_nil in Hin|]. intros m. cbn [process_all].
  apply wp0_bind. apply elem_of_cons in Hin as [<-|Hin].
  - eapply wp0_mono; [by apply processDue_claims|]. intros [] m' Hc; [|done].
    eapply wp0_mono; [by apply (process_all_keeps (claimKeyPrefix +:+ JobID jd))|]. by intros.
  - apply wp0_any. intros [] m'; [by apply IH|done].
Qed.

(** [C39] A turn on a faultless network does not sleep when it starts with an entry in the job set that is due, not before
    1970, and decodes to a job that is still valid: unless the process dies it goes round, and the job has been
    claimed, by this instance now or by some instance in the last half minute. *)
Theorem due_job_taken raw due stored jd m :
  pending_at raw due m → 0 ≤ due ≤ m.(clock) →
  unmarshal_stored raw = Some stored → stored.(s_JobData) = Some jd →
  valid_before jd (λ vu, vu <? of_UnixMilli m.(clock)) = false →
  wp0 (Run_turn cfg) (λ r m', r = Crashed ∨ (r = Again ∧ claimed jd m')) m.
Proof.
  intros (z & Hz & Hraw) Hdue Hs Hj Hv. unfold Run_turn, NextDueAt. wp0_next H1. rewrite Hz in H1. destruct H1 as (Hk & _ & Hr).
  destruct r as [[[x sc]|]|e]; [|by subst z|done]. cbn [wrap_err wp0 bind act call]. destruct Hr as [_ Hmin]. specialize (Hmin _ _ Hraw).
  unfold JobCount. wp0_next H2. cbn [srv] in H2. rewrite Hk, Hz in H2. destruct H2 as (_ & Hk2 & _). cbn [bind now act wp0 event_step Prog.clock].
  assert (int64_of_float sc ≤ due) by (apply int64_of_float_le; unfold min_int64; lia).
  rewrite (proj2 (Z.ltb_ge _ _)) by lia. apply wp0_bind. unfold tick. apply wp0_bind. cbn [now act wp0 event_step Prog.clock].
  apply wp0_bind. unfold ListDueJobs. wp0_next H3. cbn [srv] in H3. rewrite Hk2, Hz in H3.
  destruct H3 as (l & -> & [Hperm _] & _). cbn [wrap_err wp0].
  eapply wp0_mono; [apply (process_all_claims {| RawMember := raw; Job := stored |} jd); [|done|done]|].
  - unfold due_jobs. apply list_elem_of_omap. exists raw. split; [|by rewrite Hs]. rewrite Hperm. apply list_elem_of_fmap. exists (raw, due). split; [done|].
    apply elem_of_map_to_list, map_lookup_filter_Some. split; [done|cbn; lia].
  - intros [] m' Hm'; cbn; [right; auto|by left].
Qed.
End loop.
