(* ===== verification/SchedWitness.v ===== *)
(** * Concrete runs of the scheduler theorems

    A world that answers 200 to every request and remembers it. *)

From S2P Require Import Prelude GoStrings Redis RedisModel Prog Time Json Judge Jobs SchedStore Scheduler SchedOnce SchedRuns SchedLoop.
Local Open Scope Z_scope.

Abbreviation requests := (list request).

#[local] Instance ok_world : HttpWorld requests := {|
  new_request_error := λ _ _, None;
  client_do := λ r l, (Ok 200, l ++ [r]);
  sleepCtx := λ _ l, (true, l);
  range_headers := map_to_list;
  range_headers_perm := λ h, reflexivity _;
|}.

#[local] Instance ok_count : HttpCount requests.
Proof. refine {| sent := length |}; [|done]. intros req l. cbn. rewrite length_app. cbn. lia. Defined.

#[local] Instance time_errors : TimeErrors := λ s, "parsing time " +:+ s.
#[local] Instance quote_id : GoQuote := {| Quote := id |}.

Definition i1 : Config requests := {| InstanceID := "i1"; Guard := None |}.
Definition i2 : Config requests := {| InstanceID := "i2"; Guard := None |}.

Definition post : JobData := {|
  JobID := "j1"; APIEndpoint := "https://api.example.com/"; Method := "POST"; Headers := {[ "X" := "y" ]};
  Payload := Raw (JNum "1"); RetryPolicy := None; ExecuteAt := "2026-05-01T12:00:00Z"; ValidUntil := "";
  Interval := 10000;
|}.

Definition get_nothing : JobData := {|
  JobID := "j2"; APIEndpoint := "https://api.example.com/"; Method := "GET"; Headers := ∅;
  Payload := RawNil; RetryPolicy := None; ExecuteAt := "2026-05-01T12:00:00Z"; ValidUntil := ""; Interval := 0;
|}.

Definition old : JobData := {|
  JobID := "j3"; APIEndpoint := "https://api.example.com/"; Method := "POST"; Headers := ∅;
  Payload := Raw (JNum "1"); RetryPolicy := None; ExecuteAt := "1969-12-31T23:59:59Z"; ValidUntil := ""; Interval := 0;
|}.

Definition noon : Z := 1777636800000.

Definition text_of (j : JobData) : string := default "" (member j).

Definition empty (clock : Z) : mem server requests := Mem fresh_server [] clock.

(** One pending job. *)
Definition holding (j : JobData) (sc clock : Z) : mem server requests :=
  Mem (Server {[ SchedulerSetKey := Entry (RZSet {[ text_of j := sc ]}) None ]} [] 0) [] clock.

Definition entry_of (j : JobData) : DueJobsResult :=
  {| RawMember := text_of j; Job := {| s_JobID := j.(JobID); s_JobData := Some j |} |}.

Lemma empty_jobs c : jobs_are (empty c) ∅.
Proof.
  exists ∅. split; [done|]. split; [|by intros ??? ?%lookup_empty_Some].
  intros x sc. rewrite lookup_empty. split; [done|]. intros (j & Hj & _). by rewrite lookup_empty in Hj.
Qed.

Lemma as_zset_holding j sc c : as_zset (keys (holding j sc c).(srv)) SchedulerSetKey = Some {[ text_of j := sc ]}.
Proof.
  unfold as_zset. change (keys _) with ({[ SchedulerSetKey := Entry (RZSet {[ text_of j := sc ]}) None ]} : keyspace).
  by rewrite lookup_singleton_eq.
Qed.

Lemma holding_jobs j sc c :
  job_wf j → is_Some (member j) → jobs_are (holding j sc c) {[ j.(JobID) := (j, sc) ]}.
Proof.
  intros Hw [text Ht]. eexists. split; [apply as_zset_holding|].
  pose proof (empty_jobs c) as (z & Hz & Hp). change (Some (∅ : gmap string Z) = Some z) in Hz. simplify_eq.
  unfold text_of. rewrite Ht. apply (pending_insert ∅ ∅ j text sc); done.
Qed.

Lemma no_claim j sc c id : keys (holding j sc c).(srv) !! (claimKeyPrefix +:+ id) = None.
Proof.
  change (keys _) with ({[ SchedulerSetKey := Entry (RZSet {[ text_of j := sc ]}) None ]} : keyspace).
  by rewrite lookup_singleton_ne.
Qed.

Lemma post_wf : job_wf post.
Proof. split; [done|cbn; unfold in_int64, min_int64, max_int64; lia|done]. Qed.
Lemma old_wf : job_wf old.
Proof. split; [done|cbn; unfold in_int64, min_int64, max_int64; lia|done]. Qed.
Lemma post_member : is_Some (member post).
Proof. eexists. vm_compute. reflexivity. Qed.
Lemma old_member : is_Some (member old).
Proof. eexists. vm_compute. reflexivity. Qed.

Lemma AddJob_refines_witness :
  wp0 (AddJob (Some post)) (λ r m', r = Ok () ∧ jobs_are m' {[ "j1" := (post, float64 noon) ]}) (empty 0).
Proof.
  eapply wp0_mono; [apply (AddJob_refines post (empty 0) ∅ (empty_jobs 0) post_wf post_member)|].
  intros r m'. replace (Parse_RFC3339Nano (ExecuteAt post)) with (Some (of_UnixMilli noon)) by (vm_compute; reflexivity).
  exact id.
Defined.

Lemma RemoveJob_refines_witness :
  wp0 (RemoveJob "j1") (λ r m', jobs_are m' ∅ ∧ r = Ok ()) (holding post noon 0).
Proof.
  eapply wp0_mono; [apply (RemoveJob_refines "j1" (holding post noon 0) _ (holding_jobs post noon 0 post_wf post_member))|].
  intros r m'. cbn [JobID post]. by rewrite delete_singleton_eq, lookup_singleton_eq.
Defined.

Lemma ListDueJobs_exact_witness :
  wp0 (ListDueJobs noon) (λ r m', ∃ due, r = Ok due ∧ ∃ d, d ∈ due ∧ d.(RawMember) = text_of post) (holding post noon 0).
Proof.
  eapply wp0_mono; [apply (ListDueJobs_exact noon (holding post noon 0) _ (holding_jobs post noon 0 post_wf post_member))|].
  intros r m' (_ & due & -> & Hin & _). exists due. split; [done|].
  exists {| RawMember := text_of post; Job := {| s_JobID := "j1"; s_JobData := Some (job_stored post) |} |}.
  split; [|done]. apply Hin. exists post, noon. split; [apply lookup_singleton_eq|]. split; [unfold noon; lia|].
  split; [vm_compute; reflexivity|done].
Defined.

Lemma at_most_once_witness :
  (sent (srun [Step 0 Fine; Step 1 Fine; Step 0 Fine; Step 0 Fine; Step 0 Fine; Step 1 Fine]
    ((λ p, processDue p.1 (entry_of post) p.2) <$> [(i1, noon); (i2, noon)], holding post noon noon)).2.(loc)
   ≤ sent (holding post noon noon).(loc) + Z.to_nat (maxAttempts post))%nat.
Proof.
  apply (at_most_once (text_of post) (entry_of post) post [(i1, noon); (i2, noon)]
    [Step 0 Fine; Step 1 Fine; Step 0 Fine; Step 0 Fine; Step 0 Fine; Step 1 Fine] (holding post noon noon)); [done|done|].
  assert (∀ cfg, cfg = i1 ∨ cfg = i2 → guard_quiet cfg ∧ moves_on (text_of post) post noon) as Hok.
  { intros cfg [-> | ->]; (split; [by intros v [=]|]); intros _; vm_compute; discriminate. }
  constructor; [apply Hok; by left|]. constructor; [apply Hok; by right|constructor].
Defined.

Lemma Run_turn_waits_witness :
  wp0 (Run_turn i1) (λ r m', r = Sleep (noon - 5)) (holding post noon 5).
Proof.
  eapply wp0_mono; [apply (Run_turn_waits i1 _ _ (holding_jobs post noon 5 post_wf post_member))|].
  - intros id j sc [_ [= <- <-]]%lookup_singleton_Some. cbn. unfold noon, max_int64. lia.
  - done.
  - intros r m' (_ & _ & [[E _]|(id & j & sc & Hj & _ & ->)]).
    + by apply map_non_empty_singleton in E.
    + by apply lookup_singleton_Some in Hj as [_ [= <- <-]].
Defined.

Lemma pre_epoch_spins_witness :
  wp0 (Run_turn i1) (λ r m', r = Again) (holding old (-1000) noon).
Proof.
  eapply wp0_mono; [apply (pre_epoch_spins i1 _ _ (holding_jobs old (-1000) noon old_wf old_member))|].
  - apply map_non_empty_singleton.
  - intros id j sc [_ [= <- <-]]%lookup_singleton_Some. unfold min_int64. lia.
  - done.
  - by intros r m' (? & _).
Defined.

(** The job passes validation. *)
Lemma no_payload_crashes_witness :
  validateJobData get_nothing = Ok () ∧
  wp0 (processDue i1 (entry_of get_nothing) noon) (λ alive m', alive = false) (holding get_nothing noon noon).
Proof.
  split; [vm_compute; reflexivity|].
  eapply wp0_mono; [apply (no_payload_crashes i1 (entry_of get_nothing) get_nothing noon (holding get_nothing noon noon)
    {[ text_of get_nothing := noon ]})|by intros ?? [? _]].
  - done.
  - done.
  - done.
  - done.
  - done.
  - apply no_claim.
  - apply as_zset_holding.
  - exists noon. apply lookup_singleton_eq.
Defined.

(** A job that repeats every ten seconds, ten seconds later. *)
Lemma interval_blocked_witness :
  wp0 (processDue i1 (entry_of post) noon) (λ _ m',
    wp0 (processDue i2 (entry_of post) (noon + 10000)) (λ alive m2, m2.(loc) = m'.(loc)) (pass 10000 m'))
    (holding post noon noon).
Proof.
  eapply wp0_mono; [apply (interval_blocked i1 (entry_of post) post noon (holding post noon noon) {[ text_of post := noon ]})|].
  - done.
  - done.
  - apply no_claim.
  - apply as_zset_holding.
  - exists noon. apply lookup_singleton_eq.
  - intros u m' Hb. eapply wp0_mono; [apply (Hb 10000%N i2 (entry_of post) post (noon + 10000)); done|].
    by intros ?? (_ & _ & ?).
Defined.

(** The loop found the set empty and waits for an hour; now a job is there. *)
Definition idle_loop : sched (Srv := server) (L := requests) := Sched (holding post noon 5) (Waiting 0 3600000) false false 0.

(** The token, the three events of the turn, its end and the timer. *)
Definition woken : list (sevent (Srv := server) (L := requests)) :=
  [EToken; ETurn Fine; EPass 2; ETurn Resent; ETurn Fine; ETurn Fine; ETurn Fine; EPass 3; EArm].

Lemma pending_bool raw due (m : mem server requests) :
  (if as_zset (keys m.(srv)) SchedulerSetKey is Some z then bool_decide (z !! raw = Some due) else false) = true → pending_at raw due m.
Proof. unfold pending_at. destruct (as_zset _ _) as [z|]; [|done]. intros Hb%bool_decide_eq_true. eauto. Qed.

Lemma idle_pending : Forall (λ s, pending_at (text_of post) noon s.(store)) (states i1 woken (Wake idle_loop)).
Proof.
  unfold woken. cbn [states]. repeat constructor.
  all: apply pending_bool; vm_compute; reflexivity.
Qed.

Lemma wake_not_lost_witness :
  (sched_run i1 woken (Wake idle_loop)).(ph) = Waiting 10 (noon - 7) ∧
  ((sched_step i1 EToken (sched_run i1 woken (Wake idle_loop))).(ph) = Turning (Run_turn i1) ∨
   ∀ d, noon + (10 - 7) ≤ 10 + Z.of_N d →
     (sched_step i1 ETimer (sched_step i1 (EPass d) (sched_run i1 woken (Wake idle_loop)))).(ph) = Turning (Run_turn i1)).
Proof.
  assert ((sched_run i1 woken (Wake idle_loop)).(ph) = Waiting 10 (noon - 7)) as Hph by (vm_compute; reflexivity).
  split; [exact Hph|].
  exact (wake_not_lost i1 (text_of post) noon woken idle_loop ltac:(unfold noon, min_int64; lia) idle_pending 10 (noon - 7) Hph).
Defined.

Lemma due_job_taken_witness :
  wp0 (Run_turn i1) (λ r m', r = Crashed ∨ (r = Again ∧ claimed post m')) (holding post noon (noon + 1)).
Proof.
  apply (due_job_taken i1 (text_of post) noon {| s_JobID := "j1"; s_JobData := Some (job_stored post) |} (job_stored post)).
  - exists {[ text_of post := noon ]}. split; [apply as_zset_holding|apply lookup_singleton_eq].
  - cbn. unfold noon. lia.
  - vm_compute. reflexivity.
  - done.
  - vm_compute. reflexivity.
Defined.

(** ** A lost reply and the client's retry *)

(** The claim, sent again, finds itself taken: the job waits for the claim to
    run out. *)
Lemma resent_claim_lost :
  let '(alive, m) := outcome (processDue i1 (entry_of post) noon) [(0%N, Resent)] (holding post noon noon) in
  alive = true ∧ m.(loc) = [] ∧ in_set (text_of post) m = true ∧
  bool_decide (is_Some (keys m.(srv) !! (claimKeyPrefix +:+ "j1"))) = true.
Proof. vm_compute. split_and!; reflexivity. Qed.

(** The removal, sent again, removes nothing: the job is gone and was not
    executed. *)
Lemma resent_removal_loses_job :
  let '(alive, m) := outcome (processDue i1 (entry_of post) noon) [(0%N, Fine); (0%N, Resent)] (holding post noon noon) in
  alive = true ∧ m.(loc) = [] ∧ in_set (text_of post) m = false.
Proof. vm_compute. split_and!; reflexivity. Qed.

(** A job that was stored but whose caller saw the reply lost is there, and
    [handleScheduleJob] calls [Wake] only after a nil error. *)
Lemma stored_without_wake :
  let '(r, m) := outcome (AddJob (Some post)) [(0%N, Fine); (0%N, LostReply "i/o timeout" true)] (empty 0) in
  (if r is Err _ then true else false) = true ∧ in_set (text_of post) m = true.
Proof. vm_compute. split_and!; reflexivity. Qed.
