(* ===== verification/Retry.v ===== *)
(** * What the retries of the Redis client do to the operations

    internal/redisx/client.go creates its client with [MaxRetries: 3]: a
    command whose reply is lost is sent again, whether it ran or not.  The
    operations made of commands that may be repeated come out the same; the
    counters, the tokens and the streams do not. *)

From S2P Require Import Prelude GoStrings Redis RedisModel Prog Time StreamID Json Judge RateLimit Locks Store Jobs SchedStore.
Local Open Scope Z_scope.
Local Open Scope prog_scope.

(** ** Commands that may be repeated *)

Definition reads {R} (c : rcmd R) : bool :=
  match c with
  | GET _ | SMEMBERS _ | ZRANGE_ALL _ | ZRANGE_FIRST _ | ZRANGEBYSCORE _ _ _ | ZCARD _ | XRANGE _ _ | XRANGE_FIRST _ => true
  | _ => false
  end.

Definition overwrites {R} (c : rcmd R) : bool :=
  match c with
  | SET _ _ _ | DEL _ | SADD _ _ | SREM _ _ | ZADD _ _ _ | ZREM _ _ => true
  | _ => false
  end.

(** Run at once again, a command that only reads answers the same, and one
    that overwrites changes nothing more and fails only if it did before. *)
Class RedisRepeats (Srv : Type) `{RedisServer Srv} : Prop := {
  repeat_read {R} (c : rcmd R) s : reads c = true → exec c (exec c s).2 = exec c s;
  repeat_write {R} (c : rcmd R) s : overwrites c = true →
    (exec c (exec c s).2).2 = (exec c s).2 ∧
    match (exec c s).1, (exec c (exec c s).2).1 with
    | Ok _, Ok _ => True
    | Err e, Err e' => e' = e
    | _, _ => False
    end;
}.

Lemma put_set_again ks k x : put_set (put_set ks k x) k x = put_set ks k x.
Proof.
  unfold put_set. case_decide; [by rewrite delete_delete_eq|]. unfold ttl_of.
  rewrite lookup_insert_eq. by rewrite insert_insert_eq.
Qed.

Lemma put_zset_again ks k z : put_zset (put_zset ks k z) k z = put_zset ks k z.
Proof.
  unfold put_zset. case_decide; [by rewrite delete_delete_eq|]. unfold ttl_of.
  rewrite lookup_insert_eq. by rewrite insert_insert_eq.
Qed.

Lemma with_set_again {R} (s : server) k (f : keyspace → gset string → R) g :
  (∀ x, g (g x) = g x) →
  let go s := with_set s k (λ x, (f (sv_keys s) x, put_set (sv_keys s) k (g x))) in
  (go (go s).2).2 = (go s).2 ∧
  match (go s).1, (go (go s).2).1 with Ok _, Ok _ => True | Err e, Err e' => e' = e | _, _ => False end.
Proof.
  intros Hg. cbv zeta. unfold with_set. destruct (as_set (sv_keys s) k) as [x|] eqn:E; cbn.
  - rewrite as_set_put. cbn. by rewrite Hg, put_set_again.
  - by rewrite E.
Qed.

Lemma with_zset_again {R} (s : server) k (f : keyspace → gmap string Z → R) g :
  (∀ z, g (g z) = g z) →
  let go s := with_zset s k (λ z, (f (sv_keys s) z, put_zset (sv_keys s) k (g z))) in
  (go (go s).2).2 = (go s).2 ∧
  match (go s).1, (go (go s).2).1 with Ok _, Ok _ => True | Err e, Err e' => e' = e | _, _ => False end.
Proof.
  intros Hg. cbv zeta. unfold with_zset. destruct (as_zset (sv_keys s) k) as [z|] eqn:E; cbn.
  - rewrite as_zset_put. cbn. by rewrite Hg, put_zset_again.
  - by rewrite E.
Qed.

#[export] Instance model_repeats : RedisRepeats server.
Proof.
  split; intros R c s Hc; destruct c; try done.
  - cbn. destruct (as_str (sv_keys s) k) eqn:E; cbn; by rewrite E.
  - cbn. unfold with_set. destruct (as_set (sv_keys s) k) eqn:E; cbn; by rewrite E.
  - cbn. unfold with_zset. destruct (as_zset (sv_keys s) k) eqn:E; cbn; by rewrite E.
  - cbn. unfold with_zset. destruct (as_zset (sv_keys s) k) eqn:E; cbn; by rewrite E.
  - cbn. unfold with_zset. destruct (as_zset (sv_keys s) k) eqn:E; cbn; by rewrite E.
  - cbn. unfold with_zset. destruct (as_zset (sv_keys s) k) eqn:E; cbn; by rewrite E.
  - cbn. destruct (as_stream (sv_keys s) k) as [[]|] eqn:E; [destruct (ParseUint start) eqn:E2|]; cbn; by rewrite E, ?E2.
  - cbn. destruct (as_stream (sv_keys s) k) as [[]|] eqn:E; cbn; by rewrite E.
  - cbn. unfold set_keys. cbn. by rewrite insert_insert_eq.
  - cbn. unfold set_keys. cbn. by rewrite delete_delete_eq.
  - apply (with_set_again s k (λ _ x, Zcount (bool_decide (m ∉ x))) (λ x, {[ m ]} ∪ x)). set_solver.
  - apply (with_set_again s k (λ _ x, Zcount (bool_decide (m ∈ x))) (λ x, x ∖ {[ m ]})). set_solver.
  - apply (with_zset_again s k (λ _ z, Zcount (bool_decide (z !! m = None))) (λ z, <[m := score]> z)).
    intros z. apply insert_insert_eq.
  - apply (with_zset_again s k (λ _ z, Zcount (bool_decide (is_Some (z !! m)))) (λ z, delete m z)).
    intros z. apply delete_delete_eq.
Qed.

(** ** Programs that may be resent *)

Section safe.
Context `{RedisServer Srv} `{!RedisRepeats Srv} {L : Type}.
Implicit Types (m : mem Srv L).

(** Every round trip reads, or overwrites and does not look at what the reply
    counts. *)
Inductive resendable {A} : prog L A → Prop :=
| rs_ret a : resendable (Ret a)
| rs_inside R (e : event L R) k : is_remote e = false → (∀ r, resendable (k r)) → resendable (Do e k)
| rs_read R (c : rcmd R) k : reads c = true → (∀ r, resendable (k r)) → resendable (Do (Redis c) k)
| rs_write R (c : rcmd R) k : overwrites c = true → (∀ r r', k (Ok r) = k (Ok r')) → (∀ r, resendable (k r)) →
    resendable (Do (Redis c) k).

Lemma resendable_bind {A B} (p : prog L A) (k : A → prog L B) :
  resendable p → (∀ a, resendable (k a)) → resendable (bind p k).
Proof.
  intros Hp Hk. induction Hp as [a|R e k' He _ IH|R c k' Hc _ IH|R c k' Hc Hr _ IH]; cbn; [done|..].
  - by apply rs_inside.
  - by apply rs_read.
  - apply rs_write; [done| |done]. intros r r'. by rewrite (Hr r r').
Qed.

Lemma resendable_step {A} f (p : prog L A) m :
  resendable p → f = Fine ∨ f = Resent →
  resendable (prog_step f p m).1 ∧ outcome (prog_step f p m).1 [] (prog_step f p m).2 = outcome p [] m.
Proof.
  intros Hp Hf. assert (∀ R (e : event L R) k m, outcome (A := A) (Do e k) [] m =
    outcome (k (event_step Fine e m).1) [] (event_step Fine e m).2) as Hdo.
  { intros R e k m1. unfold outcome. cbn [run attempts]. destruct (event_step Fine e m1) as [r m']. by destruct (is_remote e). }
  destruct Hp as [a|R e k He Hk|R c k Hc Hk|R c k Hc Hr Hk]; [by split; [apply rs_ret|]|..]; cbn [prog_step].
  - assert (event_step f e m = event_step Fine e m) as -> by by destruct e.
    rewrite Hdo. unfold again. rewrite He. destruct (event_step Fine e m). by split; [apply Hk|].
  - destruct Hf as [-> | ->].
    + rewrite Hdo. destruct (event_step Fine _ m); cbn; split; [apply Hk|done].
    + cbn. unfold with_srv. cbn. split; [by apply rs_read|]. rewrite !Hdo. cbn. unfold with_srv. cbn. by rewrite (repeat_read c m.(srv) Hc).
  - destruct Hf as [-> | ->].
    + rewrite Hdo. destruct (event_step Fine _ m); cbn; split; [apply Hk|done].
    + cbn. unfold with_srv. cbn. split; [by apply rs_write|]. rewrite !Hdo. cbn. unfold with_srv. cbn.
      pose proof (repeat_write c m.(srv) Hc) as [Hs Ho]. destruct (exec c (srv m)) as [r s] eqn:E. cbn in *.
      destruct (exec c s) as [r' s']. cbn in *. subst s'. destruct r, r'; try done; [by rewrite (Hr _ a)|by subst].
Qed.

(** Only losses after which the client tries again. *)
Definition only_resends (s : list sched_item) : Prop := Forall (λ it, it = Step 0 Fine ∨ it = Step 0 Resent) s.

Lemma resendable_run {A} s (p : prog L A) m :
  resendable p → only_resends s →
  ∃ p' m', srun s ([p], m) = ([p'], m') ∧ resendable p' ∧ outcome p' [] m' = outcome p [] m.
Proof.
  intros Hp Hs. revert p m Hp. induction Hs as [|it s Hit _ IH]; intros p m Hp; [by exists p, m|].
  assert (∃ f, it = Step 0 f ∧ (f = Fine ∨ f = Resent)) as (f & -> & Hf) by (destruct Hit; eauto).
  rewrite srun_step. cbn. destruct (resendable_step f p m Hp Hf) as [Hp' Ho].
  destruct (IH (prog_step f p m).1 (prog_step f p m).2 Hp') as (p' & m' & ? & ? & Ho').
  exists p', m'. split; [done|]. split; [done|]. by rewrite Ho'.
Qed.
End safe.

(** ** Operations that may be resent *)

Section operations.
Context `{RedisServer Srv} `{!RedisRepeats Srv} {L : Type} `{!TimeErrors}.
Implicit Types (m : mem Srv L).

Inductive record_keeping : ∀ A, prog L A → Prop :=
| rk_subscribe u t : record_keeping _ (AddTopicSubscription u t)
| rk_unsubscribe u t : record_keeping _ (RemoveTopicSubscription u t)
| rk_subscribers t : record_keeping _ (TopicSubscribers t)
| rk_topics u : record_keeping _ (SubscribedTopics u)
| rk_ack u t i ttl : record_keeping _ (SetAckCursor u t i ttl)
| rk_cursor u t : record_keeping _ (AckCursor u t)
| rk_renew t k u ttl : record_keeping _ (RenewLock t k u ttl)
| rk_locked t k u : record_keeping _ (IsTopicLockedByOther t k u)
| rk_locks u : record_keeping _ (LockedTopics u)
| rk_add_job j : record_keeping _ (AddJob j)
| rk_remove_job i : record_keeping _ (RemoveJob i)
| rk_due n : record_keeping _ (ListDueJobs n)
| rk_next : record_keeping _ NextDueAt
| rk_count : record_keeping _ JobCount
| rk_reschedule j n : record_keeping _ (AddRescheduledJob j n).
Arguments record_keeping {A}.

Lemma resendable_wrapped {A} pfx (p : prog L (result A)) : resendable p → resendable (wrapped pfx p).
Proof. intros Hp. apply resendable_bind; [done|]. intros; apply rs_ret. Qed.

Lemma resendable_get key : resendable (L := L) (get key).
Proof. apply rs_read; [done|]. intros [v|e]; cbn; apply rs_ret. Qed.

Lemma resendable_rbind {A B} (p : prog L (result A)) (k : A → prog L (result B)) :
  resendable p → (∀ a, resendable (k a)) → resendable (rbind p k).
Proof. intros Hp Hk. apply resendable_bind; [done|]. intros [a|e]; [done|apply rs_ret]. Qed.

(** The usual [if err := ...; err != nil] around a write whose reply is not
    used. *)
Lemma resendable_then {R B} (c : rcmd R) pfx (p : prog L (result B)) :
  overwrites c = true → resendable p → resendable (rbind (wrapped pfx (call c)) (λ _, p)).
Proof. intros Hc Hp. apply rs_write; [done|done|]. intros [r|e]; cbn; [done|apply rs_ret]. Qed.

Lemma record_keeping_resendable {A} (p : prog L A) : record_keeping p → resendable p.
Proof.
  intros [].
  - apply resendable_then; [done|]. apply resendable_then; [done|]. apply rs_ret.
  - apply resendable_then; [done|]. apply resendable_then; [done|]. apply rs_ret.
  - apply rs_read; [done|]. intros; apply rs_ret.
  - apply rs_read; [done|]. intros; apply rs_ret.
  - apply resendable_bind; [apply resendable_get|]. intros r. cbv zeta.
    assert (∀ cur, resendable (L := L) (if bool_decide (cur ≠ "") && negb (StreamIDLess cur i) then Ret (Ok ())
      else wrapped "set ack cursor: " (call (SET (ackCursorKey u t) i ttl)) ;? Ret (Ok ()))) as Hgo.
    { intros cur. destruct (_ && _); [apply rs_ret|]. apply resendable_then; [done|apply rs_ret]. }
    destruct r as [v|e]; [apply Hgo|]. destruct (decide _); [apply Hgo|apply rs_ret].
  - apply resendable_bind; [apply resendable_get|]. intros [v|e]; [apply rs_ret|]. destruct (decide _); apply rs_ret.
  - apply resendable_bind; [apply resendable_get|]. intros [v|e]; [|destruct (errors_Is _ _); apply rs_ret].
    destruct (decide _); [|apply rs_ret]. apply resendable_then; [done|apply rs_ret].
  - apply resendable_bind; [apply resendable_get|]. intros [v|e]; [apply rs_ret|]. destruct (errors_Is _ _); apply rs_ret.
  - apply rs_read; [done|]. intros; apply rs_ret.
  - unfold AddJob. destruct j as [j|]; [|apply rs_ret]. destruct (decide _); [apply rs_ret|].
    destruct (ParseExecuteAt _); [|apply rs_ret]. apply resendable_rbind.
    + apply resendable_rbind; [apply resendable_wrapped, rs_read; [done|intros; apply rs_ret]|]. intros; apply rs_ret.
    + intros []; [apply rs_ret|]. destruct (marshal_stored _); [|apply rs_ret].
      apply rs_write; [done|done|]. intros [|]; apply rs_ret.
  - apply resendable_rbind; [apply resendable_wrapped, rs_read; [done|intros; apply rs_ret]|].
    intros l. destruct (find_job _ _); [|apply rs_ret]. apply resendable_then; [done|apply rs_ret].
  - apply resendable_rbind; [apply resendable_wrapped, rs_read; [done|intros; apply rs_ret]|]. intros; apply rs_ret.
  - apply resendable_rbind; [apply resendable_wrapped, rs_read; [done|intros; apply rs_ret]|]. intros; apply rs_ret.
  - apply rs_read; [done|]. intros; apply rs_ret.
  - unfold AddRescheduledJob. destruct (marshal_stored _); [|apply rs_ret]. apply rs_write; [done|done|]. intros [|]; apply rs_ret.
Qed.

(** [C22] Retries do not show: an operation that keeps records (subscriptions, cursors, lock renewal, the queue of jobs)
    and gets its answer leaves the same state and returns the same, however many of its commands ran, lost their
    reply and were sent again. *)
Theorem retries_invisible {A} (p : prog L A) s a m m' :
  record_keeping p → only_resends s → srun s ([p], m) = ([Ret a], m') → outcome p [] m = (a, m').
Proof.
  intros Hp Hs Hrun. destruct (resendable_run s p m) as (p' & m1 & E & _ & Ho); [by apply record_keeping_resendable|done|].
  rewrite Hrun in E. injection E as <- <-. by rewrite <- Ho.
Qed.
End operations.

(** ** Concrete runs *)

#[local] Instance plain_time : TimeErrors := λ s, "parsing time " +:+ s.

Definition fresh_mem : mem server Z := Mem fresh_server 0 0.

(** The schedule of a client that loses the reply of its first command and
    sends it again. *)
Definition first_resent : list (N * fault) := [(0%N, Resent)].

Lemma retries_invisible_witness :
  outcome (AddTopicSubscription "ann" "news") [] fresh_mem =
    (Ok (), (srun [Step 0 Resent; Step 0 Fine; Step 0 Resent; Step 0 Resent; Step 0 Fine] ([AddTopicSubscription "ann" "news"], fresh_mem)).2).
Proof.
  apply (retries_invisible (AddTopicSubscription "ann" "news") [Step 0 Resent; Step 0 Fine; Step 0 Resent; Step 0 Resent; Step 0 Fine]
    (Ok ()) fresh_mem).
  - constructor.
  - repeat constructor; (by left) || (by right).
  - vm_compute. reflexivity.
Defined.

(** A first connection counted twice: the user is not listed as connected, and
    closing it leaves a count that nothing ever takes down. *)
Lemma connection_counted_twice :
  let '(r, m) := outcome (AddConnection "ann") first_resent fresh_mem in
  let '(r', m') := outcome (RemoveConnection "ann") [] m in
  r = Ok () ∧ as_set (keys m.(srv)) activeKey = Some ∅ ∧ r' = Ok () ∧ as_str (keys m'.(srv)) (countKey "ann") = Some (Some "1").
Proof. vm_compute. split_and!; reflexivity. Qed.

(** One of two sockets goes, and the user is taken for gone. *)
Lemma connection_uncounted_twice :
  let m := (outcome (AddConnection "ann") [] (outcome (AddConnection "ann") [] fresh_mem).2).2 in
  let '(r, m') := outcome (RemoveConnection "ann") first_resent m in
  r = Ok () ∧ as_str (keys m.(srv)) (countKey "ann") = Some (Some "2") ∧
  as_str (keys m'.(srv)) (countKey "ann") = Some None ∧ as_set (keys m'.(srv)) activeKey = Some ∅.
Proof. vm_compute. split_and!; reflexivity. Qed.

(** A lock that was taken twice over is reported as taken but not indexed, so
    releasing the user's locks leaves it. *)
Lemma lock_not_indexed :
  let '(r, m) := outcome (LockTopic "news" LockPublish "ann" 1000) first_resent fresh_mem in
  let '(r', m') := outcome (ReleaseUserLocks "ann") [] m in
  r = Ok () ∧ as_set (keys m.(srv)) (lockedTopicsKey "ann") = Some ∅ ∧ r' = Ok () ∧
  as_str (keys m'.(srv)) (lockKey "news" LockPublish) = Some (Some "ann").
Proof. vm_compute. split_and!; reflexivity. Qed.

(** An unlock whose script ran twice leaves the topic in the index. *)
Lemma unlock_stays_indexed :
  let m := (outcome (LockTopic "news" LockPublish "ann" 1000) [] fresh_mem).2 in
  let '(r, m') := outcome (UnlockTopic "news" LockPublish "ann") first_resent m in
  r = Ok () ∧ as_str (keys m'.(srv)) (lockKey "news" LockPublish) = Some None ∧
  as_set (keys m'.(srv)) (lockedTopicsKey "ann") = Some {[ "news" ]}.
Proof. vm_compute. split_and!; reflexivity. Qed.

(** The only request a limit allows, sent again, is refused. *)
Lemma request_counted_and_refused :
  (outcome (Allow "msg" "ann" {| Window := second; MaxRequests := 1 |}) first_resent fresh_mem).1 = Ok false.
Proof. vm_compute. reflexivity. Qed.
