(* ===== verification/WsFanout.v ===== *)
(** * The fan-out measurement (cmd/wsfanout/main.go)

    A tool that runs several instances against one Redis, gives each a slice
    of the topics and one of them none, publishes round-robin and compares the
    messages each instance handled with those it had subscribers for.
    Sockets, histograms and the printing of times are the world outside. *)

From S2P Require Import Prelude GoStrings Utf8 Net Authz Auth Config.
Local Open Scope Z_scope.

(** ** The plan of a run *)

Record instance : Type := { name : string; topics : list string }.

(** [%03d] of an index. *)
Definition pad3 (s : string) : string :=
  match String.length s with 0%nat => "000" | 1%nat => "00" +:+ s | 2%nat => "0" +:+ s | _ => s end.

Definition topic_name (i : nat) : string := "topic-" +:+ pad3 (FormatUint (Z.of_nat i)).

Definition topicNames (nTopics : nat) : list string := topic_name <$> seq 0 nTopics.

(** [topicNames[lo:hi]]. *)
Definition slice (l : list string) (lo hi : nat) : list string := take (hi - lo) (drop lo l).

Definition working (n nTopics : nat) : list instance :=
  let perInstance := (nTopics / n)%nat in
  (λ i : nat, let lo := (i * perInstance)%nat in
    let hi := if decide (i = (n - 1)%nat) then nTopics else (lo + perInstance)%nat in
    {| name := "inst-" +:+ FormatUint (Z.of_nat i); topics := slice (topicNames nTopics) lo hi |}) <$> seq 0 n.

(** The guards of [run] and the instances it starts, the idle one last. *)
Definition plan (n nTopics : Z) : result (list instance) :=
  if n <? 1 then Err (errors_New "-instances must be at least 1")
  else if nTopics <? n
  then Err (errors_New ("-topics (" +:+ FormatInt nTopics +:+ ") must be at least -instances (" +:+ FormatInt n +:+ ")"))
  else Ok (working (Z.to_nat n) (Z.to_nat nTopics) ++ [{| name := "idle"; topics := [] |}]).

(** The options [startInstance] gives [wsserver.New], with the zero value of
    every field it leaves out. *)
Definition instance_options {Ext} (no_ext : Ext) (name redisAddr : string) : Options Auth.Claims Ext := {|
  ListenAddr := ":0"; o_RedisAddrs := [redisAddr]; o_InstanceID := name; MessagesPerSec := 1000000;
  o_MaxConsecutiveDrops := -1; o_MaxBufferedBytes := Z.shiftl 64 20;
  o_Ext := no_ext; o_MetricsAddr := ""; o_RedisPassword := ""; o_RedisMasterName := ""; JWTSecret := ""; JWTAudience := "";
  JWTIssuer := ""; o_PresenceTopic := ""; o_Authorizer := None; o_LogLevel := ""; o_EnableCompression := false;
  o_AllowedOrigins := []; o_TLSCertPath := ""; o_TLSKeyPath := ""; IdleTimeout := 0; o_MaxPayloadBytes := 0;
  o_StreamMaxLength := 0; o_StreamTTL := 0; o_AckCursorTTL := 0; JobsPerMin := 0; o_SchedulerAllowedHosts := [];
  o_ReadinessTimeout := 0; o_ShutdownTimeout := 0 |}.

(** The user names of the subscribers [run] connects to an instance, with the
    topic of each. *)
Definition subscriber_keys (subsPer : Z) (i : instance) : list (string * string) :=
  topic ← i.(topics);
  (λ s, (i.(name) +:+ "-" +:+ topic +:+ "-" +:+ FormatUint (Z.of_nat s), topic)) <$> seq 0 (Z.to_nat subsPer).

(** The topics of the publish loop, in order. *)
Definition published (nTopics : nat) (nMessages : Z) : list string :=
  (λ i, default "" (topicNames nTopics !! (i mod nTopics)%nat)) <$> seq 0 (Z.to_nat nMessages).

(** ** The report *)

Fixpoint digit_prefix (s : string) : string :=
  match s with
  | String c s' => if is_digit c then String c (digit_prefix s') else ""
  | EmptyString => ""
  end.

(** [fmt.Sscanf(s, "topic-%d", &idx)], which leaves 0 on an error. *)
Definition scan_index (s : string) : Z :=
  match CutPrefix s "topic-" with
  | Some r =>
      let '(neg, r) := split_sign r in
      match ParseInt ((if neg then "-" else "") +:+ digit_prefix r) with (v, true) => v | _ => 0 end
  | None => 0
  end.

Definition messagesForTopic (topic : string) (nTopics nMessages : Z) : Z :=
  let idx := scan_index topic in
  let full := Z.quot nMessages nTopics in
  if idx <? Z.rem nMessages nTopics then full + 1 else full.

Definition uint64_sub (a b : Z) : Z := (a - b) mod 2 ^ 64.

Record row : Type := { r_name : string; r_topics : nat; handled : Z; relevant : Z }.

Section report.
Context (base now : string → Z) (nTopics nMessages : Z).

Definition row_of (i : instance) : row := {|
  r_name := i.(name); r_topics := length i.(topics);
  handled := uint64_sub (now i.(name)) (base i.(name));
  relevant := foldl (λ acc t, acc + messagesForTopic t nTopics nMessages) 0 i.(topics);
|}.

Record totals : Type := { totalHandled : Z; totalRelevant : Z; discarded : Z; idleHandled : Z }.

Definition report (insts : list instance) : totals :=
  let rows := row_of <$> insts in
  let h := foldl (λ acc r, (acc + r.(handled)) mod 2 ^ 64) 0 rows in
  let rel := foldl (λ acc r, acc + r.(relevant)) 0 rows in
  {| totalHandled := h; totalRelevant := rel; discarded := uint64_sub h rel;
     idleHandled := foldl (λ acc r, if decide (r.(r_name) = "idle") then r.(handled) else acc) 0 rows |}.
End report.

(** [readRedisStats]: output bytes and commands of the text of [INFO stats]. *)
Definition scan_uint (s : string) : Z := match ParseUint (digit_prefix s) with NumOk n => n | _ => 0 end.

Definition redisStats : Type := (Z * Z).

Definition stat_line (s : redisStats) (line : string) : redisStats :=
  match CutByte (TrimSpace line) ":" with
  | Some (key, value) =>
      if decide (key = "total_net_output_bytes") then (scan_uint value, s.2)
      else if decide (key = "total_commands_processed") then (s.1, scan_uint value)
      else s
  | None => s
  end.

Definition readRedisStats (info : result string) : redisStats :=
  match info with Err _ => (0, 0) | Ok info => foldl stat_line (0, 0) (SplitByte (Ascii.ascii_of_nat 10) info) end.

(** [humanBytes]: the unit and what one of it is; [%.2f] does the rest. *)
Definition human_unit (n : Z) : Z * string :=
  if 2 ^ 30 <=? n then (2 ^ 30, "GiB") else if 2 ^ 20 <=? n then (2 ^ 20, "MiB")
  else if 2 ^ 10 <=? n then (2 ^ 10, "KiB") else (1, "B").

Example stats_of_info :
  readRedisStats (Ok ("# Stats" +:+ String (Ascii.ascii_of_nat 13) (String (Ascii.ascii_of_nat 10)
    ("total_commands_processed:42" +:+ String (Ascii.ascii_of_nat 13) (String (Ascii.ascii_of_nat 10) "total_net_output_bytes:1001"))))) = (1001, 42).
Proof. vm_compute. reflexivity. Qed.

(** ** Names and indices *)

Lemma digit_prefix_all s : all_digits s = true → digit_prefix s = s.
Proof. induction s as [|c s IH]; cbn; [done|]. destruct (is_digit c); [|done]. intros Hs. by rewrite IH. Qed.

Lemma pad3_digits s : all_digits s = true → all_digits (pad3 s) = true.
Proof. intros Hs. unfold pad3. by destruct (String.length s) as [|[|[|]]]. Qed.

Lemma ParseUint_zero s : s ≠ "" → ParseUint (String "0" s) = ParseUint s.
Proof. intros Hs. unfold ParseUint. by rewrite !decide_False. Qed.

Lemma ParseUint_pad3 s : s ≠ "" → ParseUint (pad3 s) = ParseUint s.
Proof.
  intros Hs. unfold pad3. destruct (String.length s) as [|[|[|]]] eqn:E; [by destruct s|..|done].
  - change (ParseUint (String "0" (String "0" s)) = ParseUint s). by rewrite !ParseUint_zero.
  - change (ParseUint (String "0" s) = ParseUint s). by rewrite ParseUint_zero.
Qed.

Lemma scan_topic_name i : Z.of_nat i ≤ max_int64 → scan_index (topic_name i) = Z.of_nat i.
Proof.
  intros Hi. unfold scan_index, topic_name. rewrite CutPrefix_app.
  pose proof (pad3_digits _ (FormatUint_digits (Z.of_nat i))) as Hd. rewrite split_sign_digits by done.
  change ("" +:+ digit_prefix (pad3 (FormatUint (Z.of_nat i)))) with (digit_prefix (pad3 (FormatUint (Z.of_nat i)))).
  rewrite digit_prefix_all by done. unfold ParseInt. rewrite split_sign_digits by done.
  rewrite ParseUint_pad3 by apply FormatUint_nonempty. rewrite ParseUint_FormatUint by (unfold max_int64, max_uint64 in *; lia).
  by rewrite (proj2 (Z.ltb_ge _ _)).
Qed.

Lemma topicNames_nodup T : Z.of_nat T ≤ max_int64 → NoDup (topicNames T).
Proof.
  intros HT. apply NoDup_fmap_2_strong; [|apply NoDup_seq]. intros i j Hi%elem_of_seq Hj%elem_of_seq Heq.
  apply (f_equal scan_index) in Heq. rewrite !scan_topic_name in Heq by lia. lia.
Qed.

Lemma topicNames_lookup T i : (i < T)%nat → topicNames T !! i = Some (topic_name i).
Proof. intros Hi. unfold topicNames. rewrite list_lookup_fmap, lookup_seq_lt by done. done. Qed.

(** ** Counting *)

Definition times (t : string) (l : list string) : nat := length (filter (λ x, x = t) l).

Lemma times_cons t x l : times t (x :: l) = ((if decide (x = t) then 1 else 0) + times t l)%nat.
Proof. unfold times. rewrite filter_cons. by destruct (decide (x = t)). Qed.

Lemma times_app t l l' : times t (l ++ l') = (times t l + times t l')%nat.
Proof. unfold times. by rewrite filter_app, length_app. Qed.

(** Lists that are made of some names, each occurrence counted once. *)
Lemma times_total names l : NoDup names → (∀ x, x ∈ l → x ∈ names) → sum_list ((λ t, times t l) <$> names) = length l.
Proof.
  intros Hnd. induction l as [|x l IH]; intros Hin; [clear; by induction names|].
  assert (∀ names, NoDup names → sum_list ((λ t, times t (x :: l)) <$> names) =
    ((if decide (x ∈ names) then 1 else 0) + sum_list ((λ t, times t l) <$> names))%nat) as Hx.
  { clear. induction 1 as [|t names Ht Hnd IH]; [done|]. rewrite !fmap_cons. cbn [sum_list foldr]. fold sum_list.
    change (sum_list (?a :: ?b)) with (a + sum_list b)%nat. rewrite IH, times_cons. unfold id.
    destruct (decide (x = t)) as [->|Hne].
    - rewrite decide_False by done. rewrite decide_True by by left. lia.
    - destruct (decide (x ∈ names)); [rewrite decide_True by by right|rewrite decide_False by (intros [?|?]%elem_of_cons; done)]; lia. }
  rewrite Hx by done. rewrite decide_True by (apply Hin; by left). rewrite IH by (intros; apply Hin; by right). done.
Qed.

Lemma published_S T m : published T (Z.of_nat (S m)) = published T (Z.of_nat m) ++ [default "" (topicNames T !! (m mod T)%nat)].
Proof. unfold published. rewrite !Nat2Z.id, seq_S, fmap_app. done. Qed.

(** How far round-robin has come with topic [j] after [m] messages. *)
Definition share (T m j : nat) : nat := (m / T + if decide (j < m mod T) then 1 else 0)%nat.

Lemma share_S T m j : (0 < T)%nat → (j < T)%nat →
  share T (S m) j = (share T m j + if decide ((m mod T)%nat = j) then 1 else 0)%nat.
Proof.
  intros HT Hj. unfold share. pose proof (Nat.div_mod_eq m T) as Hm. pose proof (Nat.mod_upper_bound m T ltac:(lia)) as Hr.
  destruct (decide (S (m mod T) < T)%nat) as [Hlt|Hge].
  - rewrite <- (Nat.div_unique (S m) T (m / T) (S (m mod T))) by lia.
    rewrite <- (Nat.mod_unique (S m) T (m / T) (S (m mod T))) by lia. repeat case_decide; lia.
  - rewrite <- (Nat.div_unique (S m) T (S (m / T)) 0) by lia.
    rewrite <- (Nat.mod_unique (S m) T (S (m / T)) 0) by lia. repeat case_decide; lia.
Qed.

Lemma times_published T m j : (j < T)%nat → Z.of_nat T ≤ max_int64 →
  times (topic_name j) (published T (Z.of_nat m)) = share T m j.
Proof.
  intros Hj HT. induction m as [|m IH].
  { unfold share. rewrite Nat.Div0.div_0_l, Nat.Div0.mod_0_l. by rewrite decide_False by lia. }
  rewrite published_S, times_app, IH, share_S by lia. f_equal.
  pose proof (Nat.mod_upper_bound m T ltac:(lia)). rewrite topicNames_lookup by done. cbn [default].
  rewrite times_cons. change (times _ []) with 0%nat. rewrite Nat.add_0_r.
  destruct (decide (m mod T = j)%nat) as [->|Hne]; [by rewrite decide_True|]. rewrite decide_False; [done|].
  unfold id. intros E. apply (f_equal scan_index) in E. rewrite !scan_topic_name in E by lia. lia.
Qed.

Lemma messagesForTopic_share T m j : (j < T)%nat → Z.of_nat T ≤ max_int64 →
  messagesForTopic (topic_name j) (Z.of_nat T) (Z.of_nat m) = Z.of_nat (share T m j).
Proof.
  intros Hj HT. unfold messagesForTopic, share. rewrite scan_topic_name by lia.
  rewrite Z.quot_div_nonneg, Z.rem_mod_nonneg by lia. rewrite <- Nat2Z.inj_div, <- Nat2Z.inj_mod.
  destruct (Z.ltb_spec (Z.of_nat j) (Z.of_nat (m mod T))); case_decide; lia.
Qed.

(** ** The partition *)

Lemma slice_app (l : list string) a b : (a ≤ b)%nat → (b ≤ length l)%nat → take a l ++ slice l a b = take b l.
Proof.
  intros Hab Hb. unfold slice. rewrite <- (take_drop a (take b l)). f_equal.
  - rewrite take_take. f_equal. lia.
  - by rewrite skipn_firstn_comm.
Qed.

Lemma working_prefix n T k : (0 < n)%nat → (n ≤ T)%nat → (k < n)%nat →
  mjoin (topics <$> take k (working n T)) = take (k * (T / n)) (topicNames T).
Proof.
  intros Hn HT. pose proof (Nat.div_mod_eq T n) as Hd. induction k as [|k IH]; intros Hk; [done|].
  assert ((working n T) !! k = Some {| name := "inst-" +:+ FormatUint (Z.of_nat k); topics := slice (topicNames T) (k * (T / n)) (k * (T / n) + T / n) |}) as Hl.
  { unfold working. rewrite list_lookup_fmap, lookup_seq_lt by lia. cbn. by rewrite decide_False by lia. }
  rewrite (take_S_r _ _ _ Hl), fmap_app, join_app, IH by lia. cbn. rewrite app_nil_r. rewrite slice_app; [f_equal; lia|lia|].
  unfold topicNames. rewrite length_fmap, length_seq. nia.
Qed.

Lemma working_join n T : (0 < n)%nat → (n ≤ T)%nat → mjoin (topics <$> working n T) = topicNames T.
Proof.
  intros Hn HT. pose proof (Nat.div_mod_eq T n) as Hd.
  assert ((working n T) !! (n - 1)%nat = Some {| name := "inst-" +:+ FormatUint (Z.of_nat (n - 1)); topics := slice (topicNames T) ((n - 1) * (T / n)) T |}) as Hl.
  { unfold working. rewrite list_lookup_fmap, lookup_seq_lt by lia. cbn. by rewrite decide_True by lia. }
  assert (working n T = take (S (n - 1)) (working n T)) as ->.
  { rewrite firstn_all2; [done|]. unfold working. rewrite length_fmap, length_seq. lia. }
  rewrite (take_S_r _ _ _ Hl), fmap_app, join_app, working_prefix by lia. cbn. rewrite app_nil_r.
  assert (length (topicNames T) = T) as HL by (unfold topicNames; by rewrite length_fmap, length_seq).
  rewrite slice_app by nia. rewrite firstn_all2; [done|lia].
Qed.

(** ** The totals *)

Lemma foldl_add {A} (f : A → Z) l a : foldl (λ acc x, acc + f x) a l = a + foldl (λ acc x, acc + f x) 0 l.
Proof. revert a. induction l as [|x l IH]; intros a; cbn [foldl]; [lia|]. rewrite (IH (a + f x)), (IH (0 + f x)). lia. Qed.

Lemma relevant_join base now T M insts :
  foldl (λ acc r, acc + r.(relevant)) 0 (row_of base now T M <$> insts) =
  foldl (λ acc t, acc + messagesForTopic t T M) 0 (mjoin (topics <$> insts)).
Proof.
  induction insts as [|i insts IH]; [done|]. rewrite fmap_cons. cbn [foldl mjoin list_join fmap list_fmap].
  rewrite foldl_add, IH. change (mjoin (?a :: ?l)) with (a ++ mjoin l). rewrite foldl_app, (foldl_add _ (mjoin _) (foldl _ _ _)). cbn [relevant row_of]. by rewrite Z.add_0_l.
Qed.

Lemma foldl_of_nat {A} (f : A → Z) (g : A → nat) l : (∀ x, x ∈ l → f x = Z.of_nat (g x)) →
  foldl (λ acc x, acc + f x) 0 l = Z.of_nat (sum_list (g <$> l)).
Proof.
  induction l as [|x l IH]; intros Hl; [done|]. cbn [foldl]. rewrite foldl_add, IH by (intros; apply Hl; by right).
  rewrite Hl by by left. rewrite fmap_cons. cbn. lia.
Qed.

Lemma handled_total (f : row → Z) rows M a : (∀ r, r ∈ rows → f r = M) → 0 ≤ M → 0 ≤ a →
  a + Z.of_nat (length rows) * M < 2 ^ 64 →
  foldl (λ acc r, (acc + f r) mod 2 ^ 64) a rows = a + Z.of_nat (length rows) * M.
Proof.
  revert a. induction rows as [|r rows IH]; intros a Hr HM Ha Hlt; [cbn; lia|]. cbn [foldl length] in *.
  rewrite (Hr r) by by left. rewrite Z.mod_small by nia. rewrite IH; [lia|by intros; apply Hr; right|done|lia|lia].
Qed.

Definition idle : instance := {| name := "idle"; topics := [] |}.

Lemma plan_Ok n nTopics insts : plan n nTopics = Ok insts →
  1 ≤ n ≤ nTopics ∧ insts = working (Z.to_nat n) (Z.to_nat nTopics) ++ [idle].
Proof.
  unfold plan. destruct (Z.ltb_spec n 1) as [?|?]; [done|]. destruct (Z.ltb_spec nTopics n) as [?|?]; [done|].
  intros [= <-]. split; [lia|done].
Qed.

Lemma plan_topics n T : (0 < n)%nat → (n ≤ T)%nat → mjoin (topics <$> working n T ++ [idle]) = topicNames T.
Proof. intros Hn HT. rewrite fmap_app, join_app, working_join by done. apply app_nil_r. Qed.

Lemma messagesForTopic_times T m t : Z.of_nat T ≤ max_int64 → 0 ≤ m → t ∈ topicNames T →
  messagesForTopic t (Z.of_nat T) m = Z.of_nat (times t (published T m)).
Proof.
  intros HT Hm Ht. apply list_elem_of_fmap in Ht as (j & -> & Hj%elem_of_seq).
  rewrite <- (Z2Nat.id m) by done. by rewrite messagesForTopic_share, times_published by lia.
Qed.

Lemma useful_total T m : (0 < T)%nat → Z.of_nat T ≤ max_int64 → 0 ≤ m →
  foldl (λ acc t, acc + messagesForTopic t (Z.of_nat T) m) 0 (topicNames T) = m.
Proof.
  intros HT HT' Hm. rewrite (foldl_of_nat _ (λ t, times t (published T m))) by (intros; by apply messagesForTopic_times).
  rewrite times_total; [unfold published; rewrite length_fmap, length_seq; lia|by apply topicNames_nodup|].
  intros x Hx. unfold published in Hx. apply list_elem_of_fmap in Hx as (i & -> & _).
  pose proof (Nat.mod_upper_bound i T ltac:(lia)). rewrite topicNames_lookup by done. cbn. unfold id.
  apply list_elem_of_fmap. exists (i mod T)%nat. split; [done|]. apply elem_of_seq. lia.
Qed.

Lemma length_plan n T : length (working n T ++ [idle]) = S n.
Proof. unfold working. rewrite length_app, length_fmap, length_seq. cbn. lia. Qed.

(** The measurement adds up.  For any sizes the tool accepts, every topic is served by exactly one instance, the
    messages it attributes to a topic are those the publish loop sent to it, so the useful messages of all instances
    are the messages published; and when every instance has handled every message, all but one handling of each is
    reported as discarded, and all of the idle instance's. *)
Theorem fanout_accounting n nTopics nMessages insts base now :
  plan n nTopics = Ok insts → nTopics ≤ max_int64 → 0 ≤ nMessages → (n + 1) * nMessages < 2 ^ 64 →
  (∀ i, i ∈ insts → uint64_sub (now i.(name)) (base i.(name)) = nMessages) →
  let r := report base now nTopics nMessages insts in
  mjoin (topics <$> insts) = topicNames (Z.to_nat nTopics) ∧ NoDup (topicNames (Z.to_nat nTopics)) ∧
  (∀ t, t ∈ topicNames (Z.to_nat nTopics) →
     messagesForTopic t nTopics nMessages = Z.of_nat (times t (published (Z.to_nat nTopics) nMessages))) ∧
  r.(totalRelevant) = nMessages ∧ r.(totalHandled) = (n + 1) * nMessages ∧
  r.(discarded) = n * nMessages ∧ r.(idleHandled) = nMessages.
Proof.
  intros [Hn ->]%plan_Ok HT HM Hlt. remember (Z.to_nat nTopics) as T eqn:ET.
  assert (nTopics = Z.of_nat T) as -> by lia. intros Hall r. set (insts := working (Z.to_nat n) T ++ [idle]) in *.
  assert (totalRelevant r = nMessages) as Hrel.
  { cbn [r totalRelevant report]. unfold insts. rewrite relevant_join, plan_topics by lia. apply useful_total; lia. }
  assert (totalHandled r = (n + 1) * nMessages) as Hh.
  { cbn [r totalHandled report]. rewrite (handled_total _ _ nMessages); rewrite ?length_fmap; unfold insts; rewrite ?length_plan; try lia.
    intros r0 Hr. apply list_elem_of_fmap in Hr as (i & -> & Hi). by apply Hall. }
  split_and!; [apply plan_topics; lia|apply topicNames_nodup; lia|intros; apply messagesForTopic_times; lia || done|done|done|..].
  - change (discarded r) with (uint64_sub (totalHandled r) (totalRelevant r)). rewrite Hh, Hrel. unfold uint64_sub. rewrite Z.mod_small; nia.
  - cbn [r idleHandled report]. unfold insts. rewrite fmap_app, foldl_app. apply (Hall idle). apply elem_of_app. right. by left.
Qed.

(** ** The setting *)

(** An instance the tool starts does what the measurement needs: it never
    evicts, admits a million messages a second from one connection, takes
    anybody in, and keeps its name as its instance id. *)
Theorem instance_configured {Ext} (no_ext : Ext) name redisAddr fresh : name ≠ "" →
  ∃ c, toConfig (instance_options no_ext name redisAddr) fresh = inr c ∧
    c.(MaxConsecutiveDrops) = 0 ∧ c.(MaxBufferedBytes) = 64 * 1024 * 1024 ∧ c.(RateLimitMessagesPerSec) = 1000000 ∧
    c.(AuthJWTSecret) = "" ∧ c.(AuthzRules) = "" ∧ c.(MetricsAddr) = "" ∧ c.(WebSocketPort) = 0 ∧
    c.(RedisAddrs) = [redisAddr] ∧ c.(InstanceID) = name ∧ c.(StreamMaxLength) = 1000.
Proof.
  intros Hn. unfold toConfig. change (listen_port _) with (inr 0 : opt_error + Z). eexists. split; [reflexivity|].
  cbn [InstanceID o_InstanceID instance_options]. rewrite (bool_decide_eq_false_2 (name = "")) by done. by split_and!.
Qed.

Lemma subscriber_topics k i : (subscriber_keys k i).*2 = i.(topics) ≫= replicate (Z.to_nat k).
Proof.
  unfold subscriber_keys. induction (i.(topics)) as [|t l IH]; [done|]. cbn [mbind list_bind]. rewrite fmap_app, IH. f_equal.
  clear IH. generalize 0%nat. induction (Z.to_nat k) as [|n IHn]; intros j; [done|].
  cbn [seq replicate]. rewrite !fmap_cons. cbn [snd]. f_equal. apply IHn.
Qed.

(** Every topic gets the number of subscribers asked for, on one instance,
    and the idle instance none. *)
Theorem plan_subscribers n nTopics subsPer insts : plan n nTopics = Ok insts →
  (insts ≫= subscriber_keys subsPer).*2 = topicNames (Z.to_nat nTopics) ≫= replicate (Z.to_nat subsPer).
Proof.
  intros [[Hn HT] ->]%plan_Ok. rewrite <- (plan_topics (Z.to_nat n)) by lia.
  induction (working _ _ ++ _) as [|i l IH]; [done|]. cbn. by rewrite fmap_app, IH, bind_app, subscriber_topics.
Qed.

(** ** Concrete runs *)

Lemma fanout_accounting_witness :
  plan 2 5 = Ok (working 2 5 ++ [idle]) ∧
  topics <$> working 2 5 = [["topic-000"; "topic-001"]; ["topic-002"; "topic-003"; "topic-004"]] ∧
  (report (λ _, 3) (λ _, 10) 5 7 (working 2 5 ++ [idle])).(discarded) = 14.
Proof.
  split_and!; [reflexivity|reflexivity|].
  apply (fanout_accounting 2 5 7 (working 2 5 ++ [idle]) (λ _, 3) (λ _, 10)); [reflexivity|done|done|done|done].
Defined.

(** The difference is unsigned: when fewer messages were handled than were
    useful (the run was read too early, or an instance fell behind) the report
    claims some 1.8e19 discarded messages. *)
Lemma discarded_wraps :
  (report (λ _, 0) (λ _, 0) 1 1 (working 1 1 ++ [idle])).(discarded) = 2 ^ 64 - 1.
Proof. vm_compute. reflexivity. Qed.

Lemma instance_configured_witness : ∃ c, toConfig (instance_options () "inst-0" "localhost:6379") "fresh" = inr c ∧
  c.(MaxConsecutiveDrops) = 0 ∧ c.(MaxBufferedBytes) = 64 * 1024 * 1024 ∧ c.(RateLimitMessagesPerSec) = 1000000 ∧
  c.(AuthJWTSecret) = "" ∧ c.(AuthzRules) = "" ∧ c.(MetricsAddr) = "" ∧ c.(WebSocketPort) = 0 ∧
  c.(RedisAddrs) = ["localhost:6379"] ∧ c.(InstanceID) = "inst-0" ∧ c.(StreamMaxLength) = 1000.
Proof. by apply (instance_configured () "inst-0"). Defined.

Definition two_of_three : list instance := working 2 3 ++ [idle].

Lemma plan_subscribers_witness :
  plan 2 3 = Ok two_of_three ∧
  (two_of_three ≫= subscriber_keys 2).*2 = topicNames (Z.to_nat 3) ≫= replicate (Z.to_nat 2).
Proof. split; [reflexivity|]. exact (plan_subscribers 2 3 2 two_of_three eq_refl). Defined.
