(* ===== verification/WsLoad.v ===== *)
(** * The load generator (cmd/wsload/main.go)

    A tool that subscribes connections to a topic, publishes messages stamped
    with the time, and reports latency percentiles and loss from the frames
    that come back.  Dialling, tickers and printing are the world outside. *)

From S2P Require Import Prelude GoStrings Utf8 Json Float Protocol Jobs Auth.
Local Open Scope Z_scope.

(** ** What subscribers and the publisher read *)

(** [received] is atomic, [latencies] is guarded by a mutex. *)
Record res : Type := Res { received : Z; latencies : list Z }.

Definition record (d : Z) (r : res) : res := Res (r.(received) + 1) (r.(latencies) ++ [d]).

(** The struct of [readLoop]: the type and [data.sent]. *)
Record frame : Type := { f_type : string; f_sent : Z }.

Definition data_fields : list (string * setter Z) := [("sent", set_int (λ v _, v))].

Definition frame_fields : list (string * setter frame) :=
  [("type", set_string (λ v f, {| f_type := v; f_sent := f.(f_sent) |}));
   ("data", λ j f, s ← unmarshal_struct data_fields f.(f_sent) j; Some {| f_type := f.(f_type); f_sent := s |})].

(** One frame at a subscriber, at [now] ns. *)
Definition on_frame (now : Z) (raw : string) (r : res) : res :=
  match j ← parse raw; unmarshal_struct frame_fields {| f_type := ""; f_sent := 0 |} j with
  | Some f =>
      if decide (f.(f_type) = "publish") then
        if decide (f.(f_sent) = 0) then r else record (wrap64 (now - f.(f_sent))) r
      else r
  | None => r
  end.

(** The struct of the publisher's reader. *)
Record reply : Type := { y_type : string; y_message : string }.

Definition reply_fields : list (string * setter reply) :=
  [("type", set_string (λ v f, {| y_type := v; y_message := f.(y_message) |}));
   ("message", set_string (λ v f, {| y_type := f.(y_type); y_message := v |}))].

(** The rejections so far and how often each reason was given. *)
Definition rejections : Type := Z * gmap string Z.

Definition on_reply (raw : string) (j : rejections) : rejections :=
  match v ← parse raw; unmarshal_struct reply_fields {| y_type := ""; y_message := "" |} v with
  | Some f =>
      if decide (f.(y_type) = "error")
      then (j.1 + 1, <[f.(y_message) := default 0 (j.2 !! f.(y_message)) + 1]> j.2)
      else j
  | None => j
  end.

(** ** What is published *)

Definition filler (payloadBytes : Z) : string := Nat.iter (Z.to_nat payloadBytes) (String "x"%char) "".

(** The ["data"] of message [i], keys in the order [json.Marshal] writes a
    map. *)
Definition message (i sent payloadBytes : Z) : json :=
  JObj [(key "filler", jstring (filler payloadBytes)); (key "seq", jint i); (key "sent", jint sent)].

(** The messages the loop writes when the context ends before message
    [stopped]. *)
Definition written (messages : Z) (stopped : option Z) : Z :=
  Z.max 0 match stopped with Some k => Z.min messages k | None => messages end.

(** The period of the ticker in ns; [Some None] is the panic of [NewTicker]. *)
Definition ticker (rate : Z) : option (option Z) :=
  if 0 <? rate then Some (let period := Z.quot 1000000000 rate in if 0 <? period then Some period else None) else None.

(** ** Connecting *)

(** The upgrade request of [dial]; the URL has no query of its own. *)
Definition dial_request (token userKey : string) : HTTPRequest := {|
  header := λ k, if bool_decide (k = "Authorization") && negb (bool_decide (token = "")) then "Bearer " +:+ token else "";
  query := λ k, if bool_decide (k = "userKey") then userKey else "" |}.

Inductive connected : Type :=
| SubscriberFailed (i : Z)
| SubscribeFailed (i : Z)
| PublisherFailed
| Ready (subscribers : Z).

Section connecting.
(** Whether the server takes a connection, and the frame that subscribes the
    [i]th. *)
Variable dial_ok : HTTPRequest → bool.
Variable subscribe_ok : Z → bool.

(** The loop of [run] over its subscribers, [n] of them left from [i] on, and
    the publisher after it. *)
Fixpoint connect (token : string) (i : Z) (n : nat) : connected :=
  match n with
  | O => if dial_ok (dial_request token "publisher") then Ready i else PublisherFailed
  | S n' =>
      if dial_ok (dial_request token ("sub-" +:+ FormatInt i)) then
        if subscribe_ok i then connect token (i + 1) n' else SubscribeFailed i
      else SubscriberFailed i
  end.

(** With [subscribers] at most 0 the loop does not run. *)
Definition connect_all (token : string) (subscribers : Z) : connected := connect token 0 (Z.to_nat subscribers).

(** [run] gets to publish exactly when every subscriber and the publisher are
    taken, and then it waits on all of them. *)
Lemma connect_ready token i n k : connect token i n = Ready k ↔
  k = i + Z.of_nat n ∧ dial_ok (dial_request token "publisher") = true ∧
  ∀ j, i ≤ j < i + Z.of_nat n → dial_ok (dial_request token ("sub-" +:+ FormatInt j)) = true ∧ subscribe_ok j = true.
Proof.
  revert i. induction n as [|n IH]; intros i; cbn [connect].
  { destruct (dial_ok _); (split; [|intros (-> & E & _)]); try done; [|f_equal; lia].
    intros [= <-]. split_and!; [lia|done|]. intros j Hj. lia. }
  destruct (dial_ok (dial_request token ("sub-" +:+ FormatInt i))) eqn:D.
  2: { split; [done|]. intros (_ & _ & H). destruct (H i); [lia|congruence]. }
  destruct (subscribe_ok i) eqn:B.
  2: { split; [done|]. intros (_ & _ & H). destruct (H i); [lia|congruence]. }
  rewrite IH. split; intros (-> & Hp & H); (split_and!; [lia|done|]); intros j Hj; [|apply H; lia].
  destruct (decide (j = i)) as [->|]; [done|apply H; lia].
Qed.

(** What the verifier answers for the same token and another user. *)
Lemma token_one_user `{!Lower} ParseWithClaims GetExpirationTime cfg token u v x y : u ≠ "" → v ≠ "" →
  NewJWT ParseWithClaims GetExpirationTime cfg (dial_request token u) = inr x →
  NewJWT ParseWithClaims GetExpirationTime cfg (dial_request token v) = inr y → u = v.
Proof.
  intros Hu Hv. unfold NewJWT. change (extractToken (dial_request token v)) with (extractToken (dial_request token u)).
  destruct (bool_decide (extractToken _ = "")); [done|]. destruct (ParseWithClaims _ _ _) as [claims|]; [|done].
  cbv zeta. set (sub := if bool_decide (string_claim claims "sub" = "") then _ else _). destruct (bool_decide (sub = "")); [done|].
  change (query (dial_request token u) "userKey") with u. change (query (dial_request token v) "userKey") with v.
  rewrite (bool_decide_eq_false_2 (u = "")), (bool_decide_eq_false_2 (v = "")) by done.
  repeat case_bool_decide; naive_solver.
Qed.

(** A server that checks tokens refuses the generator, whatever token it is
    given: each connection claims a user of its own in the query, and one
    token speaks for one user. *)
Theorem token_mode_never_ready `{!Lower} ParseWithClaims GetExpirationTime cfg token subscribers k :
  (∀ r, dial_ok r = true → ∃ x, NewJWT ParseWithClaims GetExpirationTime cfg r = inr (Some x)) → 0 < subscribers →
  connect_all token subscribers ≠ Ready k.
Proof.
  intros Hv Hs Hr. apply connect_ready in Hr as (_ & Hp & Hd). destruct (Hd 0) as [H0 _]; [lia|].
  apply Hv in Hp as [x Hp], H0 as [y H0]. assert ("publisher" = "sub-0") as [=] by by eapply token_one_user.
Qed.
End connecting.

(** ** The report *)

Definition quantiles : list (string * (Z * Z)) :=
  [("p50", (1, 2)); ("p90", (8106479329266893, 2 ^ 53)); ("p99", (4458563631096791, 2 ^ 52));
   ("p999", (8998192055486251, 2 ^ 53)); ("max", (1, 1))].


(** [int(q * float64(n-1))]: the product is rounded to a [float64]. *)
Definition index (q : Z * Z) (n : nat) : Z := float_part (q.1 * (Z.of_nat n - 1)) q.2.

Record summary : Type := { expected : Z; got : Z; lost : Z; percentiles : list (string * option Z) }.

(** [None] for a percentile is an index out of range. *)
Definition report (subscribers accepted : Z) (r : res) : summary :=
  let lat := merge_sort Z.le r.(latencies) in
  let expected := subscribers * accepted in
  {| expected := expected; got := r.(received); lost := expected - r.(received);
     percentiles :=
       if decide (lat = []) then []
       else (λ p : string * (Z * Z), (p.1, lat !! Z.to_nat (index p.2 (length lat)))) <$> quantiles |}.

(** [run] after the connections are closed. *)
Definition finish (subscribers messages : Z) (rejected : rejections) (r : res) : summary :=
  report subscribers (messages - rejected.1) r.

(** ** Reading the server's frames *)

Lemma set_fields_skipped {A} (fields : list (string * setter A)) name v fs a :
  find_field (λ n, bool_decide (n = name)) fields = None →
  find_field (λ n, bool_decide (fold_case n = fold_case name)) fields = None →
  set_fields fields ((key name, v) :: fs) a = set_fields fields fs a.
Proof. intros H1 H2. cbn [set_fields]. by rewrite field_of_key, H1, H2. Qed.

Ltac skip_field := rewrite set_fields_skipped by reflexivity.

Lemma message_wf i sent n : wf (message i sent n) = true.
Proof. unfold message. rewrite wf_obj. cbn [forallb fst snd]. by rewrite !key_ok, wf_jstring, !jint_wf. Qed.

(** What reaches the subscribers of a message. *)
Lemma sent_of_message i sent n : in_int64 sent →
  unmarshal_struct data_fields 0 (html (message i sent n)) = Some sent.
Proof.
  intros Hs. change (html (message i sent n)) with
    (JObj [(key "filler", html (jstring (filler n))); (key "seq", jint i); (key "sent", jint sent)]).
  cbn [unmarshal_struct]. do 2 skip_field. erewrite set_fields_found by reflexivity. by rewrite set_int_jint.
Qed.

Lemma publishFrame_wf topic d sid replay : wf d = true → wf (publishFrame topic d sid replay) = true.
Proof.
  intros Hd. unfold publishFrame. rewrite wf_obj, !fields_wf_app, !omit_wf by (done || apply wf_jstring).
  cbn [forallb fst snd]. by rewrite !key_ok, !wf_jstring, Hd.
Qed.

Lemma on_frame_publish now i sent n topic sid replay r : in_int64 sent → sent ≠ 0 →
  on_frame now (EncodePublish topic (Raw (message i sent n)) sid replay) r = record (wrap64 (now - sent)) r.
Proof.
  intros Hs Hne. unfold on_frame, EncodePublish. cbn [raw_value]. rewrite parse_print by apply publishFrame_wf, html_wf, message_wf.
  cbn [mbind option_bind]. unfold publishFrame. cbn [unmarshal_struct app].
  erewrite set_fields_found by reflexivity. rewrite set_string_jstring. cbn [mbind option_bind]. skip_field.
  erewrite set_fields_found by reflexivity. cbn [f_sent]. rewrite sent_of_message by done. cbn [mbind option_bind f_type].
  assert (∀ f, set_fields frame_fields (omit (bool_decide (sid = "")) "streamId" (jstring sid) ++ omit (negb replay) "replay" (JBool replay)) f = Some f) as Hrest.
  { intros f. unfold omit. destruct (bool_decide _), (negb replay); cbn [app]; repeat skip_field; done. }
  rewrite Hrest. cbn [mbind option_bind f_type f_sent]. rewrite decide_True by done. by rewrite decide_False.
Qed.

(** Replies to the publisher. *)
Lemma on_reply_success typ reqID msg j :
  on_reply (print (successFrame typ reqID msg) "") j =
    if decide (typ = "error") then (j.1 + 1, <[msg := default 0 (j.2 !! msg) + 1]> j.2) else j.
Proof.
  unfold on_reply. rewrite parse_print.
  2: { unfold successFrame. rewrite wf_obj, !fields_wf_app, omit_wf by apply wf_jstring. cbn [forallb fst snd]. by rewrite !key_ok, !wf_jstring. }
  cbn [mbind option_bind]. unfold successFrame. cbn [unmarshal_struct app].
  erewrite set_fields_found by reflexivity. rewrite set_string_jstring. cbn [mbind option_bind].
  unfold omit. destruct (bool_decide (reqID = "")); cbn [app]; try skip_field;
    (erewrite set_fields_found by reflexivity); rewrite set_string_jstring; reflexivity.
Qed.

Lemma foldl_replies (l : list (bool * string * string)) j :
  (foldl (λ j (x : bool * string * string), let '(ok, reqID, msg) := x in
     on_reply (if ok then EncodeSuccess reqID msg else EncodeError reqID msg) j) j l).1 =
  j.1 + Z.of_nat (length (filter (λ x : bool * string * string, x.1.1 = false) l)).
Proof.
  revert j. induction l as [|[[ok reqID] msg] l IH]; intros j; cbn [foldl]; [cbn; lia|]. rewrite IH, filter_cons.
  unfold EncodeSuccess, EncodeError. destruct ok; rewrite on_reply_success; cbn [fst snd]; repeat case_decide; try done; cbn [fst length]; lia.
Qed.

Lemma foldl_frames now0 topic payload (l : list (Z * Z * string)) r :
  (∀ x, x ∈ l → in_int64 x.1.2 ∧ x.1.2 ≠ 0) →
  foldl (λ r (x : Z * Z * string), let '(now, sent, sid) := x in
    on_frame now (EncodePublish topic (Raw (message now0 sent payload)) sid false) r) r l =
  Res (r.(received) + Z.of_nat (length l)) (r.(latencies) ++ ((λ x : Z * Z * string, wrap64 (x.1.1 - x.1.2)) <$> l)).
Proof.
  revert r. induction l as [|[[now sent] sid] l IH]; intros r Hl; cbn [foldl].
  { destruct r. cbn. by rewrite Z.add_0_r, app_nil_r. }
  destruct (Hl (now, sent, sid)) as [Hs Hne]; [by left|]. cbn in Hs, Hne. rewrite on_frame_publish by done.
  rewrite IH by (intros; apply Hl; by right). unfold record. cbn [received latencies length]. rewrite fmap_cons, <- app_assoc. f_equal. lia.
Qed.

(** ** The percentiles *)

Lemma index_range q n : (0 < n)%nat → Z.of_nat n ≤ 2 ^ 53 → 0 ≤ q.1 ≤ q.2 → 0 < q.2 → 0 ≤ index q n ≤ Z.of_nat n - 1.
Proof. intros Hn Hb Hq Hd. unfold index. apply float_part_le; nia. Qed.

Lemma quantiles_ok p : p ∈ quantiles → 0 ≤ p.2.1 ≤ p.2.2 ∧ 0 < p.2.2.
Proof. unfold quantiles. intros Hp. repeat (apply elem_of_cons in Hp as [->|Hp]; [cbn; lia|]). by apply elem_of_nil in Hp. Qed.

Lemma sorted_last (l : list Z) x i v : StronglySorted Z.le l → l !! (length l - 1)%nat = Some x → l !! i = Some v → v ≤ x.
Proof.
  intros Hs. revert i. induction Hs as [|y l Hs IH Hall]; intros i Hx Hv; [done|]. destruct l as [|z l].
  - cbn in Hx. destruct i; cbn in Hv; simplify_eq. done.
  - assert ((z :: l) !! (length l) = Some x) as Hx' by exact Hx. destruct i as [|i].
    + injection Hv as <-. rewrite Forall_forall in Hall. apply Hall. apply list_elem_of_lookup. by exists (length l).
    + apply (IH i); [|exact Hv]. cbn [length]. by rewrite Nat.sub_succ, Nat.sub_0_r.
Qed.

(** Every reply is one or the other. *)
Lemma answered_split (replies : list (bool * string * string)) :
  Z.of_nat (length replies) - Z.of_nat (length (filter (λ x : bool * string * string, x.1.1 = false) replies)) =
  Z.of_nat (length (filter (λ x : bool * string * string, x.1.1 = true) replies)).
Proof.
  induction replies as [|[[[] req] msg] l IH]; [done|..].
  - rewrite filter_cons_False, filter_cons_True by done. cbn [length]. lia.
  - rewrite filter_cons_True, filter_cons_False by done. cbn [length]. lia.
Qed.

(** [C40] What the load generator reports of a run that was not interrupted, whose every message was written and
    answered.  Fed the server's own frames, it counts one rejection per error reply and one latency, receipt minus
    stamp, per delivery; what is expected is one delivery per subscriber of each publish the server took, the loss is
    that less what came; every percentile is one of the latencies, so no index is out of range, and the last is their
    maximum. *)
Theorem report_exact subscribers messages topic i payload (replies : list (bool * string * string)) (frames : list (Z * Z * string)) :
  (∀ x, x ∈ frames → in_int64 x.1.2 ∧ x.1.2 ≠ 0) → frames ≠ [] → Z.of_nat (length frames) ≤ 2 ^ 53 →
  messages = Z.of_nat (length replies) →
  let rejected := foldl (λ j (x : bool * string * string), let '(ok, reqID, msg) := x in
    on_reply (if ok then EncodeSuccess reqID msg else EncodeError reqID msg) j) (0, ∅) replies in
  let r := foldl (λ r (x : Z * Z * string), let '(now, sent, sid) := x in
    on_frame now (EncodePublish topic (Raw (message i sent payload)) sid false) r) (Res 0 []) frames in
  let out := finish subscribers messages rejected r in
  let lat := (λ x : Z * Z * string, wrap64 (x.1.1 - x.1.2)) <$> frames in
  out.(got) = Z.of_nat (length frames) ∧
  rejected.1 = Z.of_nat (length (filter (λ x : bool * string * string, x.1.1 = false) replies)) ∧
  out.(expected) = subscribers * Z.of_nat (length (filter (λ x : bool * string * string, x.1.1 = true) replies)) ∧
  out.(lost) = out.(expected) - out.(got) ∧
  out.(percentiles).*1 = quantiles.*1 ∧
  (∀ name v, (name, v) ∈ out.(percentiles) → ∃ d, v = Some d ∧ d ∈ lat) ∧
  ∃ d, ("max", Some d) ∈ out.(percentiles) ∧ ∀ d', d' ∈ lat → d' ≤ d.
Proof.
  intros Hframes Hne Hlen Hall rejected r out lat.
  assert (r = Res (Z.of_nat (length frames)) lat) as Hr by (unfold r; by rewrite foldl_frames).
  assert (rejected.1 = Z.of_nat (length (filter (λ x : bool * string * string, x.1.1 = false) replies))) as Hrej
    by (unfold rejected; by rewrite foldl_replies).
  assert (length (merge_sort Z.le lat) = length frames) as Hl by (rewrite merge_sort_Permutation; unfold lat; by rewrite length_fmap).
  assert (0 < length frames)%nat by (destruct frames; [done|cbn; lia]).
  assert (out.(percentiles) = (λ p : string * (Z * Z), (p.1, merge_sort Z.le lat !! Z.to_nat (index p.2 (length frames)))) <$> quantiles) as Hp.
  { unfold out, finish, report. rewrite Hr. cbn [latencies percentiles]. rewrite decide_False by (intros E; rewrite E in Hl; cbn in Hl; lia). by rewrite Hl. }
  assert (∀ d, d ∈ merge_sort Z.le lat ↔ d ∈ lat) as Hin by (intros d; by rewrite merge_sort_Permutation).
  split_and!; [by unfold out, finish, report; rewrite Hr|done| |done|by rewrite Hp|..].
  - unfold out, finish, report. cbn [expected]. rewrite Hrej, Hall. f_equal. by rewrite answered_split.
  - intros name v Hv. rewrite Hp in Hv. apply list_elem_of_fmap in Hv as (p & [= -> ->] & Hq%quantiles_ok).
    pose proof (index_range p.2 (length frames) ltac:(lia) Hlen ltac:(lia) ltac:(lia)).
    destruct (lookup_lt_is_Some_2 (merge_sort Z.le lat) (Z.to_nat (index p.2 (length frames)))) as [d Hd]; [lia|].
    exists d. split; [done|]. apply Hin. by eapply list_elem_of_lookup_2.
  - destruct (lookup_lt_is_Some_2 (merge_sort Z.le lat) (length (merge_sort Z.le lat) - 1)) as [d Hd]; [lia|]. exists d. split.
    + rewrite Hp. apply list_elem_of_fmap. exists ("max", (1, 1)). split; [|unfold quantiles; do 4 right; by left].
      cbn [fst snd]. unfold index. cbn [fst snd]. rewrite Z.mul_1_l, float_part_int by lia.
      rewrite <- Hd, Hl. f_equal. f_equal. lia.
    + intros d' Hd'%Hin. apply list_elem_of_lookup in Hd' as [k Hk]. apply (sorted_last (merge_sort Z.le lat) d k); [apply (StronglySorted_merge_sort Z.le)|done|done].
Qed.

(** ** Concrete runs *)

Definition three_frames : list (Z * Z * string) := [(30, 10, "1-0"); (45, 15, "2-0"); (25, 20, "3-0")].
Definition three_replies : list (bool * string * string) := [(true, "", "ok"); (false, "r1", "Rate limit exceeded"); (true, "", "ok")].

Lemma report_exact_witness :
  let rejected := foldl (λ j (x : bool * string * string), let '(ok, reqID, msg) := x in
    on_reply (if ok then EncodeSuccess reqID msg else EncodeError reqID msg) j) (0, ∅) three_replies in
  let r := foldl (λ r (x : Z * Z * string), let '(now, sent, sid) := x in
    on_frame now (EncodePublish "loadtest" (Raw (message 7 sent 2)) sid false) r) (Res 0 []) three_frames in
  (finish 2 3 rejected r).(lost) = 1 ∧ (finish 2 3 rejected r).(percentiles) =
    [("p50", Some 20); ("p90", Some 20); ("p99", Some 20); ("p999", Some 20); ("max", Some 30)].
Proof.
  intros rejected r. split; [|vm_compute; reflexivity].
  destruct (report_exact 2 3 "loadtest" 7 2 three_replies three_frames) as (Hg&_&He&Hl&_).
  - intros x Hx. unfold three_frames in Hx. repeat (apply elem_of_cons in Hx as [->|Hx]; [split; [done|cbn; lia]|]). by apply elem_of_nil in Hx.
  - done.
  - done.
  - done.
  - fold rejected r in Hg, He, Hl. rewrite Hl, Hg, He. reflexivity.
Defined.

(** An interrupted run writes fewer messages and still expects all of them:
    here none of ten messages is written, and ten are lost. *)
Lemma interrupted_counts_as_lost :
  written 10 (Some 0) = 0 ∧ (finish 1 10 (0, ∅) (Res 0 [])).(lost) = 10.
Proof. split; reflexivity. Qed.

(** A rate above 1e9 makes the period of the ticker zero. *)
Lemma fast_rate_panics : ticker 2000000000 = Some None.
Proof. reflexivity. Qed.

(** A server with a secret whose every token speaks for ann: the generator
    never gets past its connections; one without takes them all. *)
#[local] Instance lower_ascii_only : Lower := {| ToLower := lower_ascii; ToLower_ascii _ _ := eq_refl |}.

Definition ann_only (o : parser_opts) (secret tok : string) : option Claims := Some {[ "sub" := JStr (quote "ann") ]}.
Definition takes (v : Verifier) (r : HTTPRequest) : bool := if v r is inr (Some _) then true else false.
Definition with_secret : JWTConfig := {| Secret := "s3cret"; Audience := ""; Issuer := "" |}.

Lemma token_mode_never_ready_witness k :
  connect_all (takes (NewJWT ann_only (λ _, Some None) with_secret)) (λ _, true) "tok" 2 ≠ Ready k.
Proof.
  apply (token_mode_never_ready _ _ ann_only (λ _, Some None) with_secret); [|lia].
  intros r. unfold takes. destruct (NewJWT _ _ _ r) as [|[x|]]; [done|by exists x|done].
Defined.

Example insecure_ready : connect_all (takes NewInsecure) (λ _, true) "" 2 = Ready 2.
Proof. reflexivity. Qed.
